(** * Structural record types, the type walker and the diagnostic sink of pyright

    A shallow embedding of three source files of the repository:
    - [analyzer/typedDicts.ts]: entry resolution, synthesis of the accessor
      methods, assignability, construction and subscript checks and narrowing
      of TypedDict classes;
    - [analyzer/typeWalker.ts]: the recursion-bounded, cancellable walk over
      the parts of a type;
    - [common/diagnostics.ts]: the sink that collects and deduplicates
      diagnostics.

    The first half of the file holds the definitions, one module per source
    file; the second half holds the properties proved about them. *)

From Stdlib Require Import ZArith Lia Ascii.
From stdpp Require Import base option list strings gmap pretty.

Set Warnings "-register-all".

(** ** Insertion-ordered string maps

    The source keeps its tables in JavaScript [Map<string, V>] objects, which
    iterate in insertion order; [set] on a present key overwrites the value
    and keeps the key's position. *)
Module JsMap.
Section JsMap.
Context {V : Type}.

Definition t := list (string * V).

Definition empty : t := [].

Fixpoint get (key : string) (m : t) : option V :=
  match m with
  | [] => None
  | (k, v) :: rest => if String.eqb k key then Some v else get key rest
  end.

Definition has (key : string) (m : t) : bool :=
  match get key m with Some _ => true | None => false end.

Fixpoint set (key : string) (value : V) (m : t) : t :=
  match m with
  | [] => [(key, value)]
  | (k, v) :: rest =>
      if String.eqb k key then (k, value) :: rest else (k, v) :: set key value rest
  end.

Definition size (m : t) : nat := length m.

Definition keys (m : t) : list string := map fst m.

Definition values (m : t) : list V := map snd m.
End JsMap.
Arguments t : clear implicits.
End JsMap.

(** ** The type model

    [analyzer/types.ts], [analyzer/symbol.ts], [analyzer/declaration.ts] and
    [common/diagnostic.ts] are imported by the three files but are not among
    the sources, so the declarations below follow the data model of the
    specification (section 3) and the way the three files use each field.

    A class type is a small object pointing at a [details] object that all
    its clones share; [details] is where the entry cache lives.  The shared
    objects are kept in a [Store] and referred to by index, so that aliasing
    between a cached entry and a copy of it is visible in the model. *)
Module Types.

Definition ClassId := nat.
Definition EntryRef := nat.
Definition ParseNode := nat.

Inductive LiteralValue :=
  | LiteralString (value : string)
  | LiteralNumber (value : Z)
  | LiteralBoolean (value : bool).

Record TypeFlags := { Instantiable : bool; Instance : bool }.

Module TypedDictEntry.
Record t (T : Type) := {
  valueType : T;
  isRequired : bool;
  isReadOnly : bool;
  isProvided : bool;
}.
Arguments valueType {T}.
Arguments isRequired {T}.
Arguments isReadOnly {T}.
Arguments isProvided {T}.
End TypedDictEntry.

Inductive ParameterCategory := Simple | ArgsList | KwargsDict.

Module FunctionParameter.
Record t (T : Type) := {
  category : ParameterCategory;
  name : option string;
  type : T;
  hasDeclaredType : bool;
  hasDefault : bool;
  defaultType : option T;
}.
Arguments category {T}.
Arguments name {T}.
Arguments type {T}.
Arguments hasDeclaredType {T}.
Arguments hasDefault {T}.
Arguments defaultType {T}.
End FunctionParameter.

Inductive FunctionTypeFlags := NoFunctionFlags | ConstructorMethod | Overloaded.

Module FunctionType.
Record t (T : Type) := {
  name : string;
  flags : FunctionTypeFlags;
  parameters : list (FunctionParameter.t T);
  declaredReturnType : option T;
  typeVarScopeId : option string;
}.
Arguments name {T}.
Arguments flags {T}.
Arguments parameters {T}.
Arguments declaredReturnType {T}.
Arguments typeVarScopeId {T}.
End FunctionType.

Module ClassType.
Record t (T : Type) := {
  flags : TypeFlags;
  details : ClassId;
  typeArguments : option (list T);
  isTypeArgumentExplicit : bool;
  tupleTypeArguments : option (list (T * bool));
  literalValue : option LiteralValue;
  typedDictNarrowedEntries : option (JsMap.t (TypedDictEntry.t T));
  isTypedDictPartial : bool;
}.
Arguments flags {T}.
Arguments details {T}.
Arguments typeArguments {T}.
Arguments isTypeArgumentExplicit {T}.
Arguments tupleTypeArguments {T}.
Arguments literalValue {T}.
Arguments typedDictNarrowedEntries {T}.
Arguments isTypedDictPartial {T}.
End ClassType.

(** The eleven categories of the specification's tagged union. *)
Inductive Type_ :=
  | Unbound
  | Unknown
  | Any (isEllipsis : bool)
  | Never
  | Function (f : FunctionType.t Type_)
  | OverloadedFunction (overloads : list (FunctionType.t Type_))
  | Class (c : ClassType.t Type_)
  | Module
  | Union (subtypes : list Type_)
  | TypeVar (name : string) (scopeId : option string)
  | Intersection (subtypes : list Type_).

Abbreviation TypedDictEntry := (TypedDictEntry.t Type_).
Abbreviation FunctionParameter := (FunctionParameter.t Type_).
Abbreviation FunctionType := (FunctionType.t Type_).
Abbreviation ClassType := (ClassType.t Type_).

Inductive DeclarationType :=
  | IntrinsicDeclaration
  | VariableDeclaration
  | ParameterDeclaration
  | FunctionDeclaration
  | ClassDeclaration
  | AliasDeclaration.

Module Declaration.
Record t := {
  type : DeclarationType;
  node : ParseNode;
  typeAnnotationNode : option ParseNode;
}.
End Declaration.

Record SymbolFlags := {
  ClassMember : bool;
  InstanceMember : bool;
  IgnoredForProtocolMatch : bool;
}.

Module Symbol.
Record t := {
  flags : SymbolFlags;
  declarations : list Declaration.t;
  synthesizedType : option Type_;
}.
Definition isIgnoredForProtocolMatch (symbol : t) : bool :=
  IgnoredForProtocolMatch (flags symbol).
Definition getDeclarations (symbol : t) : list Declaration.t := declarations symbol.
Definition createWithType (flags : SymbolFlags) (type : Type_) : t :=
  {| flags := flags; declarations := []; synthesizedType := Some type |}.
End Symbol.

Record ClassTypeFlags := {
  BuiltInClass : bool;
  TypedDictClass : bool;
  CanOmitDictValues : bool;
}.

Module ClassDetails.
Record t := {
  name : string;
  flags : ClassTypeFlags;
  typeParameters : list Type_;
  typeVarScopeId : option string;
  baseClasses : list Type_;
  fields : JsMap.t Symbol.t;
  typedDictEntries : option (JsMap.t EntryRef);
}.
End ClassDetails.

Module TypeVarContext.
Record t := {
  solveForScope : option string;
  typeVarMap : JsMap.t Type_;
}.
Definition new (solveForScope : option string) : t :=
  {| solveForScope := solveForScope; typeVarMap := JsMap.empty |}.
End TypeVarContext.

(** Localized texts are kept as terms: the catalogue entry and the values it
    is formatted with. *)
Inductive LocAddendum :=
  | typedDictFieldMissing (name type : string)
  | typedDictFieldRequired (name type : string)
  | typedDictFieldNotRequired (name type : string)
  | typedDictFieldNotReadOnly (name type : string)
  | typedDictFieldUndefined (name type : string)
  | typedDictFieldTypeMismatch (name type : string)
  | memberTypeMismatch (name : string)
  | keyUndefined (name type : string)
  | keyNotRequired (name type : string)
  | keyReadOnly (name type : string)
  | keyRequiredDeleted (name : string)
  | typeNotStringLiteral (type : string)
  | otherAddendum (text : string).

Inductive LocMessage :=
  | typeArgsMismatchOne (received : nat)
  | typedDictSet
  | typedDictDelete
  | typedDictAccess.

Inductive DiagnosticRule :=
  | reportGeneralTypeIssues
  | reportTypedDictNotRequiredAccess.

(** Modelled from the spec: the diagnostic addendum tree of
    [common/diagnostic.ts], "hierarchical message accumulation
    (createAddendum(), addMessage(), addTextRange(), isEmpty(),
    getString())".  A child made by [createAddendum] is attached to its
    parent when it is made and filled afterwards; the model builds the child
    first and attaches it with [addAddendum], which leaves the same tree. *)
Inductive DiagnosticAddendum := mkDiagnosticAddendum {
  messages : list LocAddendum;
  range : option ParseNode;
  childAddenda : list DiagnosticAddendum;
}.

Module Addendum.
Definition new : DiagnosticAddendum :=
  {| messages := []; range := None; childAddenda := [] |}.
Definition addMessage (message : LocAddendum) (this : DiagnosticAddendum) :=
  {| messages := messages this ++ [message]; range := range this;
     childAddenda := childAddenda this |}.
Definition addTextRange (node : ParseNode) (this : DiagnosticAddendum) :=
  {| messages := messages this; range := Some node;
     childAddenda := childAddenda this |}.
Definition addAddendum (child : DiagnosticAddendum) (this : DiagnosticAddendum) :=
  {| messages := messages this; range := range this;
     childAddenda := childAddenda this ++ [child] |}.
(** What a callee wrote into an addendum it was handed. *)
Definition addAll (written : DiagnosticAddendum) (this : DiagnosticAddendum) :=
  {| messages := messages this ++ messages written;
     range := match range written with Some r => Some r | None => range this end;
     childAddenda := childAddenda this ++ childAddenda written |}.

(** [isEmpty()]: the addendum and the addenda below it hold no message.
    [_getMessageCount] stops counting below a depth of
    [maxRecursionCount]. *)
Definition maxRecursionCount : nat := 64.

Fixpoint getMessageCount (recursionCount : nat) (this : DiagnosticAddendum) : nat :=
  if Nat.ltb maxRecursionCount recursionCount then 0
  else
    match this with
    | mkDiagnosticAddendum messages _ childAddenda =>
        length messages
        + list_sum (map (getMessageCount (S recursionCount)) childAddenda)
    end.

Definition isEmpty (this : DiagnosticAddendum) : bool :=
  Nat.eqb (getMessageCount 0 this) 0.
End Addendum.

(** [TypeResult] and [TypeResultWithNode extends TypeResult]
    ([typeEvaluatorTypes.ts]); an optional boolean that is left out reads as
    [false]. *)
Module TypeResult.
Record t := {
  type : Type_;
  isIncomplete : bool;
  isReadOnly : bool;
  isRequired : bool;
  isNotRequired : bool;
}.
End TypeResult.

Module TypeResultWithNode.
Record t := {
  result : TypeResult.t;
  node : ParseNode;
}.
End TypeResultWithNode.

Coercion TypeResultWithNode.result : TypeResultWithNode.t >-> TypeResult.t.

(** Index expressions ([parser/parseNodes.ts]) and the usage record
    ([typeEvaluatorTypes.ts]) handed to the subscript check. *)
Inductive ArgumentCategory := SimpleArgument | UnpackedList | UnpackedDictionary.

Module Argument.
Record t := {
  name : option ParseNode;
  argumentCategory : ArgumentCategory;
  valueExpression : ParseNode;
}.
End Argument.

Module IndexNode.
Record t := {
  id : ParseNode;
  items : list Argument.t;
  trailingComma : bool;
}.
End IndexNode.

Inductive UsageMethod := get | set | del.

Module EvaluatorUsage.
Record t := {
  method : UsageMethod;
  setType : option TypeResult.t;
  setExpectedTypeDiag : option DiagnosticAddendum;
}.
End EvaluatorUsage.

(** [evaluator.assignType] answers with a boolean and writes into the type
    variable context and the addendum it is given; both effects are returned. *)
Module AssignTypeResult.
Record t := {
  isAssignable : bool;
  typeVarContext : option TypeVarContext.t;
  written : DiagnosticAddendum;
}.
End AssignTypeResult.

Record ReportedDiagnostic := {
  rule : DiagnosticRule;
  message : LocMessage;
  addendum : DiagnosticAddendum;
  errorNode : ParseNode;
}.

(** The operations of the type evaluator that [typedDicts.ts] calls
    (specification, section 6).  [assignType] takes the destination, the
    source, the type variable context, the flags and the recursion count. *)
Record TypeEvaluator := {
  getNoneType : Type_;
  getObjectType : Type_;
  getTupleClassType : option Type_;
  getBuiltInType : ParseNode -> string -> Type_;
  getTypingType : ParseNode -> string -> option Type_;
  getEffectiveTypeOfSymbol : Symbol.t -> Type_;
  getTypeOfExpression : ParseNode -> TypeResult.t;
  getTypeOfExpressionExpectingType : ParseNode -> TypeResult.t;
  printType : Type_ -> string;
  assignType :
    Type_ -> Type_ -> option TypeVarContext.t -> Z -> nat -> AssignTypeResult.t;
}.

(** Constants and helpers imported from [types.ts], [typeUtils.ts],
    [symbolUtils.ts], [parseTreeUtils.ts] and [diagnostic.ts], none of which
    is among the sources: they are parameters of the model. *)
Record TypeUtils := {
  maxTypeRecursionCount : nat;
  EnforceInvariance : Z;
  RetainLiteralsForTypeVar : Z;
  applySolvedTypeVars : Type_ -> TypeVarContext.t -> Type_;
  applySolvedTypeVarsToClass : ClassType -> TypeVarContext.t -> ClassType;
  buildTypeVarContextFromSpecializedClass :
    ClassDetails.t -> ClassType -> TypeVarContext.t;
  partiallySpecializeType : Type_ -> ClassType -> Type_;
  combineTypes : list Type_ -> Type_;
  specializeTupleClass : ClassType -> list (Type_ * bool) -> bool -> ClassType;
  getLastTypedDeclaredForSymbol : Symbol.t -> option Declaration.t;
  getScopeIdForNode : ParseNode -> string;
  isWithinTryBlock : ParseNode -> bool -> bool;
  isEmpty : DiagnosticAddendum -> bool;
}.

(** The objects shared by reference: the [details] of every class, the
    [TypedDictEntry] objects held by the tables, and the diagnostics the
    evaluator was asked to report. *)
Record Store := {
  classDetails : ClassId -> ClassDetails.t;
  entryHeap : EntryRef -> TypedDictEntry;
  nextEntry : EntryRef;
  reported : list ReportedDiagnostic;
}.

End Types.

(** ** [analyzer/typedDicts.ts] *)
Module TypedDicts.
Import Types.

(** *** Predicates and clones of [types.ts] used by the file *)

Definition isClass (type : Type_) : bool :=
  match type with Class _ => true | _ => false end.

Definition isInstantiableClass (type : Type_) : bool :=
  match type with Class c => Instantiable (ClassType.flags c) | _ => false end.

Definition isClassInstance (type : Type_) : bool :=
  match type with Class c => Instance (ClassType.flags c) | _ => false end.

Definition isAnyOrUnknown (type : Type_) : bool :=
  match type with Any _ | Unknown => true | _ => false end.

Definition isLiteralType (type : ClassType) : bool :=
  Instance (ClassType.flags type) &&
  match ClassType.literalValue type with Some _ => true | None => false end.

Definition cloneAsInstance (type : ClassType) : ClassType :=
  {| ClassType.flags := {| Instantiable := false; Instance := true |};
     ClassType.details := ClassType.details type;
     ClassType.typeArguments := ClassType.typeArguments type;
     ClassType.isTypeArgumentExplicit := ClassType.isTypeArgumentExplicit type;
     ClassType.tupleTypeArguments := ClassType.tupleTypeArguments type;
     ClassType.literalValue := ClassType.literalValue type;
     ClassType.typedDictNarrowedEntries := ClassType.typedDictNarrowedEntries type;
     ClassType.isTypedDictPartial := ClassType.isTypedDictPartial type |}.

Definition cloneWithLiteral (type : ClassType) (value : LiteralValue) : ClassType :=
  {| ClassType.flags := ClassType.flags type;
     ClassType.details := ClassType.details type;
     ClassType.typeArguments := ClassType.typeArguments type;
     ClassType.isTypeArgumentExplicit := ClassType.isTypeArgumentExplicit type;
     ClassType.tupleTypeArguments := ClassType.tupleTypeArguments type;
     ClassType.literalValue := Some value;
     ClassType.typedDictNarrowedEntries := ClassType.typedDictNarrowedEntries type;
     ClassType.isTypedDictPartial := ClassType.isTypedDictPartial type |}.

Definition cloneForSpecialization (type : ClassType)
    (typeArguments : option (list Type_)) (isTypeArgumentExplicit : bool) : ClassType :=
  {| ClassType.flags := ClassType.flags type;
     ClassType.details := ClassType.details type;
     ClassType.typeArguments := typeArguments;
     ClassType.isTypeArgumentExplicit := isTypeArgumentExplicit;
     ClassType.tupleTypeArguments := ClassType.tupleTypeArguments type;
     ClassType.literalValue := ClassType.literalValue type;
     ClassType.typedDictNarrowedEntries := ClassType.typedDictNarrowedEntries type;
     ClassType.isTypedDictPartial := ClassType.isTypedDictPartial type |}.

Definition cloneForPartialTypedDict (type : ClassType) : ClassType :=
  {| ClassType.flags := ClassType.flags type;
     ClassType.details := ClassType.details type;
     ClassType.typeArguments := ClassType.typeArguments type;
     ClassType.isTypeArgumentExplicit := ClassType.isTypeArgumentExplicit type;
     ClassType.tupleTypeArguments := ClassType.tupleTypeArguments type;
     ClassType.literalValue := ClassType.literalValue type;
     ClassType.typedDictNarrowedEntries := ClassType.typedDictNarrowedEntries type;
     ClassType.isTypedDictPartial := true |}.

Definition cloneForNarrowedTypedDictEntries (type : ClassType)
    (narrowedEntries : JsMap.t TypedDictEntry) : ClassType :=
  {| ClassType.flags := ClassType.flags type;
     ClassType.details := ClassType.details type;
     ClassType.typeArguments := ClassType.typeArguments type;
     ClassType.isTypeArgumentExplicit := ClassType.isTypeArgumentExplicit type;
     ClassType.tupleTypeArguments := ClassType.tupleTypeArguments type;
     ClassType.literalValue := ClassType.literalValue type;
     ClassType.typedDictNarrowedEntries := Some narrowedEntries;
     ClassType.isTypedDictPartial := ClassType.isTypedDictPartial type |}.

(** *** The store *)

Definition detailsOf (store : Store) (type : ClassType) : ClassDetails.t :=
  classDetails store (ClassType.details type).

Definition isTypedDictClass (store : Store) (type : ClassType) : bool :=
  TypedDictClass (ClassDetails.flags (detailsOf store type)).

Definition isCanOmitDictValues (store : Store) (type : ClassType) : bool :=
  CanOmitDictValues (ClassDetails.flags (detailsOf store type)).

Definition isBuiltIn (store : Store) (type : ClassType) (className : string) : bool :=
  BuiltInClass (ClassDetails.flags (detailsOf store type)) &&
  String.eqb (ClassDetails.name (detailsOf store type)) className.

(** [new TypedDictEntry]: the object gets the next free reference. *)
Definition allocEntry (entry : TypedDictEntry) (store : Store) : EntryRef * Store :=
  (nextEntry store,
   {| classDetails := classDetails store;
      entryHeap := fun r => if Nat.eqb r (nextEntry store) then entry
                            else entryHeap store r;
      nextEntry := S (nextEntry store);
      reported := reported store |}).

(** [entry.isProvided = true] on the object behind a reference. *)
Definition setProvided (ref : EntryRef) (store : Store) : Store :=
  {| classDetails := classDetails store;
     entryHeap := fun r =>
       if Nat.eqb r ref then
         {| TypedDictEntry.valueType := TypedDictEntry.valueType (entryHeap store ref);
            TypedDictEntry.isRequired := TypedDictEntry.isRequired (entryHeap store ref);
            TypedDictEntry.isReadOnly := TypedDictEntry.isReadOnly (entryHeap store ref);
            TypedDictEntry.isProvided := true |}
       else entryHeap store r;
     nextEntry := nextEntry store;
     reported := reported store |}.

Definition updateDetails (id : ClassId) (f : ClassDetails.t -> ClassDetails.t)
    (store : Store) : Store :=
  {| classDetails := fun i => if Nat.eqb i id then f (classDetails store id)
                              else classDetails store i;
     entryHeap := entryHeap store;
     nextEntry := nextEntry store;
     reported := reported store |}.

(** [classType.details.typedDictEntries = entries] *)
Definition setTypedDictEntries (id : ClassId) (entries : JsMap.t EntryRef) :=
  updateDetails id (fun d =>
    {| ClassDetails.name := ClassDetails.name d;
       ClassDetails.flags := ClassDetails.flags d;
       ClassDetails.typeParameters := ClassDetails.typeParameters d;
       ClassDetails.typeVarScopeId := ClassDetails.typeVarScopeId d;
       ClassDetails.baseClasses := ClassDetails.baseClasses d;
       ClassDetails.fields := ClassDetails.fields d;
       ClassDetails.typedDictEntries := Some entries |}).

(** [evaluator.addDiagnostic(rule, message, node)] *)
Definition addDiagnostic (rule : DiagnosticRule) (message : LocMessage)
    (addendum : DiagnosticAddendum) (node : ParseNode) (store : Store) : Store :=
  {| classDetails := classDetails store;
     entryHeap := entryHeap store;
     nextEntry := nextEntry store;
     reported := reported store ++
       [{| rule := rule; message := message; addendum := addendum;
           errorNode := node |}] |}.

(** The entries behind the references of a table. *)
Definition entriesOf (store : Store) (table : JsMap.t EntryRef)
  : JsMap.t TypedDictEntry :=
  map (fun kv => (fst kv, entryHeap store (snd kv))) table.

(** *** The local variables of the three checks, as records *)

Module AssignState.
Record t := {
  typesAreConsistent : bool;
  diag : option DiagnosticAddendum;
  typeVarContext : option TypeVarContext.t;
}.
End AssignState.

Module ConstructState.
Record t := {
  isMatch : bool;
  narrowedEntries : JsMap.t TypedDictEntry;
  typeVarContext : option TypeVarContext.t;
  diagAddendum : option DiagnosticAddendum;
  store : Store;
}.
End ConstructState.

Module IndexState.
Record t := {
  diag : DiagnosticAddendum;
  allDiagsInvolveNotRequiredKeys : bool;
}.
End IndexState.

Section WithUtils.
Context (utils : TypeUtils).

(** *** Required / NotRequired / ReadOnly annotations (lines 1262-1305) *)

Definition isRequiredTypedDictVariable (evaluator : TypeEvaluator)
    (symbol : Symbol.t) : bool :=
  existsb (fun decl =>
    match Declaration.type decl, Declaration.typeAnnotationNode decl with
    | VariableDeclaration, Some typeAnnotationNode =>
        TypeResult.isRequired
          (getTypeOfExpressionExpectingType evaluator typeAnnotationNode)
    | _, _ => false
    end) (Symbol.getDeclarations symbol).

Definition isNotRequiredTypedDictVariable (evaluator : TypeEvaluator)
    (symbol : Symbol.t) : bool :=
  existsb (fun decl =>
    match Declaration.type decl, Declaration.typeAnnotationNode decl with
    | VariableDeclaration, Some typeAnnotationNode =>
        TypeResult.isNotRequired
          (getTypeOfExpressionExpectingType evaluator typeAnnotationNode)
    | _, _ => false
    end) (Symbol.getDeclarations symbol).

Definition isReadOnlyTypedDictVariable (evaluator : TypeEvaluator)
    (symbol : Symbol.t) : bool :=
  existsb (fun decl =>
    match Declaration.type decl, Declaration.typeAnnotationNode decl with
    | VariableDeclaration, Some typeAnnotationNode =>
        TypeResult.isReadOnly
          (getTypeOfExpressionExpectingType evaluator typeAnnotationNode)
    | _, _ => false
    end) (Symbol.getDeclarations symbol).

(** *** Entry resolution (lines 821-877) *)

(** The entry built for one field of [classType] (lines 852-873). *)
Definition entryForField (evaluator : TypeEvaluator) (store : Store)
    (classType : ClassType) (typeVarContext : TypeVarContext.t)
    (symbol : Symbol.t) : TypedDictEntry :=
  let valueType := getEffectiveTypeOfSymbol evaluator symbol in
  let valueType := applySolvedTypeVars utils valueType typeVarContext in
  let isRequired := negb (isCanOmitDictValues store classType) in
  let isReadOnly := false in
  let isRequired :=
    if isRequiredTypedDictVariable evaluator symbol then true
    else if isNotRequiredTypedDictVariable evaluator symbol then false
    else isRequired in
  let isReadOnly :=
    if isReadOnlyTypedDictVariable evaluator symbol then true else isReadOnly in
  {| TypedDictEntry.valueType := valueType;
     TypedDictEntry.isReadOnly := isReadOnly;
     TypedDictEntry.isRequired := isRequired;
     TypedDictEntry.isProvided := false |}.

(** Only variables that are not ignored for protocol matching become
    entries (lines 848-851). *)
Definition isEntryField (symbol : Symbol.t) : bool :=
  negb (Symbol.isIgnoredForProtocolMatch symbol) &&
  match getLastTypedDeclaredForSymbol utils symbol with
  | Some lastDecl =>
      match Declaration.type lastDecl with
      | VariableDeclaration => true
      | _ => false
      end
  | None => false
  end.

(** The loop over the class's own fields (lines 847-876). *)
Definition addOwnEntries (evaluator : TypeEvaluator) (classType : ClassType)
    (keyMap : JsMap.t EntryRef) (store : Store) : JsMap.t EntryRef * Store :=
  let typeVarContext :=
    buildTypeVarContextFromSpecializedClass utils (detailsOf store classType) classType in
  fold_left (fun (acc : JsMap.t EntryRef * Store) (field : string * Symbol.t) =>
      let '(keyMap, store) := acc in
      let '(name, symbol) := field in
      if isEntryField symbol then
        let '(ref, store) :=
          allocEntry (entryForField evaluator store classType typeVarContext symbol)
            store in
        (JsMap.set name ref keyMap, store)
      else (keyMap, store))
    (ClassDetails.fields (detailsOf store classType)) (keyMap, store).

(** The recursion descends one level per call and stops by itself once
    [recursionCount] exceeds [maxTypeRecursionCount]; [levels] is the
    structural argument and is never exhausted when it starts at
    [S maxTypeRecursionCount - recursionCount] (lemma
    [getTypedDictMembersForClassRecursive_levels]).  The assertion of line 827
    (the class is a TypedDict) is not modelled: where the code would throw,
    the model goes on. *)
Fixpoint getTypedDictMembersForClassRecursive (levels : nat)
    (evaluator : TypeEvaluator) (classType : ClassType)
    (keyMap : JsMap.t EntryRef) (recursionCount : nat) (store : Store)
  : JsMap.t EntryRef * Store :=
  if Nat.ltb (maxTypeRecursionCount utils) recursionCount then (keyMap, store)
  else
    match levels with
    | O => (keyMap, store)
    | S levels =>
        let recursionCount := S recursionCount in
        let '(keyMap, store) :=
          fold_left (fun (acc : JsMap.t EntryRef * Store) (baseClassType : Type_) =>
              let '(keyMap, store) := acc in
              match baseClassType with
              | Class baseClass =>
                  if isInstantiableClass baseClassType
                     && isTypedDictClass store baseClass then
                    match partiallySpecializeType utils baseClassType classType with
                    | Class specializedBaseClassType =>
                        getTypedDictMembersForClassRecursive levels evaluator
                          specializedBaseClassType keyMap recursionCount store
                    | _ => (keyMap, store)
                    end
                  else (keyMap, store)
              | _ => (keyMap, store)
              end)
            (ClassDetails.baseClasses (detailsOf store classType)) (keyMap, store) in
        addOwnEntries evaluator classType keyMap store
    end.

(** *** The cached table and its per-call copies (lines 701-744) *)

(** [{ ...value }] with the type variables applied and, for a partial
    class, the entry made optional and read-only (lines 716-729). *)
Definition specializeEntry (classType : ClassType)
    (typeVarContext : TypeVarContext.t) (value : TypedDictEntry) : TypedDictEntry :=
  let valueType :=
    applySolvedTypeVars utils (TypedDictEntry.valueType value) typeVarContext in
  if ClassType.isTypedDictPartial classType then
    if TypedDictEntry.isReadOnly value then
      {| TypedDictEntry.valueType := Never;
         TypedDictEntry.isRequired := false;
         TypedDictEntry.isReadOnly := TypedDictEntry.isReadOnly value;
         TypedDictEntry.isProvided := TypedDictEntry.isProvided value |}
    else
      {| TypedDictEntry.valueType := valueType;
         TypedDictEntry.isRequired := false;
         TypedDictEntry.isReadOnly := true;
         TypedDictEntry.isProvided := TypedDictEntry.isProvided value |}
  else
    {| TypedDictEntry.valueType := valueType;
       TypedDictEntry.isRequired := TypedDictEntry.isRequired value;
       TypedDictEntry.isReadOnly := TypedDictEntry.isReadOnly value;
       TypedDictEntry.isProvided := TypedDictEntry.isProvided value |}.

(** [{ ...value }] of a narrowed entry (lines 737-738). *)
Definition specializeNarrowedEntry (typeVarContext : TypeVarContext.t)
    (value : TypedDictEntry) : TypedDictEntry :=
  {| TypedDictEntry.valueType :=
       applySolvedTypeVars utils (TypedDictEntry.valueType value) typeVarContext;
     TypedDictEntry.isRequired := TypedDictEntry.isRequired value;
     TypedDictEntry.isReadOnly := TypedDictEntry.isReadOnly value;
     TypedDictEntry.isProvided := TypedDictEntry.isProvided value |}.

(** Lines 702-709: fill the cache when it is empty. *)
Definition ensureTypedDictEntries (evaluator : TypeEvaluator)
    (classType : ClassType) (store : Store) : Store :=
  match ClassDetails.typedDictEntries (detailsOf store classType) with
  | Some _ => store
  | None =>
      let '(entries, store) :=
        getTypedDictMembersForClassRecursive (S (maxTypeRecursionCount utils))
          evaluator classType JsMap.empty 0 store in
      setTypedDictEntries (ClassType.details classType) entries store
  end.

(** Lines 714-732: one fresh object per cached entry. *)
Definition copyEntries (classType : ClassType) (typeVarContext : TypeVarContext.t)
    (cached : JsMap.t EntryRef) (store : Store) : JsMap.t EntryRef * Store :=
  fold_left (fun (acc : JsMap.t EntryRef * Store) (kv : string * EntryRef) =>
      let '(entries, store) := acc in
      let '(key, value) := kv in
      let tdEntry := specializeEntry classType typeVarContext (entryHeap store value) in
      let '(ref, store) := allocEntry tdEntry store in
      (JsMap.set key ref entries, store))
    cached (JsMap.empty, store).

(** Lines 735-741: the narrowed entries on top. *)
Definition overlayNarrowed (typeVarContext : TypeVarContext.t)
    (narrowed : JsMap.t TypedDictEntry) (entries : JsMap.t EntryRef) (store : Store)
  : JsMap.t EntryRef * Store :=
  fold_left (fun (acc : JsMap.t EntryRef * Store) (kv : string * TypedDictEntry) =>
      let '(entries, store) := acc in
      let '(key, value) := kv in
      let '(ref, store) :=
        allocEntry (specializeNarrowedEntry typeVarContext value) store in
      (JsMap.set key ref entries, store))
    narrowed (entries, store).

Definition getTypedDictMembersForClass (evaluator : TypeEvaluator)
    (classType : ClassType) (allowNarrowed : bool) (store : Store)
  : JsMap.t EntryRef * Store :=
  let store := ensureTypedDictEntries evaluator classType store in
  let typeVarContext :=
    buildTypeVarContextFromSpecializedClass utils (detailsOf store classType) classType in
  let cached :=
    match ClassDetails.typedDictEntries (detailsOf store classType) with
    | Some cached => cached
    | None => JsMap.empty
    end in
  let '(entries, store) := copyEntries classType typeVarContext cached store in
  match allowNarrowed, ClassType.typedDictNarrowedEntries classType with
  | true, Some narrowed => overlayNarrowed typeVarContext narrowed entries store
  | _, _ => (entries, store)
  end.

(** *** Narrowing on key assignment (lines 1231-1260) *)

Definition narrowForKeyAssignment (store : Store) (classType : ClassType)
    (key : string) : ClassType :=
  match isTypedDictClass store classType,
        ClassDetails.typedDictEntries (detailsOf store classType) with
  | true, Some typedDictEntries =>
      match JsMap.get key typedDictEntries with
      | None => classType
      | Some ref =>
          let tdEntry := entryHeap store ref in
          if TypedDictEntry.isRequired tdEntry then classType
          else
            let narrowedTdEntry :=
              match ClassType.typedDictNarrowedEntries classType with
              | Some narrowed => JsMap.get key narrowed
              | None => None
              end in
            if match narrowedTdEntry with
               | Some e => TypedDictEntry.isProvided e
               | None => false
               end
            then classType
            else
              let narrowedEntries :=
                match ClassType.typedDictNarrowedEntries classType with
                | Some narrowed => narrowed
                | None => JsMap.empty
                end in
              let narrowedEntries :=
                JsMap.set key
                  {| TypedDictEntry.isProvided := true;
                     TypedDictEntry.isRequired := false;
                     TypedDictEntry.isReadOnly := TypedDictEntry.isReadOnly tdEntry;
                     TypedDictEntry.valueType := TypedDictEntry.valueType tdEntry |}
                  narrowedEntries in
              cloneForNarrowedTypedDictEntries classType narrowedEntries
      end
  | _, _ => classType
  end.

(** *** Assignability between two TypedDict classes (lines 879-976) *)

(** The state of the context object after a call that was handed it. *)
Definition contextAfter (before : option TypeVarContext.t)
    (result : AssignTypeResult.t) : option TypeVarContext.t :=
  match before, AssignTypeResult.typeVarContext result with
  | Some _, Some after => Some after
  | _, _ => before
  end.

(** [diag?.createAddendum().addMessage(message)] *)
Definition addChildMessage (message : LocAddendum)
    (diag : option DiagnosticAddendum) : option DiagnosticAddendum :=
  option_map (Addendum.addAddendum (Addendum.addMessage message Addendum.new)) diag.

(** The [subDiag] of a value check: it holds the addendum handed to
    [assignType] and, on failure, the messages added afterwards. *)
Definition valueCheckAddendum (result : AssignTypeResult.t)
    (onFailure : DiagnosticAddendum -> DiagnosticAddendum) : DiagnosticAddendum :=
  let subDiag := Addendum.addAddendum (AssignTypeResult.written result) Addendum.new in
  if AssignTypeResult.isAssignable result then subDiag else onFailure subDiag.

(** The body of [destEntries.forEach] (lines 892-973). *)
Definition assignEntry (evaluator : TypeEvaluator) (store : Store)
    (destType srcType : ClassType) (flags : Z) (recursionCount : nat)
    (srcEntries : JsMap.t EntryRef)
    (state : AssignState.t) (dest : string * EntryRef) : AssignState.t :=
  let '(name, destRef) := dest in
  let destEntry := entryHeap store destRef in
  let typesAreConsistent := AssignState.typesAreConsistent state in
  let diag := AssignState.diag state in
  let typeVarContext := AssignState.typeVarContext state in
  match JsMap.get name srcEntries with
  | None =>
      if TypedDictEntry.isRequired destEntry || negb (TypedDictEntry.isReadOnly destEntry)
      then
        {| AssignState.typesAreConsistent := false;
           AssignState.diag :=
             addChildMessage
               (typedDictFieldMissing name (printType evaluator (Class srcType))) diag;
           AssignState.typeVarContext := typeVarContext |}
      else
        let objType := getObjectType evaluator in
        if isClassInstance objType then
          let result :=
            assignType evaluator (TypedDictEntry.valueType destEntry) objType
              typeVarContext flags recursionCount in
          let subDiag :=
            valueCheckAddendum result (Addendum.addMessage (memberTypeMismatch name)) in
          {| AssignState.typesAreConsistent :=
               if AssignTypeResult.isAssignable result then typesAreConsistent else false;
             AssignState.diag := option_map (Addendum.addAddendum subDiag) diag;
             AssignState.typeVarContext := contextAfter typeVarContext result |}
        else state
  | Some srcRef =>
      let srcEntry := entryHeap store srcRef in
      let requirednessDiffers :=
        negb (Bool.eqb (TypedDictEntry.isRequired destEntry)
                       (TypedDictEntry.isRequired srcEntry))
        && negb (TypedDictEntry.isReadOnly destEntry) in
      let diag :=
        if requirednessDiffers then
          addChildMessage
            (if TypedDictEntry.isRequired destEntry
             then typedDictFieldRequired name (printType evaluator (Class destType))
             else typedDictFieldNotRequired name (printType evaluator (Class destType)))
            diag
        else diag in
      let typesAreConsistent :=
        if requirednessDiffers then false else typesAreConsistent in
      let readOnlyMismatch :=
        negb (TypedDictEntry.isReadOnly destEntry) && TypedDictEntry.isReadOnly srcEntry in
      let diag :=
        if readOnlyMismatch then
          addChildMessage
            (typedDictFieldNotReadOnly name (printType evaluator (Class destType))) diag
        else diag in
      let typesAreConsistent :=
        if readOnlyMismatch then false else typesAreConsistent in
      let adjustedFlags :=
        if negb (TypedDictEntry.isReadOnly destEntry)
        then Z.lor flags (EnforceInvariance utils)
        else flags in
      let result :=
        assignType evaluator (TypedDictEntry.valueType destEntry)
          (TypedDictEntry.valueType srcEntry) typeVarContext adjustedFlags
          recursionCount in
      let subDiag :=
        valueCheckAddendum result (Addendum.addMessage (memberTypeMismatch name)) in
      {| AssignState.typesAreConsistent :=
           if AssignTypeResult.isAssignable result then typesAreConsistent else false;
         AssignState.diag := option_map (Addendum.addAddendum subDiag) diag;
         AssignState.typeVarContext := contextAfter typeVarContext result |}
  end.

Definition assignTypedDictToTypedDict (evaluator : TypeEvaluator)
    (destType srcType : ClassType) (diag : option DiagnosticAddendum)
    (typeVarContext : option TypeVarContext.t) (flags : Z) (recursionCount : nat)
    (store : Store) : AssignState.t * Store :=
  let '(destEntries, store) :=
    getTypedDictMembersForClass evaluator destType false store in
  let '(srcEntries, store) :=
    getTypedDictMembersForClass evaluator srcType true store in
  (fold_left
     (assignEntry evaluator store destType srcType flags recursionCount srcEntries)
     destEntries
     {| AssignState.typesAreConsistent := true;
        AssignState.diag := diag;
        AssignState.typeVarContext := typeVarContext |},
   store).

(** *** Construction from keys and values (lines 984-1108) *)

(** The cast [literalValue as string]. *)
Definition literalAsString (value : LiteralValue) : string :=
  match value with
  | LiteralString s => s
  | LiteralNumber z => pretty z
  | LiteralBoolean true => "true"
  | LiteralBoolean false => "false"
  end.

(** Line 1018: the key is an instance of the built-in [str] with a literal
    value; the result is that value. *)
Definition stringLiteralKey (store : Store) (keyType : Type_) : option string :=
  match keyType with
  | Class keyClass =>
      if isClassInstance keyType && isBuiltIn store keyClass "str"
         && isLiteralType keyClass
      then option_map literalAsString (ClassType.literalValue keyClass)
      else None
  | _ => None
  end.

(** The body of [keyTypes.forEach] (lines 1016-1076).  A value missing at
    [index] is excluded by the assertion of line 993. *)
Definition assignKey (evaluator : TypeEvaluator) (classType : ClassType)
    (valueTypes : list TypeResultWithNode.t) (symbolMap : JsMap.t EntryRef)
    (state : ConstructState.t) (index : nat) (keyTypeResult : TypeResultWithNode.t)
  : ConstructState.t :=
  let store := ConstructState.store state in
  match stringLiteralKey store (TypeResult.type keyTypeResult) with
  | None =>
      {| ConstructState.isMatch := false;
         ConstructState.narrowedEntries := ConstructState.narrowedEntries state;
         ConstructState.typeVarContext := ConstructState.typeVarContext state;
         ConstructState.diagAddendum := ConstructState.diagAddendum state;
         ConstructState.store := store |}
  | Some keyValue =>
      match JsMap.get keyValue symbolMap with
      | None =>
          let subDiag :=
            Addendum.addTextRange (TypeResultWithNode.node keyTypeResult)
              (Addendum.addMessage
                 (typedDictFieldUndefined keyValue
                    (printType evaluator (Class (cloneAsInstance classType))))
                 Addendum.new) in
          {| ConstructState.isMatch := false;
             ConstructState.narrowedEntries := ConstructState.narrowedEntries state;
             ConstructState.typeVarContext := ConstructState.typeVarContext state;
             ConstructState.diagAddendum :=
               option_map (Addendum.addAddendum subDiag)
                 (ConstructState.diagAddendum state);
             ConstructState.store := store |}
      | Some symbolRef =>
          match (valueTypes !! index : option TypeResultWithNode.t) with
          | None => state
          | Some valueTypeResult =>
              let symbolEntry := entryHeap store symbolRef in
              let result :=
                assignType evaluator (TypedDictEntry.valueType symbolEntry)
                  (TypeResult.type valueTypeResult)
                  (ConstructState.typeVarContext state)
                  (RetainLiteralsForTypeVar utils) 0 in
              let subDiag :=
                valueCheckAddendum result (fun subDiag =>
                  Addendum.addTextRange (TypeResultWithNode.node keyTypeResult)
                    (Addendum.addMessage
                       (typedDictFieldTypeMismatch keyValue
                          (printType evaluator (TypeResult.type valueTypeResult)))
                       subDiag)) in
              {| ConstructState.isMatch :=
                   if AssignTypeResult.isAssignable result
                   then ConstructState.isMatch state else false;
                 ConstructState.narrowedEntries :=
                   if negb (TypedDictEntry.isRequired symbolEntry) then
                     JsMap.set keyValue
                       {| TypedDictEntry.valueType := TypeResult.type valueTypeResult;
                          TypedDictEntry.isReadOnly :=
                            TypeResult.isReadOnly valueTypeResult;
                          TypedDictEntry.isRequired := false;
                          TypedDictEntry.isProvided := true |}
                       (ConstructState.narrowedEntries state)
                   else ConstructState.narrowedEntries state;
                 ConstructState.typeVarContext :=
                   contextAfter (ConstructState.typeVarContext state) result;
                 ConstructState.diagAddendum :=
                   option_map (Addendum.addAddendum subDiag)
                     (ConstructState.diagAddendum state);
                 ConstructState.store := setProvided symbolRef store |}
          end
      end
  end.

(** [keyTypes.forEach((keyTypeResult, index) => ...)] from [index] on. *)
Fixpoint assignKeys (evaluator : TypeEvaluator) (classType : ClassType)
    (valueTypes : list TypeResultWithNode.t) (symbolMap : JsMap.t EntryRef)
    (keyTypes : list TypeResultWithNode.t) (index : nat) (state : ConstructState.t)
  : ConstructState.t :=
  match keyTypes with
  | [] => state
  | keyTypeResult :: rest =>
      assignKeys evaluator classType valueTypes symbolMap rest (S index)
        (assignKey evaluator classType valueTypes symbolMap state index keyTypeResult)
  end.

(** The body of [symbolMap.forEach] (lines 1083-1095). *)
Definition checkRequired (evaluator : TypeEvaluator) (classType : ClassType)
    (store : Store) (acc : bool * option DiagnosticAddendum)
    (entry : string * EntryRef) : bool * option DiagnosticAddendum :=
  let '(isMatch, diagAddendum) := acc in
  let '(name, ref) := entry in
  if TypedDictEntry.isRequired (entryHeap store ref)
     && negb (TypedDictEntry.isProvided (entryHeap store ref))
  then
    (false,
     option_map
       (Addendum.addMessage
          (typedDictFieldRequired name (printType evaluator (Class classType))))
       diagAddendum)
  else (isMatch, diagAddendum).

(** Lines 998-1012: a class with type parameters is checked in its generic
    form, with a fresh type variable context. *)
Definition hasTypeParameters (store : Store) (classType : ClassType) : bool :=
  negb (Nat.eqb (length (ClassDetails.typeParameters (detailsOf store classType))) 0).

Definition initialTypeVarContext (store : Store) (classType : ClassType)
  : option TypeVarContext.t :=
  if hasTypeParameters store classType
  then Some (TypeVarContext.new (ClassDetails.typeVarScopeId (detailsOf store classType)))
  else None.

Definition genericClassTypeOf (store : Store) (classType : ClassType) : ClassType :=
  if hasTypeParameters store classType then
    match ClassType.typeArguments classType with
    | Some _ => cloneForSpecialization classType None false
    | None => classType
    end
  else classType.

(** The three assertions of lines 991-993 (the class is an instance and a
    TypedDict, the two lists have one length) are not modelled; the
    properties of the function assume the last one. *)
Definition assignToTypedDict (evaluator : TypeEvaluator) (classType : ClassType)
    (keyTypes valueTypes : list TypeResultWithNode.t)
    (diagAddendum : option DiagnosticAddendum) (store : Store)
  : option ClassType * option DiagnosticAddendum * Store :=
  let typeVarContext := initialTypeVarContext store classType in
  let genericClassType := genericClassTypeOf store classType in
  let '(symbolMap, store) :=
    getTypedDictMembersForClass evaluator genericClassType false store in
  let state :=
    assignKeys evaluator classType valueTypes symbolMap keyTypes 0
      {| ConstructState.isMatch := true;
         ConstructState.narrowedEntries := JsMap.empty;
         ConstructState.typeVarContext := typeVarContext;
         ConstructState.diagAddendum := diagAddendum;
         ConstructState.store := store |} in
  let store := ConstructState.store state in
  let diagAddendum := ConstructState.diagAddendum state in
  if negb (ConstructState.isMatch state) then (None, diagAddendum, store)
  else
    let '(isMatch, diagAddendum) :=
      fold_left (checkRequired evaluator classType store) symbolMap
        (true, diagAddendum) in
    if negb isMatch then (None, diagAddendum, store)
    else
      let specializedClassType :=
        match ConstructState.typeVarContext state with
        | Some typeVarContext =>
            applySolvedTypeVarsToClass utils genericClassType typeVarContext
        | None => classType
        end in
      (Some
         (if Nat.eqb (JsMap.size (ConstructState.narrowedEntries state)) 0
          then specializedClassType
          else cloneForNarrowedTypedDictEntries specializedClassType
                 (ConstructState.narrowedEntries state)),
       diagAddendum, store).

(** *** Subscript access (lines 1110-1227) *)

(** Modelled from the spec: [mapSubtypes] of [typeUtils.ts], which applies
    the callback to "each subtype in order" of a union and to any other type
    directly, and combines the results. *)
Definition mapSubtypes {S : Type} (type : Type_)
    (callback : S -> Type_ -> Type_ * S) (state : S) : Type_ * S :=
  match type with
  | Union subtypes =>
      let '(results, state) :=
        fold_left (fun (acc : list Type_ * S) (subtype : Type_) =>
            let '(results, state) := acc in
            let '(result, state) := callback state subtype in
            (results ++ [result], state))
          subtypes ([], state) in
      (combineTypes utils results, state)
  | _ => callback state type
  end.

(** The callback of [mapSubtypes] (lines 1137-1198). *)
Definition indexSubtype (evaluator : TypeEvaluator) (store : Store)
    (node : IndexNode.t) (baseType : ClassType) (usage : EvaluatorUsage.t)
    (entries : JsMap.t EntryRef) (state : IndexState.t) (subtype : Type_)
  : Type_ * IndexState.t :=
  let diag := IndexState.diag state in
  let allDiags := IndexState.allDiagsInvolveNotRequiredKeys state in
  let notString :=
    (Unknown,
     {| IndexState.diag :=
          Addendum.addMessage (typeNotStringLiteral (printType evaluator subtype)) diag;
        IndexState.allDiagsInvolveNotRequiredKeys := false |}) in
  if isAnyOrUnknown subtype then (subtype, state)
  else
    match subtype with
    | Class subclass =>
        if isClassInstance subtype && isBuiltIn store subclass "str" then
          match ClassType.literalValue subclass with
          | None => (Unknown, state)
          | Some literalValue =>
              let entryName := literalAsString literalValue in
              match JsMap.get entryName entries with
              | None =>
                  (Unknown,
                   {| IndexState.diag :=
                        Addendum.addMessage
                          (keyUndefined entryName (printType evaluator (Class baseType)))
                          diag;
                      IndexState.allDiagsInvolveNotRequiredKeys := false |})
              | Some ref =>
                  let entry := entryHeap store ref in
                  let isGet :=
                    match EvaluatorUsage.method usage with get => true | _ => false end in
                  let diag :=
                    if negb (TypedDictEntry.isRequired entry
                             || TypedDictEntry.isProvided entry) && isGet then
                      if negb (isWithinTryBlock utils (IndexNode.id node) true) then
                        Addendum.addMessage
                          (keyNotRequired entryName (printType evaluator (Class baseType)))
                          diag
                      else diag
                    else if TypedDictEntry.isReadOnly entry && negb isGet then
                      Addendum.addMessage
                        (keyReadOnly entryName (printType evaluator (Class baseType)))
                        diag
                    else diag in
                  match EvaluatorUsage.method usage with
                  | set =>
                      let result :=
                        assignType evaluator (TypedDictEntry.valueType entry)
                          (match EvaluatorUsage.setType usage with
                           | Some setType => TypeResult.type setType
                           | None => Any false
                           end) None 0 0 in
                      (TypedDictEntry.valueType entry,
                       {| IndexState.diag :=
                            Addendum.addAll (AssignTypeResult.written result) diag;
                          IndexState.allDiagsInvolveNotRequiredKeys :=
                            if AssignTypeResult.isAssignable result
                            then allDiags else false |})
                  | del =>
                      if TypedDictEntry.isRequired entry then
                        (TypedDictEntry.valueType entry,
                         {| IndexState.diag :=
                              Addendum.addMessage (keyRequiredDeleted entryName) diag;
                            IndexState.allDiagsInvolveNotRequiredKeys := false |})
                      else
                        (TypedDictEntry.valueType entry,
                         {| IndexState.diag := diag;
                            IndexState.allDiagsInvolveNotRequiredKeys := allDiags |})
                  | get =>
                      (TypedDictEntry.valueType entry,
                       {| IndexState.diag := diag;
                          IndexState.allDiagsInvolveNotRequiredKeys := allDiags |})
                  end
              end
          end
        else notString
    | _ => notString
    end.

Definition getTypeOfIndexedTypedDict (evaluator : TypeEvaluator)
    (node : IndexNode.t) (baseType : ClassType) (usage : EvaluatorUsage.t)
    (store : Store) : option TypeResult.t * Store :=
  match IndexNode.items node with
  | [item] =>
      if IndexNode.trailingComma node
         || match Argument.name item with Some _ => true | None => false end
         || match Argument.argumentCategory item with
            | SimpleArgument => false
            | _ => true
            end
      then (None, store)
      else
        let '(entries, store) :=
          getTypedDictMembersForClass evaluator baseType
            (match EvaluatorUsage.method usage with get => true | _ => false end)
            store in
        let indexTypeResult :=
          getTypeOfExpression evaluator (Argument.valueExpression item) in
        let indexType := TypeResult.type indexTypeResult in
        let '(resultingType, state) :=
          mapSubtypes indexType
            (indexSubtype evaluator store node baseType usage entries)
            {| IndexState.diag := Addendum.new;
               IndexState.allDiagsInvolveNotRequiredKeys := true |} in
        let diag := IndexState.diag state in
        let diag :=
          match EvaluatorUsage.setExpectedTypeDiag usage with
          | Some setExpectedTypeDiag =>
              if negb (isEmpty utils diag) && negb (isEmpty utils setExpectedTypeDiag)
              then setExpectedTypeDiag else diag
          | None => diag
          end in
        let store :=
          if negb (isEmpty utils diag) then
            let typedDictDiag :=
              match EvaluatorUsage.method usage with
              | set => typedDictSet
              | del => typedDictDelete
              | get => typedDictAccess
              end in
            addDiagnostic
              (if IndexState.allDiagsInvolveNotRequiredKeys state
               then reportTypedDictNotRequiredAccess
               else reportGeneralTypeIssues)
              typedDictDiag diag (IndexNode.id node) store
          else store in
        (Some {| TypeResult.type := resultingType;
                 TypeResult.isIncomplete := TypeResult.isIncomplete indexTypeResult;
                 TypeResult.isReadOnly := false;
                 TypeResult.isRequired := false;
                 TypeResult.isNotRequired := false |},
         store)
  | items =>
      (Some {| TypeResult.type := Unknown;
               TypeResult.isIncomplete := false;
               TypeResult.isReadOnly := false;
               TypeResult.isRequired := false;
               TypeResult.isNotRequired := false |},
       addDiagnostic reportGeneralTypeIssues (typeArgsMismatchOne (length items))
         Addendum.new (IndexNode.id node) store)
  end.

(** *** Synthesis of the accessor methods (lines 262-699) *)

(** Modelled from the spec: the constructors of function types in
    [types.ts], which build "a synthesized constructor and accessor method
    set"; a function type is its name, flags, parameters in order and
    declared return type. *)
Definition createSynthesizedInstance (name : string) (flags : FunctionTypeFlags)
  : FunctionType :=
  {| FunctionType.name := name;
     FunctionType.flags := flags;
     FunctionType.parameters := [];
     FunctionType.declaredReturnType := None;
     FunctionType.typeVarScopeId := None |}.

Definition addParameter (param : FunctionParameter) (type : FunctionType)
  : FunctionType :=
  {| FunctionType.name := FunctionType.name type;
     FunctionType.flags := FunctionType.flags type;
     FunctionType.parameters := FunctionType.parameters type ++ [param];
     FunctionType.declaredReturnType := FunctionType.declaredReturnType type;
     FunctionType.typeVarScopeId := FunctionType.typeVarScopeId type |}.

Definition setDeclaredReturnType (returnType : Type_) (type : FunctionType)
  : FunctionType :=
  {| FunctionType.name := FunctionType.name type;
     FunctionType.flags := FunctionType.flags type;
     FunctionType.parameters := FunctionType.parameters type;
     FunctionType.declaredReturnType := Some returnType;
     FunctionType.typeVarScopeId := FunctionType.typeVarScopeId type |}.

Definition setTypeVarScopeId (scopeId : string) (type : FunctionType) : FunctionType :=
  {| FunctionType.name := FunctionType.name type;
     FunctionType.flags := FunctionType.flags type;
     FunctionType.parameters := FunctionType.parameters type;
     FunctionType.declaredReturnType := FunctionType.declaredReturnType type;
     FunctionType.typeVarScopeId := Some scopeId |}.

(** [{ category: Simple, name, type, hasDeclaredType: true }] with or
    without a default. *)
Definition simpleParameter (name : string) (type : Type_) (hasDefault : bool)
    (defaultType : option Type_) : FunctionParameter :=
  {| FunctionParameter.category := Simple;
     FunctionParameter.name := Some name;
     FunctionParameter.type := type;
     FunctionParameter.hasDeclaredType := true;
     FunctionParameter.hasDefault := hasDefault;
     FunctionParameter.defaultType := defaultType |}.

Definition separator (category : ParameterCategory) : FunctionParameter :=
  {| FunctionParameter.category := category;
     FunctionParameter.name := None;
     FunctionParameter.type := Any false;
     FunctionParameter.hasDeclaredType := false;
     FunctionParameter.hasDefault := false;
     FunctionParameter.defaultType := None |}.

Definition addPositionOnlyParameterSeparator := addParameter (separator Simple).
Definition addKeywordOnlyParameterSeparator := addParameter (separator ArgsList).

(** [FunctionType.addDefaultParameters] ([types.ts]): [*args] and
    [**kwargs], both of type [Any] and both with a declared type. *)
Definition addDefaultParameters (type : FunctionType) : FunctionType :=
  addParameter
    {| FunctionParameter.category := KwargsDict;
       FunctionParameter.name := Some "kwargs";
       FunctionParameter.type := Any false;
       FunctionParameter.hasDeclaredType := true;
       FunctionParameter.hasDefault := false;
       FunctionParameter.defaultType := None |}
    (addParameter
       {| FunctionParameter.category := ArgsList;
          FunctionParameter.name := Some "args";
          FunctionParameter.type := Any false;
          FunctionParameter.hasDeclaredType := true;
          FunctionParameter.hasDefault := false;
          FunctionParameter.defaultType := None |}
       type).

Definition classMember : SymbolFlags :=
  {| ClassMember := true; InstanceMember := false; IgnoredForProtocolMatch := false |}.

Section Synthesize.
Context (evaluator : TypeEvaluator) (node : ParseNode) (classType : ClassType).

Definition selfParam : FunctionParameter :=
  simpleParameter "self" (Class (cloneAsInstance classType)) false None.

Definition createDefaultTypeVar (func : FunctionType) : Type_ :=
  TypeVar "__TDefault" (FunctionType.typeVarScopeId func).

Definition createGetMethod (keyType valueType : Type_) (includeDefault : bool)
    (isEntryRequired defaultTypeMatchesField : bool) : FunctionType :=
  let getOverload := createSynthesizedInstance "get" Overloaded in
  let getOverload := addParameter selfParam getOverload in
  let getOverload := setTypeVarScopeId (getScopeIdForNode utils node) getOverload in
  let getOverload := addParameter (simpleParameter "k" keyType false None) getOverload in
  if includeDefault then
    let defaultTypeVar := createDefaultTypeVar getOverload in
    let defaultParamType :=
      if isEntryRequired then Any false
      else if defaultTypeMatchesField then valueType
      else combineTypes utils [valueType; defaultTypeVar] in
    let returnType := if isEntryRequired then valueType else defaultParamType in
    setDeclaredReturnType returnType
      (addParameter (simpleParameter "default" defaultParamType false None) getOverload)
  else
    setDeclaredReturnType
      (if isEntryRequired then valueType
       else combineTypes utils [valueType; getNoneType evaluator])
      getOverload.

Definition createPopMethods (keyType valueType : Type_) (isEntryRequired : bool)
  : list FunctionType :=
  let keyParam := simpleParameter "k" keyType false None in
  let popOverload1 := createSynthesizedInstance "pop" Overloaded in
  let popOverload1 := addParameter keyParam (addParameter selfParam popOverload1) in
  let popOverload1 := setDeclaredReturnType valueType popOverload1 in
  let popOverload2 := createSynthesizedInstance "pop" Overloaded in
  let popOverload2 := addParameter keyParam (addParameter selfParam popOverload2) in
  let popOverload2 := setTypeVarScopeId (getScopeIdForNode utils node) popOverload2 in
  let defaultTypeVar := createDefaultTypeVar popOverload2 in
  let defaultParamType :=
    if isEntryRequired then Any false
    else combineTypes utils [valueType; defaultTypeVar] in
  let returnType := if isEntryRequired then valueType else defaultParamType in
  let popOverload2 :=
    addParameter (simpleParameter "default" defaultParamType true None) popOverload2 in
  [popOverload1; setDeclaredReturnType returnType popOverload2].

Definition createSetDefaultMethod (keyType valueType : Type_) : FunctionType :=
  let setDefaultOverload := createSynthesizedInstance "setdefault" Overloaded in
  let setDefaultOverload := addParameter selfParam setDefaultOverload in
  let setDefaultOverload :=
    addParameter (simpleParameter "k" keyType false None) setDefaultOverload in
  let setDefaultOverload :=
    addParameter (simpleParameter "default" valueType false None) setDefaultOverload in
  setDeclaredReturnType valueType setDefaultOverload.

Definition createDelItemMethod (keyType : Type_) : FunctionType :=
  let delItemOverload := createSynthesizedInstance "delitem" Overloaded in
  let delItemOverload := addParameter selfParam delItemOverload in
  let delItemOverload :=
    addParameter (simpleParameter "k" keyType false None) delItemOverload in
  setDeclaredReturnType (getNoneType evaluator) delItemOverload.

Definition createUpdateMethod (strClass : ClassType)
    (entries : JsMap.t TypedDictEntry) (allEntriesAreReadOnly : bool) : Type_ :=
  let updateMethod1 := addParameter selfParam (createSynthesizedInstance "update" Overloaded) in
  let updateMethod2 := addParameter selfParam (createSynthesizedInstance "update" Overloaded) in
  let updateMethod3 := addParameter selfParam (createSynthesizedInstance "update" Overloaded) in
  let updateMethod1 :=
    addParameter
      (simpleParameter "__m"
         (if allEntriesAreReadOnly then Never
          else Class (cloneAsInstance (cloneForPartialTypedDict classType)))
         false None)
      updateMethod1 in
  let updateMethod1 := addPositionOnlyParameterSeparator updateMethod1 in
  let updateMethod3 := addKeywordOnlyParameterSeparator updateMethod3 in
  let updateMethod1 := setDeclaredReturnType (getNoneType evaluator) updateMethod1 in
  let updateMethod2 := setDeclaredReturnType (getNoneType evaluator) updateMethod2 in
  let updateMethod3 := setDeclaredReturnType (getNoneType evaluator) updateMethod3 in
  let tupleClass := getBuiltInType evaluator node "tuple" in
  let '(tuplesToCombine, updateMethod3) :=
    fold_left (fun (acc : list Type_ * FunctionType) (kv : string * TypedDictEntry) =>
        let '(tuplesToCombine, updateMethod3) := acc in
        let '(name, entry) := kv in
        if negb (TypedDictEntry.isReadOnly entry) then
          let tuplesToCombine :=
            match tupleClass with
            | Class tupleClassType =>
                if isInstantiableClass tupleClass
                   && isInstantiableClass (Class strClass) then
                  tuplesToCombine ++
                  [Class (specializeTupleClass utils (cloneAsInstance tupleClassType)
                     [(Class (cloneWithLiteral (cloneAsInstance strClass)
                                (LiteralString name)), false);
                      (TypedDictEntry.valueType entry, false)] true)]
                else tuplesToCombine
            | _ => tuplesToCombine
            end in
          (tuplesToCombine,
           addParameter
             (simpleParameter name (TypedDictEntry.valueType entry) true
                (Some (Any true)))
             updateMethod3)
        else acc)
      entries ([], updateMethod3) in
  let updateMethod2 :=
    match getTypingType evaluator node "Iterable" with
    | Some (Class iterableClass) =>
        if isInstantiableClass (Class iterableClass) then
          addParameter
            (simpleParameter "__m"
               (Class (cloneForSpecialization (cloneAsInstance iterableClass)
                         (Some [combineTypes utils tuplesToCombine]) true))
               false None)
            updateMethod2
        else updateMethod2
    | _ => updateMethod2
    end in
  let updateMethod2 := addPositionOnlyParameterSeparator updateMethod2 in
  OverloadedFunction [updateMethod2; updateMethod1; updateMethod3].

(** The [get], [pop] and [setdefault] overloads of one entry
    (lines 589-614). *)
Definition entryOverloads (strClass : ClassType)
    (acc : list FunctionType * list FunctionType * list FunctionType)
    (kv : string * TypedDictEntry)
  : list FunctionType * list FunctionType * list FunctionType :=
  let '(getOverloads, popOverloads, setDefaultOverloads) := acc in
  let '(name, entry) := kv in
  let nameLiteralType :=
    Class (cloneAsInstance (cloneWithLiteral strClass (LiteralString name))) in
  let getOverloads :=
    getOverloads ++
    [createGetMethod nameLiteralType (TypedDictEntry.valueType entry) false
       (TypedDictEntry.isRequired entry) false;
     createGetMethod nameLiteralType (TypedDictEntry.valueType entry) true
       (TypedDictEntry.isRequired entry) (TypedDictEntry.isRequired entry)] in
  let popOverloads :=
    if negb (TypedDictEntry.isRequired entry) && negb (TypedDictEntry.isReadOnly entry)
    then popOverloads ++
         createPopMethods nameLiteralType (TypedDictEntry.valueType entry)
           (TypedDictEntry.isRequired entry)
    else popOverloads in
  let setDefaultOverloads :=
    if negb (TypedDictEntry.isReadOnly entry)
    then setDefaultOverloads ++
         [createSetDefaultMethod nameLiteralType (TypedDictEntry.valueType entry)]
    else setDefaultOverloads in
  (getOverloads, popOverloads, setDefaultOverloads).

(** The methods that need the [str] class (lines 352-698). *)
Definition synthesizeAccessors (isClassFinal : bool) (strClass : ClassType)
    (entries : JsMap.t TypedDictEntry)
    (allEntriesAreNotRequired allEntriesAreReadOnly : bool)
    (symbolTable : JsMap.t Symbol.t) : JsMap.t Symbol.t :=
  let '(getOverloads, popOverloads, setDefaultOverloads) :=
    fold_left (entryOverloads strClass) entries ([], [], []) in
  let getOverloads :=
    if isClassFinal then
      match getTypingType evaluator node "LiteralString" with
      | Some (Class literalStringType) =>
          if isInstantiableClass (Class literalStringType) then
            let literalStringInstance := Class (cloneAsInstance literalStringType) in
            getOverloads ++
            [createGetMethod literalStringInstance (getNoneType evaluator) false true
               false;
             createGetMethod literalStringInstance (Any false) true false false]
          else getOverloads
      | _ => getOverloads
      end
    else getOverloads in
  let strType := Class (cloneAsInstance strClass) in
  let getOverloads :=
    getOverloads ++
    [createGetMethod strType (Any false) false false false;
     createGetMethod strType (Any false) true false false] in
  let symbolTable :=
    JsMap.set "get"
      (Symbol.createWithType classMember (OverloadedFunction getOverloads))
      symbolTable in
  let symbolTable :=
    if Nat.ltb 0 (length popOverloads) then
      JsMap.set "pop"
        (Symbol.createWithType classMember (OverloadedFunction popOverloads))
        symbolTable
    else symbolTable in
  let symbolTable :=
    if Nat.ltb 0 (length setDefaultOverloads) then
      JsMap.set "setdefault"
        (Symbol.createWithType classMember (OverloadedFunction setDefaultOverloads))
        symbolTable
    else symbolTable in
  let symbolTable :=
    if negb allEntriesAreReadOnly then
      JsMap.set "__delitem__"
        (Symbol.createWithType classMember (Function (createDelItemMethod strType)))
        symbolTable
    else symbolTable in
  let symbolTable :=
    JsMap.set "update"
      (Symbol.createWithType classMember
         (createUpdateMethod strClass entries allEntriesAreReadOnly))
      symbolTable in
  if isClassFinal && allEntriesAreNotRequired && negb allEntriesAreReadOnly then
    let clearMethod := createSynthesizedInstance "clear" NoFunctionFlags in
    let clearMethod := addParameter selfParam clearMethod in
    let clearMethod := setDeclaredReturnType (getNoneType evaluator) clearMethod in
    let symbolTable :=
      JsMap.set "clear" (Symbol.createWithType classMember (Function clearMethod))
        symbolTable in
    let popItemMethod := createSynthesizedInstance "popitem" NoFunctionFlags in
    let popItemMethod := addParameter selfParam popItemMethod in
    let tupleType :=
      match getTupleClassType evaluator with
      | Some (Class tupleClass) =>
          if isInstantiableClass (Class tupleClass) then
            Class (specializeTupleClass utils (cloneAsInstance tupleClass)
                     [(strType, false); (Unknown, false)] true)
          else Unknown
      | _ => Unknown
      end in
    let popItemMethod := setDeclaredReturnType tupleType popItemMethod in
    JsMap.set "popitem" (Symbol.createWithType classMember (Function popItemMethod))
      symbolTable
  else symbolTable.

(** The two [__init__] overloads and [__new__] (lines 270-347). *)
Definition synthesizeConstructors (entries : JsMap.t TypedDictEntry)
    (symbolTable : JsMap.t Symbol.t) : JsMap.t Symbol.t :=
  let instance := Class (cloneAsInstance classType) in
  let newType := createSynthesizedInstance "__new__" ConstructorMethod in
  let newType :=
    addParameter (simpleParameter "cls" (Class classType) false None) newType in
  let newType := addDefaultParameters newType in
  let newType := setDeclaredReturnType instance newType in
  let initOverride1 := createSynthesizedInstance "__init__" Overloaded in
  let initOverride1 :=
    addParameter (simpleParameter "self" instance false None) initOverride1 in
  let initOverride1 := setDeclaredReturnType (getNoneType evaluator) initOverride1 in
  let initOverride1 :=
    addParameter (simpleParameter "__map" instance false None) initOverride1 in
  let initOverride1 := addPositionOnlyParameterSeparator initOverride1 in
  let initOverride1 := addKeywordOnlyParameterSeparator initOverride1 in
  let initOverride2 := createSynthesizedInstance "__init__" Overloaded in
  let initOverride2 :=
    addParameter (simpleParameter "self" instance false None) initOverride2 in
  let initOverride2 := setDeclaredReturnType (getNoneType evaluator) initOverride2 in
  let initOverride2 := addKeywordOnlyParameterSeparator initOverride2 in
  let '(initOverride1, initOverride2) :=
    fold_left (fun (acc : FunctionType * FunctionType) (kv : string * TypedDictEntry) =>
        let '(initOverride1, initOverride2) := acc in
        let '(name, entry) := kv in
        (addParameter
           (simpleParameter name (TypedDictEntry.valueType entry) true None)
           initOverride1,
         addParameter
           (simpleParameter name (TypedDictEntry.valueType entry)
              (negb (TypedDictEntry.isRequired entry)) None)
           initOverride2))
      entries (initOverride1, initOverride2) in
  let initType := OverloadedFunction [initOverride1; initOverride2] in
  let symbolTable :=
    JsMap.set "__init__" (Symbol.createWithType classMember initType) symbolTable in
  JsMap.set "__new__" (Symbol.createWithType classMember (Function newType))
    symbolTable.

(** Lines 316-342: the two flags computed over the entries. *)
Definition allEntriesAreNotRequired (entries : JsMap.t TypedDictEntry) : bool :=
  fold_left (fun (allEntriesAreNotRequired : bool) (kv : string * TypedDictEntry) =>
      if TypedDictEntry.isRequired (snd kv) then false else allEntriesAreNotRequired)
    entries true.

Definition allEntriesAreReadOnly (entries : JsMap.t TypedDictEntry) : bool :=
  fold_left (fun (allEntriesAreReadOnly : bool) (kv : string * TypedDictEntry) =>
      if negb (TypedDictEntry.isReadOnly (snd kv)) then false else allEntriesAreReadOnly)
    entries true.

Definition synthesizeTypedDictClassMethods (isClassFinal : bool) (store : Store)
  : Store :=
  let '(entryRefs, store) :=
    getTypedDictMembersForClass evaluator classType false store in
  let entries := entriesOf store entryRefs in
  let symbolTable := ClassDetails.fields (detailsOf store classType) in
  let symbolTable := synthesizeConstructors entries symbolTable in
  let strClass := getBuiltInType evaluator node "str" in
  let symbolTable :=
    match strClass with
    | Class strClassType =>
        if isInstantiableClass strClass then
          synthesizeAccessors isClassFinal strClassType entries
            (allEntriesAreNotRequired entries) (allEntriesAreReadOnly entries)
            symbolTable
        else symbolTable
    | _ => symbolTable
    end in
  updateDetails (ClassType.details classType) (fun d =>
    {| ClassDetails.name := ClassDetails.name d;
       ClassDetails.flags := ClassDetails.flags d;
       ClassDetails.typeParameters := ClassDetails.typeParameters d;
       ClassDetails.typeVarScopeId := ClassDetails.typeVarScopeId d;
       ClassDetails.baseClasses := ClassDetails.baseClasses d;
       ClassDetails.fields := symbolTable;
       ClassDetails.typedDictEntries := ClassDetails.typedDictEntries d |}) store.

End Synthesize.

End WithUtils.
End TypedDicts.

(** ** [analyzer/typeWalker.ts]

    The walker follows references from one type object to the next, and the
    objects may refer back to themselves, so the types are nodes of a graph
    addressed by [TypeId].  A node carries what the walker reads: the alias
    information, the category and the component types of that category. *)
Module TypeWalker.

Definition TypeId := nat.

(** A parameter with its effective type
    ([FunctionType.getEffectiveParameterType(type, i)]). *)
Record FunctionParameter := {
  name : option string;
  effectiveParameterType : TypeId;
}.

Inductive TypeDetails :=
  | Unbound
  | Any
  | Unknown
  | Never
  | Module
  | TypeVar
  | Function (parameters : list FunctionParameter) (isParamSpecValue : bool)
      (declaredReturnType inferredReturnType : option TypeId)
  | OverloadedFunction (overloads : list TypeId)
  | Class (isPseudoGenericClass : bool)
      (tupleTypeArguments typeArguments : option (list TypeId))
  | Union (subtypes : list TypeId)
  | Intersection (subtypes : list TypeId).

Record TypeAliasInfo := { aliasTypeArguments : option (list TypeId) }.

Record Type_ := {
  typeAliasInfo : option TypeAliasInfo;
  details : TypeDetails;
}.

Definition TypeGraph := TypeId -> Type_.

(** The three private fields of the class, and [visited]: the nodes whose
    visit methods ran, in order, a ghost field the source does not have. *)
Record Walker := {
  recursionCount : Z;
  isWalkCanceled : bool;
  isRecursionLimitHit : bool;
  visited : list TypeId;
}.

Definition new : Walker :=
  {| recursionCount := 0; isWalkCanceled := false;
     isRecursionLimitHit := false; visited := [] |}.

Definition cancelWalk (this : Walker) : Walker :=
  {| recursionCount := recursionCount this; isWalkCanceled := true;
     isRecursionLimitHit := isRecursionLimitHit this; visited := visited this |}.

(** [this._hitRecursionLimit = true] *)
Definition hitRecursionLimit (this : Walker) : Walker :=
  {| recursionCount := recursionCount this; isWalkCanceled := isWalkCanceled this;
     isRecursionLimitHit := true; visited := visited this |}.

(** [this._recursionCount++] on entering the node [t]. *)
Definition enter (t : TypeId) (this : Walker) : Walker :=
  {| recursionCount := recursionCount this + 1; isWalkCanceled := isWalkCanceled this;
     isRecursionLimitHit := isRecursionLimitHit this; visited := visited this ++ [t] |}.

(** [this._recursionCount--] *)
Definition leave (this : Walker) : Walker :=
  {| recursionCount := recursionCount this - 1; isWalkCanceled := isWalkCanceled this;
     isRecursionLimitHit := isRecursionLimitHit this; visited := visited this |}.

(** [if (type.details.parameters[i].name)]: a name that is present and not
    the empty string. *)
Definition hasName (p : FunctionParameter) : bool :=
  match name p with
  | Some s => negb (String.eqb s "")
  | None => false
  end.

Section Walk.
Variable maxTypeRecursionCount : Z.
Variable graph : TypeGraph.
(** The visit methods are meant to be overridden; [cancelAt t] says whether
    the override in use calls [cancelWalk] when it is handed the node [t],
    before it goes on to the method of the base class. *)
Variable cancelAt : TypeId -> bool.

Section Visit.
Variable walk : Walker -> TypeId -> option Walker.

(** [for (const t of types) { this.walk(t); if (this._isWalkCanceled) break; }] *)
Fixpoint walkEach (types : list TypeId) (this : Walker) : option Walker :=
  match types with
  | [] => Some this
  | t :: rest =>
      this ← walk this t;
      if isWalkCanceled this then Some this else walkEach rest this
  end.

Definition visitTypeAlias (info : TypeAliasInfo) (this : Walker) : option Walker :=
  match aliasTypeArguments info with
  | Some typeArguments => walkEach typeArguments this
  | None => Some this
  end.

(** The loop of [visitFunction] (lines 144-153). *)
Fixpoint walkParameters (parameters : list FunctionParameter) (this : Walker)
  : option Walker :=
  match parameters with
  | [] => Some this
  | p :: rest =>
      if hasName p then
        this ← walk this (effectiveParameterType p);
        if isWalkCanceled this then Some this else walkParameters rest this
      else walkParameters rest this
  end.

Definition visitFunction (parameters : list FunctionParameter)
    (isParamSpecValue : bool) (declaredReturnType inferredReturnType : option TypeId)
    (this : Walker) : option Walker :=
  this ← walkParameters parameters this;
  if negb (isWalkCanceled this) && negb isParamSpecValue && negb isParamSpecValue then
    match (match declaredReturnType with
           | Some r => Some r
           | None => inferredReturnType
           end) with
    | Some returnType => walk this returnType
    | None => Some this
    end
  else Some this.

Definition visitClass (isPseudoGenericClass : bool)
    (tupleTypeArguments typeArguments : option (list TypeId))
    (this : Walker) : option Walker :=
  if negb isPseudoGenericClass then
    match (match tupleTypeArguments with
           | Some ts => Some ts
           | None => typeArguments
           end) with
    | Some typeArgs => walkEach typeArgs this
    | None => Some this
    end
  else Some this.

(** The [switch] of [walk] (lines 58-105) with the method it selects. *)
Definition visit (t : TypeId) (type : Type_) (this : Walker) : option Walker :=
  let this := if cancelAt t then cancelWalk this else this in
  match details type with
  | Unbound | Any | Unknown | Never | Module | TypeVar => Some this
  | Function ps psv d i => visitFunction ps psv d i this
  | OverloadedFunction overloads => walkEach overloads this
  | Class pg tup args => visitClass pg tup args this
  | Union subtypes => walkEach subtypes this
  | Intersection subtypes => walkEach subtypes this
  end.
End Visit.

(** [walk] calls itself through the visit methods, one level deeper each
    time; [fuel] bounds the depth of the calls and [None] means it ran out.
    The source has no such bound: that [walkFuel] levels are always enough
    is part of what is proved. *)
Fixpoint walk (fuel : nat) (this : Walker) (t : TypeId) : option Walker :=
  if (maxTypeRecursionCount <? recursionCount this)%Z then
    Some (hitRecursionLimit this)
  else if isWalkCanceled this then Some this
  else
    match fuel with
    | O => None
    | S fuel =>
        let type := graph t in
        let this := enter t this in
        this ← match typeAliasInfo type with
               | Some info => visitTypeAlias (walk fuel) info this
               | None => Some this
               end;
        this ← visit (walk fuel) t type this;
        Some (leave this)
    end.

Definition walkFuel (this : Walker) : nat :=
  Z.to_nat (maxTypeRecursionCount + 1 - recursionCount this).

End Walk.
End TypeWalker.

(** ** Relations between walker states used to state the properties *)
Module TypeWalkerInvariants.
Import TypeWalker.

(** What a returning call leaves behind: the depth counter is restored, the
    flags are only ever raised, and the trace of entered nodes only grows. *)
Definition extends (w w' : Walker) : Prop :=
  recursionCount w' = recursionCount w ∧
  (isWalkCanceled w = true → isWalkCanceled w' = true) ∧
  (isRecursionLimitHit w = true → isRecursionLimitHit w' = true) ∧
  visited w `prefix_of` visited w'.

(** A walker whose flag is set passes through every visit method without
    entering a node. *)
Definition skipped (w w' : Walker) : Prop :=
  (isWalkCanceled w = true → isWalkCanceled w' = true) ∧ visited w' = visited w ∧
  recursionCount w' = recursionCount w.

(** A type that is its own subtype: [0] is the union of itself and [1]. *)
Definition selfReferential : TypeGraph := fun t =>
  match t with
  | 0 => {| typeAliasInfo := None; details := Union [0; 1] |}
  | _ => {| typeAliasInfo := None; details := Any |}
  end.

End TypeWalkerInvariants.

(** ** [common/diagnostics.ts] *)
Module DiagnosticSink.

(** [DiagnosticCategory] is declared in [common/diagnostic.ts], which is not
    among the sources: the six members that [diagnostics.ts] names, and
    [OtherCategory] for any further member of the enum. *)
Inductive DiagnosticCategory :=
  | Error
  | Warning
  | Information
  | UnusedCode
  | UnreachableCode
  | Deprecated
  | OtherCategory (tag : N).

Record Position := { line : N; character : N }.

Record Range := { start : Position; end_ : Position }.

#[global] Instance Position_eq_dec : EqDecision Position.
Proof. solve_decision. Defined.

#[global] Instance Range_eq_dec : EqDecision Range.
Proof. solve_decision. Defined.

(** What the sink reads of a [Diagnostic] ([common/diagnostic.ts]). *)
Record Diagnostic := {
  category : DiagnosticCategory;
  message : string;
  range : Range;
}.

Record Sink := {
  diagnosticList : list Diagnostic;
  diagnosticMap : gmap string Diagnostic;
}.

(** [constructor(diagnostics?: Diagnostic[])] *)
Definition new (diagnostics : option (list Diagnostic)) : Sink :=
  {| diagnosticList := default [] diagnostics; diagnosticMap := ∅ |}.

Definition fetchAndClear (this : Sink) : list Diagnostic * Sink :=
  let prevDiagnostics := diagnosticList this in
  (prevDiagnostics, {| diagnosticList := []; diagnosticMap := ∅ |}).

Section Hash.
(** [hashString] is imported from [common/stringUtils.ts]; any function from
    strings to integers will do for the sink. *)
Variable hashString : string -> Z.

(** The template string of lines 82-84. *)
Definition diagnosticKey (diag : Diagnostic) : string :=
  pretty (line (start (range diag))) +:+ "," +:+
  pretty (character (start (range diag))) +:+ "-" +:+
  pretty (line (end_ (range diag))) +:+ "-" +:+
  pretty (character (end_ (range diag))) +:+ ":" +:+
  pretty (hashString (message diag)) +:+ "}".

Definition addDiagnostic (this : Sink) (diag : Diagnostic) : Diagnostic * Sink :=
  let key := diagnosticKey diag in
  match diagnosticMap this !! key with
  | None =>
      (diag, {| diagnosticList := diagnosticList this ++ [diag];
                diagnosticMap := <[key := diag]> (diagnosticMap this) |})
  | Some _ => (diag, this)
  end.

Definition addError (this : Sink) (message : string) (range : Range) :=
  addDiagnostic this {| category := Error; message := message; range := range |}.

Definition addWarning (this : Sink) (message : string) (range : Range) :=
  addDiagnostic this {| category := Warning; message := message; range := range |}.

Definition addInformation (this : Sink) (message : string) (range : Range) :=
  addDiagnostic this {| category := Information; message := message; range := range |}.

(** [appendArray(this.diagnosticList, diagsToAdd)]: the map is not consulted. *)
Definition addDiagnostics (this : Sink) (diagsToAdd : list Diagnostic) : Sink :=
  {| diagnosticList := diagnosticList this ++ diagsToAdd;
     diagnosticMap := diagnosticMap this |}.
End Hash.

(** A 32-bit string hash of the usual shape,
    [hash = ((hash << 5) - hash + charCode) | 0], used where an example needs
    a concrete [hashString]; no theorem depends on the choice.  It runs over
    the bytes of the string, which are the UTF-16 code units that
    [charCodeAt] gives on ASCII strings only; the examples use no other. *)
Fixpoint hashString_go (hash : Z) (contents : string) : Z :=
  match contents with
  | EmptyString => hash
  | String c rest =>
      hashString_go
        (let h := (Z.shiftl hash 5 - hash + Z.of_nat (nat_of_ascii c))%Z in
         ((h + 2147483648) mod 4294967296 - 2147483648)%Z) rest
  end.

Definition hashString31 (contents : string) : Z := hashString_go 0 contents.

(** Diagnostics to run the sink on: two that differ in range, and two at one
    range whose messages have the same hash. *)
Definition lineRange (l : N) : Range :=
  {| start := {| line := l; character := 0 |};
     end_ := {| line := l; character := 4 |} |}.

Definition diagnosticA : Diagnostic :=
  {| category := Error; message := "m"; range := lineRange 0 |}.
Definition diagnosticB : Diagnostic :=
  {| category := Error; message := "m"; range := lineRange 1 |}.
Definition collidingA : Diagnostic :=
  {| category := Error; message := "Aa"; range := lineRange 0 |}.
Definition collidingB : Diagnostic :=
  {| category := Error; message := "BB"; range := lineRange 0 |}.

End DiagnosticSink.

(** ** Predicates on the characters of a key *)
Module DiagnosticKeys.



End DiagnosticKeys.

(** ** Predicates on stores used to state the properties *)
Module Invariants.
Import Types TypedDicts.

(** [classType.details.typedDictEntries] of the class with the given id. *)
Definition cachedTable (store : Store) (c : ClassId) : option (JsMap.t EntryRef) :=
  ClassDetails.typedDictEntries (classDetails store c).

(** Every cached table refers to allocated entries whose [isProvided] flag
    is false. *)
Definition cacheOk (store : Store) : Prop :=
  forall c table name ref,
    cachedTable store c = Some table -> In (name, ref) table ->
    ref < nextEntry store /\ TypedDictEntry.isProvided (entryHeap store ref) = false.

(** Everything of a class but its cache and its symbol table. *)
Definition sameDeclarations (store store' : Store) : Prop :=
  forall c,
    ClassDetails.name (classDetails store' c) = ClassDetails.name (classDetails store c) /\
    ClassDetails.flags (classDetails store' c) = ClassDetails.flags (classDetails store c) /\
    ClassDetails.typeParameters (classDetails store' c)
      = ClassDetails.typeParameters (classDetails store c) /\
    ClassDetails.typeVarScopeId (classDetails store' c)
      = ClassDetails.typeVarScopeId (classDetails store c) /\
    ClassDetails.baseClasses (classDetails store' c)
      = ClassDetails.baseClasses (classDetails store c).

(** What a call leaves of the store it was given: the entries that existed
    keep their contents, and a table that was cached stays the cached table. *)
Definition preserved (store store' : Store) : Prop :=
  nextEntry store <= nextEntry store' /\
  (forall r, r < nextEntry store -> entryHeap store' r = entryHeap store r) /\
  (forall c table, cachedTable store c = Some table -> cachedTable store' c = Some table) /\
  sameDeclarations store store'.

(** A cached table stays the cached table, entry for entry. *)
Definition cacheUnchanged (store store' : Store) : Prop :=
  forall c table,
    cachedTable store c = Some table ->
    cachedTable store' c = Some table /\
    forall name ref, In (name, ref) table -> entryHeap store' ref = entryHeap store ref.

(** A table whose references are allocated and whose entries satisfy [Q]. *)
Definition tableInv (Q : string → TypedDictEntry → Prop)
    (keyMap : JsMap.t EntryRef) (store : Store) : Prop :=
  ∀ name ref, In (name, ref) keyMap →
    ref < nextEntry store ∧ Q name (entryHeap store ref).

(** A store that differs from [store] by allocations only. *)
Definition allocated (store store' : Store) : Prop :=
  classDetails store' = classDetails store ∧
  reported store' = reported store ∧
  nextEntry store ≤ nextEntry store' ∧
  ∀ r, r < nextEntry store → entryHeap store' r = entryHeap store r.

(** The references of a table made within a call: between the allocation
    pointer at the start and the current one, and pairwise distinct. *)
Definition freshTable (lo : nat) (entries : JsMap.t EntryRef) (store : Store) : Prop :=
  (∀ name ref, In (name, ref) entries → lo ≤ ref < nextEntry store) ∧
  NoDup (JsMap.keys entries) ∧ NoDup (JsMap.values entries).


(** An addendum with children appended. *)
Definition appendChildren (added : list DiagnosticAddendum)
    (diag : DiagnosticAddendum) : DiagnosticAddendum :=
  {| messages := messages diag; range := range diag;
     childAddenda := childAddenda diag ++ added |}.

(** The children of a supplied addendum are only ever appended to. *)
Definition extendsDiag (before after : option DiagnosticAddendum) : Prop :=
  ∀ d, before = Some d →
    ∃ d' added, after = Some d' ∧ childAddenda d' = childAddenda d ++ added.

(** The result for an index expression that does not have exactly one
    item. *)
Definition unknownResult : TypeResult.t :=
  {| TypeResult.type := Unknown;
     TypeResult.isIncomplete := false;
     TypeResult.isReadOnly := false;
     TypeResult.isRequired := false;
     TypeResult.isNotRequired := false |}.

Section Construction.
Context (utils : TypeUtils) (evaluator : TypeEvaluator).

(** The entry table a construction is checked against: the entries of the
    class in its generic form, without narrowing. *)
Definition declaredEntries (classType : ClassType) (store : Store)
  : JsMap.t TypedDictEntry :=
  let result :=
    getTypedDictMembersForClass utils evaluator (genericClassTypeOf store classType)
      false store in
  entriesOf (snd result) (fst result).

(** The type variable context is handed from one value check to the next;
    this is the context after the check of one key, and the context in
    which the key at [index] is checked. *)
Definition contextAfterKey (store : Store) (declared : JsMap.t TypedDictEntry)
    (typeVarContext : option TypeVarContext.t) (kv : TypeResultWithNode.t * TypeResultWithNode.t)
  : option TypeVarContext.t :=
  match stringLiteralKey store (TypeResult.type (fst kv)) with
  | Some name =>
      match JsMap.get name declared with
      | Some entry =>
          contextAfter typeVarContext
            (assignType evaluator (TypedDictEntry.valueType entry)
               (TypeResult.type (snd kv)) typeVarContext
               (RetainLiteralsForTypeVar utils) 0)
      | None => typeVarContext
      end
  | None => typeVarContext
  end.

Definition contextBefore (store : Store) (declared : JsMap.t TypedDictEntry)
    (keyTypes valueTypes : list TypeResultWithNode.t)
    (initial : option TypeVarContext.t) (index : nat) : option TypeVarContext.t :=
  fold_left (contextAfterKey store declared)
    (firstn index (combine keyTypes valueTypes)) initial.

(** The value check of the key at [index]. *)
Definition valueCheck (store : Store) (declared : JsMap.t TypedDictEntry)
    (keyTypes valueTypes : list TypeResultWithNode.t) (initial : option TypeVarContext.t)
    (index : nat) (entry : TypedDictEntry) (value : TypeResultWithNode.t)
  : AssignTypeResult.t :=
  assignType evaluator (TypedDictEntry.valueType entry) (TypeResult.type value)
    (contextBefore store declared keyTypes valueTypes initial index)
    (RetainLiteralsForTypeVar utils) 0.

(** The key at [index] is a string literal that names a declared entry, and
    its value is assignable to the entry's type. *)
Definition keyAccepted (store : Store) (declared : JsMap.t TypedDictEntry)
    (keyTypes valueTypes : list TypeResultWithNode.t) (initial : option TypeVarContext.t)
    (index : nat) (key : TypeResultWithNode.t) : Prop :=
  exists name entry (value : TypeResultWithNode.t),
    stringLiteralKey store (TypeResult.type key) = Some name /\
    JsMap.get name declared = Some entry /\
    valueTypes !! index = Some value /\
    AssignTypeResult.isAssignable
      (valueCheck store declared keyTypes valueTypes initial index entry value) = true.

Definition isLiteralKey (store : Store) (key : TypeResultWithNode.t) : bool :=
  match stringLiteralKey store (TypeResult.type key) with
  | Some _ => true
  | None => false
  end.

(** How many of the keys before [index] are string literals. *)
Definition literalKeysBefore (store : Store) (keyTypes : list TypeResultWithNode.t)
    (index : nat) : nat :=
  length (List.filter (isLiteralKey store) (firstn index keyTypes)).

(** The addendum that the literal key [name] at [index] adds. *)
Definition keyAddendum (classType : ClassType) (store : Store)
    (declared : JsMap.t TypedDictEntry) (keyTypes valueTypes : list TypeResultWithNode.t)
    (initial : option TypeVarContext.t) (index : nat) (key : TypeResultWithNode.t)
    (name : string) : DiagnosticAddendum :=
  match JsMap.get name declared,
        (valueTypes !! index : option TypeResultWithNode.t) with
  | Some entry, Some value =>
      valueCheckAddendum
        (valueCheck store declared keyTypes valueTypes initial index entry value)
        (fun subDiag =>
           Addendum.addTextRange (TypeResultWithNode.node key)
             (Addendum.addMessage
                (typedDictFieldTypeMismatch name
                   (printType evaluator (TypeResult.type value)))
                subDiag))
  | _, _ =>
      Addendum.addTextRange (TypeResultWithNode.node key)
        (Addendum.addMessage
           (typedDictFieldUndefined name
              (printType evaluator (Class (cloneAsInstance classType))))
           Addendum.new)
  end.

(** [Q] holds of every entry that any class would contribute. *)
Definition contributes (store0 : Store) (Q : string → TypedDictEntry → Prop) : Prop :=
  ∀ (owner : ClassType) name symbol store typeVarContext,
    In (name, symbol) (ClassDetails.fields (detailsOf store0 owner)) →
    isEntryField utils symbol = true →
    classDetails store = classDetails store0 →
    Q name (entryForField utils evaluator store owner typeVarContext symbol).

(** [base] is a class that entry resolution descends to from [classType]:
    one of its base classes that is an instantiable TypedDict class,
    specialized by the class (lines 833-841). *)
Definition resolvedBase (store : Store) (classType base : ClassType) : Prop :=
  ∃ baseClass,
    In (Class baseClass) (ClassDetails.baseClasses (detailsOf store classType)) ∧
    isInstantiableClass (Class baseClass) && isTypedDictClass store baseClass = true ∧
    partiallySpecializeType utils (Class baseClass) classType = Class base.

(** The classes whose fields entry resolution may read when it is asked
    about [classType]: the class itself and the TypedDict classes above
    it. *)
Definition inheritsFrom (store : Store) (classType owner : ClassType) : Prop :=
  rtc (resolvedBase store) classType owner.

(** The field carries the modifier: one of its declarations is a variable
    declaration with an annotation, and the evaluator reads the modifier
    ([isRequired], [isNotRequired] or [isReadOnly]) off that annotation. *)
Definition annotatedWith (modifier : TypeResult.t → bool) (symbol : Symbol.t) : Prop :=
  ∃ decl annotation,
    In decl (Symbol.getDeclarations symbol) ∧
    Declaration.type decl = VariableDeclaration ∧
    Declaration.typeAnnotationNode decl = Some annotation ∧
    modifier (getTypeOfExpressionExpectingType evaluator annotation) = true.

(** What each copy holds: the cached entry it was made from, specialized. *)
Definition copiesOf (classType : ClassType) (typeVarContext : TypeVarContext.t)
    (source : JsMap.t EntryRef) (store0 : Store)
    (entries : JsMap.t EntryRef) (store : Store) : Prop :=
  ∀ name ref, In (name, ref) entries →
    ∃ ref0, In (name, ref0) source ∧
      entryHeap store ref =
        specializeEntry utils classType typeVarContext (entryHeap store0 ref0).

Section Loop.
Context (classType : ClassType).
Context (store0 store1 : Store) (symbolMap : JsMap.t EntryRef).
Context (keyTypes valueTypes : list TypeResultWithNode.t).
Context (initial : option TypeVarContext.t) (diag0 : option DiagnosticAddendum).

(** The children added by the keys of a list that starts at [index]. *)
Fixpoint addedFrom (index : nat) (keys : list TypeResultWithNode.t)
  : list DiagnosticAddendum :=
  match keys with
  | [] => []
  | key :: rest =>
      match stringLiteralKey store0 (TypeResult.type key) with
      | Some name =>
          [keyAddendum classType store0 (entriesOf store1 symbolMap) keyTypes valueTypes
             initial index key name]
      | None => []
      end ++ addedFrom (S index) rest
  end.

(** What holds after the keys [done] have been processed: the loop has
    written nothing but the [isProvided] flags of the entries of
    [symbolMap], and the state says what the keys so far have decided. *)
Record loopInv (done : list TypeResultWithNode.t) (state : ConstructState.t) : Prop := {
  inv_details : classDetails (ConstructState.store state) = classDetails store1;
  inv_next : nextEntry (ConstructState.store state) = nextEntry store1;
  inv_reported : reported (ConstructState.store state) = reported store1;
  inv_heap : forall r, (forall name, ~ In (name, r) symbolMap) ->
    entryHeap (ConstructState.store state) r = entryHeap store1 r;
  inv_static : forall name ref, In (name, ref) symbolMap ->
    TypedDictEntry.valueType (entryHeap (ConstructState.store state) ref)
      = TypedDictEntry.valueType (entryHeap store1 ref) /\
    TypedDictEntry.isRequired (entryHeap (ConstructState.store state) ref)
      = TypedDictEntry.isRequired (entryHeap store1 ref) /\
    TypedDictEntry.isReadOnly (entryHeap (ConstructState.store state) ref)
      = TypedDictEntry.isReadOnly (entryHeap store1 ref);
  inv_provided : forall name ref, In (name, ref) symbolMap ->
    (TypedDictEntry.isProvided (entryHeap (ConstructState.store state) ref) = true <->
     exists j (key : TypeResultWithNode.t),
       done !! j = Some key /\
       stringLiteralKey store0 (TypeResult.type key) = Some name);
  inv_match : ConstructState.isMatch state = true <->
    forall j key, done !! j = Some key ->
      keyAccepted store0 (entriesOf store1 symbolMap) keyTypes valueTypes initial j key;
  inv_context : ConstructState.typeVarContext state
    = contextBefore store0 (entriesOf store1 symbolMap) keyTypes valueTypes initial
        (length done);
  inv_diag : ConstructState.diagAddendum state
    = option_map (appendChildren (addedFrom 0 done)) diag0;
}.

(** The state in which the loop over the keys starts (lines 1011-1014). *)
Definition initialState : ConstructState.t :=
  {| ConstructState.isMatch := true;
     ConstructState.narrowedEntries := JsMap.empty;
     ConstructState.typeVarContext := initial;
     ConstructState.diagAddendum := diag0;
     ConstructState.store := store1 |}.

End Loop.

End Construction.

End Invariants.

(** ** A small program to run the definitions on

    The classes of the specification's example scenario (section 8) and a
    few more, with an evaluator that knows [int], [str], [bool], [object],
    [None] and [tuple], treats [bool] as a subtype of [int] and [object] as
    the top type, and honours the invariance flag. *)
Module Example.
Import Types TypedDicts.

Definition intId : ClassId := 1.
Definition strId : ClassId := 2.
Definition objectId : ClassId := 3.
Definition boolId : ClassId := 4.
Definition tupleId : ClassId := 5.
Definition noneId : ClassId := 6.
Definition pointId : ClassId := 10.
Definition writableId : ClassId := 11.
Definition readOnlyId : ClassId := 12.
Definition boolSourceId : ClassId := 13.
Definition withExtraId : ClassId := 14.
Definition twoFieldsId : ClassId := 15.
Definition mixedId : ClassId := 16.
Definition nonTotalId : ClassId := 17.

Definition classOf (id : ClassId) (isInstance : bool) : ClassType :=
  {| ClassType.flags := {| Instantiable := negb isInstance; Instance := isInstance |};
     ClassType.details := id;
     ClassType.typeArguments := None;
     ClassType.isTypeArgumentExplicit := false;
     ClassType.tupleTypeArguments := None;
     ClassType.literalValue := None;
     ClassType.typedDictNarrowedEntries := None;
     ClassType.isTypedDictPartial := false |}.

Definition instanceOf (id : ClassId) : Type_ := Class (classOf id true).

Definition strLiteral (value : string) : Type_ :=
  Class (cloneWithLiteral (classOf strId true) (LiteralString value)).

(** The annotation of a field is a parse node; the table gives what the
    evaluator makes of it. *)
Inductive Annotation :=
  | Plain (id : ClassId)
  | RequiredOf (id : ClassId)
  | NotRequiredOf (id : ClassId)
  | ReadOnlyOf (id : ClassId)
  | ReadOnlyNotRequiredOf (id : ClassId).

Definition annotationAt (node : ParseNode) : Annotation :=
  match node with
  | 100 => Plain intId
  | 101 => ReadOnlyOf intId
  | 102 => NotRequiredOf strId
  | 103 => Plain boolId
  | 104 => ReadOnlyNotRequiredOf objectId
  | 105 => NotRequiredOf intId
  | 106 => ReadOnlyNotRequiredOf intId
  | 107 => RequiredOf intId
  | _ => Plain objectId
  end.

Definition annotatedClass (a : Annotation) : ClassId :=
  match a with
  | Plain id | RequiredOf id | NotRequiredOf id | ReadOnlyOf id
  | ReadOnlyNotRequiredOf id => id
  end.

Definition annotationResult (node : ParseNode) : TypeResult.t :=
  let a := annotationAt node in
  {| TypeResult.type := instanceOf (annotatedClass a);
     TypeResult.isIncomplete := false;
     TypeResult.isReadOnly :=
       match a with ReadOnlyOf _ | ReadOnlyNotRequiredOf _ => true | _ => false end;
     TypeResult.isRequired := match a with RequiredOf _ => true | _ => false end;
     TypeResult.isNotRequired :=
       match a with NotRequiredOf _ | ReadOnlyNotRequiredOf _ => true | _ => false end |}.

Definition field (name : string) (annotation : ParseNode) : string * Symbol.t :=
  (name,
   {| Symbol.flags := {| ClassMember := false; InstanceMember := true;
                         IgnoredForProtocolMatch := false |};
      Symbol.declarations :=
        [{| Declaration.type := VariableDeclaration;
            Declaration.node := annotation;
            Declaration.typeAnnotationNode := Some annotation |}];
      Symbol.synthesizedType := None |}).

Definition builtIn (name : string) : ClassDetails.t :=
  {| ClassDetails.name := name;
     ClassDetails.flags := {| BuiltInClass := true; TypedDictClass := false;
                              CanOmitDictValues := false |};
     ClassDetails.typeParameters := [];
     ClassDetails.typeVarScopeId := None;
     ClassDetails.baseClasses := [];
     ClassDetails.fields := [];
     ClassDetails.typedDictEntries := None |}.

Definition typedDict (name : string) (total : bool) (bases : list ClassId)
    (fields : JsMap.t Symbol.t) : ClassDetails.t :=
  {| ClassDetails.name := name;
     ClassDetails.flags := {| BuiltInClass := false; TypedDictClass := true;
                              CanOmitDictValues := negb total |};
     ClassDetails.typeParameters := [];
     ClassDetails.typeVarScopeId := None;
     ClassDetails.baseClasses := map (fun id => Class (classOf id false)) bases;
     ClassDetails.fields := fields;
     ClassDetails.typedDictEntries := None |}.

Definition details (id : ClassId) : ClassDetails.t :=
  match id with
  | 1 => builtIn "int"
  | 2 => builtIn "str"
  | 3 => builtIn "object"
  | 4 => builtIn "bool"
  | 5 => builtIn "tuple"
  | 6 => builtIn "None"
  | 10 => typedDict "Point" true []
            [field "x" 100; field "y" 101; field "label" 102]
  | 11 => typedDict "Writable" true [] [field "v" 100]
  | 12 => typedDict "ReadOnlyView" true [] [field "v" 101]
  | 13 => typedDict "BoolSource" true [] [field "v" 103]
  | 14 => typedDict "WithExtra" true [] [field "v" 100; field "extra" 104]
  | 15 => typedDict "TwoFields" true [] [field "v" 100; field "w" 100]
  | 16 => typedDict "Mixed" true [] [field "a" 105; field "b" 106]
  | 17 => typedDict "NonTotal" false [pointId] [field "n" 100; field "r" 107]
  | _ => builtIn "object"
  end.

Definition store : Store :=
  {| classDetails := details;
     entryHeap := fun _ =>
       {| TypedDictEntry.valueType := Unknown;
          TypedDictEntry.isRequired := false;
          TypedDictEntry.isReadOnly := false;
          TypedDictEntry.isProvided := false |};
     nextEntry := 0;
     reported := [] |}.

Definition enforceInvariance : Z := 1.

Definition isSubclass (flags : Z) (dest src : ClassId) : bool :=
  Nat.eqb dest src
  || (Z.eqb (Z.land flags enforceInvariance) 0
      && (Nat.eqb dest objectId || (Nat.eqb dest intId && Nat.eqb src boolId))).

Definition assignable (flags : Z) (dest src : Type_) : bool :=
  match dest, src with
  | Any _, _ | Unknown, _ | _, Any _ | _, Unknown => true
  | Class d, Class s => isSubclass flags (ClassType.details d) (ClassType.details s)
  | _, _ => false
  end.

Definition printed (type : Type_) : string :=
  match type with
  | Class c => ClassDetails.name (details (ClassType.details c))
  | _ => "Unknown"
  end.

Definition evaluator : TypeEvaluator :=
  {| getNoneType := instanceOf noneId;
     getObjectType := instanceOf objectId;
     getTupleClassType := Some (Class (classOf tupleId false));
     getBuiltInType := fun _ name =>
       if String.eqb name "str" then Class (classOf strId false)
       else if String.eqb name "tuple" then Class (classOf tupleId false)
       else Unknown;
     getTypingType := fun _ _ => None;
     getEffectiveTypeOfSymbol := fun symbol =>
       match last (Symbol.declarations symbol) with
       | Some decl => TypeResult.type (annotationResult (Declaration.node decl))
       | None => Unknown
       end;
     getTypeOfExpression := fun node =>
       {| TypeResult.type :=
            match node with
            | 200 => strLiteral "x"
            | 201 => strLiteral "label"
            | 202 => strLiteral "z"
            | 203 => instanceOf strId
            | _ => Unknown
            end;
          TypeResult.isIncomplete := false;
          TypeResult.isReadOnly := false;
          TypeResult.isRequired := false;
          TypeResult.isNotRequired := false |};
     getTypeOfExpressionExpectingType := annotationResult;
     printType := printed;
     assignType := fun dest src typeVarContext flags _ =>
       {| AssignTypeResult.isAssignable := assignable flags dest src;
          AssignTypeResult.typeVarContext := typeVarContext;
          AssignTypeResult.written :=
            if assignable flags dest src then Addendum.new
            else Addendum.addMessage (otherAddendum "type mismatch") Addendum.new |} |}.

Definition utils : TypeUtils :=
  {| maxTypeRecursionCount := 16;
     EnforceInvariance := enforceInvariance;
     RetainLiteralsForTypeVar := 64;
     applySolvedTypeVars := fun type _ => type;
     applySolvedTypeVarsToClass := fun type _ => type;
     buildTypeVarContextFromSpecializedClass := fun _ _ => TypeVarContext.new None;
     partiallySpecializeType := fun type _ => type;
     combineTypes := fun types =>
       match types with
       | [] => Never
       | [type] => type
       | _ => Union types
       end;
     specializeTupleClass := fun type typeArgs isTypeArgumentExplicit =>
       {| ClassType.flags := ClassType.flags type;
          ClassType.details := ClassType.details type;
          ClassType.typeArguments := Some (map fst typeArgs);
          ClassType.isTypeArgumentExplicit := isTypeArgumentExplicit;
          ClassType.tupleTypeArguments := Some typeArgs;
          ClassType.literalValue := ClassType.literalValue type;
          ClassType.typedDictNarrowedEntries := ClassType.typedDictNarrowedEntries type;
          ClassType.isTypedDictPartial := ClassType.isTypedDictPartial type |};
     getLastTypedDeclaredForSymbol := fun symbol => last (Symbol.declarations symbol);
     getScopeIdForNode := fun _ => "scope";
     isWithinTryBlock := fun _ _ => false;
     isEmpty := Addendum.isEmpty |}.

(** A key or a value of a dictionary display, with the node it came from. *)
Definition typed (type : Type_) (node : ParseNode) : TypeResultWithNode.t :=
  {| TypeResultWithNode.result :=
       {| TypeResult.type := type;
          TypeResult.isIncomplete := false;
          TypeResult.isReadOnly := false;
          TypeResult.isRequired := false;
          TypeResult.isNotRequired := false |};
     TypeResultWithNode.node := node |}.

Definition point : ClassType := classOf pointId true.
Definition writable : ClassType := classOf writableId true.
Definition readOnlyView : ClassType := classOf readOnlyId true.
Definition boolSource : ClassType := classOf boolSourceId true.
Definition withExtra : ClassType := classOf withExtraId true.
Definition twoFields : ClassType := classOf twoFieldsId true.
Definition nonTotal : ClassType := classOf nonTotalId true.

(** The class [Mixed], as the class statement hands it to the synthesis. *)
Definition mixed : ClassType := classOf mixedId false.

(** The store once the entries of [Point] have been asked for: its table is
    cached. *)
Definition cachedStore : Store :=
  snd (getTypedDictMembersForClass utils evaluator point false store).

(** The subscripts [d[]], [d["x"]] and [d["x", "label"]] of a [Point]. *)
Definition indexItem (expression : ParseNode) : Argument.t :=
  {| Argument.name := None;
     Argument.argumentCategory := SimpleArgument;
     Argument.valueExpression := expression |}.

Definition indexOf (items : list Argument.t) : IndexNode.t :=
  {| IndexNode.id := 300; IndexNode.items := items; IndexNode.trailingComma := false |}.

Definition noItem : IndexNode.t := indexOf [].
Definition oneItem : IndexNode.t := indexOf [indexItem 200].
Definition twoItems : IndexNode.t := indexOf [indexItem 200; indexItem 201].

(** The dictionary displays [{"x": 1, "y": 2}], [{"x": 1, "z": 2}] and
    [{k: 1}] for a [k] that is a plain [str]. *)
Definition pointKeys : list TypeResultWithNode.t :=
  [typed (strLiteral "x") 1; typed (strLiteral "y") 3].
Definition pointValues : list TypeResultWithNode.t :=
  [typed (instanceOf intId) 2; typed (instanceOf intId) 4].
Definition unknownKeys : list TypeResultWithNode.t :=
  [typed (strLiteral "x") 1; typed (strLiteral "z") 3].
Definition plainKeys : list TypeResultWithNode.t := [typed (instanceOf strId) 1].
Definition plainValues : list TypeResultWithNode.t := [typed (instanceOf intId) 2].

Definition read : EvaluatorUsage.t :=
  {| EvaluatorUsage.method := get;
     EvaluatorUsage.setType := None;
     EvaluatorUsage.setExpectedTypeDiag := None |}.

End Example.

(** ** [common/diagnostics.ts]: the rest of [DiagnosticSink] *)
Module DiagnosticSinkOps.
Import DiagnosticSink.

#[global] Instance DiagnosticCategory_eq_dec : EqDecision DiagnosticCategory.
Proof. solve_decision. Defined.

(** [this.diagnosticList.filter((diag) => diag.category === c)] *)
Definition withCategory (c : DiagnosticCategory) (this : Sink) : list Diagnostic :=
  List.filter (fun diag => bool_decide (category diag = c)) (diagnosticList this).

Definition getErrors := withCategory Error.
Definition getWarnings := withCategory Warning.
Definition getInformation := withCategory Information.
Definition getUnusedCode := withCategory UnusedCode.
Definition getUnreachableCode := withCategory UnreachableCode.
Definition getDeprecated := withCategory Deprecated.

Section Ops.
Variable hashString : string -> Z.

(** [Diagnostic.addAction] and [Diagnostic.copy] belong to
    [common/diagnostic.ts], which is not among the sources: they are
    parameters. *)
Variable DiagnosticAction : Type.
Variable addAction : DiagnosticAction -> Diagnostic -> Diagnostic.
Variable copyDiagnostic : Diagnostic -> Diagnostic.

(** The body shared by [addUnusedCode], [addUnreachableCode] and
    [addDeprecated] (lines 55-77). *)
Definition addWithAction (c : DiagnosticCategory) (this : Sink) (message : string)
    (range : Range) (action : option DiagnosticAction) : Diagnostic * Sink :=
  let diag := {| category := c; message := message; range := range |} in
  let diag :=
    match action with
    | Some action => addAction action diag
    | None => diag
    end in
  addDiagnostic hashString this diag.

Definition addUnusedCode := addWithAction UnusedCode.
Definition addUnreachableCode := addWithAction UnreachableCode.
Definition addDeprecated := addWithAction Deprecated.

(** [copy()] (lines 119-124): the list and the values of the map are copied,
    the keys of the map are carried over. *)
Definition copy (this : Sink) : Sink :=
  {| diagnosticList := map copyDiagnostic (diagnosticList this);
     diagnosticMap := copyDiagnostic <$> diagnosticMap this |}.

(** A call of one of the methods that change a sink. *)
Inductive SinkCall :=
  | AddDiagnostic (diag : Diagnostic)
  | AddDiagnostics (diagsToAdd : list Diagnostic)
  | FetchAndClear.

Definition call (this : Sink) (c : SinkCall) : Sink :=
  match c with
  | AddDiagnostic diag => snd (addDiagnostic hashString this diag)
  | AddDiagnostics diagsToAdd => addDiagnostics this diagsToAdd
  | FetchAndClear => snd (fetchAndClear this)
  end.

Definition calls (this : Sink) (cs : list SinkCall) : Sink := fold_left call cs this.

(** The calls that go through the map. *)
Definition deduplicating (c : SinkCall) : bool :=
  match c with
  | AddDiagnostics _ => false
  | _ => true
  end.

(** Every diagnostic of the map is stored under its own key and is in the
    list. *)
Definition mapListed (s : Sink) : Prop :=
  ∀ k d, diagnosticMap s !! k = Some d → k = diagnosticKey hashString d ∧ d ∈ diagnosticList s.

(** The list holds one diagnostic per key, and the map holds the list. *)
Definition oncePerKey (s : Sink) : Prop :=
  NoDup (map (diagnosticKey hashString) (diagnosticList s)) ∧
  ∀ k d, diagnosticMap s !! k = Some d ↔ d ∈ diagnosticList s ∧ diagnosticKey hashString d = k.

End Ops.
End DiagnosticSinkOps.

(** ** Tables as their contents

    The functions of [typedDicts.ts] hand out tables of entry objects; the
    definitions below name the entries behind the references, which is what a
    caller reads. *)
Module Views.
Import Types TypedDicts.

(** The table that starts empty and has the pairs set in order. *)
Definition tableOf {V : Type} (pairs : list (string * V)) : JsMap.t V :=
  fold_left (fun m kv => JsMap.set (fst kv) (snd kv) m) pairs JsMap.empty.

(** What the subscript check relies on of [addendum.isEmpty()]: an addendum
    that holds a message is not empty, and one that holds no message and has
    no child is empty.  Nothing is assumed about an addendum that holds no
    message itself and has children. *)
Definition emptyWithoutMessages (isEmpty : DiagnosticAddendum -> bool) : Prop :=
  (forall diag, messages diag <> [] -> isEmpty diag = false) /\
  (forall diag, messages diag = [] -> childAddenda diag = [] -> isEmpty diag = true).

(** A subscript with exactly one item, which is a simple argument without
    keyword, and no trailing comma: the shape that
    [getTypeOfIndexedTypedDict] handles. *)
Definition singleItem (node : IndexNode.t) (item : Argument.t) : Prop :=
  IndexNode.items node = [item] /\
  IndexNode.trailingComma node = false /\
  Argument.name item = None /\
  Argument.argumentCategory item = SimpleArgument.

(** A diagnostic of a subscript check, as [evaluator.addDiagnostic] gets it. *)
Definition subscriptReport (rule : DiagnosticRule) (message : LocMessage)
    (addendum : DiagnosticAddendum) (node : IndexNode.t) : ReportedDiagnostic :=
  {| rule := rule; message := message; addendum := addendum;
     errorNode := IndexNode.id node |}.

(** An addendum that holds the given messages and nothing else. *)
Definition addendumOf (messages : list LocAddendum) : DiagnosticAddendum :=
  {| messages := messages; range := None; childAddenda := [] |}.

(** The names under which [synthesizeTypedDictClassMethods] may store a
    method. *)
Definition synthesizedNames : list string :=
  ["__init__"; "__new__"; "get"; "pop"; "setdefault"; "__delitem__"; "update";
   "clear"; "popitem"].

(** The key is a string literal that spells [name]. *)
Definition namesKey (store : Store) (name : string) (key : TypeResultWithNode.t)
  : bool :=
  match stringLiteralKey store (TypeResult.type key) with
  | Some keyValue => String.eqb keyValue name
  | None => false
  end.

(** The required entries that none of the keys names, in table order. *)
Definition missingKeys (store : Store) (declared : JsMap.t TypedDictEntry)
    (keyTypes : list TypeResultWithNode.t) : list string :=
  map fst
    (List.filter
       (fun kv => TypedDictEntry.isRequired (snd kv)
                  && negb (existsb (namesKey store (fst kv)) keyTypes))
       declared).

(** Narrowed entries that come from the keys of a construction: each one
    stands for a key that names a declared entry that is not required, and
    holds the type of the value supplied for it; and each such key has one. *)
Definition narrowedFrom (store : Store) (declared : JsMap.t TypedDictEntry)
    (keyTypes valueTypes : list TypeResultWithNode.t)
    (narrowed : JsMap.t TypedDictEntry) : Prop :=
  (forall name entry, JsMap.get name narrowed = Some entry ->
     TypedDictEntry.isProvided entry = true /\
     TypedDictEntry.isRequired entry = false /\
     (exists declaredEntry,
        JsMap.get name declared = Some declaredEntry /\
        TypedDictEntry.isRequired declaredEntry = false) /\
     exists index (key value : TypeResultWithNode.t),
       keyTypes !! index = Some key /\
       stringLiteralKey store (TypeResult.type key) = Some name /\
       valueTypes !! index = Some value /\
       TypedDictEntry.valueType entry = TypeResult.type value /\
       TypedDictEntry.isReadOnly entry = TypeResult.isReadOnly value) /\
  (forall index (key : TypeResultWithNode.t) name declaredEntry,
     keyTypes !! index = Some key ->
     stringLiteralKey store (TypeResult.type key) = Some name ->
     JsMap.get name declared = Some declaredEntry ->
     TypedDictEntry.isRequired declaredEntry = false ->
     is_Some (JsMap.get name narrowed)).

Section WithUtils.
Context (utils : TypeUtils) (evaluator : TypeEvaluator).

(** The entries that [getTypedDictMembersForClass] returns. *)
Definition memberEntries (classType : ClassType) (allowNarrowed : bool)
    (store : Store) : JsMap.t TypedDictEntry :=
  let result := getTypedDictMembersForClass utils evaluator classType allowNarrowed store in
  entriesOf (snd result) (fst result).

(** The cached entries of the class, once the cache is filled. *)
Definition cachedEntries (classType : ClassType) (store : Store)
  : list (string * TypedDictEntry) :=
  let store := ensureTypedDictEntries utils evaluator classType store in
  match ClassDetails.typedDictEntries (detailsOf store classType) with
  | Some cached => entriesOf store cached
  | None => []
  end.

(** The type variable context that the copies are specialized with. *)
Definition memberContext (classType : ClassType) (store : Store) : TypeVarContext.t :=
  buildTypeVarContextFromSpecializedClass utils
    (detailsOf (ensureTypedDictEntries utils evaluator classType store) classType)
    classType.

(** The cached entries specialized, followed by the narrowed entries
    specialized when they are asked for. *)
Definition specializedEntries (classType : ClassType) (allowNarrowed : bool)
    (store : Store) : list (string * TypedDictEntry) :=
  let typeVarContext := memberContext classType store in
  map (fun kv => (fst kv, specializeEntry utils classType typeVarContext (snd kv)))
    (cachedEntries classType store) ++
  match allowNarrowed, ClassType.typedDictNarrowedEntries classType with
  | true, Some narrowed =>
      map (fun kv => (fst kv, specializeNarrowedEntry utils typeVarContext (snd kv)))
        narrowed
  | _, _ => []
  end.


(** What one turn of the loop of [assignTypedDictToTypedDict] decides
    about the destination entry it is at: whether it leaves
    [typesAreConsistent] as it finds it (lines 892-973).  [typeVarContext] is
    the context that the turns before it have left. *)
Definition fieldAccepted (store : Store) (flags : Z) (recursionCount : nat)
    (srcEntries : JsMap.t EntryRef) (typeVarContext : option TypeVarContext.t)
    (dest : string * EntryRef) : bool :=
  let destEntry := entryHeap store (snd dest) in
  match JsMap.get (fst dest) srcEntries with
  | None =>
      negb (TypedDictEntry.isRequired destEntry || negb (TypedDictEntry.isReadOnly destEntry))
      && (if isClassInstance (getObjectType evaluator)
          then AssignTypeResult.isAssignable
                 (assignType evaluator (TypedDictEntry.valueType destEntry)
                    (getObjectType evaluator) typeVarContext flags recursionCount)
          else true)
  | Some srcRef =>
      let srcEntry := entryHeap store srcRef in
      negb (negb (Bool.eqb (TypedDictEntry.isRequired destEntry)
                    (TypedDictEntry.isRequired srcEntry))
            && negb (TypedDictEntry.isReadOnly destEntry))
      && negb (negb (TypedDictEntry.isReadOnly destEntry)
               && TypedDictEntry.isReadOnly srcEntry)
      && AssignTypeResult.isAssignable
           (assignType evaluator (TypedDictEntry.valueType destEntry)
              (TypedDictEntry.valueType srcEntry) typeVarContext
              (if negb (TypedDictEntry.isReadOnly destEntry)
               then Z.lor flags (EnforceInvariance utils)
               else flags)
              recursionCount)
  end.

(** The addendum that a subscript check reports: the one of an assignment's
    expected type, when there is one that is not empty (lines 1200-1205). *)
Definition shownAddendum (usage : EvaluatorUsage.t) (diag : DiagnosticAddendum)
  : DiagnosticAddendum :=
  match EvaluatorUsage.setExpectedTypeDiag usage with
  | Some setExpectedTypeDiag =>
      if negb (isEmpty utils setExpectedTypeDiag) then setExpectedTypeDiag else diag
  | None => diag
  end.

(** The entries that a subscript check looks the key up in. *)
Definition subscriptEntries (baseType : ClassType) (usage : EvaluatorUsage.t)
    (store : Store) : JsMap.t TypedDictEntry :=
  memberEntries baseType
    (match EvaluatorUsage.method usage with get => true | _ => false end) store.

End WithUtils.
End Views.

(** ** The nodes a walk gets to *)
Module TypeWalkerReach.
Import TypeWalker.

(** [type.details.declaredReturnType ?? type.inferredReturnType], as a list. *)
Definition returnTypes (declaredReturnType inferredReturnType : option TypeId)
  : list TypeId :=
  match declaredReturnType with
  | Some returnType => [returnType]
  | None =>
      match inferredReturnType with
      | Some returnType => [returnType]
      | None => []
      end
  end.

(** The types that the visit methods hand to [walk] for one node, in the
    order of the calls: the type arguments of the alias, then what the
    method of the category walks. *)
Definition components (type : Type_) : list TypeId :=
  match typeAliasInfo type with
  | Some info =>
      match aliasTypeArguments info with
      | Some typeArguments => typeArguments
      | None => []
      end
  | None => []
  end ++
  match details type with
  | Function parameters isParamSpecValue declaredReturnType inferredReturnType =>
      map effectiveParameterType (List.filter hasName parameters) ++
      (if isParamSpecValue then []
       else returnTypes declaredReturnType inferredReturnType)
  | OverloadedFunction overloads => overloads
  | Class isPseudoGenericClass tupleTypeArguments typeArguments =>
      if isPseudoGenericClass then []
      else
        match tupleTypeArguments with
        | Some typeArgs => typeArgs
        | None =>
            match typeArguments with
            | Some typeArgs => typeArgs
            | None => []
            end
        end
  | Union subtypes => subtypes
  | Intersection subtypes => subtypes
  | Unbound | Any | Unknown | Never | Module | TypeVar => []
  end.

(** The nodes that can be got to from a node through components. *)
Inductive reachable (graph : TypeGraph) : TypeId -> TypeId -> Prop :=
  | reachable_here (t : TypeId) : reachable graph t t
  | reachable_through (t c u : TypeId) :
      In c (components (graph t)) -> reachable graph c u -> reachable graph t u.

(** A walker that was not canceled and did not hit the recursion limit. *)
Definition undisturbed (this : Walker) : Prop :=
  isWalkCanceled this = false /\ isRecursionLimitHit this = false.

(** What a call of [walk] on [t] has done when nothing disturbed it. *)
Definition walked (graph : TypeGraph) (t : TypeId) (w w' : Walker) : Prop :=
  undisturbed w' ∧ recursionCount w' = recursionCount w ∧
  visited w `prefix_of` visited w' ∧
  ∀ u, reachable graph t u → In u (visited w').

(** A chain of three unions: [2] holds [1], which holds [0]. *)
Definition chain : TypeGraph := fun t =>
  match t with
  | 2 => {| typeAliasInfo := None; details := Union [1] |}
  | 1 => {| typeAliasInfo := None; details := Union [0] |}
  | _ => {| typeAliasInfo := None; details := Any |}
  end.

End TypeWalkerReach.

(** ** [analyzer/typedDicts.ts]: the fields of the functional syntax

    [TypedDict('Point', {'x': int, 'y': int})] and the inlined [dict[{...}]]
    take their fields from a dictionary display.  The parse nodes carry what
    [getTypedDictFieldsFromDictSyntax] reads of them; the calls to the
    evaluator are kept as logs, in order. *)
Module Factory.
Import Types.

Record TextRange := { start : nat; length : nat }.

(** [TextRange.getEnd] *)
Definition getEnd (range : TextRange) : nat := start range + length range.

(** An expression is a [StringList] node with the values of its strings, or
    a node of another type. *)
Inductive ExpressionNode :=
  | StringList (range : TextRange) (strings : list string)
  | OtherExpression (range : TextRange).

Definition rangeOf (node : ExpressionNode) : TextRange :=
  match node with
  | StringList range _ => range
  | OtherExpression range => range
  end.

(** The entries of a dictionary display: [key: value], [**expr] and a
    comprehension. *)
Inductive DictionaryEntryNode :=
  | DictionaryKeyEntry (keyExpression valueExpression : ExpressionNode)
  | DictionaryExpandEntry (expandExpression : ExpressionNode)
  | ListComprehension (range : TextRange).

Record DictionaryNode := {
  dictionaryRange : TextRange;
  entries : list DictionaryEntryNode;
}.

(** The node a diagnostic is attached to. *)
Inductive ErrorNode :=
  | AtEntry (entry : DictionaryEntryNode)
  | AtExpression (expression : ExpressionNode).

Inductive FactoryMessage :=
  | typedDictSecondArgDictEntry
  | typedDictEntryName
  | typedDictEmptyName
  | typedDictEntryUnique.

(** One call of [evaluator.addDiagnostic]; the rule is
    [reportGeneralTypeIssues] in every call of the function. *)
Record FactoryDiagnostic := {
  message : FactoryMessage;
  errorNode : ErrorNode;
}.

(** What the function reads of [AnalyzerNodeInfo.getFileInfo]. *)
Record FileInfo := {
  fileUri : string;
  moduleName : string;
}.

Section WithRange.
(** The ranges of [common/textRange.ts] and
    [convertOffsetsToRange(start, end, fileInfo.lines)], which are not part
    of the file. *)
Context {Range : Type} (convertOffsetsToRange : nat -> nat -> Range).

(** [VariableDeclaration] of [declaration.ts], with the fields that the
    function sets. *)
Record FieldDeclaration := {
  declarationType : DeclarationType;
  node : ExpressionNode;
  uri : string;
  typeAnnotationNode : ExpressionNode;
  isRuntimeTypeExpression : bool;
  range : Range;
  declarationModuleName : string;
  isInExceptSuite : bool;
}.

(** [new Symbol(flags)] with the declarations added to it. *)
Record FieldSymbol := {
  flags : SymbolFlags;
  declarations : list FieldDeclaration;
}.

(** The symbol table that is written, the names seen so far (a [Set], of
    which only membership is read), and the two logs of the evaluator. *)
Record FactoryState := {
  classFields : JsMap.t FieldSymbol;
  entrySet : list string;
  reportedDiagnostics : list FactoryDiagnostic;
  typeResults : list (DictionaryNode * Type_);
}.

Definition addFactoryDiagnostic (message : FactoryMessage) (errorNode : ErrorNode)
    (state : FactoryState) : FactoryState :=
  {| classFields := classFields state;
     entrySet := entrySet state;
     reportedDiagnostics :=
       reportedDiagnostics state ++ [{| message := message; errorNode := errorNode |}];
     typeResults := typeResults state |}.

(** [evaluator.setTypeResultForNode(node, { type })] *)
Definition setTypeResultForNode (node : DictionaryNode) (type : Type_)
    (state : FactoryState) : FactoryState :=
  {| classFields := classFields state;
     entrySet := entrySet state;
     reportedDiagnostics := reportedDiagnostics state;
     typeResults := typeResults state ++ [(node, type)] |}.

(** [entry.keyExpression.strings.map((s) => s.value).join('')] *)
Definition joinStrings (strings : list string) : string := String.concat "" strings.

(** [entrySet.has(entryName)] *)
Definition has (entryName : string) (entrySet : list string) : bool :=
  existsb (String.eqb entryName) entrySet.

(** The symbol made for a [key: value] entry (lines 795-812). *)
Definition fieldSymbol (fileInfo : FileInfo) (isInline : bool)
    (keyExpression valueExpression : ExpressionNode) : FieldSymbol :=
  {| flags := {| ClassMember := false; InstanceMember := true;
                 IgnoredForProtocolMatch := false |};
     declarations :=
       [{| declarationType := VariableDeclaration;
           node := keyExpression;
           uri := fileUri fileInfo;
           typeAnnotationNode := valueExpression;
           isRuntimeTypeExpression := negb isInline;
           range :=
             convertOffsetsToRange (start (rangeOf keyExpression))
               (getEnd (rangeOf keyExpression));
           declarationModuleName := moduleName fileInfo;
           isInExceptSuite := false |}] |}.

(** The body of [entryDict.entries.forEach] (lines 756-815). *)
Definition addDictEntry (fileInfo : FileInfo) (isInline : bool)
    (state : FactoryState) (entry : DictionaryEntryNode) : FactoryState :=
  match entry with
  | DictionaryKeyEntry keyExpression valueExpression =>
      match keyExpression with
      | StringList _ strings =>
          let entryName := joinStrings strings in
          if String.eqb entryName "" then
            addFactoryDiagnostic typedDictEmptyName (AtExpression keyExpression) state
          else if has entryName (entrySet state) then
            addFactoryDiagnostic typedDictEntryUnique (AtExpression keyExpression) state
          else
            {| classFields :=
                 JsMap.set entryName
                   (fieldSymbol fileInfo isInline keyExpression valueExpression)
                   (classFields state);
               entrySet := entrySet state ++ [entryName];
               reportedDiagnostics := reportedDiagnostics state;
               typeResults := typeResults state |}
      | OtherExpression _ =>
          addFactoryDiagnostic typedDictEntryName (AtExpression keyExpression) state
      end
  | _ => addFactoryDiagnostic typedDictSecondArgDictEntry (AtEntry entry) state
  end.

(** Lines 746-819.  The function starts with an empty [entrySet] whatever
    the symbol table holds, and ends by setting the type of the dictionary
    node to [Unknown]. *)
Definition getTypedDictFieldsFromDictSyntax (fileInfo : FileInfo)
    (entryDict : DictionaryNode) (isInline : bool)
    (classFields : JsMap.t FieldSymbol)
    (reportedDiagnostics : list FactoryDiagnostic)
    (typeResults : list (DictionaryNode * Type_)) : FactoryState :=
  let state :=
    fold_left (addDictEntry fileInfo isInline) (entries entryDict)
      {| classFields := classFields;
         entrySet := [];
         reportedDiagnostics := reportedDiagnostics;
         typeResults := typeResults |} in
  setTypeResultForNode entryDict Unknown state.

(** The name that an entry declares, when it is a [key: value] entry whose
    key is a string that is not empty. *)
Definition declaredName (entry : DictionaryEntryNode) : option string :=
  match entry with
  | DictionaryKeyEntry (StringList _ strings) _ =>
      if String.eqb (joinStrings strings) "" then None else Some (joinStrings strings)
  | _ => None
  end.

End WithRange.

Arguments FieldDeclaration : clear implicits.
Arguments FieldSymbol : clear implicits.
Arguments FactoryState : clear implicits.

End Factory.

(** ** More of the small program *)
Module MoreExamples.
Import Types TypedDicts Example.

(** The view of a [Point] that [update] takes. *)
Definition partialPoint : ClassType := cloneForPartialTypedDict point.

(** The class [ReadOnlyView], as the class statement hands it to the
    synthesis. *)
Definition readOnlyClass : ClassType := classOf readOnlyId false.

(** The subscripts [d["label"]], [d["z"]] and [d[k]] for a [k] that is a
    plain [str]. *)
Definition labelSubscript : IndexNode.t := indexOf [indexItem 201].
Definition unknownSubscript : IndexNode.t := indexOf [indexItem 202].
Definition plainSubscript : IndexNode.t := indexOf [indexItem 203].

(** [del d[...]] and [d[...] = value] for a value of the given type. *)
Definition delete : EvaluatorUsage.t :=
  {| EvaluatorUsage.method := del;
     EvaluatorUsage.setType := None;
     EvaluatorUsage.setExpectedTypeDiag := None |}.

Definition assign (type : Type_) : EvaluatorUsage.t :=
  {| EvaluatorUsage.method := set;
     EvaluatorUsage.setType :=
       Some {| TypeResult.type := type;
               TypeResult.isIncomplete := false;
               TypeResult.isReadOnly := false;
               TypeResult.isRequired := false;
               TypeResult.isNotRequired := false |};
     EvaluatorUsage.setExpectedTypeDiag := None |}.

(** The cached table of [Point]. *)
Definition pointTable : JsMap.t EntryRef := [("x", 0); ("y", 1); ("label", 2)].

(** The dictionary displays [{"label": "a"}] and
    [{"x": 1, "y": 2, "label": "a"}]. *)
Definition labelKeys : list TypeResultWithNode.t := [typed (strLiteral "label") 1].
Definition labelValues : list TypeResultWithNode.t := [typed (instanceOf strId) 2].
Definition fullKeys : list TypeResultWithNode.t :=
  [typed (strLiteral "x") 1; typed (strLiteral "y") 3; typed (strLiteral "label") 5].
Definition fullValues : list TypeResultWithNode.t :=
  [typed (instanceOf intId) 2; typed (instanceOf intId) 4; typed (instanceOf strId) 6].

Definition entryOf (type : Type_) (isRequired isReadOnly isProvided : bool)
  : TypedDictEntry :=
  {| TypedDictEntry.valueType := type;
     TypedDictEntry.isReadOnly := isReadOnly;
     TypedDictEntry.isRequired := isRequired;
     TypedDictEntry.isProvided := isProvided |}.

(** A class that declares [x] again: [class Override(Point)] with
    [x: NotRequired[str]]. *)
Definition overrideId : ClassId := 20.
Definition override : ClassType := classOf overrideId true.
Definition overridingStore : Store :=
  {| classDetails := fun id =>
       if Nat.eqb id overrideId
       then typedDict "Override" true [pointId] [field "x" 102]
       else details id;
     entryHeap := entryHeap store;
     nextEntry := nextEntry store;
     reported := reported store |}.

(** A class that annotates [x] twice:
    [class Twice(TypedDict, total=False)] with [x: Required[int]] and then
    [x: NotRequired[int]].  The symbol [x] has the two declarations. *)
Definition twiceId : ClassId := 21.
Definition twice : ClassType := classOf twiceId true.
Definition annotatedAt (annotation : ParseNode) : Declaration.t :=
  {| Declaration.type := VariableDeclaration;
     Declaration.node := annotation;
     Declaration.typeAnnotationNode := Some annotation |}.
Definition declaredTwice : Symbol.t :=
  {| Symbol.flags := {| ClassMember := false; InstanceMember := true;
                        IgnoredForProtocolMatch := false |};
     Symbol.declarations := [annotatedAt 107; annotatedAt 105];
     Symbol.synthesizedType := None |}.
Definition twiceStore : Store :=
  {| classDetails := fun id =>
       if Nat.eqb id twiceId
       then typedDict "Twice" false [] [("x", declaredTwice)]
       else details id;
     entryHeap := entryHeap store;
     nextEntry := nextEntry store;
     reported := reported store |}.

(** The dictionary [{'x': int, 'x': str, **more}] of the functional syntax;
    a range is kept as its two offsets. *)
Definition keyX : Factory.ExpressionNode :=
  Factory.StringList {| Factory.start := 1; Factory.length := 3 |} ["x"].
Definition secondKeyX : Factory.ExpressionNode :=
  Factory.StringList {| Factory.start := 11; Factory.length := 3 |} ["x"].
Definition annotationInt : Factory.ExpressionNode :=
  Factory.OtherExpression {| Factory.start := 6; Factory.length := 3 |}.
Definition annotationStr : Factory.ExpressionNode :=
  Factory.OtherExpression {| Factory.start := 16; Factory.length := 3 |}.
Definition functionalDict : Factory.DictionaryNode :=
  {| Factory.dictionaryRange := {| Factory.start := 0; Factory.length := 30 |};
     Factory.entries :=
       [Factory.DictionaryKeyEntry keyX annotationInt;
        Factory.DictionaryKeyEntry secondKeyX annotationStr;
        Factory.DictionaryExpandEntry
          (Factory.OtherExpression {| Factory.start := 23; Factory.length := 4 |})] |}.
Definition thisFile : Factory.FileInfo :=
  {| Factory.fileUri := "file:///point.py"; Factory.moduleName := "point" |}.

(** An evaluator for which the expression [204] is of the type
    [Literal["x", "label", "z"]], and the subscript [d[k]] for such a [k]. *)
Definition unionEvaluator : TypeEvaluator :=
  {| getNoneType := getNoneType evaluator;
     getObjectType := getObjectType evaluator;
     getTupleClassType := getTupleClassType evaluator;
     getBuiltInType := getBuiltInType evaluator;
     getTypingType := getTypingType evaluator;
     getEffectiveTypeOfSymbol := getEffectiveTypeOfSymbol evaluator;
     getTypeOfExpression := fun node =>
       if Nat.eqb node 204 then
         {| TypeResult.type :=
              Union [strLiteral "x"; strLiteral "label"; strLiteral "z"];
            TypeResult.isIncomplete := false;
            TypeResult.isReadOnly := false;
            TypeResult.isRequired := false;
            TypeResult.isNotRequired := false |}
       else getTypeOfExpression evaluator node;
     getTypeOfExpressionExpectingType := getTypeOfExpressionExpectingType evaluator;
     printType := printType evaluator;
     assignType := assignType evaluator |}.
Definition unionSubscript : IndexNode.t := indexOf [indexItem 204].

End MoreExamples.
(** * Properties *)

(** ** The type walker *)
Module TypeWalkerProofs.
Import TypeWalker TypeWalkerInvariants.

Section VisitLemmas.
Context (walk walk' : Walker → TypeId → option Walker) (cancelAt : TypeId → bool).

(** Every loop of the walker only calls [walk] and tests the flag, so a
    property of [walk] that survives sequencing lifts to the visit methods. *)
Section Lift.
Context (P : Walker → Prop) (R : Walker → Walker → Prop).
Hypothesis R_refl : ∀ w, R w w.
Hypothesis R_trans : ∀ w1 w2 w3, R w1 w2 → R w2 w3 → R w1 w3.
Hypothesis P_R : ∀ w w', P w → R w w' → P w'.
Hypothesis Hwalk : ∀ w t, P w → ∃ w', walk w t = Some w' ∧ R w w'.

Lemma walkEach_lift types w :
  P w → ∃ w', walkEach walk types w = Some w' ∧ R w w'.
Proof.
  revert w. induction types as [|t rest IH]; intros w Hw; simpl.
  - eauto.
  - destruct (Hwalk w t Hw) as (w1 & -> & H1); simpl.
    destruct (isWalkCanceled w1); [eauto|].
    destruct (IH w1) as (w2 & -> & H2); eauto.
Qed.

Lemma walkParameters_lift ps w :
  P w → ∃ w', walkParameters walk ps w = Some w' ∧ R w w'.
Proof.
  revert w. induction ps as [|p rest IH]; intros w Hw; simpl.
  - eauto.
  - destruct (hasName p); [|by apply IH].
    destruct (Hwalk w (effectiveParameterType p) Hw) as (w1 & -> & H1); simpl.
    destruct (isWalkCanceled w1); [eauto|].
    destruct (IH w1) as (w2 & -> & H2); eauto.
Qed.

Lemma visitTypeAlias_lift info w :
  P w → ∃ w', visitTypeAlias walk info w = Some w' ∧ R w w'.
Proof.
  unfold visitTypeAlias. destruct (aliasTypeArguments info); eauto using walkEach_lift.
Qed.

Lemma visitFunction_lift ps psv d i w :
  P w → ∃ w', visitFunction walk ps psv d i w = Some w' ∧ R w w'.
Proof.
  intros Hw. unfold visitFunction.
  destruct (walkParameters_lift ps w Hw) as (w1 & -> & H1); simpl.
  destruct (negb (isWalkCanceled w1) && negb psv && negb psv); [|eauto].
  destruct d as [r|]; [|destruct i as [r|]]; eauto.
  - destruct (Hwalk w1 r) as (w2 & -> & H2); eauto.
  - destruct (Hwalk w1 r) as (w2 & -> & H2); eauto.
Qed.

Lemma visitClass_lift pg tup args w :
  P w → ∃ w', visitClass walk pg tup args w = Some w' ∧ R w w'.
Proof.
  intros Hw. unfold visitClass. destruct (negb pg); [|eauto].
  destruct tup; [|destruct args]; eauto using walkEach_lift.
Qed.

Hypothesis P_cancel : ∀ w, P w → P (cancelWalk w) ∧ R w (cancelWalk w).

Lemma visit_lift t type w :
  P w → ∃ w', visit cancelAt walk t type w = Some w' ∧ R w w'.
Proof.
  intros Hw. unfold visit.
  set (w0 := if cancelAt t then cancelWalk w else w).
  assert (P w0 ∧ R w w0) as [Hw0 HR0].
  { subst w0. destruct (cancelAt t); [by apply P_cancel|by split]. }
  destruct (details type); eauto.
  - destruct (visitFunction_lift parameters isParamSpecValue declaredReturnType
                inferredReturnType w0 Hw0) as (? & -> & ?); eauto.
  - destruct (walkEach_lift overloads w0 Hw0) as (? & -> & ?); eauto.
  - destruct (visitClass_lift isPseudoGenericClass tupleTypeArguments typeArguments
                w0 Hw0) as (? & -> & ?); eauto.
  - destruct (walkEach_lift subtypes w0 Hw0) as (? & -> & ?); eauto.
  - destruct (walkEach_lift subtypes w0 Hw0) as (? & -> & ?); eauto.
Qed.
End Lift.

(** More fuel only turns failures into results. *)
Section Mono.
Hypothesis Hmono : ∀ w t r, walk w t = Some r → walk' w t = Some r.

Lemma walkEach_mono types w r :
  walkEach walk types w = Some r → walkEach walk' types w = Some r.
Proof.
  revert w. induction types as [|t rest IH]; intros w; simpl; [done|].
  destruct (walk w t) as [w1|] eqn:E; simpl; [|done].
  rewrite (Hmono _ _ _ E); simpl. destruct (isWalkCanceled w1); auto.
Qed.

Lemma walkParameters_mono ps w r :
  walkParameters walk ps w = Some r → walkParameters walk' ps w = Some r.
Proof.
  revert w. induction ps as [|p rest IH]; intros w; simpl; [done|].
  destruct (hasName p); [|by apply IH].
  destruct (walk w (effectiveParameterType p)) as [w1|] eqn:E; simpl; [|done].
  rewrite (Hmono _ _ _ E); simpl. destruct (isWalkCanceled w1); auto.
Qed.

Lemma visit_mono t type w r :
  visit cancelAt walk t type w = Some r → visit cancelAt walk' t type w = Some r.
Proof.
  unfold visit, visitFunction, visitClass.
  destruct (details type); try done; try apply walkEach_mono.
  - destruct (walkParameters walk _ _) as [w1|] eqn:E; simpl; [|done].
    rewrite (walkParameters_mono _ _ _ E); simpl.
    destruct (_ && _); [|done].
    destruct declaredReturnType; [by apply Hmono|].
    destruct inferredReturnType; [by apply Hmono|done].
  - destruct (negb _); [|done].
    destruct tupleTypeArguments; [apply walkEach_mono|].
    destruct typeArguments; [apply walkEach_mono|done].
Qed.

Lemma visitTypeAlias_mono info w r :
  visitTypeAlias walk info w = Some r → visitTypeAlias walk' info w = Some r.
Proof.
  unfold visitTypeAlias. destruct (aliasTypeArguments info); [apply walkEach_mono|done].
Qed.
End Mono.
End VisitLemmas.

Section WalkLemmas.
Context (maxTypeRecursionCount : Z) (graph : TypeGraph) (cancelAt : TypeId → bool).
Abbreviation walk := (walk maxTypeRecursionCount graph cancelAt).

Lemma walk_limit fuel w t :
  (maxTypeRecursionCount < recursionCount w)%Z →
  walk fuel w t = Some (hitRecursionLimit w).
Proof. intros H. destruct fuel; simpl; by rewrite (proj2 (Z.ltb_lt _ _) H). Qed.

Lemma walk_canceled fuel w t :
  isWalkCanceled w = true →
  walk fuel w t =
    Some (if (maxTypeRecursionCount <? recursionCount w)%Z
          then hitRecursionLimit w else w).
Proof. intros H. destruct fuel; simpl; rewrite H; by destruct (_ <? _)%Z. Qed.

Lemma walk_mono fuel : ∀ fuel' w t r,
  fuel ≤ fuel' → walk fuel w t = Some r → walk fuel' w t = Some r.
Proof.
  induction fuel as [|fuel IH]; intros fuel' w t r Hle; simpl.
  - destruct (_ <? _)%Z eqn:E1.
    { intros [= <-]. apply walk_limit. by apply Z.ltb_lt. }
    destruct (isWalkCanceled w) eqn:E2; [|done].
    intros [= <-]. rewrite walk_canceled by done. by rewrite E1.
  - destruct fuel' as [|fuel']; [lia|]. simpl.
    destruct (_ <? _)%Z; [done|]. destruct (isWalkCanceled w); [done|].
    assert (Hm : ∀ w t r, walk fuel w t = Some r → walk fuel' w t = Some r).
    { intros. eapply IH; [lia|done]. }
    destruct (typeAliasInfo (graph t)) as [info|]; simpl.
    + destruct (visitTypeAlias (walk fuel) info _) as [w1|] eqn:E; simpl; [|done].
      eapply visitTypeAlias_mono in E; [|exact Hm]. rewrite E; simpl.
      destruct (visit cancelAt (walk fuel) t _ w1) as [w2|] eqn:E'; simpl; [|done].
      eapply visit_mono in E'; [|exact Hm]. by rewrite E'.
    + destruct (visit cancelAt (walk fuel) t _ _) as [w2|] eqn:E'; simpl; [|done].
      eapply visit_mono in E'; [|exact Hm]. by rewrite E'.
Qed.

Lemma extends_refl w : extends w w.
Proof. by repeat split. Qed.

Lemma extends_trans w1 w2 w3 : extends w1 w2 → extends w2 w3 → extends w1 w3.
Proof.
  intros (?&?&?&?) (?&?&?&?). repeat split; [congruence|auto|auto|by etrans].
Qed.

(** With enough fuel [walk] returns, and unless the walker is beyond the
    limit or canceled, it enters the node. *)
Lemma walk_total_entered fuel : ∀ w t,
  (maxTypeRecursionCount + 1 - recursionCount w ≤ Z.of_nat fuel)%Z →
  ∃ w', walk fuel w t = Some w' ∧ extends w w' ∧
    ((recursionCount w ≤ maxTypeRecursionCount)%Z → isWalkCanceled w = false →
     visited w ++ [t] `prefix_of` visited w').
Proof.
  induction fuel as [|fuel IH]; intros w t Hfuel.
  - destruct (decide (maxTypeRecursionCount < recursionCount w)%Z) as [Hlt|]; [|lia].
    rewrite walk_limit by done. eexists; split; [done|].
    split; [by repeat split|lia].
  - simpl. destruct (_ <? _)%Z eqn:E1.
    { eexists; split; [done|]. apply Z.ltb_lt in E1. split; [by repeat split|lia]. }
    apply Z.ltb_ge in E1.
    destruct (isWalkCanceled w) eqn:E2.
    { eexists; split; [done|]. split; [apply extends_refl|done]. }
    set (c := (recursionCount w + 1)%Z).
    assert (Hinner : ∀ w1 t1, recursionCount w1 = c →
              ∃ w', walk fuel w1 t1 = Some w' ∧ extends w1 w').
    { intros w1 t1 Hc. destruct (IH w1 t1) as (w' & ? & ? & _); [|by eauto].
      rewrite Hc. subst c. lia. }
    assert (Hc : ∀ w1 w2, recursionCount w1 = c → extends w1 w2 → recursionCount w2 = c).
    { intros w1 w2 ? (?&_). congruence. }
    assert (Hk : ∀ w1, recursionCount w1 = c →
              recursionCount (cancelWalk w1) = c ∧ extends w1 (cancelWalk w1)).
    { intros w1 ?. by repeat split. }
    assert (∃ w1, match typeAliasInfo (graph t) with
                  | Some info => visitTypeAlias (walk fuel) info (enter t w)
                  | None => Some (enter t w)
                  end = Some w1 ∧ extends (enter t w) w1) as (w1 & -> & H1).
    { destruct (typeAliasInfo (graph t)) as [info|].
      - eapply (visitTypeAlias_lift _ (λ w, recursionCount w = c) extends);
          eauto using extends_refl, extends_trans.
      - eauto using extends_refl. }
    simpl.
    assert (∃ w2, visit cancelAt (walk fuel) t (graph t) w1 = Some w2 ∧ extends w1 w2)
      as (w2 & -> & H2).
    { eapply (visit_lift _ _ (λ w, recursionCount w = c) extends);
        eauto using extends_refl, extends_trans. by apply (Hc (enter t w)). }
    simpl. eexists; split; [done|].
    destruct (extends_trans _ _ _ H1 H2) as (Hcnt & Hcan & Hhit & Hvis).
    split; [|by intros _ _].
    repeat split; simpl in *; [lia|auto|auto|].
    etrans; [|done]. by apply prefix_app_r.
Qed.

Lemma walk_total fuel w t :
  (maxTypeRecursionCount + 1 - recursionCount w ≤ Z.of_nat fuel)%Z →
  ∃ w', walk fuel w t = Some w' ∧ extends w w'.
Proof.
  intros Hfuel. destruct (walk_total_entered fuel w t Hfuel) as (w' & ? & ? & _). eauto.
Qed.

Lemma walk_canceled_skipped fuel w t :
  isWalkCanceled w = true → ∃ w', walk fuel w t = Some w' ∧ skipped w w'.
Proof.
  intros H. rewrite walk_canceled by done. eexists; split; [done|].
  by destruct (_ <? _)%Z.
Qed.

Lemma visit_canceled_skipped fuel t type w :
  isWalkCanceled w = true →
  ∃ w', visit cancelAt (walk fuel) t type w = Some w' ∧ skipped w w'.
Proof.
  eapply (visit_lift _ _ (λ w, isWalkCanceled w = true) skipped).
  - by intros ?.
  - intros w1 w2 w3 (?&?&?) (?&?&?). repeat split; [auto|congruence..].
  - intros ?? ? (?&_). auto.
  - intros. by apply walk_canceled_skipped.
  - intros ??. by repeat split.
Qed.

Lemma visitTypeAlias_canceled_skipped fuel info w :
  isWalkCanceled w = true →
  ∃ w', visitTypeAlias (walk fuel) info w = Some w' ∧ skipped w w'.
Proof.
  eapply (visitTypeAlias_lift _ (λ w, isWalkCanceled w = true) skipped).
  - by intros ?.
  - intros w1 w2 w3 (?&?&?) (?&?&?). repeat split; [auto|congruence..].
  - intros ?? ? (?&_). auto.
  - intros. by apply walk_canceled_skipped.
Qed.
End WalkLemmas.

(** C7.  On every type graph, cyclic ones included, [walk] returns: with the
  fuel [walkFuel] it gives a result, and every larger amount gives the same
  one; the depth counter is then what it was and the trace of entered nodes
  has only grown.  When the depth counter exceeds [maxTypeRecursionCount],
  [walk] sets [isRecursionLimitHit] and returns without entering the node,
  and a loop over siblings goes on with the next one.  Only that node is
  skipped: a walker that is within the limit and not canceled enters the
  node it is handed, whether or not the limit was hit before, and unless the
  walk of that node cancels, the loop over siblings hands it the next
  sibling, which it enters as well, whether or not the limit was hit below
  the first.  Once the walk is
  canceled, every call of [walk] returns at once, every visit method and the
  loop over type alias arguments return without entering a node, and a loop
  in which a child cancels the walk stops at that child. *)
Theorem walk_terminates_limit_cancel
    (maxTypeRecursionCount : Z) (graph : TypeGraph) (cancelAt : TypeId → bool)
    (this : Walker) (t : TypeId) (rest : list TypeId) :
  let walk := walk maxTypeRecursionCount graph cancelAt in
  (∃ this',
      walk (walkFuel maxTypeRecursionCount this) this t = Some this' ∧
      (∀ fuel, walkFuel maxTypeRecursionCount this ≤ fuel → walk fuel this t = Some this') ∧
      recursionCount this' = recursionCount this ∧
      visited this `prefix_of` visited this') ∧
  ((maxTypeRecursionCount < recursionCount this)%Z → ∀ fuel,
      walk fuel this t = Some (hitRecursionLimit this) ∧
      isRecursionLimitHit (hitRecursionLimit this) = true ∧
      visited (hitRecursionLimit this) = visited this ∧
      (isWalkCanceled this = false →
         walkEach (walk fuel) (t :: rest) this
         = walkEach (walk fuel) rest (hitRecursionLimit this))) ∧
  ((recursionCount this ≤ maxTypeRecursionCount)%Z → isWalkCanceled this = false →
   ∃ this1,
     walk (walkFuel maxTypeRecursionCount this) this t = Some this1 ∧
     recursionCount this1 = recursionCount this ∧
     visited this ++ [t] `prefix_of` visited this1 ∧
     (isRecursionLimitHit this = true → isRecursionLimitHit this1 = true) ∧
     (isWalkCanceled this1 = false → ∀ next rest',
        ∃ this2,
          walk (walkFuel maxTypeRecursionCount this) this1 next = Some this2 ∧
          visited this1 ++ [next] `prefix_of` visited this2 ∧
          ∀ fuel, walkFuel maxTypeRecursionCount this ≤ fuel →
            walkEach (walk fuel) (t :: next :: rest') this
            = if isWalkCanceled this2 then Some this2
              else walkEach (walk fuel) rest' this2)) ∧
  (isWalkCanceled this = true → ∀ fuel,
      walk fuel this t =
        Some (if (maxTypeRecursionCount <? recursionCount this)%Z
              then hitRecursionLimit this else this) ∧
      (∀ type, ∃ this', visit cancelAt (walk fuel) t type this = Some this' ∧
         isWalkCanceled this' = true ∧ visited this' = visited this) ∧
      (∀ info, ∃ this', visitTypeAlias (walk fuel) info this = Some this' ∧
         isWalkCanceled this' = true ∧ visited this' = visited this)) ∧
  (∀ fuel this', walk fuel this t = Some this' → isWalkCanceled this' = true →
      walkEach (walk fuel) (t :: rest) this = Some this' ∧
      (∀ p ps psv d i, hasName p = true → effectiveParameterType p = t →
         visitFunction (walk fuel) (p :: ps) psv d i this = Some this')).
Proof.
  intros walk. split; [|split; [|split; [|split]]].
  - destruct (walk_total maxTypeRecursionCount graph cancelAt
                (walkFuel maxTypeRecursionCount this) this t)
      as (this' & Hw & Hc & _ & _ & Hv).
    { unfold walkFuel. lia. }
    exists this'. repeat split; try done.
    intros fuel Hle. by eapply walk_mono.
  - intros Hlt fuel. subst walk. rewrite walk_limit by done.
    repeat split. intros Hnc. simpl. rewrite walk_limit by done. simpl.
    by rewrite Hnc.
  - intros Hle Hnc. subst walk.
    destruct (walk_total_entered maxTypeRecursionCount graph cancelAt
                (walkFuel maxTypeRecursionCount this) this t)
      as (this1 & Hw1 & (Hc1 & _ & Hhit1 & _) & Hentered1).
    { unfold walkFuel. lia. }
    exists this1. split; [done|]. split; [done|]. split; [by apply Hentered1|].
    split; [done|]. intros Hnc1 next rest'.
    destruct (walk_total_entered maxTypeRecursionCount graph cancelAt
                (walkFuel maxTypeRecursionCount this) this1 next)
      as (this2 & Hw2 & _ & Hentered2).
    { rewrite Hc1. unfold walkFuel. lia. }
    exists this2. split; [done|]. split; [apply Hentered2; [lia|done]|].
    intros fuel Hfuel. simpl.
    rewrite (walk_mono maxTypeRecursionCount graph cancelAt _ fuel _ _ _ Hfuel Hw1).
    simpl. rewrite Hnc1.
    rewrite (walk_mono maxTypeRecursionCount graph cancelAt _ fuel _ _ _ Hfuel Hw2).
    done.
  - intros Hc fuel. subst walk. split; [by apply walk_canceled|]. split.
    + intros type. destruct (visit_canceled_skipped maxTypeRecursionCount graph cancelAt
                               fuel t type this Hc) as (w' & ? & ? & ? & ?). eauto 6.
    + intros info. destruct (visitTypeAlias_canceled_skipped maxTypeRecursionCount graph
                               cancelAt fuel info this Hc) as (w' & ? & ? & ? & ?). eauto 6.
  - intros fuel this' Hw Hc. split.
    + simpl. rewrite Hw. simpl. by rewrite Hc.
    + intros p ps psv d i Hp Ht. unfold visitFunction. simpl. rewrite Hp, Ht, Hw. simpl.
      rewrite Hc. simpl. by rewrite Hc.
Qed.

Example walk_selfReferential :
  walk 2 selfReferential (λ _, false) (walkFuel 2 new) new 0
  = Some {| recursionCount := 0; isWalkCanceled := false;
            isRecursionLimitHit := true; visited := [0; 0; 0; 1; 1] |}.
Proof. reflexivity. Qed.

Example walk_selfReferential_cancel :
  walk 2 selfReferential (λ t, Nat.eqb t 1) (walkFuel 2 new) new 0
  = Some {| recursionCount := 0; isWalkCanceled := true;
            isRecursionLimitHit := true; visited := [0; 0; 0; 1] |}.
Proof. reflexivity. Qed.

End TypeWalkerProofs.

(** ** The diagnostic sink *)
Module DiagnosticSinkProofs.
Import DiagnosticSink DiagnosticKeys.










(** Two messages with one hash at one range are one diagnostic to the sink. *)
Example colliding_messages_are_merged :
  message collidingB ≠ message collidingA ∧
  hashString31 (message collidingB) = hashString31 (message collidingA) ∧
  diagnosticList
    (addDiagnostic hashString31
       (addDiagnostic hashString31 (new None) collidingA).2 collidingB).2
  = [collidingA].
Proof. split; [discriminate|]. vm_compute. done. Qed.

(** After [fetchAndClear] a diagnostic seen before is taken again. *)
Example cleared_sink_accepts_again :
  diagnosticList
    (addDiagnostic hashString31
       (fetchAndClear (addDiagnostic hashString31 (new None) diagnosticA).2).2
       diagnosticA).2
  = [diagnosticA].
Proof. vm_compute. reflexivity. Qed.

End DiagnosticSinkProofs.

(** ** Insertion-ordered maps *)
Module JsMapProofs.
Section JsMapProofs.
Context {V : Type}.
Implicit Types (m : JsMap.t V) (k : string) (v : V).

Lemma get_set_eq k v m : JsMap.get k (JsMap.set k v m) = Some v.
Proof.
  induction m as [|[k' v'] m IH]; simpl.
  - by rewrite String.eqb_refl.
  - destruct (String.eqb k' k) eqn:E; simpl; rewrite E; [done|apply IH].
Qed.

Lemma get_set_ne k k' v m :
  k ≠ k' → JsMap.get k' (JsMap.set k v m) = JsMap.get k' m.
Proof.
  intros Hne. induction m as [|[k0 v0] m IH]; simpl.
  - by rewrite (proj2 (String.eqb_neq k k') Hne).
  - destruct (String.eqb k0 k) eqn:E; simpl.
    + apply String.eqb_eq in E as ->.
      by rewrite (proj2 (String.eqb_neq k k') Hne).
    + destruct (String.eqb k0 k'); [done|apply IH].
Qed.

Lemma get_In k v m : JsMap.get k m = Some v → In (k, v) m.
Proof.
  induction m as [|[k0 v0] m IH]; simpl; [done|].
  destruct (String.eqb k0 k) eqn:E.
  - apply String.eqb_eq in E as ->. intros [= ->]. by left.
  - intros H. right. by apply IH.
Qed.

Lemma In_get_Some k v m : In (k, v) m → is_Some (JsMap.get k m).
Proof.
  induction m as [|[k0 v0] m IH]; simpl; [done|].
  intros [[= -> ->]|Hin].
  - rewrite String.eqb_refl. by eexists.
  - destruct (String.eqb k0 k); [by eexists|by apply IH].
Qed.

Lemma get_None_not_In k m : JsMap.get k m = None → ∀ v, ¬ In (k, v) m.
Proof.
  intros Hnone v Hin. apply In_get_Some in Hin as [x Hx]. congruence.
Qed.

Lemma In_set k v k' v' m :
  In (k', v') (JsMap.set k v m) → (k' = k ∧ v' = v) ∨ In (k', v') m.
Proof.
  induction m as [|[k0 v0] m IH]; simpl.
  - intros [[= <- <-]|[]]. by left.
  - destruct (String.eqb k0 k) eqn:E; simpl.
    + apply String.eqb_eq in E as ->.
      intros [[= <- <-]|Hin]; [by left|right; by right].
    + intros [Heq|Hin]; [right; by left|].
      destruct (IH Hin) as [?|?]; [by left|right; by right].
Qed.

Lemma keys_set k v m :
  ∀ k', In k' (JsMap.keys (JsMap.set k v m)) ↔ k' = k ∨ In k' (JsMap.keys m).
Proof.
  intros k'. unfold JsMap.keys.
  induction m as [|[k0 v0] m IH]; simpl.
  - split; [intros [<-|[]]; by left|intros [->|[]]; by left].
  - destruct (String.eqb k0 k) eqn:E; simpl.
    + apply String.eqb_eq in E as ->. intuition congruence.
    + rewrite IH. intuition congruence.
Qed.

Lemma NoDup_keys_set k v m :
  NoDup (JsMap.keys m) → NoDup (JsMap.keys (JsMap.set k v m)).
Proof.
  unfold JsMap.keys. induction m as [|[k0 v0] m IH]; simpl.
  - intros _. apply NoDup_cons; split; [by intros ?%elem_of_nil|constructor].
  - intros [Hnin Hnd]%NoDup_cons. destruct (String.eqb k0 k) eqn:E; simpl.
    + by apply NoDup_cons.
    + apply NoDup_cons. split; [|by apply IH].
      rewrite list_elem_of_In. intros Hin. apply (keys_set k v m) in Hin as [->|Hin].
      * by rewrite String.eqb_refl in E.
      * apply Hnin. by rewrite list_elem_of_In.
Qed.

Lemma In_get k v m : NoDup (JsMap.keys m) → In (k, v) m → JsMap.get k m = Some v.
Proof.
  unfold JsMap.keys. induction m as [|[k0 v0] m IH]; simpl; [done|].
  intros [Hnin Hnd]%NoDup_cons [[= -> ->]|Hin].
  - by rewrite String.eqb_refl.
  - destruct (String.eqb k0 k) eqn:E; [|by apply IH].
    apply String.eqb_eq in E as ->. exfalso. apply Hnin.
    rewrite list_elem_of_In. apply (in_map fst) in Hin. done.
Qed.

Lemma get_map {W : Type} (f : V → W) k m :
  JsMap.get k (map (λ kv, (fst kv, f (snd kv))) m) = f <$> JsMap.get k m.
Proof.
  induction m as [|[k0 v0] m IH]; simpl; [done|].
  destruct (String.eqb k0 k); [done|apply IH].
Qed.

Lemma keys_map {W : Type} (f : V → W) m :
  JsMap.keys (map (λ kv, (fst kv, f (snd kv))) m) = JsMap.keys m.
Proof. unfold JsMap.keys. rewrite map_map. by apply map_ext. Qed.

End JsMapProofs.
End JsMapProofs.

(** ** Entry resolution and the cache *)
Module ResolutionProofs.
Import Types TypedDicts Invariants JsMapProofs.

Lemma fold_left_inv {A B : Type} (f : A → B → A) (P : A → Prop) (l : list B) (a : A) :
  P a → (∀ a b, In b l → P a → P (f a b)) → P (fold_left f l a).
Proof.
  revert a. induction l as [|b l IH]; intros a Ha Hstep; simpl; [done|].
  apply IH.
  - apply Hstep; [by left|done].
  - intros a' b' Hin. apply Hstep. by right.
Qed.

Lemma preserved_refl store : preserved store store.
Proof. by repeat split. Qed.

Lemma preserved_trans s1 s2 s3 : preserved s1 s2 → preserved s2 s3 → preserved s1 s3.
Proof.
  intros (Hn1 & Hh1 & Hc1 & Hd1) (Hn2 & Hh2 & Hc2 & Hd2).
  split; [lia|]. split; [|split].
  - intros r Hr. rewrite Hh2 by lia. by apply Hh1.
  - intros c table Hc. by apply Hc2, Hc1.
  - intros c. destruct (Hd1 c) as (?&?&?&?&?), (Hd2 c) as (?&?&?&?&?).
    repeat split; congruence.
Qed.

Lemma allocEntry_preserved entry store :
  preserved store (snd (allocEntry entry store)).
Proof.
  split; [simpl; lia|]. split; [|by split].
  intros r Hr. simpl. destruct (Nat.eqb_spec r (nextEntry store)); [lia|done].
Qed.

Lemma setProvided_preserved ref store :
  nextEntry store ≤ ref → preserved store (setProvided ref store).
Proof.
  intros Hle. split; [simpl; lia|]. split; [|by split].
  intros r Hr. simpl. destruct (Nat.eqb_spec r ref); [lia|done].
Qed.


Lemma allocated_refl store : allocated store store.
Proof. by repeat split. Qed.

Lemma allocated_trans s1 s2 s3 : allocated s1 s2 → allocated s2 s3 → allocated s1 s3.
Proof.
  intros (Hd1 & Hr1 & Hn1 & Hh1) (Hd2 & Hr2 & Hn2 & Hh2).
  repeat split; [congruence|congruence|lia|].
  intros r Hr. rewrite Hh2 by lia. by apply Hh1.
Qed.

Lemma allocated_preserved s1 s2 : allocated s1 s2 → preserved s1 s2.
Proof.
  intros (Hd & _ & Hn & Hh). split; [done|]. split; [done|]. split.
  - intros c table. unfold cachedTable. by rewrite Hd.
  - intros c. by rewrite Hd.
Qed.

Lemma tableInv_allocated Q keyMap s1 s2 :
  allocated s1 s2 → tableInv Q keyMap s1 → tableInv Q keyMap s2.
Proof.
  intros (_ & _ & Hn & Hh) Hinv name ref Hin.
  destruct (Hinv name ref Hin) as [Hlt HQ]. split; [lia|]. by rewrite Hh.
Qed.

(** Storing a new object under a key keeps the table invariant. *)
Lemma tableInv_alloc Q keyMap store name entry :
  tableInv Q keyMap store → Q name entry →
  allocated store (snd (allocEntry entry store)) ∧
  tableInv Q (JsMap.set name (fst (allocEntry entry store)) keyMap)
    (snd (allocEntry entry store)).
Proof.
  intros Hinv HQ.
  assert (Ha : allocated store (snd (allocEntry entry store))).
  { repeat split; simpl; [lia|].
    intros r Hr. destruct (Nat.eqb_spec r (nextEntry store)); [lia|done]. }
  split; [done|].
  intros k r Hin. apply In_set in Hin as [[-> ->]|Hin].
  - simpl. rewrite Nat.eqb_refl. split; [lia|done].
  - by apply (tableInv_allocated Q keyMap store).
Qed.

Section WithUtils.
Context (utils : TypeUtils) (evaluator : TypeEvaluator).

Local Abbreviation contributes := (contributes utils evaluator).

(** The invariant of entry resolution, for a property [Q] of the entries
    that the classes in [V] contribute, [V] being closed under the step to a
    base class. *)
Section On.
Context (store0 : Store) (V : ClassType → Prop) (Q : string → TypedDictEntry → Prop).
Hypothesis V_base : ∀ c b, V c → resolvedBase utils store0 c b → V b.
Hypothesis HQ : ∀ (owner : ClassType) name symbol store typeVarContext,
  V owner →
  In (name, symbol) (ClassDetails.fields (detailsOf store0 owner)) →
  isEntryField utils symbol = true →
  classDetails store = classDetails store0 →
  Q name (entryForField utils evaluator store owner typeVarContext symbol).

Lemma addOwnEntries_inv_on classType keyMap store :
  V classType →
  classDetails store = classDetails store0 →
  tableInv Q keyMap store →
  allocated store (snd (addOwnEntries utils evaluator classType keyMap store)) ∧
  tableInv Q (fst (addOwnEntries utils evaluator classType keyMap store))
    (snd (addOwnEntries utils evaluator classType keyMap store)).
Proof.
  intros HV Hd Hinv. unfold addOwnEntries.
  set (tvc := buildTypeVarContextFromSpecializedClass utils _ classType).
  assert (Hfields : ∀ f, In f (ClassDetails.fields (detailsOf store classType)) →
            In f (ClassDetails.fields (detailsOf store0 classType))).
  { unfold detailsOf. by rewrite Hd. }
  revert Hfields. generalize (ClassDetails.fields (detailsOf store classType)).
  intros fields Hfields.
  apply (fold_left_inv _ (λ acc, allocated store (snd acc) ∧ tableInv Q (fst acc) (snd acc))).
  - split; [apply allocated_refl|done].
  - intros [km st] [name symbol] Hin [Ha Hi]; simpl in *.
    destruct (isEntryField utils symbol) eqn:E; [|by split].
    destruct (tableInv_alloc Q km st name
                (entryForField utils evaluator st classType tvc symbol) Hi) as [Ha' Hi'].
    { apply HQ; [done|by apply Hfields|done|]. destruct Ha as (-> & _). done. }
    split; [eapply allocated_trans; [exact Ha|exact Ha']|exact Hi'].
Qed.

Lemma getTypedDictMembersForClassRecursive_inv_on levels :
  ∀ classType keyMap recursionCount store,
  V classType →
  classDetails store = classDetails store0 →
  tableInv Q keyMap store →
  allocated store
    (snd (getTypedDictMembersForClassRecursive utils levels evaluator classType keyMap
            recursionCount store)) ∧
  tableInv Q
    (fst (getTypedDictMembersForClassRecursive utils levels evaluator classType keyMap
            recursionCount store))
    (snd (getTypedDictMembersForClassRecursive utils levels evaluator classType keyMap
            recursionCount store)).
Proof.
  induction levels as [|levels IH]; intros classType keyMap count store HV Hd Hinv;
    simpl.
  - destruct (_ <? _); (split; [apply allocated_refl|done]).
  - destruct (_ <? _); [split; [apply allocated_refl|done]|].
    set (bases := ClassDetails.baseClasses (detailsOf store classType)).
    set (step := λ (acc : JsMap.t EntryRef * Store) (baseClassType : Type_), _).
    assert (Hfold : allocated store (snd (fold_left step bases (keyMap, store))) ∧
                    tableInv Q (fst (fold_left step bases (keyMap, store)))
                      (snd (fold_left step bases (keyMap, store)))).
    { apply (fold_left_inv step
               (λ acc, allocated store (snd acc) ∧ tableInv Q (fst acc) (snd acc))).
      - split; [apply allocated_refl|done].
      - intros [km st] base Hbase [Ha Hi]. subst step. simpl in *.
        destruct base as [| | | | | |baseClass| | | |]; try by split.
        destruct (_ && _) eqn:Ecls; [|by split].
        destruct (partiallySpecializeType utils _ classType) as [| | | | | |c0| | | |]
          eqn:Espec; try by split.
        destruct (IH c0 km (S count) st) as [Ha' Hi']; [| |done|].
        { apply (V_base classType c0 HV). exists baseClass.
          split; [by subst bases; unfold detailsOf in *; rewrite <- Hd|].
          split; [|done].
          destruct Ha as (Hst & _). unfold isTypedDictClass, detailsOf in *.
          by rewrite <- Hd, <- Hst. }
        { destruct Ha as (-> & _). done. }
        split; [by eapply allocated_trans|done]. }
    destruct (fold_left step bases (keyMap, store)) as [km st]. simpl in *.
    destruct Hfold as [Ha Hi].
    destruct (addOwnEntries_inv_on classType km st HV) as [Ha' Hi']; [|done|].
    { destruct Ha as (-> & _). done. }
    split; [by eapply allocated_trans|done].
Qed.
End On.

Lemma addOwnEntries_inv store0 Q classType keyMap store :
  contributes store0 Q →
  classDetails store = classDetails store0 →
  tableInv Q keyMap store →
  allocated store (snd (addOwnEntries utils evaluator classType keyMap store)) ∧
  tableInv Q (fst (addOwnEntries utils evaluator classType keyMap store))
    (snd (addOwnEntries utils evaluator classType keyMap store)).
Proof.
  intros HQ. apply (addOwnEntries_inv_on store0 (λ _, True)); [|done].
  intros owner name symbol st tvc _. apply HQ.
Qed.

Lemma getTypedDictMembersForClassRecursive_inv store0 Q levels :
  contributes store0 Q →
  ∀ classType keyMap recursionCount store,
  classDetails store = classDetails store0 →
  tableInv Q keyMap store →
  allocated store
    (snd (getTypedDictMembersForClassRecursive utils levels evaluator classType keyMap
            recursionCount store)) ∧
  tableInv Q
    (fst (getTypedDictMembersForClassRecursive utils levels evaluator classType keyMap
            recursionCount store))
    (snd (getTypedDictMembersForClassRecursive utils levels evaluator classType keyMap
            recursionCount store)).
Proof.
  intros HQ classType keyMap recursionCount store.
  apply (getTypedDictMembersForClassRecursive_inv_on store0 (λ _, True)); [done| |done].
  intros owner name symbol st tvc _. apply HQ.
Qed.

(** [levels] is never what stops the recursion: from
    [S maxTypeRecursionCount - recursionCount] levels on, the result does not
    depend on it. *)
Lemma getTypedDictMembersForClassRecursive_levels levels :
  ∀ levels' classType keyMap recursionCount store,
  S (maxTypeRecursionCount utils) - recursionCount ≤ levels →
  levels ≤ levels' →
  getTypedDictMembersForClassRecursive utils levels' evaluator classType keyMap
    recursionCount store
  = getTypedDictMembersForClassRecursive utils levels evaluator classType keyMap
      recursionCount store.
Proof.
  induction levels as [|levels IH]; intros levels' classType keyMap count store Hle Hle'.
  - assert (maxTypeRecursionCount utils < count) as Hlt by lia.
    apply Nat.ltb_lt in Hlt. destruct levels'; simpl; by rewrite Hlt.
  - destruct levels' as [|levels']; [lia|]. simpl.
    destruct (_ <? _) eqn:E; [done|]. apply Nat.ltb_ge in E.
    f_equal.
    assert (Hstep : ∀ (acc : JsMap.t EntryRef * Store) (base : Type_),
      (let '(keyMap, store) := acc in
       match base with
       | Class baseClass =>
           if isInstantiableClass base && isTypedDictClass store baseClass then
             match partiallySpecializeType utils base classType with
             | Class specialized =>
                 getTypedDictMembersForClassRecursive utils levels' evaluator specialized
                   keyMap (S count) store
             | _ => (keyMap, store)
             end
           else (keyMap, store)
       | _ => (keyMap, store)
       end) =
      (let '(keyMap, store) := acc in
       match base with
       | Class baseClass =>
           if isInstantiableClass base && isTypedDictClass store baseClass then
             match partiallySpecializeType utils base classType with
             | Class specialized =>
                 getTypedDictMembersForClassRecursive utils levels evaluator specialized
                   keyMap (S count) store
             | _ => (keyMap, store)
             end
           else (keyMap, store)
       | _ => (keyMap, store)
       end)).
    { intros [km st] base. destruct base; try done.
      destruct (_ && _); [|done].
      destruct (partiallySpecializeType utils _ classType); try done.
      apply IH; lia. }
    generalize (ClassDetails.baseClasses (detailsOf store classType)).
    generalize (keyMap, store).
    intros acc bases. revert acc.
    induction bases as [|b bases IHb]; intros acc; simpl; [done|].
    rewrite Hstep. apply IHb.
Qed.

End WithUtils.
End ResolutionProofs.

(** ** The cached table and its copies *)
Module CacheProofs.
Import Types TypedDicts Invariants JsMapProofs ResolutionProofs.

Lemma In_values_set {V : Type} (k : string) (v v' : V) (m : JsMap.t V) :
  In v' (JsMap.values (JsMap.set k v m)) → v' = v ∨ In v' (JsMap.values m).
Proof.
  unfold JsMap.values. intros Hin. apply in_map_iff in Hin as ([k0 v0] & <- & Hin).
  apply In_set in Hin as [[_ ->]|Hin]; [by left|right].
  apply in_map_iff. by exists (k0, v0).
Qed.

Lemma NoDup_values_set {V : Type} (k : string) (v : V) (m : JsMap.t V) :
  NoDup (JsMap.values m) → ¬ In v (JsMap.values m) →
  NoDup (JsMap.values (JsMap.set k v m)).
Proof.
  unfold JsMap.values. induction m as [|[k0 v0] m IH]; simpl.
  - intros _ _. apply NoDup_cons; split; [by intros ?%elem_of_nil|constructor].
  - intros [Hnin Hnd]%NoDup_cons Hv. destruct (String.eqb k0 k); simpl.
    + apply NoDup_cons; split; [|done]. rewrite list_elem_of_In. tauto.
    + apply NoDup_cons; split.
      * rewrite list_elem_of_In. intros Hin.
        apply (In_values_set k v v0 m) in Hin as [->|Hin]; [tauto|].
        apply Hnin. by rewrite list_elem_of_In.
      * apply IH; [done|tauto].
Qed.

Section WithUtils.
Context (utils : TypeUtils) (evaluator : TypeEvaluator).

Local Abbreviation contributes := (contributes utils evaluator).
Local Abbreviation copiesOf := (copiesOf utils).

(** Resolution only produces entries that are not marked provided. *)
Lemma contributes_not_provided store0 :
  contributes store0 (λ _ entry, TypedDictEntry.isProvided entry = false).
Proof. by intros owner name symbol store tvc _ _ _. Qed.

Lemma ensureTypedDictEntries_spec classType store :
  cacheOk store →
  cacheOk (ensureTypedDictEntries utils evaluator classType store) ∧
  preserved store (ensureTypedDictEntries utils evaluator classType store) ∧
  reported (ensureTypedDictEntries utils evaluator classType store) = reported store ∧
  is_Some (cachedTable (ensureTypedDictEntries utils evaluator classType store)
             (ClassType.details classType)).
Proof.
  intros Hok. unfold ensureTypedDictEntries.
  destruct (ClassDetails.typedDictEntries (detailsOf store classType)) as [table|] eqn:Ecache.
  { split; [done|]. split; [apply preserved_refl|]. split; [done|].
    unfold cachedTable. unfold detailsOf in Ecache. rewrite Ecache. by eexists. }
  destruct (getTypedDictMembersForClassRecursive_inv utils evaluator store
              (λ _ entry, TypedDictEntry.isProvided entry = false)
              (S (maxTypeRecursionCount utils)) (contributes_not_provided store)
              classType JsMap.empty 0 store eq_refl) as [Ha Hi].
  { by intros ?? []. }
  destruct (getTypedDictMembersForClassRecursive _ _ _ _ _ _ _) as [entries st].
  simpl in Ha, Hi. destruct Ha as (Hd & Hr & Hn & Hh).
  set (id := ClassType.details classType).
  assert (Hcache : ∀ c, cachedTable (setTypedDictEntries id entries st) c =
            if Nat.eqb c id then Some entries else cachedTable store c).
  { intros c. unfold cachedTable. simpl. rewrite Hd.
    by destruct (Nat.eqb c id). }
  split; [|split; [|split; [done|]]].
  - intros c table name ref Htable Hin. rewrite Hcache in Htable.
    destruct (Nat.eqb_spec c id) as [->|Hne].
    + injection Htable as <-. exact (Hi name ref Hin).
    + destruct (Hok c table name ref Htable Hin) as [Hlt Hp].
      simpl. split; [lia|]. by rewrite Hh.
  - split; [simpl; lia|]. split; [done|]. split.
    + intros c table Htable. rewrite Hcache.
      destruct (Nat.eqb_spec c id) as [->|Hne]; [|done].
      unfold cachedTable in Htable. unfold detailsOf in Ecache. subst id. congruence.
    + intros c. simpl. rewrite Hd. by destruct (Nat.eqb_spec c id) as [->|].
  - rewrite Hcache. subst id. rewrite Nat.eqb_refl. by eexists.
Qed.

Lemma freshTable_alloc lo entries store key entry :
  lo ≤ nextEntry store → freshTable lo entries store →
  freshTable lo (JsMap.set key (fst (allocEntry entry store)) entries)
    (snd (allocEntry entry store)).
Proof.
  intros Hlo (Hr & Hk & Hv). split; [|split].
  - intros name ref Hin. apply In_set in Hin as [[-> ->]|Hin]; simpl; [lia|].
    specialize (Hr name ref Hin). lia.
  - by apply NoDup_keys_set.
  - apply NoDup_values_set; [done|]. simpl. intros Hin.
    apply in_map_iff in Hin as ([k r] & Heq & Hin). simpl in Heq. subst r.
    specialize (Hr k _ Hin). lia.
Qed.

Lemma freshTable_allocated lo entries s1 s2 :
  allocated s1 s2 → freshTable lo entries s1 → freshTable lo entries s2.
Proof.
  intros (_ & _ & Hn & _) (Hr & Hk & Hv). split; [|done].
  intros name ref Hin. specialize (Hr name ref Hin). lia.
Qed.

Lemma copyEntries_spec classType typeVarContext cached store :
  (∀ name ref, In (name, ref) cached → ref < nextEntry store) →
  allocated store (snd (copyEntries utils classType typeVarContext cached store)) ∧
  freshTable (nextEntry store)
    (fst (copyEntries utils classType typeVarContext cached store))
    (snd (copyEntries utils classType typeVarContext cached store)) ∧
  copiesOf classType typeVarContext cached store
    (fst (copyEntries utils classType typeVarContext cached store))
    (snd (copyEntries utils classType typeVarContext cached store)) ∧
  (∀ name, In name (JsMap.keys cached) ↔
     In name (JsMap.keys (fst (copyEntries utils classType typeVarContext cached store)))).
Proof.
  intros Hcached. unfold copyEntries.
  set (step := λ (acc : JsMap.t EntryRef * Store) (kv : string * EntryRef), _).
  assert (Hgen : ∀ rest done acc,
    cached = done ++ rest →
    allocated store (snd acc) ∧ freshTable (nextEntry store) (fst acc) (snd acc) ∧
    copiesOf classType typeVarContext done store (fst acc) (snd acc) ∧
    (∀ name, In name (JsMap.keys done) ↔ In name (JsMap.keys (fst acc))) →
    allocated store (snd (fold_left step rest acc)) ∧
    freshTable (nextEntry store) (fst (fold_left step rest acc))
      (snd (fold_left step rest acc)) ∧
    copiesOf classType typeVarContext cached store (fst (fold_left step rest acc))
      (snd (fold_left step rest acc)) ∧
    (∀ name, In name (JsMap.keys cached) ↔
       In name (JsMap.keys (fst (fold_left step rest acc))))).
  { induction rest as [|[key value] rest IH]; intros done acc Hsplit (Ha & Hf & Hc & Hk).
    - simpl. rewrite app_nil_r in Hsplit. by subst done.
    - simpl. apply (IH (done ++ [(key, value)])).
      { by rewrite <-app_assoc. }
      destruct acc as [entries st]. subst step. simpl in *.
      set (e := specializeEntry utils classType typeVarContext (entryHeap st value)).
      assert (Hvalue : value < nextEntry store).
      { apply (Hcached key). rewrite Hsplit. apply in_app_iff. right. by left. }
      assert (Ha' : allocated st (snd (allocEntry e st))).
      { repeat split; simpl; [lia|].
        intros r Hr. destruct (Nat.eqb_spec r (nextEntry st)); [lia|done]. }
      split; [eapply allocated_trans; [exact Ha|exact Ha']|]. split; [|split].
      + destruct Ha as (_ & _ & Hn & _).
        apply (freshTable_alloc (nextEntry store) entries st key e Hn Hf).
      + intros name ref Hin. apply In_set in Hin as [[-> ->]|Hin].
        * exists value. split; [apply in_app_iff; right; by left|].
          simpl. rewrite Nat.eqb_refl. subst e. f_equal.
          destruct Ha as (_ & _ & _ & Hh). by apply Hh.
        * destruct (Hc name ref Hin) as (ref0 & Hin0 & Heq).
          exists ref0. split; [apply in_app_iff; by left|].
          simpl. destruct Hf as (Hr & _). specialize (Hr name ref Hin).
          destruct (Nat.eqb_spec ref (nextEntry st)); [lia|done].
      + intros name. unfold JsMap.keys at 1. rewrite map_app, in_app_iff. simpl.
        rewrite (keys_set key (nextEntry st) entries name). rewrite <-Hk.
        unfold JsMap.keys. intuition congruence. }
  apply (Hgen cached [] (JsMap.empty, store)); [done|].
  split; [apply allocated_refl|]. split; [|split].
  - split; [by intros ?? []|]. split; constructor.
  - by intros ?? [].
  - done.
Qed.

Lemma overlayNarrowed_spec typeVarContext narrowed lo entries store :
  lo ≤ nextEntry store → freshTable lo entries store →
  allocated store (snd (overlayNarrowed utils typeVarContext narrowed entries store)) ∧
  freshTable lo (fst (overlayNarrowed utils typeVarContext narrowed entries store))
    (snd (overlayNarrowed utils typeVarContext narrowed entries store)).
Proof.
  intros Hlo Hf. unfold overlayNarrowed.
  apply (fold_left_inv _
    (λ acc, allocated store (snd acc) ∧ freshTable lo (fst acc) (snd acc))).
  - split; [apply allocated_refl|done].
  - intros [es st] [key value] _ [Ha Hf']. simpl in *.
    set (e := specializeNarrowedEntry utils typeVarContext value).
    assert (Ha' : allocated st (snd (allocEntry e st))).
    { repeat split; simpl; [lia|].
      intros r Hr. destruct (Nat.eqb_spec r (nextEntry st)); [lia|done]. }
    split; [eapply allocated_trans; [exact Ha|exact Ha']|].
    apply (freshTable_alloc lo es st key e); [|done].
    destruct Ha as (_ & _ & Hn & _). lia.
Qed.

(** What [getTypedDictMembersForClass] returns and leaves behind. *)
Lemma getTypedDictMembersForClass_spec classType allowNarrowed store :
  cacheOk store →
  let result := getTypedDictMembersForClass utils evaluator classType allowNarrowed store in
  ∃ lo,
    nextEntry store ≤ lo ∧ lo ≤ nextEntry (snd result) ∧
    freshTable lo (fst result) (snd result) ∧
    (∀ c table name ref, cachedTable (snd result) c = Some table →
       In (name, ref) table →
       ref < lo ∧ TypedDictEntry.isProvided (entryHeap (snd result) ref) = false) ∧
    preserved store (snd result) ∧
    reported (snd result) = reported store ∧
    (allowNarrowed = false →
     ∀ name ref, In (name, ref) (fst result) →
       TypedDictEntry.isProvided (entryHeap (snd result) ref) = false).
Proof.
  intros Hok result. subst result. unfold getTypedDictMembersForClass.
  destruct (ensureTypedDictEntries_spec classType store Hok) as (Hok1 & Hp1 & Hr1 & Hsome).
  set (store1 := ensureTypedDictEntries utils evaluator classType store) in *.
  set (tvc := buildTypeVarContextFromSpecializedClass utils _ classType).
  set (cached := match ClassDetails.typedDictEntries (detailsOf store1 classType) with
                 | Some cached => cached
                 | None => JsMap.empty
                 end).
  assert (Hcached : ∀ name ref, In (name, ref) cached →
            ref < nextEntry store1 ∧
            TypedDictEntry.isProvided (entryHeap store1 ref) = false).
  { intros name ref Hin. subst cached.
    destruct (ClassDetails.typedDictEntries (detailsOf store1 classType)) as [t|] eqn:E;
      [|done].
    by apply (Hok1 (ClassType.details classType) t name ref). }
  destruct (copyEntries_spec classType tvc cached store1) as (Ha2 & Hf2 & Hc2 & _).
  { intros name ref Hin. by apply Hcached in Hin as [? _]. }
  destruct (copyEntries utils classType tvc cached store1) as [entries store2].
  simpl in Ha2, Hf2, Hc2.
  assert (Hcache2 : ∀ st, allocated store1 st →
            ∀ c table name ref, cachedTable st c = Some table → In (name, ref) table →
              ref < nextEntry store1 ∧
              TypedDictEntry.isProvided (entryHeap st ref) = false).
  { intros st (Hd & _ & Hn & Hh) c table name ref Htable Hin.
    unfold cachedTable in Htable. rewrite Hd in Htable.
    destruct (Hok1 c table name ref Htable Hin) as [Hlt Hp]. split; [done|].
    by rewrite Hh. }
  assert (Hlo : nextEntry store ≤ nextEntry store1) by (by destruct Hp1).
  destruct allowNarrowed, (ClassType.typedDictNarrowedEntries classType) as [narrowed|].
  - destruct (overlayNarrowed_spec tvc narrowed (nextEntry store1) entries store2)
      as [Ha3 Hf3]; [by destruct Ha2 as (_&_&?&_)|done|].
    destruct (overlayNarrowed utils tvc narrowed entries store2) as [entries3 store3].
    simpl in *. exists (nextEntry store1).
    assert (Ha13 : allocated store1 store3) by (by eapply allocated_trans).
    split; [done|]. split; [by destruct Ha13 as (_&_&?&_)|]. split; [done|]. split; [by apply Hcache2|]. split.
    { eapply preserved_trans; [exact Hp1|by apply allocated_preserved]. }
    split; [|done]. destruct Ha13 as (_ & -> & _). done.
  - simpl. exists (nextEntry store1).
    split; [done|]. split; [by destruct Ha2 as (_&_&?&_)|]. split; [done|]. split; [by apply Hcache2|]. split.
    { eapply preserved_trans; [exact Hp1|by apply allocated_preserved]. }
    split; [|done]. destruct Ha2 as (_ & -> & _). done.
  - simpl. exists (nextEntry store1).
    split; [done|]. split; [by destruct Ha2 as (_&_&?&_)|]. split; [done|]. split; [by apply Hcache2|]. split.
    { eapply preserved_trans; [exact Hp1|by apply allocated_preserved]. }
    split; [destruct Ha2 as (_ & -> & _); done|].
    intros _ name ref Hin. destruct (Hc2 name ref Hin) as (ref0 & Hin0 & ->).
    apply Hcached in Hin0 as [_ Hp]. unfold specializeEntry.
    by repeat case_match.
  - simpl. exists (nextEntry store1).
    split; [done|]. split; [by destruct Ha2 as (_&_&?&_)|]. split; [done|]. split; [by apply Hcache2|]. split.
    { eapply preserved_trans; [exact Hp1|by apply allocated_preserved]. }
    split; [destruct Ha2 as (_ & -> & _); done|].
    intros _ name ref Hin. destruct (Hc2 name ref Hin) as (ref0 & Hin0 & ->).
    apply Hcached in Hin0 as [_ Hp]. unfold specializeEntry.
    by repeat case_match.
Qed.

End WithUtils.
End CacheProofs.

(** ** The entries that a call returns *)
Module ViewsProofs.
Import Types TypedDicts Invariants Views JsMapProofs ResolutionProofs CacheProofs.

Lemma entriesOf_set store key ref table :
  entriesOf store (JsMap.set key ref table)
  = JsMap.set key (entryHeap store ref) (entriesOf store table).
Proof.
  unfold entriesOf. induction table as [|[k r] table IH]; simpl; [done|].
  destruct (String.eqb k key); simpl; [done|]. by rewrite IH.
Qed.

Lemma entriesOf_ext store store' table :
  (∀ name ref, In (name, ref) table → entryHeap store' ref = entryHeap store ref) →
  entriesOf store' table = entriesOf store table.
Proof.
  intros Hsame. unfold entriesOf. apply map_ext_in. intros [name ref] Hin. simpl.
  by rewrite (Hsame name ref Hin).
Qed.

(** A lookup in a table that was filled by [set] finds the last pair with
    the key. *)
Lemma get_fold_set {V : Type} (key : string) (pairs : list (string * V)) :
  ∀ table,
  JsMap.get key (fold_left (λ m kv, JsMap.set (fst kv) (snd kv) m) pairs table)
  = match JsMap.get key (rev pairs) with
    | Some value => Some value
    | None => JsMap.get key table
    end.
Proof.
  induction pairs as [|[k v] pairs IH]; intros table; simpl; [done|].
  rewrite IH. clear IH.
  assert (Hrev : ∀ l : list (string * V),
    JsMap.get key (l ++ [(k, v)])
    = match JsMap.get key l with
      | Some value => Some value
      | None => if String.eqb k key then Some v else None
      end).
  { induction l as [|[k0 v0] l IHl]; simpl; [done|].
    destruct (String.eqb k0 key); [done|apply IHl]. }
  rewrite Hrev. destruct (JsMap.get key (rev pairs)); [done|].
  destruct (String.eqb k key) eqn:E.
  - apply String.eqb_eq in E as ->. apply get_set_eq.
  - apply get_set_ne. by apply String.eqb_neq.
Qed.

Lemma get_tableOf {V : Type} (key : string) (pairs : list (string * V)) :
  JsMap.get key (tableOf pairs) = JsMap.get key (rev pairs).
Proof. unfold tableOf. rewrite get_fold_set. by destruct (JsMap.get key (rev pairs)). Qed.

Lemma get_rev_In {V : Type} (key : string) (value : V) (pairs : list (string * V)) :
  JsMap.get key (rev pairs) = Some value → In (key, value) pairs.
Proof. intros H. apply get_In in H. by apply in_rev. Qed.

Section WithUtils.
Context (utils : TypeUtils) (evaluator : TypeEvaluator).

Local Abbreviation setPair :=
  (λ (m : JsMap.t TypedDictEntry) (kv : string * TypedDictEntry),
     JsMap.set (fst kv) (snd kv) m).

(** The copies hold the cached entries, specialized. *)
Lemma copyEntries_entries classType typeVarContext cached store :
  (∀ name ref, In (name, ref) cached → ref < nextEntry store) →
  let result := copyEntries utils classType typeVarContext cached store in
  entriesOf (snd result) (fst result)
  = tableOf (map (λ kv, (fst kv, specializeEntry utils classType typeVarContext (snd kv)))
               (entriesOf store cached)).
Proof.
  intros Hcached result. subst result. unfold copyEntries, tableOf.
  set (step := λ (acc : JsMap.t EntryRef * Store) (kv : string * EntryRef), _).
  set (f := λ kv : string * TypedDictEntry,
              (fst kv, specializeEntry utils classType typeVarContext (snd kv))).
  assert (Hgen : ∀ rest acc,
    (∀ name ref, In (name, ref) rest → ref < nextEntry store) →
    allocated store (snd acc) →
    (∀ name ref, In (name, ref) (fst acc) → ref < nextEntry (snd acc)) →
    entriesOf (snd (fold_left step rest acc)) (fst (fold_left step rest acc))
    = fold_left setPair (map f (entriesOf store rest)) (entriesOf (snd acc) (fst acc))).
  { induction rest as [|[k v] rest IH]; intros [es st] Hrest Ha Hes; simpl; [done|].
    simpl in Ha, Hes.
    assert (Hv : entryHeap st v = entryHeap store v).
    { destruct Ha as (_ & _ & _ & Hh). apply Hh. apply (Hrest k). by left. }
    rewrite IH; simpl.
    - f_equal. rewrite entriesOf_set. simpl. rewrite Nat.eqb_refl, Hv. f_equal.
      apply entriesOf_ext. intros name ref Hin. simpl.
      destruct (Nat.eqb_spec ref (nextEntry st)); [|done].
      specialize (Hes name ref Hin). lia.
    - intros name ref Hin. apply (Hrest name). by right.
    - eapply allocated_trans; [exact Ha|].
      repeat split; simpl; [lia|].
      intros r Hr. destruct (Nat.eqb_spec r (nextEntry st)); [lia|done].
    - intros name ref Hin. apply In_set in Hin as [[_ ->]|Hin]; [lia|].
      specialize (Hes name ref Hin). lia. }
  apply (Hgen cached (JsMap.empty, store)); [done|apply allocated_refl|done].
Qed.

Lemma overlayNarrowed_entries typeVarContext narrowed entries store :
  (∀ name ref, In (name, ref) entries → ref < nextEntry store) →
  let result := overlayNarrowed utils typeVarContext narrowed entries store in
  entriesOf (snd result) (fst result)
  = fold_left setPair
      (map (λ kv, (fst kv, specializeNarrowedEntry utils typeVarContext (snd kv))) narrowed)
      (entriesOf store entries).
Proof.
  intros Hentries result. subst result. unfold overlayNarrowed.
  revert entries store Hentries.
  induction narrowed as [|[k v] narrowed IH]; intros entries store Hentries; simpl;
    [done|].
  rewrite IH.
  - f_equal. rewrite entriesOf_set. simpl. rewrite Nat.eqb_refl. f_equal.
    apply entriesOf_ext. intros name ref Hin. simpl.
    destruct (Nat.eqb_spec ref (nextEntry store)); [|done].
    specialize (Hentries name ref Hin). lia.
  - intros name ref Hin. simpl. apply In_set in Hin as [[_ ->]|Hin]; [lia|].
    specialize (Hentries name ref Hin). lia.
Qed.

(** What [getTypedDictMembersForClass] returns, entry for entry. *)
Lemma memberEntries_tableOf classType allowNarrowed store :
  cacheOk store →
  memberEntries utils evaluator classType allowNarrowed store
  = tableOf (specializedEntries utils evaluator classType allowNarrowed store).
Proof.
  intros Hok.
  unfold memberEntries, specializedEntries, cachedEntries, memberContext,
    getTypedDictMembersForClass.
  destruct (ensureTypedDictEntries_spec utils evaluator classType store Hok)
    as (Hok1 & _ & _ & [table Htable]).
  set (store1 := ensureTypedDictEntries utils evaluator classType store) in *.
  set (tvc := buildTypeVarContextFromSpecializedClass utils _ classType).
  unfold cachedTable in Htable. unfold detailsOf. rewrite Htable.
  assert (Hrefs : ∀ name ref, In (name, ref) table → ref < nextEntry store1).
  { intros name ref Hin.
    by destruct (Hok1 (ClassType.details classType) table name ref Htable Hin). }
  pose proof (copyEntries_entries classType tvc table store1 Hrefs) as Hcopy.
  destruct (copyEntries_spec utils classType tvc table store1 Hrefs)
    as (_ & (Hfresh & _) & _).
  destruct (copyEntries utils classType tvc table store1) as [entries store2].
  simpl in Hcopy, Hfresh.
  destruct allowNarrowed, (ClassType.typedDictNarrowedEntries classType) as [narrowed|];
    simpl; rewrite ?app_nil_r; try done.
  rewrite overlayNarrowed_entries.
  - rewrite Hcopy. unfold tableOf. by rewrite fold_left_app.
  - intros name ref Hin. by destruct (Hfresh name ref Hin).
Qed.

(** After the cache is filled, the call only allocates. *)
Lemma getTypedDictMembersForClass_allocated classType allowNarrowed store :
  cacheOk store →
  allocated (ensureTypedDictEntries utils evaluator classType store)
    (snd (getTypedDictMembersForClass utils evaluator classType allowNarrowed store)).
Proof.
  intros Hok. unfold getTypedDictMembersForClass.
  destruct (ensureTypedDictEntries_spec utils evaluator classType store Hok)
    as (Hok1 & _ & _ & [table Htable]).
  set (store1 := ensureTypedDictEntries utils evaluator classType store) in *.
  set (tvc := buildTypeVarContextFromSpecializedClass utils _ classType).
  unfold cachedTable in Htable. unfold detailsOf. rewrite Htable.
  assert (Hrefs : ∀ name ref, In (name, ref) table → ref < nextEntry store1).
  { intros name ref Hin.
    by destruct (Hok1 (ClassType.details classType) table name ref Htable Hin). }
  destruct (copyEntries_spec utils classType tvc table store1 Hrefs)
    as (Ha & Hfresh & _).
  destruct (copyEntries utils classType tvc table store1) as [entries store2].
  simpl in Ha, Hfresh.
  destruct allowNarrowed, (ClassType.typedDictNarrowedEntries classType) as [narrowed|];
    simpl; try done.
  destruct (overlayNarrowed_spec utils tvc narrowed (nextEntry store1) entries store2)
    as [Ha' _]; [by destruct Ha as (_ & _ & ? & _)|done|].
  by eapply allocated_trans.
Qed.



(** The call reports nothing and leaves the declarations of every class. *)
Lemma getTypedDictMembersForClass_frame classType allowNarrowed store :
  let result := getTypedDictMembersForClass utils evaluator classType allowNarrowed store in
  reported (snd result) = reported store ∧ sameDeclarations store (snd result) ∧
  ∀ c, ClassDetails.fields (classDetails (snd result) c)
       = ClassDetails.fields (classDetails store c).
Proof.
  intros result. subst result. unfold getTypedDictMembersForClass.
  set (frame := λ s : Store,
    reported s = reported store ∧ sameDeclarations store s ∧
    ∀ c, ClassDetails.fields (classDetails s c) = ClassDetails.fields (classDetails store c)).
  assert (H1 : frame (ensureTypedDictEntries utils evaluator classType store)).
  { unfold ensureTypedDictEntries.
    destruct (ClassDetails.typedDictEntries (detailsOf store classType));
      [by repeat split|].
    destruct (getTypedDictMembersForClassRecursive_inv utils evaluator store
                (λ _ _, True) (S (maxTypeRecursionCount utils))
                ltac:(by intros ????? _ _ _) classType JsMap.empty 0 store eq_refl)
      as [(Hd & Hr & _) _]; [by intros ?? []|].
    destruct (getTypedDictMembersForClassRecursive _ _ _ _ _ _ _) as [entries st].
    simpl in Hd, Hr. split; [done|]. split.
    - intros c. simpl. rewrite Hd.
      by destruct (Nat.eqb_spec c (ClassType.details classType)) as [->|].
    - intros c. simpl. rewrite Hd.
      by destruct (Nat.eqb_spec c (ClassType.details classType)) as [->|]. }
  set (store1 := ensureTypedDictEntries utils evaluator classType store) in *.
  set (tvc := buildTypeVarContextFromSpecializedClass utils _ classType).
  set (cached := match _ with Some cached => cached | None => JsMap.empty end).
  assert (Hframe : ∀ s s', classDetails s' = classDetails s → reported s' = reported s →
                     frame s → frame s').
  { intros s s' Hd Hr (? & Hs & Hf). split; [congruence|]. split.
    - intros c. rewrite Hd. apply Hs.
    - intros c. rewrite Hd. apply Hf. }
  assert (H2 : frame (snd (copyEntries utils classType tvc cached store1))).
  { unfold copyEntries. apply (fold_left_inv _ (λ acc, frame (snd acc))); [done|].
    intros [es st] [k v] _ Hf. simpl in *. by eapply Hframe; [..|exact Hf]. }
  destruct (copyEntries utils classType tvc cached store1) as [entries store2].
  simpl in H2.
  assert (H3 : ∀ narrowed,
            frame (snd (overlayNarrowed utils tvc narrowed entries store2))).
  { intros narrowed. unfold overlayNarrowed.
    apply (fold_left_inv _ (λ acc, frame (snd acc))); [done|].
    intros [es st] [k v] _ Hf. simpl in *. by eapply Hframe; [..|exact Hf]. }
  destruct allowNarrowed, (ClassType.typedDictNarrowedEntries classType); simpl;
    try done; apply H3.
Qed.

End WithUtils.
End ViewsProofs.

(** ** Requiredness, narrowing, subscripts and synthesized methods *)
Module TypedDictProofs.
Import Types TypedDicts Invariants JsMapProofs ResolutionProofs CacheProofs.

(** The three tests of the annotations say that the field carries the
    modifier. *)
Lemma annotatedWith_existsb (evaluator : TypeEvaluator)
    (modifier : TypeResult.t → bool) (symbol : Symbol.t) :
  existsb (λ decl,
    match Declaration.type decl, Declaration.typeAnnotationNode decl with
    | VariableDeclaration, Some typeAnnotationNode =>
        modifier (getTypeOfExpressionExpectingType evaluator typeAnnotationNode)
    | _, _ => false
    end) (Symbol.getDeclarations symbol) = true
  ↔ annotatedWith evaluator modifier symbol.
Proof.
  rewrite existsb_exists. split.
  - intros (decl & Hin & Hdecl).
    destruct (Declaration.type decl) eqn:Etype; try done.
    destruct (Declaration.typeAnnotationNode decl) as [annotation|] eqn:Enode; [|done].
    by exists decl, annotation.
  - intros (decl & annotation & Hin & Etype & Enode & Hmodifier).
    exists decl. split; [done|]. by rewrite Etype, Enode.
Qed.

(** C5.  Every entry that entry resolution produces was built from a field
    [symbol] of a class [owner] that the resolution reaches from the class
    it is asked about (the class itself or a TypedDict class above it), and
    it is the entry that the code builds for that field; its [isRequired]
    flag is decided by the annotations of that field's
    declarations and, failing them, by the owner's totality: with neither a
    [Required] nor a [NotRequired] annotation it is the negation of the
    owner's [CanOmitDictValues] flag; with a [Required] annotation it is
    true, whatever the owner's flag is and whatever else is annotated; with
    a [NotRequired] annotation and no [Required] one it is false, whatever
    the owner's flag is.  The tests that the code makes,
    [isRequiredTypedDictVariable] and [isNotRequiredTypedDictVariable], say
    that a declaration of the field carries the annotation. *)
Theorem requiredness_of_resolved_entries
    (utils : TypeUtils) (evaluator : TypeEvaluator) (classType : ClassType)
    (store : Store) (levels recursionCount : nat) (name : string) (ref : EntryRef) :
  JsMap.get name
    (fst (getTypedDictMembersForClassRecursive utils levels evaluator classType
            JsMap.empty recursionCount store)) = Some ref →
  ∃ (owner : ClassType) (symbol : Symbol.t),
    inheritsFrom utils store classType owner ∧
    In (name, symbol) (ClassDetails.fields (detailsOf store owner)) ∧
    isEntryField utils symbol = true ∧
    let entry :=
      entryHeap
        (snd (getTypedDictMembersForClassRecursive utils levels evaluator classType
                JsMap.empty recursionCount store)) ref in
    let required := annotatedWith evaluator TypeResult.isRequired symbol in
    let notRequired := annotatedWith evaluator TypeResult.isNotRequired symbol in
    (∃ typeVarContext,
       entry = entryForField utils evaluator store owner typeVarContext symbol) ∧
    (¬ required → ¬ notRequired →
     TypedDictEntry.isRequired entry = negb (isCanOmitDictValues store owner)) ∧
    (required → TypedDictEntry.isRequired entry = true) ∧
    (notRequired → ¬ required → TypedDictEntry.isRequired entry = false) ∧
    (isRequiredTypedDictVariable evaluator symbol = true ↔ required) ∧
    (isNotRequiredTypedDictVariable evaluator symbol = true ↔ notRequired).
Proof.
  intros Hget. apply get_In in Hget.
  set (Q := λ (name : string) (entry : TypedDictEntry),
    ∃ (owner : ClassType) (symbol : Symbol.t),
      inheritsFrom utils store classType owner ∧
      In (name, symbol) (ClassDetails.fields (detailsOf store owner)) ∧
      isEntryField utils symbol = true ∧
      (∃ typeVarContext,
         entry = entryForField utils evaluator store owner typeVarContext symbol) ∧
      TypedDictEntry.isRequired entry =
        (if isRequiredTypedDictVariable evaluator symbol then true
         else if isNotRequiredTypedDictVariable evaluator symbol then false
         else negb (isCanOmitDictValues store owner))).
  destruct (getTypedDictMembersForClassRecursive_inv_on utils evaluator store
              (inheritsFrom utils store classType) Q) with
    (levels := levels) (classType := classType) (keyMap := @JsMap.empty EntryRef)
    (recursionCount := recursionCount) (store := store) as [_ Hinv].
  { intros c b Hc Hb. by eapply rtc_r. }
  { intros owner n symbol st tvc Hchain Hin Hfield Hd. exists owner, symbol.
    split; [done|]. split; [done|]. split; [done|].
    unfold entryForField, isCanOmitDictValues, detailsOf. rewrite Hd. simpl.
    split; [by exists tvc|done]. }
  { apply rtc_refl. }
  { done. }
  { by intros ?? []. }
  destruct (Hinv name ref Hget)
    as [_ (owner & symbol & Hchain & Hin & Hfield & Hentry & Hreq)].
  exists owner, symbol. split; [done|]. split; [done|]. split; [done|]. simpl.
  split; [done|]. rewrite Hreq.
  pose proof (annotatedWith_existsb evaluator TypeResult.isRequired symbol) as Hrequired.
  pose proof (annotatedWith_existsb evaluator TypeResult.isNotRequired symbol)
    as HnotRequired.
  change (existsb _ _) with (isRequiredTypedDictVariable evaluator symbol) in Hrequired.
  change (existsb _ _) with (isNotRequiredTypedDictVariable evaluator symbol)
    in HnotRequired.
  split; [|split; [|split; [|by split]]].
  - intros Hno Hno'.
    destruct (isRequiredTypedDictVariable evaluator symbol); [by destruct Hno; apply Hrequired|].
    destruct (isNotRequiredTypedDictVariable evaluator symbol);
      [by destruct Hno'; apply HnotRequired|done].
  - intros Hyes. apply Hrequired in Hyes. by rewrite Hyes.
  - intros Hyes Hno. apply HnotRequired in Hyes. rewrite Hyes.
    destruct (isRequiredTypedDictVariable evaluator symbol); [|done].
    by destruct Hno; apply Hrequired.
Qed.

(** Either the type comes back as it is, or a clone does in which the key
    is marked provided. *)
Lemma narrowForKeyAssignment_cases (store : Store) (classType : ClassType) (key : string) :
  narrowForKeyAssignment store classType key = classType ∨
  ∃ table ref narrowed entry,
    isTypedDictClass store classType = true ∧
    cachedTable store (ClassType.details classType) = Some table ∧
    JsMap.get key table = Some ref ∧
    TypedDictEntry.isRequired (entryHeap store ref) = false ∧
    narrowForKeyAssignment store classType key
      = cloneForNarrowedTypedDictEntries classType narrowed ∧
    JsMap.get key narrowed = Some entry ∧
    TypedDictEntry.isProvided entry = true.
Proof.
  unfold narrowForKeyAssignment, cachedTable, detailsOf.
  destruct (isTypedDictClass store classType) eqn:Etd; [|by left].
  destruct (ClassDetails.typedDictEntries _) as [table|] eqn:Etable; [|by left].
  destruct (JsMap.get key table) as [ref|] eqn:Eget; [|by left].
  destruct (TypedDictEntry.isRequired (entryHeap store ref)) eqn:Ereq; [by left|].
  destruct (match _ with Some e => TypedDictEntry.isProvided e | None => false end);
    [by left|].
  right. eexists table, ref, _, _.
  split; [done|]. split; [done|]. split; [done|]. split; [done|].
  split; [reflexivity|]. split; [apply get_set_eq|done].
Qed.

(** C6.  Narrowing the same key twice gives what narrowing it once gives:
    the second call finds the key already marked provided and returns its
    argument.  A key that names no cached entry or a required one, a class
    that is not a TypedDict and a class without a cached entry table are
    returned as they are. *)
Theorem narrowForKeyAssignment_idempotent
    (store : Store) (classType : ClassType) (key : string) :
  narrowForKeyAssignment store (narrowForKeyAssignment store classType key) key
    = narrowForKeyAssignment store classType key ∧
  (isTypedDictClass store classType = false →
   narrowForKeyAssignment store classType key = classType) ∧
  (cachedTable store (ClassType.details classType) = None →
   narrowForKeyAssignment store classType key = classType) ∧
  (∀ table, cachedTable store (ClassType.details classType) = Some table →
     JsMap.get key table = None →
     narrowForKeyAssignment store classType key = classType) ∧
  (∀ table ref, cachedTable store (ClassType.details classType) = Some table →
     JsMap.get key table = Some ref →
     TypedDictEntry.isRequired (entryHeap store ref) = true →
     narrowForKeyAssignment store classType key = classType) ∧
  (∀ table ref, isTypedDictClass store classType = true →
     cachedTable store (ClassType.details classType) = Some table →
     JsMap.get key table = Some ref →
     TypedDictEntry.isRequired (entryHeap store ref) = false →
     ∃ narrowed entry,
       ClassType.typedDictNarrowedEntries (narrowForKeyAssignment store classType key)
         = Some narrowed ∧
       JsMap.get key narrowed = Some entry ∧
       TypedDictEntry.isProvided entry = true).
Proof.
  split; [|split; [|split; [|split; [|split]]]].
  - destruct (narrowForKeyAssignment_cases store classType key)
      as [Hsame|(table & ref & narrowed & entry & Etd & Etable & Eget & Ereq & Heq & He & Hp)].
    + by rewrite !Hsame.
    + rewrite Heq. unfold narrowForKeyAssignment, cachedTable, detailsOf in *. simpl.
      unfold isTypedDictClass, detailsOf in *. simpl.
      by rewrite Etd, Etable, Eget, Ereq, He, Hp.
  - unfold narrowForKeyAssignment. by intros ->.
  - unfold narrowForKeyAssignment, cachedTable, detailsOf. intros ->.
    by destruct (isTypedDictClass store classType).
  - unfold narrowForKeyAssignment, cachedTable, detailsOf. intros table -> ->.
    by destruct (isTypedDictClass store classType).
  - unfold narrowForKeyAssignment, cachedTable, detailsOf. intros table ref -> -> ->.
    by destruct (isTypedDictClass store classType).
  - intros table ref Etd Etable Eget Ereq.
    unfold narrowForKeyAssignment, cachedTable, detailsOf in *.
    rewrite Etd, Etable, Eget, Ereq.
    destruct (ClassType.typedDictNarrowedEntries classType) as [narrowed|] eqn:En.
    + destruct (JsMap.get key narrowed) as [e|] eqn:Ee.
      * destruct (TypedDictEntry.isProvided e) eqn:Ep.
        { exists narrowed, e. by rewrite En. }
        simpl. eexists _, _. split; [done|]. split; [apply get_set_eq|done].
      * simpl. eexists _, _. split; [done|]. split; [apply get_set_eq|done].
    + eexists _, _. split; [reflexivity|]. split; [apply get_set_eq|done].
Qed.

(** C8, as the code has it.  An index expression with no item or with more
    than one is answered here: the [typeArgsMismatchOne] diagnostic is
    reported and the result is the unknown type.  With exactly one item the
    access falls through, with no result and nothing reported, when the
    expression has a trailing comma or the item is a keyword argument or is
    not a simple argument; otherwise it is handled and a result is
    returned. *)
Theorem getTypeOfIndexedTypedDict_shapes
    (utils : TypeUtils) (evaluator : TypeEvaluator) (node : IndexNode.t)
    (baseType : ClassType) (usage : EvaluatorUsage.t) (store : Store) :
  let result := getTypeOfIndexedTypedDict utils evaluator node baseType usage store in
  (length (IndexNode.items node) ≠ 1 →
   result =
     (Some (unknownResult),
      addDiagnostic reportGeneralTypeIssues
        (typeArgsMismatchOne (length (IndexNode.items node))) Addendum.new
        (IndexNode.id node) store)) ∧
  (∀ item, IndexNode.items node = [item] →
     (IndexNode.trailingComma node = true ∨ is_Some (Argument.name item) ∨
      Argument.argumentCategory item ≠ SimpleArgument) →
     result = (None, store)) ∧
  (∀ item, IndexNode.items node = [item] →
     IndexNode.trailingComma node = false → Argument.name item = None →
     Argument.argumentCategory item = SimpleArgument →
     is_Some (fst result)).
Proof.
  intros result. subst result. unfold getTypeOfIndexedTypedDict. split; [|split].
  - intros Hlen. destruct (IndexNode.items node) as [|item [|item' items]]; [done| |done].
    by destruct Hlen.
  - intros item -> Hshape.
    destruct (IndexNode.trailingComma node); [done|].
    destruct (Argument.name item); [done|].
    destruct (Argument.argumentCategory item); [|done..].
    destruct Hshape as [?|[[? ?]|?]]; done.
  - intros item -> -> -> ->. simpl.
    destruct (getTypedDictMembersForClass _ _ _ _ _) as [entries store1].
    destruct (mapSubtypes _ _ _ _) as [resultingType state]. by eexists.
Qed.

(** The two flags of lines 316-342 say that no entry is required and that
    no entry is writable. *)
Lemma allEntriesAreNotRequired_forallb (entries : JsMap.t TypedDictEntry) :
  allEntriesAreNotRequired entries
  = forallb (λ kv, negb (TypedDictEntry.isRequired (snd kv))) entries.
Proof.
  unfold allEntriesAreNotRequired.
  assert (H : ∀ acc, fold_left (λ (a : bool) (kv : string * TypedDictEntry),
              if TypedDictEntry.isRequired (snd kv) then false else a) entries acc
            = acc && forallb (λ kv, negb (TypedDictEntry.isRequired (snd kv))) entries).
  { induction entries as [|kv entries IH]; intros acc; simpl.
    - by rewrite andb_true_r.
    - rewrite IH. destruct (TypedDictEntry.isRequired kv.2), acc; simpl; try done. }
  by rewrite H.
Qed.

Lemma allEntriesAreReadOnly_forallb (entries : JsMap.t TypedDictEntry) :
  allEntriesAreReadOnly entries
  = forallb (λ kv, TypedDictEntry.isReadOnly (snd kv)) entries.
Proof.
  unfold allEntriesAreReadOnly.
  assert (H : ∀ acc, fold_left (λ (a : bool) (kv : string * TypedDictEntry),
              if negb (TypedDictEntry.isReadOnly (snd kv)) then false else a) entries acc
            = acc && forallb (λ kv, TypedDictEntry.isReadOnly (snd kv)) entries).
  { induction entries as [|kv entries IH]; intros acc; simpl.
    - by rewrite andb_true_r.
    - rewrite IH. destruct (TypedDictEntry.isReadOnly kv.2), acc; simpl; try done. }
  by rewrite H.
Qed.

(** When [clear] and [popitem] are set by the synthesis: the class is final,
    no entry is required, and not every entry is read-only. *)
Lemma synthesizeAccessors_clear_popitem
    (utils : TypeUtils) (evaluator : TypeEvaluator) (node : ParseNode)
    (classType strClass : ClassType) (isClassFinal : bool)
    (entries : JsMap.t TypedDictEntry) (symbolTable : JsMap.t Symbol.t) :
  let result :=
    synthesizeAccessors utils evaluator node classType isClassFinal strClass entries
      (allEntriesAreNotRequired entries) (allEntriesAreReadOnly entries) symbolTable in
  let synthesized :=
    isClassFinal
    && forallb (λ kv, negb (TypedDictEntry.isRequired (snd kv))) entries
    && existsb (λ kv, negb (TypedDictEntry.isReadOnly (snd kv))) entries in
  if synthesized then
    (∃ clear, JsMap.get "clear" result
               = Some (Symbol.createWithType classMember (Function clear)) ∧
              FunctionType.name clear = "clear") ∧
    (∃ popitem, JsMap.get "popitem" result
               = Some (Symbol.createWithType classMember (Function popitem)) ∧
              FunctionType.name popitem = "popitem")
  else
    JsMap.get "clear" result = JsMap.get "clear" symbolTable ∧
    JsMap.get "popitem" result = JsMap.get "popitem" symbolTable.
Proof.
  intros result synthesized. subst result synthesized.
  rewrite allEntriesAreNotRequired_forallb, allEntriesAreReadOnly_forallb.
  assert (Hex : existsb (λ kv : string * TypedDictEntry,
                  negb (TypedDictEntry.isReadOnly kv.2)) entries
                = negb (forallb (λ kv : string * TypedDictEntry,
                          TypedDictEntry.isReadOnly kv.2) entries)).
  { induction entries as [|kv entries IH]; simpl; [done|].
    rewrite IH. by destruct (TypedDictEntry.isReadOnly kv.2). }
  rewrite Hex. unfold synthesizeAccessors.
  destruct (fold_left _ entries _) as [[getOverloads popOverloads] setDefaultOverloads].
  set (cond := isClassFinal && _ && _).
  set (table := JsMap.set "update" _ _).
  assert (Hother : JsMap.get "clear" table = JsMap.get "clear" symbolTable ∧
                   JsMap.get "popitem" table = JsMap.get "popitem" symbolTable).
  { subst table.
    rewrite !(get_set_ne "update") by done.
    destruct (negb (forallb _ entries));
      rewrite ?(get_set_ne "__delitem__") by done;
      destruct (0 <? length setDefaultOverloads);
      rewrite ?(get_set_ne "setdefault") by done;
      destruct (0 <? length popOverloads);
      rewrite ?(get_set_ne "pop") by done;
      rewrite !(get_set_ne "get") by done; done. }
  destruct cond; [|done]. split.
  - eexists. rewrite get_set_ne by done. rewrite get_set_eq. done.
  - eexists. rewrite get_set_eq. done.
Qed.

End TypedDictProofs.

(** ** Construction from keys and values *)
Module ConstructionProofs.
Import Types TypedDicts Invariants JsMapProofs ResolutionProofs CacheProofs.

Lemma stringLiteralKey_sameDeclarations store store' type :
  sameDeclarations store store' →
  stringLiteralKey store' type = stringLiteralKey store type.
Proof.
  intros Hsame. unfold stringLiteralKey, isBuiltIn, detailsOf.
  destruct type; try done.
  destruct (Hsame (ClassType.details c)) as (-> & -> & _). done.
Qed.

Lemma NoDup_values_In {V : Type} (m : JsMap.t V) k1 k2 v :
  NoDup (JsMap.values m) → In (k1, v) m → In (k2, v) m → k1 = k2.
Proof.
  unfold JsMap.values. induction m as [|[k0 v0] m IH]; simpl; [done|].
  intros [Hnin Hnd]%NoDup_cons [[= -> ->]|H1] [[= -> ]|H2]; try done.
  - exfalso. apply Hnin. rewrite list_elem_of_In. apply (in_map snd) in H2. done.
  - subst. exfalso. apply Hnin. rewrite list_elem_of_In. apply (in_map snd) in H1. done.
  - by apply IH.
Qed.

Lemma lookup_combine {A B : Type} (l1 : list A) (l2 : list B) i x y :
  l1 !! i = Some x → l2 !! i = Some y → combine l1 l2 !! i = Some (x, y).
Proof.
  revert l2 i. induction l1 as [|a l1 IH]; intros [|b l2] [|i]; simpl; try done.
  - by intros [= ->] [= ->].
  - apply IH.
Qed.

Lemma forall_snoc {A : Type} (P : nat → A → Prop) (l : list A) (x : A) :
  (∀ j y, (l ++ [x]) !! j = Some y → P j y) ↔
  (∀ j y, l !! j = Some y → P j y) ∧ P (length l) x.
Proof.
  split.
  - intros H. split.
    + intros j y Hj. apply H. by apply lookup_app_l_Some.
    + apply H. by rewrite list_lookup_middle.
  - intros [Hl Hx] j y Hj. apply lookup_app_Some in Hj as [Hj|[Hge Hj]].
    + by apply Hl.
    + destruct (j - length l) as [|n] eqn:E; simpl in Hj; [|done].
      injection Hj as <-. replace j with (length l) by lia. done.
Qed.

Lemma exists_snoc {A : Type} (P : A → Prop) (l : list A) (x : A) :
  (∃ j y, (l ++ [x]) !! j = Some y ∧ P y) ↔ (∃ j y, l !! j = Some y ∧ P y) ∨ P x.
Proof.
  split.
  - intros (j & y & Hj & HP). apply lookup_app_Some in Hj as [Hj|[Hge Hj]].
    + left. eauto.
    + destruct (j - length l) as [|n]; simpl in Hj; [|done].
      injection Hj as <-. by right.
  - intros [(j & y & Hj & HP)|HP].
    + exists j, y. split; [by apply lookup_app_l_Some|done].
    + exists (length l), x. split; [by rewrite list_lookup_middle|done].
Qed.

Section Loop.
Context (utils : TypeUtils) (evaluator : TypeEvaluator) (classType : ClassType).
Context (store0 store1 : Store) (symbolMap : JsMap.t EntryRef).
Context (keyTypes valueTypes : list TypeResultWithNode.t).
Context (initial : option TypeVarContext.t) (diag0 : option DiagnosticAddendum).
Hypothesis Hlen : length keyTypes = length valueTypes.
Hypothesis Hkeys : NoDup (JsMap.keys symbolMap).
Hypothesis Hvalues : NoDup (JsMap.values symbolMap).
Hypothesis Hnot : ∀ name ref, In (name, ref) symbolMap →
  TypedDictEntry.isProvided (entryHeap store1 ref) = false.
Hypothesis Hsame : sameDeclarations store0 store1.

Local Abbreviation declared := (entriesOf store1 symbolMap).
Local Abbreviation keyName key := (stringLiteralKey store0 (TypeResult.type key)).
Local Abbreviation context :=
  (contextBefore utils evaluator store0 declared keyTypes valueTypes initial).
Local Abbreviation accepted :=
  (keyAccepted utils evaluator store0 declared keyTypes valueTypes initial).
Local Abbreviation addendumOf :=
  (keyAddendum utils evaluator classType store0 declared keyTypes valueTypes initial).

Local Abbreviation addedFrom :=
  (addedFrom utils evaluator classType store0 store1 symbolMap keyTypes valueTypes
     initial).
Local Abbreviation loopInv :=
  (loopInv utils evaluator classType store0 store1 symbolMap keyTypes valueTypes initial
     diag0).
Local Abbreviation initialState := (initialState store1 initial diag0).

Lemma addedFrom_app index keys1 keys2 :
  addedFrom index (keys1 ++ keys2)
  = addedFrom index keys1 ++ addedFrom (index + length keys1) keys2.
Proof.
  revert index. induction keys1 as [|k keys1 IH]; intros index; simpl.
  - by rewrite Nat.add_0_r.
  - rewrite IH, <-app_assoc. do 3 f_equal. lia.
Qed.

Lemma get_declared name :
  JsMap.get name declared = entryHeap store1 <$> JsMap.get name symbolMap.
Proof. unfold entriesOf. apply get_map. Qed.

Lemma context_S index key value :
  keyTypes !! index = Some key → valueTypes !! index = Some value →
  context (S index)
  = contextAfterKey utils evaluator store0 declared (context index) (key, value).
Proof.
  intros Hk Hv. unfold contextBefore.
  rewrite (take_S_r _ _ (key, value)) by (by apply lookup_combine).
  by rewrite fold_left_app.
Qed.

Lemma loopInv_initial : loopInv [] initialState.
Proof.
  split; simpl; try done.
  - intros name ref Hin. rewrite (Hnot name ref Hin). split; [done|].
    by intros (j & key & Hj & _).
  - destruct diag0 as [[ms r cs]|]; simpl; [|done].
    unfold appendChildren. simpl. by rewrite app_nil_r.
Qed.

Lemma loopInv_step done key rest state :
  keyTypes = done ++ key :: rest →
  loopInv done state →
  loopInv (done ++ [key])
    (assignKey utils evaluator classType valueTypes symbolMap state (length done) key).
Proof.
  intros Hsplit [Hd Hn Hr Hh Hs Hp Hm Hc Hdiag].
  assert (Hkey : keyTypes !! length done = Some key).
  { rewrite Hsplit. by rewrite list_lookup_middle. }
  assert (∃ value, valueTypes !! length done = Some value) as [value Hvalue].
  { apply lookup_lt_is_Some. rewrite <-Hlen. by eapply lookup_lt_Some. }
  assert (Hname : stringLiteralKey (ConstructState.store state) (TypeResult.type key)
                  = keyName key).
  { rewrite <-(stringLiteralKey_sameDeclarations store0 store1) by done.
    unfold stringLiteralKey, isBuiltIn, detailsOf. by rewrite Hd. }
  assert (Hctx : context (length (done ++ [key]))
            = contextAfterKey utils evaluator store0 declared (context (length done))
                (key, value)).
  { rewrite length_app. simpl. rewrite Nat.add_1_r. by apply context_S. }
  assert (Hadded : addedFrom 0 (done ++ [key])
            = addedFrom 0 done ++
              match keyName key with
              | Some name => [addendumOf (length done) key name]
              | None => []
              end).
  { rewrite addedFrom_app. simpl. by rewrite app_nil_r. }
  unfold assignKey. rewrite Hname.
  destruct (keyName key) as [name|] eqn:Ekey.
  2: { (* not a string literal *)
    split; simpl; try done.
    - intros n ref Hin. rewrite (Hp n ref Hin), exists_snoc.
      split; [by left|]. intros [?|?]; [done|congruence].
    - split; [done|]. intros Hall. apply forall_snoc in Hall as [_ Hacc].
      destruct Hacc as (n & e & v & Hn' & _). fold (keyName key) in Hn'. congruence.
    - rewrite Hctx, Hc. unfold contextAfterKey. simpl. fold (keyName key).
      by rewrite Ekey.
    - rewrite Hadded, app_nil_r. done. }
  destruct (JsMap.get name symbolMap) as [ref|] eqn:Eget.
  2: { (* no such entry *)
    assert (Hdecl : JsMap.get name declared = None) by (by rewrite get_declared, Eget).
    split; simpl; try done.
    - intros n ref Hin. rewrite (Hp n ref Hin), exists_snoc.
      split; [by left|]. intros [?|Hk]; [done|].
      assert (n = name) as -> by congruence.
      by destruct (get_None_not_In name symbolMap Eget ref).
    - split; [done|]. intros Hall. apply forall_snoc in Hall as [_ Hacc].
      destruct Hacc as (n & e & v & Hn' & He & _). fold (keyName key) in Hn'.
      assert (n = name) as -> by congruence. congruence.
    - rewrite Hctx, Hc. unfold contextAfterKey. simpl. fold (keyName key).
      by rewrite Ekey, Hdecl.
    - rewrite Hdiag, Hadded. unfold keyAddendum. rewrite Hdecl.
      destruct diag0 as [d|]; simpl; [|done].
      unfold appendChildren, Addendum.addAddendum. simpl. by rewrite app_assoc. }
  (* the key names the entry behind [ref] *)
  rewrite Hvalue.
  assert (Hin : In (name, ref) symbolMap) by (by apply get_In).
  assert (Hdecl : JsMap.get name declared = Some (entryHeap store1 ref))
    by (by rewrite get_declared, Eget).
  destruct (Hs name ref Hin) as (Hvt & Hreq & Hro).
  set (result := assignType evaluator _ _ _ _ _).
  assert (Hresult : result
            = valueCheck utils evaluator store0 declared keyTypes valueTypes initial
                (length done) (entryHeap store1 ref) value).
  { subst result. unfold valueCheck. fold context. by rewrite Hvt, Hc. }
  assert (Hacc : accepted (length done) key ↔
            AssignTypeResult.isAssignable result = true).
  { unfold keyAccepted. split.
    - intros (n & e & v & Hn' & He & Hv & Hok). fold (keyName key) in Hn'.
      assert (n = name) as -> by congruence.
      assert (e = entryHeap store1 ref) as -> by congruence.
      assert (v = value) as -> by congruence. by rewrite Hresult.
    - intros Hok. exists name, (entryHeap store1 ref), value.
      repeat split; try done. by rewrite <-Hresult. }
  split; simpl; try done.
  - intros r Hnotin. destruct (Nat.eqb_spec r ref) as [->|Hne].
    + by destruct (Hnotin name).
    + by apply Hh.
  - intros n r Hin'. destruct (Nat.eqb_spec r ref) as [->|Hne]; simpl.
    + done.
    + exact (Hs n r Hin').
  - intros n r Hin'. rewrite exists_snoc.
    destruct (Nat.eqb_spec r ref) as [->|Hne]; simpl.
    + assert (n = name) as -> by (by eapply NoDup_values_In).
      split; [by right|done].
    + rewrite (Hp n r Hin'). split; [by left|]. intros [?|Hk]; [done|].
      assert (n = name) as -> by congruence.
      apply (In_get _ _ _ Hkeys) in Hin'. congruence.
  - rewrite forall_snoc, Hacc. destruct (AssignTypeResult.isAssignable result).
    + rewrite Hm. tauto.
    + split; [done|]. by intros [_ ?].
  - rewrite Hctx, Hc. unfold contextAfterKey. simpl. fold (keyName key).
    rewrite Ekey, Hdecl. fold context. rewrite <-Hc.
    unfold result. by rewrite Hvt.
  - rewrite Hdiag, Hadded. unfold keyAddendum. rewrite Hdecl, Hvalue.
    rewrite <-Hresult.
    destruct diag0 as [d|]; simpl; [|done].
    unfold appendChildren, Addendum.addAddendum. simpl. by rewrite app_assoc.
Qed.

Lemma loopInv_assignKeys rest : ∀ done state,
  keyTypes = done ++ rest →
  loopInv done state →
  loopInv keyTypes
    (assignKeys utils evaluator classType valueTypes symbolMap rest (length done) state).
Proof.
  induction rest as [|key rest IH]; intros done state Hsplit Hinv; simpl.
  - rewrite app_nil_r in Hsplit. by subst done.
  - replace (S (length done)) with (length (done ++ [key]))
      by (rewrite length_app; simpl; lia).
    apply IH.
    + by rewrite <-app_assoc.
    + by eapply loopInv_step.
Qed.

Lemma loopInv_final :
  loopInv keyTypes
    (assignKeys utils evaluator classType valueTypes symbolMap keyTypes 0 initialState).
Proof. apply (loopInv_assignKeys keyTypes [] initialState); [done|apply loopInv_initial]. Qed.

(** The check for missing required keys (lines 1083-1095). *)
Lemma checkRequired_fold store diag :
  let result := fold_left (checkRequired evaluator classType store) symbolMap (true, diag) in
  (fst result = true ↔
   ∀ name ref, In (name, ref) symbolMap →
     TypedDictEntry.isRequired (entryHeap store ref) = true →
     TypedDictEntry.isProvided (entryHeap store ref) = true) ∧
  option_map childAddenda (snd result) = option_map childAddenda diag.
Proof.
  assert (Hgen : ∀ table acc,
    let result := fold_left (checkRequired evaluator classType store) table acc in
    (fst result = true ↔
     fst acc = true ∧
     ∀ name ref, In (name, ref) table →
       TypedDictEntry.isRequired (entryHeap store ref) = true →
       TypedDictEntry.isProvided (entryHeap store ref) = true) ∧
    option_map childAddenda (snd result) = option_map childAddenda (snd acc)).
  { induction table as [|[name ref] table IH]; intros [isMatch d]; simpl.
    - split; [|done]. split; [by intros ->|by intros [-> _]].
    - destruct (IH (checkRequired evaluator classType store (isMatch, d) (name, ref)))
        as [IHm IHd].
      unfold checkRequired in *.
      destruct (TypedDictEntry.isRequired (entryHeap store ref)) eqn:Ereq;
        destruct (TypedDictEntry.isProvided (entryHeap store ref)) eqn:Eprov; simpl in *.
      + split; [|done]. rewrite IHm. split.
        * intros [-> Hall]. split; [done|]. intros n r [[= <- <-]|Hin]; [done|exact (Hall n r Hin)].
        * intros [-> Hall]. split; [done|]. intros n r Hin. exact (Hall n r (or_intror Hin)).
      + split.
        * rewrite IHm. split; [by intros [? _]|].
          intros [_ Hall]. specialize (Hall name ref (or_introl eq_refl) Ereq). congruence.
        * rewrite IHd. by destruct d.
      + split; [|done]. rewrite IHm. split.
        * intros [-> Hall]. split; [done|].
          intros n r [[= <- <-]|Hin]; [congruence|exact (Hall n r Hin)].
        * intros [-> Hall]. split; [done|]. intros n r Hin. exact (Hall n r (or_intror Hin)).
      + split; [|done]. rewrite IHm. split.
        * intros [-> Hall]. split; [done|].
          intros n r [[= <- <-]|Hin]; [congruence|exact (Hall n r Hin)].
        * intros [-> Hall]. split; [done|]. intros n r Hin. exact (Hall n r (or_intror Hin)). }
  intros result. subst result.
  destruct (Hgen symbolMap (true, diag)) as [Hm Hd]. simpl in Hm, Hd. split; [|done].
  rewrite Hm. tauto.
Qed.

Lemma addedFrom_length index keys :
  length (addedFrom index keys) = length (List.filter (isLiteralKey store0) keys).
Proof.
  revert index. induction keys as [|key keys IH]; intros index; simpl; [done|].
  unfold isLiteralKey at 1. fold (keyName key).
  destruct (keyName key); simpl; by rewrite IH.
Qed.

Lemma addedFrom_lookup keys : ∀ index j (key : TypeResultWithNode.t) name,
  keys !! j = Some key → keyName key = Some name →
  addedFrom index keys !! length (List.filter (isLiteralKey store0) (firstn j keys))
  = Some (addendumOf (index + j) key name).
Proof.
  induction keys as [|k keys IH]; intros index j key name Hj Hname; [done|].
  destruct j as [|j]; simpl in *.
  - injection Hj as ->. rewrite Hname. simpl. by rewrite Nat.add_0_r.
  - unfold isLiteralKey at 1. fold (keyName k).
    replace (index + S j) with (S index + j) by lia.
    destruct (keyName k); simpl; by apply IH.
Qed.

End Loop.

(** What the addendum of a literal key shows. *)
Lemma keyAddendum_shows utils evaluator classType store declared keyTypes valueTypes
    initial index key name :
  let child :=
    keyAddendum utils evaluator classType store declared keyTypes valueTypes initial
      index key name in
  (JsMap.get name declared = None →
   messages child =
     [typedDictFieldUndefined name
        (printType evaluator (Class (cloneAsInstance classType)))] ∧
   range child = Some (TypeResultWithNode.node key)) ∧
  (∀ entry (value : TypeResultWithNode.t), JsMap.get name declared = Some entry →
     valueTypes !! index = Some value →
     if AssignTypeResult.isAssignable
          (valueCheck utils evaluator store declared keyTypes valueTypes initial
             index entry value)
     then messages child = [] ∧ range child = None
     else messages child =
            [typedDictFieldTypeMismatch name
               (printType evaluator (TypeResult.type value))] ∧
          range child = Some (TypeResultWithNode.node key)).
Proof.
  intros child. subst child. unfold keyAddendum. split.
  - by intros ->.
  - intros entry value -> ->. unfold valueCheckAddendum.
    by destruct (AssignTypeResult.isAssignable _).
Qed.

End ConstructionProofs.

(** ** What the checks do to the store *)
Module StoreEffects.
Import Types TypedDicts Invariants Views JsMapProofs ResolutionProofs CacheProofs.
Import ViewsProofs ConstructionProofs.

Lemma cacheUnchanged_of_preserved store store' :
  cacheOk store → preserved store store' → cacheUnchanged store store'.
Proof.
  intros Hok (_ & Hh & Hc & _) c table Htable. split; [by apply Hc|].
  intros name ref Hin. apply Hh. by apply (Hok c table name ref).
Qed.



Section WithUtils.
Context (utils : TypeUtils) (evaluator : TypeEvaluator).




(** [getTypedDictMembersForClass] keeps the cache in order, leaves what was
    cached as it was, and returns entries that no cached table holds. *)
Lemma getTypedDictMembersForClass_store classType allowNarrowed store :
  cacheOk store →
  let result := getTypedDictMembersForClass utils evaluator classType allowNarrowed store in
  cacheOk (snd result) ∧ preserved store (snd result) ∧
  (∀ name ref, In (name, ref) (fst result) →
     ∀ c table, cachedTable (snd result) c = Some table →
       ¬ In ref (JsMap.values table)).
Proof.
  intros Hok result.
  destruct (getTypedDictMembersForClass_spec utils evaluator classType allowNarrowed
              store Hok) as (lo & Hlo & Hlo' & (Hfresh & _) & Hcache & Hp & _).
  fold result in Hlo', Hfresh, Hcache, Hp. split; [|split; [done|]].
  - intros c table name ref Htable Hin.
    destruct (Hcache c table name ref Htable Hin). split; [lia|done].
  - intros name ref Hin c table Htable Hin'.
    apply in_map_iff in Hin' as ([k r] & Heq & Hin'). simpl in Heq. subst r.
    destruct (Hcache c table k ref Htable Hin') as [Hlt _].
    specialize (Hfresh name ref Hin). lia.
Qed.




End WithUtils.


End StoreEffects.

(** ** The verdict of a construction *)
Module ConstructionClaim.
Import Types TypedDicts Invariants JsMapProofs ResolutionProofs CacheProofs.
Import ConstructionProofs.

(** C1, as the code has it.  For keys and values of equal number, the
    construction returns a class type exactly when every key is a string
    literal naming a declared entry whose type accepts the value, and every
    required entry is named by some key.  When an addendum is supplied, each
    string-literal key adds one child to it, in key order: a child with the
    "undefined field" message and the key's range for a key that names no
    entry, a child with the "type mismatch" message and the key's range for
    a value that is not assignable, and a child without message for an
    accepted key.  A key that is not a string literal adds nothing. *)
Theorem assignToTypedDict_verdict
    (utils : TypeUtils) (evaluator : TypeEvaluator) (classType : ClassType)
    (keyTypes valueTypes : list TypeResultWithNode.t)
    (diagAddendum : option DiagnosticAddendum) (store : Store) :
  cacheOk store →
  length keyTypes = length valueTypes →
  let declared := declaredEntries utils evaluator classType store in
  let initial := initialTypeVarContext store classType in
  let result :=
    assignToTypedDict utils evaluator classType keyTypes valueTypes diagAddendum store in
  (is_Some (fst (fst result)) ↔
   (∀ index (key : TypeResultWithNode.t), keyTypes !! index = Some key →
      keyAccepted utils evaluator store declared keyTypes valueTypes initial index key) ∧
   (∀ name entry, JsMap.get name declared = Some entry →
      TypedDictEntry.isRequired entry = true →
      ∃ index (key : TypeResultWithNode.t), keyTypes !! index = Some key ∧
        stringLiteralKey store (TypeResult.type key) = Some name)) ∧
  (∀ diag, diagAddendum = Some diag →
     ∃ diag' added,
       snd (fst result) = Some diag' ∧
       childAddenda diag' = childAddenda diag ++ added ∧
       length added = literalKeysBefore store keyTypes (length keyTypes) ∧
       ∀ index (key : TypeResultWithNode.t) name, keyTypes !! index = Some key →
         stringLiteralKey store (TypeResult.type key) = Some name →
         ∃ child,
           added !! literalKeysBefore store keyTypes index = Some child ∧
           (JsMap.get name declared = None →
            messages child =
              [typedDictFieldUndefined name
                 (printType evaluator (Class (cloneAsInstance classType)))] ∧
            range child = Some (TypeResultWithNode.node key)) ∧
           (∀ entry (value : TypeResultWithNode.t), JsMap.get name declared = Some entry →
              valueTypes !! index = Some value →
              if AssignTypeResult.isAssignable
                   (valueCheck utils evaluator store declared keyTypes valueTypes
                      initial index entry value)
              then messages child = [] ∧ range child = None
              else messages child =
                     [typedDictFieldTypeMismatch name
                        (printType evaluator (TypeResult.type value))] ∧
                   range child = Some (TypeResultWithNode.node key))).
Proof.
  intros Hok Hlen declared initial result.
  subst declared initial result. unfold assignToTypedDict, declaredEntries.
  set (generic := genericClassTypeOf store classType).
  destruct (getTypedDictMembersForClass_spec utils evaluator generic false store Hok)
    as (lo & Hlo & Hlo' & (Hfresh & Hkeys & Hvalues) & Hcache & Hp & _ & Hnot).
  specialize (Hnot eq_refl).
  destruct (getTypedDictMembersForClass utils evaluator generic false store)
    as [symbolMap store1]. simpl in Hlo', Hfresh, Hkeys, Hvalues, Hcache, Hp, Hnot. simpl.
  set (initial := initialTypeVarContext store classType).
  set (declared := entriesOf store1 symbolMap).
  assert (Hsame : sameDeclarations store store1) by (by destruct Hp as (_&_&_&?)).
  pose proof (loopInv_final utils evaluator classType store store1 symbolMap keyTypes
                valueTypes initial diagAddendum Hlen Hkeys Hvalues Hnot Hsame) as Hinv.
  fold (initialState store1 initial diagAddendum).
  set (state := assignKeys _ _ _ _ _ _ _ _) in *.
  destruct Hinv as [Hd Hn Hr Hh Hs Hprov Hm Hc Hdiag]. fold declared in Hm.
  set (added := addedFrom utils evaluator classType store store1 symbolMap keyTypes
                  valueTypes initial 0 keyTypes) in *.
  (* the children, whichever way the function returns *)
  assert (Hchildren : ∀ diag, diagAddendum = Some diag →
    ∀ final, option_map childAddenda final
             = option_map childAddenda (ConstructState.diagAddendum state) →
    ∃ diag', final = Some diag' ∧ childAddenda diag' = childAddenda diag ++ added).
  { intros diag -> final Hfinal. rewrite Hdiag in Hfinal. simpl in Hfinal.
    destruct final as [diag'|]; [|done]. exists diag'. split; [done|].
    by injection Hfinal. }
  assert (Hadded : length added = literalKeysBefore store keyTypes (length keyTypes) ∧
    ∀ index (key : TypeResultWithNode.t) name, keyTypes !! index = Some key →
      stringLiteralKey store (TypeResult.type key) = Some name →
      added !! literalKeysBefore store keyTypes index
      = Some (keyAddendum utils evaluator classType store declared keyTypes valueTypes
                initial index key name)).
  { split.
    - unfold added, literalKeysBefore. rewrite addedFrom_length.
      by rewrite firstn_all.
    - intros index key name Hkey Hname. unfold added, literalKeysBefore.
      erewrite addedFrom_lookup by eassumption. done. }
  assert (Hdiagpart : ∀ final,
    option_map childAddenda final
      = option_map childAddenda (ConstructState.diagAddendum state) →
    ∀ diag, diagAddendum = Some diag →
    ∃ diag' added',
      final = Some diag' ∧ childAddenda diag' = childAddenda diag ++ added' ∧
      length added' = literalKeysBefore store keyTypes (length keyTypes) ∧
      ∀ index (key : TypeResultWithNode.t) name, keyTypes !! index = Some key →
        stringLiteralKey store (TypeResult.type key) = Some name →
        ∃ child,
          added' !! literalKeysBefore store keyTypes index = Some child ∧
          (JsMap.get name declared = None →
           messages child =
             [typedDictFieldUndefined name
                (printType evaluator (Class (cloneAsInstance classType)))] ∧
           range child = Some (TypeResultWithNode.node key)) ∧
          (∀ entry (value : TypeResultWithNode.t), JsMap.get name declared = Some entry →
             valueTypes !! index = Some value →
             if AssignTypeResult.isAssignable
                  (valueCheck utils evaluator store declared keyTypes valueTypes
                     initial index entry value)
             then messages child = [] ∧ range child = None
             else messages child =
                    [typedDictFieldTypeMismatch name
                       (printType evaluator (TypeResult.type value))] ∧
                  range child = Some (TypeResultWithNode.node key))).
  { intros final Hfinal diag Hsome.
    destruct (Hchildren diag Hsome final Hfinal) as (diag' & -> & Hch).
    exists diag', added. split; [done|]. split; [done|].
    destruct Hadded as [Hl Hlook]. split; [done|].
    intros index key name Hkey Hname. eexists. split; [by apply Hlook|].
    apply keyAddendum_shows. }
  (* the part of the verdict that the required entries decide *)
  assert (Hrequired :
    (∀ name ref, In (name, ref) symbolMap →
       TypedDictEntry.isRequired (entryHeap (ConstructState.store state) ref) = true →
       TypedDictEntry.isProvided (entryHeap (ConstructState.store state) ref) = true) ↔
    (∀ name entry, JsMap.get name declared = Some entry →
       TypedDictEntry.isRequired entry = true →
       ∃ index (key : TypeResultWithNode.t), keyTypes !! index = Some key ∧
         stringLiteralKey store (TypeResult.type key) = Some name)).
  { split.
    - intros Hall name entry Hget Hreq. unfold declared, entriesOf in Hget.
      rewrite get_map in Hget.
      destruct (JsMap.get name symbolMap) as [ref|] eqn:Eget; [|done].
      injection Hget as <-. apply get_In in Eget.
      apply (Hprov name ref Eget). apply (Hall name ref Eget).
      destruct (Hs name ref Eget) as (_ & -> & _). done.
    - intros Hall name ref Hin Hreq. apply (Hprov name ref Hin).
      apply (Hall name (entryHeap store1 ref)).
      + unfold declared, entriesOf. rewrite get_map.
        by rewrite (In_get _ _ _ Hkeys Hin).
      + destruct (Hs name ref Hin) as (_ & <- & _). done. }
  destruct (ConstructState.isMatch state) eqn:Ematch; simpl.
  2: { split.
    - split; [by intros [? ?]|]. intros [Hall _]. apply Hm in Hall. done.
    - by apply Hdiagpart. }
  destruct (checkRequired_fold evaluator classType symbolMap
              (ConstructState.store state) (ConstructState.diagAddendum state))
    as [Hcheck Hcheckdiag].
  destruct (fold_left _ symbolMap _) as [isMatch diag]. simpl in Hcheck, Hcheckdiag.
  destruct isMatch; simpl.
  - split.
    + split; [|by eexists]. intros _. split; [by apply Hm|].
      exact (proj1 Hrequired (proj1 Hcheck eq_refl)).
    + by apply Hdiagpart.
  - split.
    + split; [by intros [? ?]|]. intros [_ Hreq].
      pose proof (proj2 Hcheck (proj2 Hrequired Hreq)). done.
    + by apply Hdiagpart.
Qed.

End ConstructionClaim.

(** ** Assignability between two TypedDict classes *)
Module AssignabilityProofs.
Import Types TypedDicts Invariants Views JsMapProofs.

(** Case analysis on the condition of a conditional of the goal. *)
Ltac case_if :=
  match goal with |- context [if ?b then _ else _] => destruct b eqn:? end.

Section Entries.
Context (utils : TypeUtils) (evaluator : TypeEvaluator).
Context (destType srcType : ClassType) (flags : Z) (recursionCount : nat).
Context (store : Store) (srcEntries : JsMap.t EntryRef).

Local Abbreviation step :=
  (assignEntry utils evaluator store destType srcType flags recursionCount srcEntries).

(** Once an entry has failed, the result stays [false]. *)
Lemma assignEntry_consistent state dest :
  AssignState.typesAreConsistent (step state dest) = true →
  AssignState.typesAreConsistent state = true.
Proof.
  destruct dest as [name destRef]. unfold assignEntry.
  destruct (JsMap.get name srcEntries) as [srcRef|].
  - simpl. by repeat case_if.
  - by repeat (case_if; simpl).
Qed.

Lemma fold_consistent entries state :
  AssignState.typesAreConsistent (fold_left step entries state) = true →
  AssignState.typesAreConsistent state = true.
Proof.
  revert state. induction entries as [|dest entries IH]; intros state; simpl; [done|].
  intros H. by apply (assignEntry_consistent state dest), IH.
Qed.

Lemma extendsDiag_refl d : extendsDiag d d.
Proof. intros d0 ->. exists d0, []. by rewrite app_nil_r. Qed.

Lemma extendsDiag_trans d1 d2 d3 :
  extendsDiag d1 d2 → extendsDiag d2 d3 → extendsDiag d1 d3.
Proof.
  intros H12 H23 d Hd. destruct (H12 d Hd) as (d' & added & Hd' & Hc).
  destruct (H23 d' Hd') as (d'' & added' & Hd'' & Hc').
  exists d'', (added ++ added'). split; [done|]. by rewrite Hc', Hc, app_assoc.
Qed.

Lemma extendsDiag_child child d :
  extendsDiag d (option_map (Addendum.addAddendum child) d).
Proof. intros d0 ->. by exists (Addendum.addAddendum child d0), [child]. Qed.

Lemma assignEntry_diag state dest :
  extendsDiag (AssignState.diag state) (AssignState.diag (step state dest)).
Proof.
  destruct dest as [name destRef]. unfold assignEntry.
  destruct (JsMap.get name srcEntries) as [srcRef|].
  - simpl. unfold addChildMessage.
    repeat case_if;
      repeat (eapply extendsDiag_trans; [|apply extendsDiag_child]);
      apply extendsDiag_refl.
  - unfold addChildMessage.
    repeat (case_if; simpl);
      repeat (eapply extendsDiag_trans; [|apply extendsDiag_child]);
      apply extendsDiag_refl.
Qed.

Lemma fold_diag entries state :
  extendsDiag (AssignState.diag state)
    (AssignState.diag (fold_left step entries state)).
Proof.
  revert state. induction entries as [|dest entries IH]; intros state; simpl.
  - apply extendsDiag_refl.
  - eapply extendsDiag_trans; [apply assignEntry_diag|apply IH].
Qed.

(** A turn of the loop leaves [typesAreConsistent] as it is if it accepts
    the entry, and makes it [false] otherwise. *)
Lemma assignEntry_verdict state dest :
  AssignState.typesAreConsistent (step state dest)
  = AssignState.typesAreConsistent state
    && fieldAccepted utils evaluator store flags recursionCount srcEntries
         (AssignState.typeVarContext state) dest.
Proof.
  destruct dest as [name destRef]. unfold assignEntry, fieldAccepted. simpl.
  destruct (JsMap.get name srcEntries) as [srcRef|]; simpl.
  - destruct (TypedDictEntry.isReadOnly (entryHeap store destRef)),
      (TypedDictEntry.isReadOnly (entryHeap store srcRef)),
      (Bool.eqb _ _), (AssignTypeResult.isAssignable _),
      (AssignState.typesAreConsistent state); done.
  - destruct (TypedDictEntry.isRequired (entryHeap store destRef)),
      (TypedDictEntry.isReadOnly (entryHeap store destRef)); simpl;
      rewrite ?andb_false_r; try done.
    destruct (isClassInstance (getObjectType evaluator)); simpl;
      [|by rewrite andb_true_r].
    by destruct (AssignTypeResult.isAssignable _), (AssignState.typesAreConsistent state).
Qed.

(** The loop ends with [true] exactly when it started with [true] and
    every turn accepted its entry. *)
Lemma fold_verdict entries : ∀ state,
  AssignState.typesAreConsistent (fold_left step entries state) = true ↔
  AssignState.typesAreConsistent state = true ∧
  ∀ before dest after, entries = before ++ dest :: after →
    fieldAccepted utils evaluator store flags recursionCount srcEntries
      (AssignState.typeVarContext (fold_left step before state)) dest = true.
Proof.
  induction entries as [|first entries IH]; intros state; simpl.
  - split; [|by intros [? _]]. intros H. split; [done|].
    intros [|? ?] ? ? Heq; discriminate Heq.
  - rewrite IH, assignEntry_verdict, andb_true_iff. split.
    + intros [[Hstate Hfirst] Hrest]. split; [done|].
      intros [|first' before] dest after Heq; injection Heq as <- Heq.
      * done.
      * simpl. by apply (Hrest before dest after).
    + intros [Hstate Hall]. split; [split; [done|]|].
      * by apply (Hall [] first entries).
      * intros before dest after ->. by apply (Hall (first :: before) dest after).
Qed.

(** The fold, cut at an entry. *)
Lemma fold_cut before dest after state :
  fold_left step (before ++ dest :: after) state
  = fold_left step after (fold_left step (before ++ [dest]) state).
Proof. by rewrite !fold_left_app. Qed.

Lemma fold_snoc before dest state :
  fold_left step (before ++ [dest]) state = step (fold_left step before state) dest.
Proof. by rewrite fold_left_app. Qed.

End Entries.

(** The function in terms of its two tables. *)
Lemma assignTypedDictToTypedDict_unfold utils evaluator destType srcType diag
    typeVarContext flags recursionCount store :
  let dest := getTypedDictMembersForClass utils evaluator destType false store in
  let src := getTypedDictMembersForClass utils evaluator srcType true (snd dest) in
  assignTypedDictToTypedDict utils evaluator destType srcType diag typeVarContext flags
    recursionCount store
  = (fold_left
       (assignEntry utils evaluator (snd src) destType srcType flags recursionCount
          (fst src))
       (fst dest)
       {| AssignState.typesAreConsistent := true;
          AssignState.diag := diag;
          AssignState.typeVarContext := typeVarContext |},
     snd src).
Proof.
  intros dest src. subst dest src. unfold assignTypedDictToTypedDict.
  destruct (getTypedDictMembersForClass utils evaluator destType false store)
    as [destEntries store1]. simpl.
  by destruct (getTypedDictMembersForClass utils evaluator srcType true store1).
Qed.


(** C2.  For a field declared in both tables, the value types are checked by
    [assignType] with the flag [EnforceInvariance] added when the destination
    field is writable, and with the caller's flags as they are (ordinary
    assignability) when it is read-only.  A value type that the check with
    these flags rejects makes the whole result [false]; for a read-only
    destination field, a value type that ordinary assignability accepts leaves
    the result as it was before the field.  With an evaluator that, under
    [EnforceInvariance], accepts only types that are the [same], a writable
    field whose source value type is not the same as the destination's (a
    strict subtype, say) makes the result [false].  The result is [true]
    exactly when every destination field is accepted, and a read-only
    destination field that the source declares is accepted exactly when
    ordinary assignability accepts the source's value type, a strict subtype
    included; a writable one when, besides, the two fields agree on being
    required and the source's is writable, and the check under
    [EnforceInvariance] passes. *)
Theorem value_check_invariant_unless_read_only
    (utils : TypeUtils) (evaluator : TypeEvaluator) (destType srcType : ClassType)
    (diag : option DiagnosticAddendum) (typeVarContext : option TypeVarContext.t)
    (flags : Z) (recursionCount : nat) (store : Store)
    (before after : list (string * EntryRef)) (name : string)
    (destRef srcRef : EntryRef) :
  let dest := getTypedDictMembersForClass utils evaluator destType false store in
  let src := getTypedDictMembersForClass utils evaluator srcType true (snd dest) in
  let step :=
    assignEntry utils evaluator (snd src) destType srcType flags recursionCount (fst src) in
  let initial :=
    {| AssignState.typesAreConsistent := true;
       AssignState.diag := diag;
       AssignState.typeVarContext := typeVarContext |} in
  let result :=
    fst (assignTypedDictToTypedDict utils evaluator destType srcType diag typeVarContext
           flags recursionCount store) in
  let destEntry := entryHeap (snd src) destRef in
  let srcEntry := entryHeap (snd src) srcRef in
  let state := fold_left step before initial in
  let state' := fold_left step (before ++ [(name, destRef)]) initial in
  let accepts := λ flags',
    AssignTypeResult.isAssignable
      (assignType evaluator (TypedDictEntry.valueType destEntry)
         (TypedDictEntry.valueType srcEntry) (AssignState.typeVarContext state) flags'
         recursionCount) in
  fst dest = before ++ (name, destRef) :: after →
  JsMap.get name (fst src) = Some srcRef →
  (TypedDictEntry.isReadOnly destEntry = false →
     (accepts (Z.lor flags (EnforceInvariance utils)) = false →
      AssignState.typesAreConsistent result = false) ∧
     AssignState.typesAreConsistent state'
     = AssignState.typesAreConsistent state
       && Bool.eqb (TypedDictEntry.isRequired destEntry) (TypedDictEntry.isRequired srcEntry)
       && negb (TypedDictEntry.isReadOnly srcEntry)
       && accepts (Z.lor flags (EnforceInvariance utils))) ∧
  (TypedDictEntry.isReadOnly destEntry = true →
     (accepts flags = false → AssignState.typesAreConsistent result = false) ∧
     AssignState.typesAreConsistent state'
     = AssignState.typesAreConsistent state && accepts flags) ∧
  (∀ same : Type_ → Type_ → Prop,
     (∀ destValue srcValue context flags' count,
        Z.land flags' (EnforceInvariance utils) = EnforceInvariance utils →
        AssignTypeResult.isAssignable
          (assignType evaluator destValue srcValue context flags' count) = true →
        same destValue srcValue) →
     TypedDictEntry.isReadOnly destEntry = false →
     ¬ same (TypedDictEntry.valueType destEntry) (TypedDictEntry.valueType srcEntry) →
     AssignState.typesAreConsistent result = false) ∧
  (let accepted :=
     fieldAccepted utils evaluator (snd src) flags recursionCount (fst src) in
   (AssignState.typesAreConsistent result = true ↔
      ∀ before' dest' after', fst dest = before' ++ dest' :: after' →
        accepted (AssignState.typeVarContext (fold_left step before' initial)) dest'
        = true) ∧
   accepted (AssignState.typeVarContext state) (name, destRef)
   = if TypedDictEntry.isReadOnly destEntry then accepts flags
     else Bool.eqb (TypedDictEntry.isRequired destEntry)
            (TypedDictEntry.isRequired srcEntry)
          && negb (TypedDictEntry.isReadOnly srcEntry)
          && accepts (Z.lor flags (EnforceInvariance utils))).
Proof.
  intros dest src step initial result destEntry srcEntry state state' accepts Hcut Hget.
  assert (Hall :
    let accepted :=
      fieldAccepted utils evaluator (snd src) flags recursionCount (fst src) in
    (AssignState.typesAreConsistent result = true ↔
       ∀ before' dest' after', fst dest = before' ++ dest' :: after' →
         accepted (AssignState.typeVarContext (fold_left step before' initial)) dest'
         = true) ∧
    accepted (AssignState.typeVarContext state) (name, destRef)
    = if TypedDictEntry.isReadOnly destEntry then accepts flags
      else Bool.eqb (TypedDictEntry.isRequired destEntry)
             (TypedDictEntry.isRequired srcEntry)
           && negb (TypedDictEntry.isReadOnly srcEntry)
           && accepts (Z.lor flags (EnforceInvariance utils))).
  { intros accepted. split.
    - pose proof (fold_verdict utils evaluator destType srcType flags recursionCount
                    (snd src) (fst src) (fst dest) initial) as Hverdict.
      assert (Hresult : result = fold_left step (fst dest) initial).
      { subst result. by rewrite assignTypedDictToTypedDict_unfold. }
      rewrite Hresult. split.
      + intros H. exact (proj2 (proj1 Hverdict H)).
      + intros H. apply (proj2 Hverdict). by split.
    - subst accepted accepts. unfold fieldAccepted. simpl. rewrite Hget.
      fold destEntry srcEntry.
      by destruct (TypedDictEntry.isReadOnly destEntry), (Bool.eqb _ _),
                  (TypedDictEntry.isReadOnly srcEntry). }
  refine ((λ H, conj (proj1 H) (conj (proj1 (proj2 H)) (conj (proj2 (proj2 H)) Hall))) _).
  clear Hall.
  cut ((TypedDictEntry.isReadOnly destEntry = false →
     (accepts (Z.lor flags (EnforceInvariance utils)) = false →
      AssignState.typesAreConsistent result = false) ∧
     AssignState.typesAreConsistent state'
     = AssignState.typesAreConsistent state
       && Bool.eqb (TypedDictEntry.isRequired destEntry) (TypedDictEntry.isRequired srcEntry)
       && negb (TypedDictEntry.isReadOnly srcEntry)
       && accepts (Z.lor flags (EnforceInvariance utils))) ∧
  (TypedDictEntry.isReadOnly destEntry = true →
     (accepts flags = false → AssignState.typesAreConsistent result = false) ∧
     AssignState.typesAreConsistent state'
     = AssignState.typesAreConsistent state && accepts flags)).
  { intros [Hwritable Hreadonly]. split; [done|]. split; [done|].
    intros same Hinvariant Hro Hdiffer. apply (Hwritable Hro).
    destruct (accepts (Z.lor flags (EnforceInvariance utils))) eqn:Eaccepts; [|done].
    exfalso. apply Hdiffer. eapply Hinvariant; [|exact Eaccepts].
    apply Z.bits_inj'. intros n _. rewrite Z.land_spec, Z.lor_spec.
    by destruct (Z.testbit flags n), (Z.testbit (EnforceInvariance utils) n). }
  assert (Hfinal : result = fold_left step after state').
  { subst result. rewrite assignTypedDictToTypedDict_unfold.
    change (fold_left step (fst dest) initial = fold_left step after state').
    rewrite Hcut. apply fold_cut. }
  assert (Hresult : AssignState.typesAreConsistent result = true →
                    AssignState.typesAreConsistent state' = true).
  { rewrite Hfinal. apply fold_consistent. }
  assert (Hstep : state' = step state (name, destRef)) by apply fold_snoc.
  assert (Hvalue : AssignState.typesAreConsistent state'
    = if TypedDictEntry.isReadOnly destEntry
      then AssignState.typesAreConsistent state && accepts flags
      else AssignState.typesAreConsistent state
           && Bool.eqb (TypedDictEntry.isRequired destEntry)
                (TypedDictEntry.isRequired srcEntry)
           && negb (TypedDictEntry.isReadOnly srcEntry)
           && accepts (Z.lor flags (EnforceInvariance utils))).
  { rewrite Hstep. unfold step at 1, assignEntry. rewrite Hget. simpl.
    fold destEntry srcEntry. subst accepts. simpl.
    destruct (TypedDictEntry.isReadOnly destEntry); simpl.
    - rewrite andb_false_r. simpl.
      by destruct (AssignTypeResult.isAssignable _),
                  (AssignState.typesAreConsistent state).
    - rewrite andb_true_r.
      by destruct (AssignTypeResult.isAssignable _),
                  (AssignState.typesAreConsistent state),
                  (Bool.eqb _ _), (TypedDictEntry.isReadOnly srcEntry). }
  split; intros Hro; rewrite Hro in Hvalue; (split; [|exact Hvalue]); intros Hrej;
    rewrite Hrej, ?andb_false_r in Hvalue;
    destruct (AssignState.typesAreConsistent result); [|done| |done];
    by rewrite Hresult in Hvalue.
Qed.

(** C3.  For a field of the destination that the source's entries lack: the
    result can be [true] only if the field is not required and read-only, and
    then (the object type being available) only if the field's value type
    accepts [object], checked with the caller's flags; if the field is
    required or writable the result is [false] and a supplied addendum gets a
    child that holds the "field missing" message. *)
Theorem absent_field_accepted_only_if_optional_read_only
    (utils : TypeUtils) (evaluator : TypeEvaluator) (destType srcType : ClassType)
    (diag : option DiagnosticAddendum) (typeVarContext : option TypeVarContext.t)
    (flags : Z) (recursionCount : nat) (store : Store)
    (before after : list (string * EntryRef)) (name : string) (destRef : EntryRef) :
  let dest := getTypedDictMembersForClass utils evaluator destType false store in
  let src := getTypedDictMembersForClass utils evaluator srcType true (snd dest) in
  let step :=
    assignEntry utils evaluator (snd src) destType srcType flags recursionCount (fst src) in
  let initial :=
    {| AssignState.typesAreConsistent := true;
       AssignState.diag := diag;
       AssignState.typeVarContext := typeVarContext |} in
  let result :=
    fst (assignTypedDictToTypedDict utils evaluator destType srcType diag typeVarContext
           flags recursionCount store) in
  let destEntry := entryHeap (snd src) destRef in
  let state := fold_left step before initial in
  let state' := fold_left step (before ++ [(name, destRef)]) initial in
  let objType := getObjectType evaluator in
  let acceptsObject :=
    AssignTypeResult.isAssignable
      (assignType evaluator (TypedDictEntry.valueType destEntry) objType
         (AssignState.typeVarContext state) flags recursionCount) in
  let missing :=
    Addendum.addMessage
      (typedDictFieldMissing name (printType evaluator (Class srcType))) Addendum.new in
  fst dest = before ++ (name, destRef) :: after →
  JsMap.get name (fst src) = None →
  (AssignState.typesAreConsistent result = true →
     TypedDictEntry.isRequired destEntry = false ∧
     TypedDictEntry.isReadOnly destEntry = true ∧
     (isClassInstance objType = true → acceptsObject = true)) ∧
  (TypedDictEntry.isRequired destEntry = false →
   TypedDictEntry.isReadOnly destEntry = true →
     if isClassInstance objType
     then AssignState.typesAreConsistent state'
          = AssignState.typesAreConsistent state && acceptsObject
     else state' = state) ∧
  (TypedDictEntry.isRequired destEntry = true ∨
   TypedDictEntry.isReadOnly destEntry = false →
     AssignState.typesAreConsistent result = false ∧
     ∀ d, diag = Some d →
       ∃ d', AssignState.diag result = Some d' ∧ In missing (childAddenda d')).
Proof.
  intros dest src step initial result destEntry state state' objType acceptsObject
    missing Hcut Hget.
  assert (Hfinal : result = fold_left step after state').
  { subst result. rewrite assignTypedDictToTypedDict_unfold.
    change (fold_left step (fst dest) initial = fold_left step after state').
    rewrite Hcut. apply fold_cut. }
  assert (Hresult : AssignState.typesAreConsistent result = true →
                    AssignState.typesAreConsistent state' = true).
  { rewrite Hfinal. apply fold_consistent. }
  assert (Hstep : state' = step state (name, destRef)) by apply fold_snoc.
  unfold step at 1, assignEntry in Hstep. rewrite Hget in Hstep.
  fold destEntry objType in Hstep.
  destruct (TypedDictEntry.isRequired destEntry) eqn:Ereq;
    destruct (TypedDictEntry.isReadOnly destEntry) eqn:Ero; simpl in Hstep.
  3: {
    (* optional and read-only *)
    assert (Hvalue : if isClassInstance objType
                     then AssignState.typesAreConsistent state'
                          = AssignState.typesAreConsistent state && acceptsObject
                     else state' = state).
    { revert Hstep. case (isClassInstance objType); intros Hstep; [|done].
      rewrite Hstep. simpl.
      fold acceptsObject.
      by destruct acceptsObject, (AssignState.typesAreConsistent state). }
    split; [|split].
    - intros Htrue. split; [done|]. split; [done|]. intros Hobj.
      rewrite Hobj in Hvalue. rewrite (Hresult Htrue) in Hvalue.
      symmetry in Hvalue. by apply andb_true_iff in Hvalue as [_ ?].
    - done.
    - by intros [?|?]. }
  all: assert (Hfalse : AssignState.typesAreConsistent result = false)
         by (destruct (AssignState.typesAreConsistent result); [|done];
             by rewrite Hstep in Hresult; specialize (Hresult eq_refl)).
  all: split; [by rewrite Hfalse|]; split; [done|]; intros _; split; [done|].
  all: intros d Hd;
    destruct (fold_diag utils evaluator destType srcType flags recursionCount
                (snd src) (fst src) before initial d Hd) as (d1 & added1 & Hd1 & _);
    fold step state in Hd1;
    assert (Hd2 : AssignState.diag state' = Some (Addendum.addAddendum missing d1))
      by (rewrite Hstep; simpl; unfold addChildMessage; by rewrite Hd1);
    destruct (fold_diag utils evaluator destType srcType flags recursionCount
                (snd src) (fst src) after state' _ Hd2) as (d' & added2 & Hd' & Hc);
    fold step in Hd'; rewrite <-Hfinal in Hd';
    exists d'; (split; [done|]); rewrite Hc; simpl;
    rewrite !in_app_iff; left; right; by left.
Qed.

End AssignabilityProofs.

(** ** Synthesized methods *)
Module SynthesisProofs.
Import Types TypedDicts Invariants JsMapProofs TypedDictProofs.

Lemma synthesizeConstructors_other evaluator classType entries symbolTable name :
  name ≠ "__init__" → name ≠ "__new__" →
  JsMap.get name (synthesizeConstructors evaluator classType entries symbolTable)
  = JsMap.get name symbolTable.
Proof.
  intros Hinit Hnew. unfold synthesizeConstructors.
  destruct (fold_left _ entries _) as [initOverride1 initOverride2].
  rewrite get_set_ne by done. by rewrite get_set_ne.
Qed.

Lemma detailsOf_updateDetails store classType f :
  detailsOf (updateDetails (ClassType.details classType) f store) classType
  = f (detailsOf store classType).
Proof. unfold detailsOf, updateDetails. simpl. by rewrite Nat.eqb_refl. Qed.

(** What the synthesis does about [clear] and [popitem]: with the [str]
    class at hand, they are set when the class is final, no entry is
    required and some entry is writable, and the symbol table keeps what it
    had under these names otherwise. *)
Lemma synthesizeTypedDictClassMethods_clear_popitem
    (utils : TypeUtils) (evaluator : TypeEvaluator) (node : ParseNode)
    (classType : ClassType) (isClassFinal : bool) (store : Store) :
  let members := getTypedDictMembersForClass utils evaluator classType false store in
  let entries := entriesOf (snd members) (fst members) in
  let before := ClassDetails.fields (detailsOf (snd members) classType) in
  let after :=
    ClassDetails.fields
      (detailsOf
         (synthesizeTypedDictClassMethods utils evaluator node classType isClassFinal store)
         classType) in
  let strClass := getBuiltInType evaluator node "str" in
  let synthesized :=
    isClass strClass && isInstantiableClass strClass
    && isClassFinal
    && forallb (λ kv, negb (TypedDictEntry.isRequired (snd kv))) entries
    && existsb (λ kv, negb (TypedDictEntry.isReadOnly (snd kv))) entries in
  if synthesized then
    (∃ clear, JsMap.get "clear" after
               = Some (Symbol.createWithType classMember (Function clear)) ∧
              FunctionType.name clear = "clear") ∧
    (∃ popitem, JsMap.get "popitem" after
               = Some (Symbol.createWithType classMember (Function popitem)) ∧
              FunctionType.name popitem = "popitem")
  else
    JsMap.get "clear" after = JsMap.get "clear" before ∧
    JsMap.get "popitem" after = JsMap.get "popitem" before.
Proof.
  intros members entries before after strClass synthesized.
  subst after synthesized strClass. unfold synthesizeTypedDictClassMethods.
  fold members. destruct members as [entryRefs store1] eqn:Emembers.
  simpl in entries, before. fold entries. rewrite detailsOf_updateDetails. simpl.
  fold before.
  destruct (getBuiltInType evaluator node "str") as [| | | | | |strClassType| | | |];
    simpl; try (split; by apply synthesizeConstructors_other).
  destruct (Instantiable (ClassType.flags strClassType)) eqn:Einst; simpl;
    [|split; by apply synthesizeConstructors_other].
  pose proof (synthesizeAccessors_clear_popitem utils evaluator node classType
                strClassType isClassFinal entries
                (synthesizeConstructors evaluator classType entries before)) as H.
  simpl in H. destruct (isClassFinal && _ && _).
  - exact H.
  - by rewrite !synthesizeConstructors_other in H.
Qed.

End SynthesisProofs.

(** ** The properties on the example program *)
Module Scenarios.
Import Types TypedDicts Invariants Example.

(** No table is cached in the initial store. *)
Lemma store_cacheOk : cacheOk store.
Proof.
  intros c table name ref Htable. exfalso. revert Htable.
  unfold cachedTable, store, details. simpl.
  do 18 (destruct c as [|c]; [discriminate|]). discriminate.
Qed.

Lemma cachedStore_cacheOk : cacheOk cachedStore.
Proof.
  exact (proj1 (StoreEffects.getTypedDictMembersForClass_store utils evaluator point false
                  store store_cacheOk)).
Qed.

(** *** Construction *)

Example construction_of_point :
  fst (fst (assignToTypedDict utils evaluator point pointKeys pointValues None store))
  = Some point.
Proof. vm_compute. reflexivity. Qed.

Example construction_with_unknown_key :
  fst (assignToTypedDict utils evaluator point unknownKeys pointValues
         (Some Addendum.new) store)
  = (None,
     Some {| messages := []; range := None;
             childAddenda :=
               [Addendum.addAddendum Addendum.new Addendum.new;
                {| messages := [typedDictFieldUndefined "z" "Point"];
                   range := Some 3; childAddenda := [] |}] |}).
Proof. vm_compute. reflexivity. Qed.

(** The first key of [{"x": 1, "y": 2}] is accepted, as the verdict of the
    construction says. *)
Lemma first_key_of_point_accepted :
  keyAccepted utils evaluator store (declaredEntries utils evaluator point store)
    pointKeys pointValues (initialTypeVarContext store point) 0
    (typed (strLiteral "x") 1).
Proof.
  refine (proj1 (proj1 (proj1
            (ConstructionClaim.assignToTypedDict_verdict utils evaluator point pointKeys
               pointValues None store store_cacheOk eq_refl)) _) 0 _ eq_refl).
  vm_compute. eexists. reflexivity.
Defined.

(** C1, as the claim has it, fails: the key of [{k: 1}] is not a string
    literal, the construction fails on it, and the addendum gets no child. *)
Lemma non_literal_key_adds_no_addendum :
  stringLiteralKey store (TypeResult.type (typed (instanceOf strId) 1)) = None ∧
  fst (assignToTypedDict utils evaluator point plainKeys plainValues
         (Some Addendum.new) store)
  = (None, Some Addendum.new) ∧
  childAddenda Addendum.new = [].
Proof. vm_compute. done. Qed.

(** *** Assignability *)

Example read_only_view_accepts_bool_source :
  AssignState.typesAreConsistent
    (fst (assignTypedDictToTypedDict utils evaluator readOnlyView boolSource None None
            0 0 store)) = true.
Proof. vm_compute. reflexivity. Qed.

Example with_extra_accepts_writable :
  AssignState.typesAreConsistent
    (fst (assignTypedDictToTypedDict utils evaluator withExtra writable None None
            0 0 store)) = true.
Proof. vm_compute. reflexivity. Qed.

(** [Writable] has a writable [v : int] and [BoolSource] a [v : bool]: the
    check under invariance rejects [bool], and so does the whole
    assignment.  [ReadOnlyView] has a read-only [v : int]: ordinary
    assignability accepts [bool], and so does the whole assignment. *)
Lemma writable_rejects_bool_source :
  AssignState.typesAreConsistent
    (fst (assignTypedDictToTypedDict utils evaluator writable boolSource None None
            0 0 store)) = false ∧
  AssignState.typesAreConsistent
    (fst (assignTypedDictToTypedDict utils evaluator readOnlyView boolSource None None
            0 0 store)) = true.
Proof.
  split.
  - refine (proj1 (proj1
              (AssignabilityProofs.value_check_invariant_unless_read_only utils evaluator
                 writable boolSource None None 0 0 store [] [] "v" 1 3 _ _) _) _);
      vm_compute; reflexivity.
  - refine (proj2 (proj1 (proj2 (proj2 (proj2
              (AssignabilityProofs.value_check_invariant_unless_read_only utils evaluator
                 readOnlyView boolSource None None 0 0 store [] [] "v" 1 3 _ _))))) _);
      try (vm_compute; reflexivity).
    intros [|first [|second before]] [name destRef] after Heq; vm_compute in Heq;
      try discriminate Heq.
    injection Heq as <- <- <-. vm_compute. reflexivity.
Defined.

(** [TwoFields] requires [w], which [Writable] lacks. *)
Lemma two_fields_rejects_writable :
  AssignState.typesAreConsistent
    (fst (assignTypedDictToTypedDict utils evaluator twoFields writable
            (Some Addendum.new) None 0 0 store)) = false.
Proof.
  refine (proj1 (proj2 (proj2
            (AssignabilityProofs.absent_field_accepted_only_if_optional_read_only utils
               evaluator twoFields writable (Some Addendum.new) None 0 0 store
               [("v", 2)] [] "w" 3 _ _)) _));
    [vm_compute; reflexivity..|left; vm_compute; reflexivity].
Defined.

Example two_fields_reports_missing_field :
  AssignState.diag
    (fst (assignTypedDictToTypedDict utils evaluator twoFields writable
            (Some Addendum.new) None 0 0 store))
  = Some {| messages := []; range := None;
            childAddenda :=
              [Addendum.addAddendum Addendum.new Addendum.new;
               {| messages := [typedDictFieldMissing "w" "Writable"];
                  range := None; childAddenda := [] |}] |}.
Proof. vm_compute. reflexivity. Qed.

(** *** Synthesized methods *)

(** C4 on the code.  [Mixed] is final and has the fields
    [a: NotRequired[int]] and [b: ReadOnly[NotRequired[int]]]: no field is
    required and [b] is read-only, and the synthesis sets [clear] and
    [popitem], which the class did not have. *)
Theorem clear_and_popitem_beside_a_read_only_field :
  map (λ kv, (fst kv, TypedDictEntry.isRequired (snd kv),
              TypedDictEntry.isReadOnly (snd kv)))
    (declaredEntries utils evaluator mixed store)
  = [("a", false, false); ("b", false, true)] ∧
  JsMap.keys (ClassDetails.fields (detailsOf store mixed)) = ["a"; "b"] ∧
  JsMap.keys
    (ClassDetails.fields
       (detailsOf (synthesizeTypedDictClassMethods utils evaluator 0 mixed true store)
          mixed))
  = ["a"; "b"; "__init__"; "__new__"; "get"; "pop"; "setdefault"; "__delitem__";
     "update"; "clear"; "popitem"].
Proof. vm_compute. done. Qed.

Example no_clear_when_not_final :
  JsMap.keys
    (ClassDetails.fields
       (detailsOf (synthesizeTypedDictClassMethods utils evaluator 0 mixed false store)
          mixed))
  = ["a"; "b"; "__init__"; "__new__"; "get"; "pop"; "setdefault"; "__delitem__";
     "update"].
Proof. vm_compute. reflexivity. Qed.

(** *** Requiredness *)

Example entries_of_non_total :
  map (λ kv, (fst kv, TypedDictEntry.isRequired (snd kv)))
    (declaredEntries utils evaluator nonTotal store)
  = [("x", true); ("y", true); ("label", false); ("n", false); ("r", true)].
Proof. vm_compute. reflexivity. Qed.

(** The field [r] of the non-total class [NonTotal], which is annotated
    [Required[int]]. *)
Lemma requiredness_of_r :
  ∃ (owner : ClassType) (symbol : Symbol.t),
    inheritsFrom utils store nonTotal owner ∧
    In ("r", symbol) (ClassDetails.fields (detailsOf store owner)) ∧
    isEntryField utils symbol = true ∧
    let entry :=
      entryHeap
        (snd (getTypedDictMembersForClassRecursive utils 17 evaluator nonTotal
                JsMap.empty 0 store)) 4 in
    let required := annotatedWith evaluator TypeResult.isRequired symbol in
    let notRequired := annotatedWith evaluator TypeResult.isNotRequired symbol in
    (∃ typeVarContext,
       entry = entryForField utils evaluator store owner typeVarContext symbol) ∧
    (¬ required → ¬ notRequired →
     TypedDictEntry.isRequired entry = negb (isCanOmitDictValues store owner)) ∧
    (required → TypedDictEntry.isRequired entry = true) ∧
    (notRequired → ¬ required → TypedDictEntry.isRequired entry = false) ∧
    (isRequiredTypedDictVariable evaluator symbol = true ↔ required) ∧
    (isNotRequiredTypedDictVariable evaluator symbol = true ↔ notRequired).
Proof.
  refine (TypedDictProofs.requiredness_of_resolved_entries utils evaluator nonTotal store
            17 0 "r" 4 _).
  vm_compute. reflexivity.
Defined.

(** C5, as the claim has it, fails: the non-total class [Twice] annotates
    [x] with [Required[int]] and then with [NotRequired[int]]; the field
    carries an explicit [NotRequired], and its entry is required. *)
Lemma not_required_field_is_required :
  In ("x", MoreExamples.declaredTwice)
    (ClassDetails.fields (detailsOf MoreExamples.twiceStore MoreExamples.twice)) ∧
  annotatedWith evaluator TypeResult.isNotRequired MoreExamples.declaredTwice ∧
  isCanOmitDictValues MoreExamples.twiceStore MoreExamples.twice = true ∧
  let result :=
    getTypedDictMembersForClassRecursive utils 17 evaluator MoreExamples.twice
      JsMap.empty 0 MoreExamples.twiceStore in
  map (λ kv, (fst kv, TypedDictEntry.isRequired (snd kv)))
    (entriesOf (snd result) (fst result))
  = [("x", true)].
Proof.
  split; [by left|]. split.
  - exists (MoreExamples.annotatedAt 105), 105.
    split; [by right; left|]. by repeat split.
  - split; vm_compute; reflexivity.
Qed.

(** *** Narrowing *)

Example narrowing_label_twice :
  narrowForKeyAssignment cachedStore
    (narrowForKeyAssignment cachedStore point "label") "label"
  = narrowForKeyAssignment cachedStore point "label" ∧
  narrowForKeyAssignment cachedStore point "label" ≠ point ∧
  narrowForKeyAssignment cachedStore point "x" = point ∧
  narrowForKeyAssignment cachedStore point "z" = point ∧
  narrowForKeyAssignment store point "label" = point.
Proof. vm_compute. repeat split; done. Qed.

(** *** Subscripts *)

(** C8, as the claim has it, fails: the subscript [d["x", "label"]] has two
    items, and it is answered with the unknown type and a diagnostic that
    says one item was expected and two were received. *)
Lemma subscript_with_two_items :
  fst (getTypeOfIndexedTypedDict utils evaluator twoItems point read store)
  = Some unknownResult ∧
  reported (snd (getTypeOfIndexedTypedDict utils evaluator twoItems point read store))
  = [{| rule := reportGeneralTypeIssues;
        message := typeArgsMismatchOne 2;
        addendum := Addendum.new;
        errorNode := 300 |}].
Proof. vm_compute. done. Qed.

(** Only the number of items is looked at: an item list of any other length
    than one gets the same answer. *)
Example subscript_item_count :
  fst (getTypeOfIndexedTypedDict utils evaluator noItem point read store)
  = Some unknownResult ∧
  reported (snd (getTypeOfIndexedTypedDict utils evaluator noItem point read store))
  = [{| rule := reportGeneralTypeIssues;
        message := typeArgsMismatchOne 0;
        addendum := Addendum.new;
        errorNode := 300 |}].
Proof. vm_compute. done. Qed.

Example subscript_with_one_item :
  option_map TypeResult.type
    (fst (getTypeOfIndexedTypedDict utils evaluator oneItem point read store))
  = Some (instanceOf intId).
Proof. vm_compute. reflexivity. Qed.

(** *** The cache *)


Example provided_flags_after_construction :
  map (λ ref,
         TypedDictEntry.isProvided
           (entryHeap
              (snd (assignToTypedDict utils evaluator point pointKeys pointValues None
                      cachedStore)) ref))
    [0; 1; 2; 6; 7; 8]
  = [false; false; false; true; true; false].
Proof. vm_compute. reflexivity. Qed.

End Scenarios.

(** * Further properties *)

(** ** The diagnostic sink: what its list and its map hold *)
Module DiagnosticSinkOpsProofs.
Import DiagnosticSink DiagnosticSinkOps.

Local Arguments diagnosticKey : simpl never.

Section Ops.
Context (hashString : string → Z).

Local Abbreviation key := (diagnosticKey hashString).

Local Abbreviation mapListed := (mapListed hashString).
Local Abbreviation oncePerKey := (oncePerKey hashString).

Lemma mapListed_call s c : mapListed s → mapListed (call hashString s c).
Proof.
  intros Hs. destruct c as [diag|diags|]; simpl.
  - unfold addDiagnostic. destruct (diagnosticMap s !! key diag) eqn:E; simpl; [done|].
    intros k d. simpl. destruct (decide (k = key diag)) as [->|Hne].
    + rewrite lookup_insert_eq. intros [= <-]. split; [done|].
      apply elem_of_app. right. by apply list_elem_of_singleton.
    + rewrite lookup_insert_ne by done. intros Hk.
      destruct (Hs k d Hk). split; [done|]. apply elem_of_app. by left.
  - intros k d Hk. destruct (Hs k d Hk). split; [done|]. apply elem_of_app. by left.
  - intros k d. simpl. by rewrite lookup_empty.
Qed.

Lemma oncePerKey_call s c :
  deduplicating c = true → oncePerKey s → oncePerKey (call hashString s c).
Proof.
  intros Hc [Hnd Hmap]. destruct c as [diag|diags|]; [|done|]; simpl.
  - unfold addDiagnostic. destruct (diagnosticMap s !! key diag) eqn:E; simpl; [done|].
    unfold oncePerKey. simpl. split.
    + rewrite map_app. simpl. apply NoDup_app. split; [done|].
      split; [|apply NoDup_singleton].
      intros k Hk ->%list_elem_of_singleton.
      apply list_elem_of_fmap in Hk as (d & Hd & Hin).
      assert (diagnosticMap s !! key diag = Some d) as Hsome by (by apply Hmap).
      congruence.
    + intros k d. simpl. destruct (decide (k = key diag)) as [->|Hne].
      * rewrite lookup_insert_eq. split.
        -- intros [= <-]. split; [|done].
           apply elem_of_app. right. by apply list_elem_of_singleton.
        -- intros [Hin Hk]. apply elem_of_app in Hin as [Hin|Hin].
           ++ assert (diagnosticMap s !! key diag = Some d) by (by apply Hmap).
              congruence.
           ++ apply list_elem_of_singleton in Hin. by subst.
      * rewrite lookup_insert_ne by done. rewrite Hmap. split.
        -- intros [? ?]. split; [|done]. apply elem_of_app. by left.
        -- intros [Hin Hk]. split; [|done].
           apply elem_of_app in Hin as [Hin|Hin]; [done|].
           apply list_elem_of_singleton in Hin. by subst.
  - split; [constructor|]. intros k d. simpl. rewrite lookup_empty.
    split; [done|]. by intros [?%elem_of_nil _].
Qed.

End Ops.

(** X1.  Whatever list a sink is created with and whatever is called on it
    afterwards ([addDiagnostic], [addDiagnostics], [fetchAndClear]), every
    diagnostic that the map holds is stored under its own key and is in the
    list. *)
Theorem map_entries_are_in_the_list
    (hashString : string → Z) (diagnostics : option (list Diagnostic))
    (cs : list SinkCall) (k : string) (d : Diagnostic) :
  let s := calls hashString (new diagnostics) cs in
  diagnosticMap s !! k = Some d →
  k = diagnosticKey hashString d ∧ d ∈ diagnosticList s.
Proof.
  intros s. apply (ResolutionProofs.fold_left_inv (call hashString) (mapListed hashString)).
  - intros k' d'. simpl. by rewrite lookup_empty.
  - intros a b _. apply mapListed_call.
Qed.

(** X2.  In a sink that starts empty and is fed through [addDiagnostic]
    only, with any number of [fetchAndClear] in between, no two diagnostics
    of the list have the same key, and the map holds exactly the diagnostics
    of the list, each under its key. *)
Theorem list_holds_each_key_once
    (hashString : string → Z) (cs : list SinkCall) :
  forallb deduplicating cs = true →
  let s := calls hashString (new None) cs in
  NoDup (map (diagnosticKey hashString) (diagnosticList s)) ∧
  ∀ k d, diagnosticMap s !! k = Some d ↔
         d ∈ diagnosticList s ∧ diagnosticKey hashString d = k.
Proof.
  intros Hcs s. subst s. unfold calls.
  assert (Hgen : ∀ s0, oncePerKey hashString s0 →
            oncePerKey hashString (fold_left (call hashString) cs s0)).
  { induction cs as [|c cs IH]; intros s0 Hs0; simpl; [done|].
    simpl in Hcs. apply andb_true_iff in Hcs as [Hc Hcs].
    apply IH; [done|]. by apply oncePerKey_call. }
  apply Hgen. split; [constructor|]. intros k d. simpl. rewrite lookup_empty.
  split; [done|]. by intros [?%elem_of_nil _].
Qed.

(** X3.  [addDiagnostics] appends without looking at the map and without
    recording anything in it: a diagnostic that was added in bulk is appended
    once more by a later [addDiagnostic]. *)
Theorem bulk_additions_bypass_the_map
    (hashString : string → Z) (sink : Sink) (diagsToAdd : list Diagnostic)
    (d : Diagnostic) :
  diagnosticMap sink !! diagnosticKey hashString d = None →
  diagnosticMap (addDiagnostics sink (d :: diagsToAdd)) = diagnosticMap sink ∧
  diagnosticList
    (snd (addDiagnostic hashString (addDiagnostics sink (d :: diagsToAdd)) d))
  = diagnosticList sink ++ d :: diagsToAdd ++ [d].
Proof.
  intros Hnone. split; [done|]. unfold addDiagnostic. simpl. rewrite Hnone. simpl.
  by rewrite <-app_assoc.
Qed.

(** X4.  A copy of a sink deduplicates as the original does: the keys of the
    map are carried over as they are, whatever [Diagnostic.copy] does to the
    diagnostics.  A diagnostic whose key the original holds is dropped by the
    copy, and any other is appended to the copied list. *)
Theorem copy_deduplicates_like_the_original
    (hashString : string → Z) (copyDiagnostic : Diagnostic → Diagnostic)
    (sink : Sink) (d : Diagnostic) :
  let duplicate := diagnosticMap sink !! diagnosticKey hashString d in
  let copied := copy copyDiagnostic sink in
  match duplicate with
  | Some _ => addDiagnostic hashString copied d = (d, copied)
  | None =>
      diagnosticList (snd (addDiagnostic hashString copied d))
      = map copyDiagnostic (diagnosticList sink) ++ [d]
  end.
Proof.
  intros duplicate copied. subst duplicate copied. unfold addDiagnostic, copy. simpl.
  rewrite lookup_fmap. by destruct (diagnosticMap sink !! _).
Qed.

(** X5.  The key leaves the category out: after a warning, an error with the
    same message at the same range is handed back to the caller but is not
    taken by the sink, whose errors and warnings stay as they were. *)
Theorem error_after_same_warning_is_dropped
    (hashString : string → Z) (sink : Sink) (message : string) (range : Range) :
  let warned := snd (addWarning hashString sink message range) in
  let result := addError hashString warned message range in
  category (fst result) = Error ∧
  snd result = warned ∧
  getErrors (snd result) = getErrors sink ∧
  getWarnings (snd result) = getWarnings warned.
Proof.
  intros warned result.
  assert (Hin : is_Some (diagnosticMap warned
                  !! diagnosticKey hashString
                       {| category := Error; message := message; range := range |})).
  { subst warned. unfold addWarning, addDiagnostic.
    change (diagnosticKey hashString
              {| category := Error; message := message; range := range |})
      with (diagnosticKey hashString
              {| category := Warning; message := message; range := range |}).
    destruct (diagnosticMap sink !! _) eqn:E; simpl.
    - by rewrite E.
    - rewrite lookup_insert_eq. by eexists. }
  destruct Hin as [x Hx].
  assert (Hresult : result
    = ({| category := Error; message := message; range := range |}, warned)).
  { subst result. unfold addError, addDiagnostic. by rewrite Hx. }
  rewrite Hresult. simpl. split; [done|]. split; [done|]. split; [|done].
  subst warned. unfold addWarning, addDiagnostic, getErrors, withCategory.
  destruct (diagnosticMap sink !! _); simpl; [done|].
  rewrite List.filter_app. simpl. by rewrite app_nil_r.
Qed.

End DiagnosticSinkOpsProofs.
(** ** Entry tables: repeated calls, partial views and narrowing *)
Module MemberProofs.
Import Types TypedDicts Invariants Views JsMapProofs ResolutionProofs CacheProofs.
Import ViewsProofs.

Section WithUtils.
Context (utils : TypeUtils) (evaluator : TypeEvaluator).

(** A filled cache is left alone. *)
Lemma ensureTypedDictEntries_filled classType store :
  is_Some (cachedTable store (ClassType.details classType)) →
  ensureTypedDictEntries utils evaluator classType store = store.
Proof.
  intros [table Htable]. unfold ensureTypedDictEntries, detailsOf.
  unfold cachedTable in Htable. by rewrite Htable.
Qed.

Lemma specializedEntries_again classType allowNarrowed allowNarrowed' store :
  cacheOk store →
  specializedEntries utils evaluator classType allowNarrowed'
    (snd (getTypedDictMembersForClass utils evaluator classType allowNarrowed store))
  = specializedEntries utils evaluator classType allowNarrowed' store.
Proof.
  intros Hok.
  pose proof (getTypedDictMembersForClass_allocated utils evaluator classType allowNarrowed store Hok)
    as (Hd & _ & Hn & Hh).
  destruct (ensureTypedDictEntries_spec utils evaluator classType store Hok)
    as (Hok1 & _ & _ & [table Htable]).
  set (store1 := ensureTypedDictEntries utils evaluator classType store) in *.
  set (store2 := snd (getTypedDictMembersForClass utils evaluator classType allowNarrowed
                        store)) in *.
  assert (Hfilled : ensureTypedDictEntries utils evaluator classType store2 = store2).
  { apply ensureTypedDictEntries_filled. unfold cachedTable. rewrite Hd. by eexists. }
  unfold specializedEntries, memberContext, cachedEntries. rewrite Hfilled.
  fold store1. unfold detailsOf. rewrite Hd.
  unfold cachedTable in Htable. rewrite Htable.
  f_equal. f_equal. apply entriesOf_ext. intros name ref Hin. apply Hh.
  by destruct (Hok1 (ClassType.details classType) table name ref Htable Hin).
Qed.

End WithUtils.

(** X6.  Asking for the entries of a class a second time gives a table
    with the same keys in the same order and equal entries, whether or not
    the narrowed entries were asked for the first time: the objects are new,
    their contents come from the cache, which the first call left as it
    was. *)
Theorem entries_are_the_same_on_every_call
    (utils : TypeUtils) (evaluator : TypeEvaluator) (classType : ClassType)
    (allowNarrowed allowNarrowed' : bool) (store : Store) :
  cacheOk store →
  memberEntries utils evaluator classType allowNarrowed'
    (snd (getTypedDictMembersForClass utils evaluator classType allowNarrowed store))
  = memberEntries utils evaluator classType allowNarrowed' store.
Proof.
  intros Hok.
  destruct (StoreEffects.getTypedDictMembersForClass_store utils evaluator classType
              allowNarrowed store Hok) as (Hok2 & _).
  rewrite !memberEntries_tableOf by done.
  by rewrite specializedEntries_again.
Qed.

(** X7.  The entries of a partial view (the class that [update] takes) are
    all not required and read-only, and an entry that is read-only in the
    class itself has the type [Never] in the view. *)
Theorem partial_view_is_optional_and_read_only
    (utils : TypeUtils) (evaluator : TypeEvaluator) (classType : ClassType)
    (store : Store) (name : string) (entry : TypedDictEntry) :
  cacheOk store →
  ClassType.isTypedDictPartial classType = true →
  JsMap.get name (memberEntries utils evaluator classType false store) = Some entry →
  TypedDictEntry.isRequired entry = false ∧
  TypedDictEntry.isReadOnly entry = true ∧
  ∃ cached, In (name, cached) (cachedEntries utils evaluator classType store) ∧
    (TypedDictEntry.isReadOnly cached = true → TypedDictEntry.valueType entry = Never) ∧
    (TypedDictEntry.isReadOnly cached = false →
     TypedDictEntry.valueType entry
     = applySolvedTypeVars utils (TypedDictEntry.valueType cached)
         (memberContext utils evaluator classType store)).
Proof.
  intros Hok Hpartial Hget. rewrite memberEntries_tableOf in Hget by done.
  rewrite get_tableOf in Hget. apply get_rev_In in Hget.
  unfold specializedEntries in Hget. rewrite app_nil_r in Hget.
  apply in_map_iff in Hget as ([k cached] & [= -> <-] & Hin). simpl.
  unfold specializeEntry. rewrite Hpartial.
  destruct (TypedDictEntry.isReadOnly cached) eqn:Ero; simpl.
  - split; [done|]. split; [done|]. exists cached.
    split; [done|]. split; [done|congruence].
  - split; [done|]. split; [done|]. exists cached.
    split; [done|]. split; [congruence|done].
Qed.


(** A lookup in a mapped table without repeated keys. *)
Lemma get_rev_map {V W : Type} (h : V → W) (key : string) (table : JsMap.t V) :
  NoDup (JsMap.keys table) →
  JsMap.get key (rev (map (λ kv, (fst kv, h (snd kv))) table))
  = h <$> JsMap.get key table.
Proof.
  intros Hnd.
  assert (Hnd' : NoDup (JsMap.keys (rev (map (λ kv, (fst kv, h (snd kv))) table)))).
  { unfold JsMap.keys. rewrite map_rev, map_map. simpl. by apply NoDup_ListNoDup, NoDup_rev, NoDup_ListNoDup. }
  destruct (JsMap.get key table) as [v|] eqn:E; simpl.
  - apply In_get; [done|]. apply in_rev. rewrite ?rev_involutive.
    apply in_map_iff. exists (key, v). split; [done|]. by apply get_In.
  - destruct (JsMap.get key (rev _)) as [w|] eqn:E'; [|done].
    apply get_In, in_rev in E'. rewrite ?rev_involutive in E'.
    apply in_map_iff in E' as ([k v] & [= -> _] & Hin).
    by destruct (get_None_not_In _ _ E v).
Qed.

Lemma get_app_Some {V : Type} (key : string) (value : V) (l l' : JsMap.t V) :
  JsMap.get key l = Some value → JsMap.get key (l ++ l') = Some value.
Proof.
  induction l as [|[k v] l IH]; simpl; [done|].
  destruct (String.eqb k key); [done|apply IH].
Qed.

(** The class that [narrowForKeyAssignment] returns for a key that is not
    required has the key among its entries, marked provided. *)
Lemma narrowForKeyAssignment_lookup
    (utils : TypeUtils) (evaluator : TypeEvaluator) (classType : ClassType)
    (store : Store) (key : string) (table : JsMap.t EntryRef) (ref : EntryRef) :
  cacheOk store →
  isTypedDictClass store classType = true →
  cachedTable store (ClassType.details classType) = Some table →
  JsMap.get key table = Some ref →
  TypedDictEntry.isRequired (entryHeap store ref) = false →
  (∀ narrowed, ClassType.typedDictNarrowedEntries classType = Some narrowed →
     NoDup (JsMap.keys narrowed)) →
  ∃ entry,
    JsMap.get key
      (memberEntries utils evaluator (narrowForKeyAssignment store classType key) true store)
      = Some entry ∧
    TypedDictEntry.isProvided entry = true.
Proof.
  intros Hok Htd Htable Hget Hreq Hmap.
  set (narrowedType := narrowForKeyAssignment store classType key).
  assert (Hnarrowed : ∃ narrowed entry,
    ClassType.typedDictNarrowedEntries narrowedType = Some narrowed ∧
    NoDup (JsMap.keys narrowed) ∧
    JsMap.get key narrowed = Some entry ∧ TypedDictEntry.isProvided entry = true).
  { subst narrowedType. unfold narrowForKeyAssignment, detailsOf.
    unfold cachedTable in Htable. rewrite Htd, Htable, Hget, Hreq.
    destruct (ClassType.typedDictNarrowedEntries classType) as [narrowed|] eqn:En.
    - destruct (JsMap.get key narrowed) as [e|] eqn:Ee.
      + destruct (TypedDictEntry.isProvided e) eqn:Ep.
        * exists narrowed, e. rewrite En. by split; [|split; [apply Hmap|]].
        * eexists _, _. simpl. split; [done|].
          split; [by apply NoDup_keys_set, Hmap|]. split; [apply get_set_eq|done].
      + eexists _, _. simpl. split; [done|].
        split; [by apply NoDup_keys_set, Hmap|]. split; [apply get_set_eq|done].
    - eexists _, _. simpl. split; [done|].
      split; [apply NoDup_singleton|].
      split; [apply (get_set_eq key _ JsMap.empty)|done]. }
  destruct Hnarrowed as (narrowed & entry & Hn & Hnd & Hentry & Hprovided).
  rewrite memberEntries_tableOf, get_tableOf by done.
    unfold specializedEntries. rewrite Hn, rev_app_distr.
    assert (Hfound : JsMap.get key
      (rev (map (λ kv, (fst kv,
                        specializeNarrowedEntry utils
                          (memberContext utils evaluator narrowedType store) (snd kv)))
              narrowed))
      = Some (specializeNarrowedEntry utils
                (memberContext utils evaluator narrowedType store) entry)).
    { rewrite (get_rev_map _ key narrowed Hnd). by rewrite Hentry. }
    exists (specializeNarrowedEntry utils
              (memberContext utils evaluator narrowedType store) entry).
    split; [|exact Hprovided]. by apply get_app_Some.
Qed.

(** X8.  Narrowing composes with entry lookup.  For a key that names a
    cached entry that is not required, the class that
    [narrowForKeyAssignment] returns has the key marked provided when its
    entries are read with the narrowed entries allowed, and not provided
    when they are read without.  (The narrowed entries of the class are a
    map: no key occurs twice.) *)
Theorem narrowed_key_reads_as_provided
    (utils : TypeUtils) (evaluator : TypeEvaluator) (classType : ClassType)
    (store : Store) (key : string) (table : JsMap.t EntryRef) (ref : EntryRef) :
  cacheOk store →
  isTypedDictClass store classType = true →
  cachedTable store (ClassType.details classType) = Some table →
  JsMap.get key table = Some ref →
  TypedDictEntry.isRequired (entryHeap store ref) = false →
  (∀ narrowed, ClassType.typedDictNarrowedEntries classType = Some narrowed →
     NoDup (JsMap.keys narrowed)) →
  let narrowedType := narrowForKeyAssignment store classType key in
  (∃ entry,
     JsMap.get key (memberEntries utils evaluator narrowedType true store) = Some entry ∧
     TypedDictEntry.isProvided entry = true) ∧
  (∃ entry,
     JsMap.get key (memberEntries utils evaluator narrowedType false store) = Some entry ∧
     TypedDictEntry.isProvided entry = false).
Proof.
  intros Hok Htd Htable Hget Hreq Hmap narrowedType.
  assert (Hsame : ClassType.details narrowedType = ClassType.details classType).
  { subst narrowedType.
    destruct (TypedDictProofs.narrowForKeyAssignment_cases store classType key)
      as [->|(?&?&?&?&_&_&_&_&->&_)]; done. }
  split; [by apply (narrowForKeyAssignment_lookup _ _ _ _ _ table ref)|].
  destruct (CacheProofs.getTypedDictMembersForClass_spec utils evaluator narrowedType
                false store Hok) as (lo & _ & _ & (_ & Hkeys & _) & _ & Hp & _ & Hnot).
    specialize (Hnot eq_refl).
    assert (Hin : In key (JsMap.keys
              (fst (getTypedDictMembersForClass utils evaluator narrowedType false store)))).
    { unfold getTypedDictMembersForClass.
      rewrite (ensureTypedDictEntries_filled utils evaluator narrowedType store)
        by (rewrite Hsame, Htable; by eexists).
      unfold detailsOf. rewrite Hsame. unfold cachedTable in Htable. rewrite Htable.
      set (tvc := buildTypeVarContextFromSpecializedClass utils _ narrowedType).
      destruct (copyEntries_spec utils narrowedType tvc table store) as (_ & _ & _ & Hk).
      { intros n r Hin.
        by destruct (Hok (ClassType.details classType) table n r Htable Hin). }
      destruct (copyEntries utils narrowedType tvc table store) as [entries store2].
      simpl in *. destruct (ClassType.typedDictNarrowedEntries narrowedType);
        apply Hk; unfold JsMap.keys; apply in_map_iff; exists (key, ref);
        (split; [done|by apply get_In]). }
    unfold JsMap.keys in Hin. apply in_map_iff in Hin as ([k r] & Hk & Hin).
    simpl in Hk. subst k.
    exists (entryHeap (snd (getTypedDictMembersForClass utils evaluator narrowedType
                              false store)) r).
    split; [|by apply (Hnot key)].
    unfold memberEntries, entriesOf. rewrite get_map.
    by rewrite (In_get _ _ _ Hkeys Hin).
Qed.

End MemberProofs.

(** ** Subscripts: what is returned and what is reported *)
Module SubscriptProofs.
Import Types TypedDicts Invariants Views JsMapProofs ViewsProofs MemberProofs.

Lemma isEmpty_new isEmpty :
  emptyWithoutMessages isEmpty → isEmpty Addendum.new = true.
Proof. intros [_ Hnone]. by apply Hnone. Qed.

Lemma isEmpty_addMessage isEmpty message diag :
  emptyWithoutMessages isEmpty → isEmpty (Addendum.addMessage message diag) = false.
Proof. intros [Hsome _]. apply Hsome. simpl. by destruct (messages diag). Qed.

Lemma isEmpty_addendumOf isEmpty texts :
  emptyWithoutMessages isEmpty →
  isEmpty (addendumOf texts) = match texts with [] => true | _ => false end.
Proof.
  intros [Hsome Hnone]. destruct texts; [by apply Hnone|by apply Hsome].
Qed.

Lemma addAll_new written : Addendum.addAll written Addendum.new = written.
Proof. destruct written as [texts [r|] children]; unfold Addendum.addAll; simpl; done. Qed.

Section WithUtils.
Context (utils : TypeUtils) (evaluator : TypeEvaluator).

(** What [stringLiteralKey] says about a type. *)
Lemma stringLiteralKey_Some store type name :
  stringLiteralKey store type = Some name →
  ∃ subclass value,
    type = Class subclass ∧ Instance (ClassType.flags subclass) = true ∧
    isBuiltIn store subclass "str" = true ∧
    ClassType.literalValue subclass = Some value ∧ literalAsString value = name.
Proof.
  unfold stringLiteralKey. destruct type as [| | | | | |subclass| | | |]; try done.
  destruct (isClassInstance (Class subclass) && isBuiltIn store subclass "str"
            && isLiteralType subclass) eqn:E; [|done].
  apply andb_true_iff in E as [E _]. apply andb_true_iff in E as [Hi Hb].
  destruct (ClassType.literalValue subclass) as [value|] eqn:Ev; [|done].
  intros [= <-]. by exists subclass, value.
Qed.

Lemma isBuiltIn_sameDeclarations store store' type className :
  sameDeclarations store store' →
  isBuiltIn store' type className = isBuiltIn store type className.
Proof.
  intros Hsame. unfold isBuiltIn, detailsOf.
  by destruct (Hsame (ClassType.details type)) as (-> & -> & _).
Qed.

(** The check of a subscript of the handled shape, in two steps: the entries
    are fetched, and the index type is mapped. *)
Lemma getTypeOfIndexedTypedDict_single node item baseType usage store :
  singleItem node item →
  let allowNarrowed :=
    match EvaluatorUsage.method usage with get => true | _ => false end in
  let members := getTypedDictMembersForClass utils evaluator baseType allowNarrowed store in
  let indexTypeResult := getTypeOfExpression evaluator (Argument.valueExpression item) in
  let mapped :=
    mapSubtypes utils (TypeResult.type indexTypeResult)
      (indexSubtype utils evaluator (snd members) node baseType usage (fst members))
      {| IndexState.diag := Addendum.new;
         IndexState.allDiagsInvolveNotRequiredKeys := true |} in
  let diag := IndexState.diag (snd mapped) in
  let result := getTypeOfIndexedTypedDict utils evaluator node baseType usage store in
  option_map TypeResult.type (fst result) = Some (fst mapped) ∧
  option_map TypeResult.isIncomplete (fst result)
    = Some (TypeResult.isIncomplete indexTypeResult) ∧
  reported (snd result)
  = reported store ++
    if isEmpty utils diag then []
    else [subscriptReport
            (if IndexState.allDiagsInvolveNotRequiredKeys (snd mapped)
             then reportTypedDictNotRequiredAccess else reportGeneralTypeIssues)
            (match EvaluatorUsage.method usage with
             | set => typedDictSet
             | del => typedDictDelete
             | get => typedDictAccess
             end)
            (shownAddendum utils usage diag) node].
Proof.
  intros (Hitems & Hcomma & Hname & Hcat) allowNarrowed members indexTypeResult
    mapped diag result.
  subst result. unfold getTypeOfIndexedTypedDict.
  rewrite Hitems, Hcomma, Hname, Hcat. simpl.
  fold allowNarrowed members.
  destruct (getTypedDictMembersForClass_frame utils evaluator baseType allowNarrowed store)
    as (Hreported & _). fold members in Hreported.
  subst diag mapped. destruct members as [entries store1]. simpl in *.
  fold indexTypeResult.
  destruct (mapSubtypes utils _ _ _) as [resultingType state]. simpl.
  split; [done|]. split; [done|].
  unfold shownAddendum.
  destruct (EvaluatorUsage.setExpectedTypeDiag usage) as [sd|]; simpl;
    destruct (isEmpty utils (IndexState.diag state)) eqn:Ediag; simpl;
    rewrite ?Ediag; simpl;
    try (destruct (isEmpty utils sd) eqn:Esd; simpl; rewrite ?Esd, ?Ediag; simpl);
    by rewrite ?Hreported, ?app_nil_r.
Qed.

(** The callback on a string literal that names an entry or none. *)
Lemma indexSubtype_literal store1 node baseType usage entries state subclass value :
  Instance (ClassType.flags subclass) = true →
  isBuiltIn store1 subclass "str" = true →
  ClassType.literalValue subclass = Some value →
  indexSubtype utils evaluator store1 node baseType usage entries state (Class subclass)
  = let entryName := literalAsString value in
    let diag := IndexState.diag state in
    let allDiags := IndexState.allDiagsInvolveNotRequiredKeys state in
    let typeName := printType evaluator (Class baseType) in
    match JsMap.get entryName (entriesOf store1 entries) with
    | None =>
        (Unknown,
         {| IndexState.diag := Addendum.addMessage (keyUndefined entryName typeName) diag;
            IndexState.allDiagsInvolveNotRequiredKeys := false |})
    | Some entry =>
        match EvaluatorUsage.method usage with
        | get =>
            (TypedDictEntry.valueType entry,
             {| IndexState.diag :=
                  if TypedDictEntry.isRequired entry || TypedDictEntry.isProvided entry
                     || isWithinTryBlock utils (IndexNode.id node) true
                  then diag
                  else Addendum.addMessage (keyNotRequired entryName typeName) diag;
                IndexState.allDiagsInvolveNotRequiredKeys := allDiags |})
        | del =>
            let diag :=
              if TypedDictEntry.isReadOnly entry
              then Addendum.addMessage (keyReadOnly entryName typeName) diag
              else diag in
            (TypedDictEntry.valueType entry,
             if TypedDictEntry.isRequired entry then
               {| IndexState.diag :=
                    Addendum.addMessage (keyRequiredDeleted entryName) diag;
                  IndexState.allDiagsInvolveNotRequiredKeys := false |}
             else
               {| IndexState.diag := diag;
                  IndexState.allDiagsInvolveNotRequiredKeys := allDiags |})
        | set =>
            let diag :=
              if TypedDictEntry.isReadOnly entry
              then Addendum.addMessage (keyReadOnly entryName typeName) diag
              else diag in
            let check :=
              assignType evaluator (TypedDictEntry.valueType entry)
                (match EvaluatorUsage.setType usage with
                 | Some setType => TypeResult.type setType
                 | None => Any false
                 end) None 0 0 in
            (TypedDictEntry.valueType entry,
             {| IndexState.diag := Addendum.addAll (AssignTypeResult.written check) diag;
                IndexState.allDiagsInvolveNotRequiredKeys :=
                  if AssignTypeResult.isAssignable check then allDiags else false |})
        end
    end.
Proof.
  intros Hinstance Hstr Hvalue. unfold indexSubtype. simpl.
  rewrite Hinstance, Hstr, Hvalue. simpl.
  unfold entriesOf. rewrite get_map.
  destruct (JsMap.get (literalAsString value) entries) as [ref|]; simpl; [|done].
  destruct (EvaluatorUsage.method usage); simpl;
    destruct (TypedDictEntry.isRequired (entryHeap store1 ref)),
             (TypedDictEntry.isProvided (entryHeap store1 ref)),
             (TypedDictEntry.isReadOnly (entryHeap store1 ref)),
             (isWithinTryBlock utils (IndexNode.id node) true); done.
Qed.

(** A subscript of the handled shape whose index is a string literal. *)
Lemma subscript_literal node item baseType usage store name :
  singleItem node item →
  stringLiteralKey store
    (TypeResult.type (getTypeOfExpression evaluator (Argument.valueExpression item)))
    = Some name →
  ∃ subclass value,
    literalAsString value = name ∧
    let allowNarrowed :=
      match EvaluatorUsage.method usage with get => true | _ => false end in
    let members :=
      getTypedDictMembersForClass utils evaluator baseType allowNarrowed store in
    let mapped :=
      indexSubtype utils evaluator (snd members) node baseType usage (fst members)
        {| IndexState.diag := Addendum.new;
           IndexState.allDiagsInvolveNotRequiredKeys := true |} (Class subclass) in
    let diag := IndexState.diag (snd mapped) in
    let result := getTypeOfIndexedTypedDict utils evaluator node baseType usage store in
    Instance (ClassType.flags subclass) = true ∧
    isBuiltIn (snd members) subclass "str" = true ∧
    ClassType.literalValue subclass = Some value ∧
    option_map TypeResult.type (fst result) = Some (fst mapped) ∧
    reported (snd result)
    = reported store ++
      if isEmpty utils diag then []
      else [subscriptReport
              (if IndexState.allDiagsInvolveNotRequiredKeys (snd mapped)
               then reportTypedDictNotRequiredAccess else reportGeneralTypeIssues)
              (match EvaluatorUsage.method usage with
               | set => typedDictSet
               | del => typedDictDelete
               | get => typedDictAccess
               end)
              (shownAddendum utils usage diag) node].
Proof.
  intros Hsingle Hkey.
  destruct (stringLiteralKey_Some _ _ _ Hkey) as (subclass & value & Eidx & Hi & Hb & Hv & Hn).
  exists subclass, value. split; [done|]. intros allowNarrowed members mapped diag result.
  destruct (getTypeOfIndexedTypedDict_single node item baseType usage store Hsingle)
    as (Htype & _ & Hrep).
  cbv zeta in Htype, Hrep. rewrite Eidx in Htype, Hrep. simpl in Htype, Hrep.
  split; [done|]. split.
  { destruct (getTypedDictMembersForClass_frame utils evaluator baseType allowNarrowed store)
      as (_ & Hsame & _).
    subst members. by rewrite (isBuiltIn_sameDeclarations _ _ _ _ Hsame). }
  by split; [|split].
Qed.

End WithUtils.

Local Ltac literal_subscript H :=
  let subclass := fresh "subclass" in
  let value := fresh "value" in
  let Hi := fresh "Hinstance" in
  let Hb := fresh "Hstr" in
  let Hv := fresh "Hvalue" in
  let Ht := fresh "Htype" in
  let Hr := fresh "Hreported" in
  destruct H
    as (subclass & value & <- & Hi & Hb & Hv & Ht & Hr);
  cbv zeta in Ht, Hr;
  rewrite (indexSubtype_literal _ _ _ _ _ _ _ _ _ _ Hi Hb Hv) in Ht, Hr;
  cbv zeta in Ht, Hr.

(** X9.  Reading [d[key]] with a string literal as the key.  A key that
    names no entry gives [Unknown] and one error that says the key is
    undefined.  A key that names an entry gives the entry's value type; the
    read is reported, under the rule for not-required keys, exactly when the
    entry is neither required nor provided and the subscript is not within
    a [try] block. *)
Theorem reading_a_key
    (utils : TypeUtils) (evaluator : TypeEvaluator) (node : IndexNode.t)
    (item : Argument.t) (baseType : ClassType) (usage : EvaluatorUsage.t)
    (store : Store) (name : string) :
  singleItem node item →
  emptyWithoutMessages (isEmpty utils) →
  EvaluatorUsage.method usage = get →
  stringLiteralKey store
    (TypeResult.type (getTypeOfExpression evaluator (Argument.valueExpression item)))
    = Some name →
  let result := getTypeOfIndexedTypedDict utils evaluator node baseType usage store in
  let typeName := printType evaluator (Class baseType) in
  let report rule text :=
    subscriptReport rule typedDictAccess
      (shownAddendum utils usage (addendumOf [text])) node in
  match JsMap.get name (subscriptEntries utils evaluator baseType usage store) with
  | None =>
      option_map TypeResult.type (fst result) = Some Unknown ∧
      reported (snd result)
      = reported store ++ [report reportGeneralTypeIssues (keyUndefined name typeName)]
  | Some entry =>
      option_map TypeResult.type (fst result) = Some (TypedDictEntry.valueType entry) ∧
      reported (snd result)
      = reported store ++
        if TypedDictEntry.isRequired entry || TypedDictEntry.isProvided entry
           || isWithinTryBlock utils (IndexNode.id node) true
        then []
        else [report reportTypedDictNotRequiredAccess (keyNotRequired name typeName)]
  end.
Proof.
  intros Hsingle Hempty Hmethod Hkey result typeName report.
  literal_subscript
    (subscript_literal utils evaluator node item baseType usage store name
       Hsingle Hkey).
  subst result report. unfold subscriptEntries, memberEntries.
  rewrite Hmethod in *.
  destruct (JsMap.get (literalAsString value) _) as [entry|]; simpl in Htype, Hreported.
  - rewrite Htype, Hreported. split; [done|].
    destruct (TypedDictEntry.isRequired entry || TypedDictEntry.isProvided entry
              || isWithinTryBlock utils (IndexNode.id node) true); simpl.
    + by rewrite (isEmpty_new _ Hempty).
    + by rewrite (isEmpty_addMessage _ _ _ Hempty).
  - rewrite Htype, Hreported. by rewrite (isEmpty_addMessage _ _ _ Hempty).
Qed.

(** X10.  Deleting [d[key]] with a string literal as the key.  Deleting a
    required key is an error; deleting a read-only key is reported as well,
    and when the key is not required that report comes under the rule for
    not-required keys.  A key that is neither is deleted silently.  The
    narrowed entries of the class play no part. *)
Theorem deleting_a_key
    (utils : TypeUtils) (evaluator : TypeEvaluator) (node : IndexNode.t)
    (item : Argument.t) (baseType : ClassType) (usage : EvaluatorUsage.t)
    (store : Store) (name : string) :
  singleItem node item →
  emptyWithoutMessages (isEmpty utils) →
  EvaluatorUsage.method usage = del →
  stringLiteralKey store
    (TypeResult.type (getTypeOfExpression evaluator (Argument.valueExpression item)))
    = Some name →
  let result := getTypeOfIndexedTypedDict utils evaluator node baseType usage store in
  let typeName := printType evaluator (Class baseType) in
  let report rule texts :=
    subscriptReport rule typedDictDelete
      (shownAddendum utils usage (addendumOf texts)) node in
  match JsMap.get name (memberEntries utils evaluator baseType false store) with
  | None =>
      option_map TypeResult.type (fst result) = Some Unknown ∧
      reported (snd result)
      = reported store ++ [report reportGeneralTypeIssues [keyUndefined name typeName]]
  | Some entry =>
      option_map TypeResult.type (fst result) = Some (TypedDictEntry.valueType entry) ∧
      reported (snd result)
      = reported store ++
        match TypedDictEntry.isRequired entry, TypedDictEntry.isReadOnly entry with
        | true, true =>
            [report reportGeneralTypeIssues
               [keyReadOnly name typeName; keyRequiredDeleted name]]
        | true, false => [report reportGeneralTypeIssues [keyRequiredDeleted name]]
        | false, true =>
            [report reportTypedDictNotRequiredAccess [keyReadOnly name typeName]]
        | false, false => []
        end
  end.
Proof.
  intros Hsingle Hempty Hmethod Hkey result typeName report.
  literal_subscript
    (subscript_literal utils evaluator node item baseType usage store name
       Hsingle Hkey).
  subst result report. unfold memberEntries.
  rewrite Hmethod in *.
  destruct (JsMap.get (literalAsString value) _) as [entry|]; simpl in Htype, Hreported.
  - rewrite Htype, Hreported.
    destruct (TypedDictEntry.isRequired entry), (TypedDictEntry.isReadOnly entry); simpl;
      by rewrite ?(isEmpty_addMessage _ _ _ Hempty), ?(isEmpty_new _ Hempty).
  - rewrite Htype, Hreported. by rewrite (isEmpty_addMessage _ _ _ Hempty).
Qed.

(** X11.  Assigning to [d[key]] with a string literal as the key.  The
    value is checked against the entry's value type, and what the check
    wrote is appended to the addendum.  A read-only key is always reported:
    as an error when the value is not assignable, and under the rule for
    not-required keys when it is.  A writable key is reported exactly when
    what the check wrote is not empty in the sense of [isEmpty], and whether
    the key is required or provided plays no part. *)
Theorem assigning_a_key
    (utils : TypeUtils) (evaluator : TypeEvaluator) (node : IndexNode.t)
    (item : Argument.t) (baseType : ClassType) (usage : EvaluatorUsage.t)
    (store : Store) (name : string) :
  singleItem node item →
  emptyWithoutMessages (isEmpty utils) →
  EvaluatorUsage.method usage = set →
  stringLiteralKey store
    (TypeResult.type (getTypeOfExpression evaluator (Argument.valueExpression item)))
    = Some name →
  let result := getTypeOfIndexedTypedDict utils evaluator node baseType usage store in
  let typeName := printType evaluator (Class baseType) in
  let report rule diag :=
    subscriptReport rule typedDictSet (shownAddendum utils usage diag) node in
  match JsMap.get name (memberEntries utils evaluator baseType false store) with
  | None =>
      option_map TypeResult.type (fst result) = Some Unknown ∧
      reported (snd result)
      = reported store ++
        [report reportGeneralTypeIssues (addendumOf [keyUndefined name typeName])]
  | Some entry =>
      let check :=
        assignType evaluator (TypedDictEntry.valueType entry)
          (match EvaluatorUsage.setType usage with
           | Some setType => TypeResult.type setType
           | None => Any false
           end) None 0 0 in
      let written := AssignTypeResult.written check in
      let rule :=
        if AssignTypeResult.isAssignable check
        then reportTypedDictNotRequiredAccess else reportGeneralTypeIssues in
      option_map TypeResult.type (fst result) = Some (TypedDictEntry.valueType entry) ∧
      reported (snd result)
      = reported store ++
        if TypedDictEntry.isReadOnly entry then
          [report rule
             (Addendum.addAll written (addendumOf [keyReadOnly name typeName]))]
        else if isEmpty utils written then []
        else [report rule written]
  end.
Proof.
  intros Hsingle Hempty Hmethod Hkey result typeName report.
  literal_subscript
    (subscript_literal utils evaluator node item baseType usage store name
       Hsingle Hkey).
  subst result report. unfold memberEntries.
  rewrite Hmethod in *.
  destruct (JsMap.get (literalAsString value) _) as [entry|]; simpl in Htype, Hreported.
  - cbv zeta. rewrite Htype, Hreported. split; [done|].
    destruct (TypedDictEntry.isReadOnly entry); simpl.
    + destruct Hempty as [Hsome _]. rewrite Hsome.
      * by destruct (AssignTypeResult.isAssignable _).
      * simpl. by destruct (messages _).
    + rewrite addAll_new.
      destruct (assignType _ _ _ _ _ _) as [[] ? written]; simpl;
        by destruct (isEmpty utils written).
  - rewrite Htype, Hreported. by rewrite (isEmpty_addMessage _ _ _ Hempty).
Qed.

(** X12.  An index that is no string literal and no union.  [Any] and
    [Unknown] are passed through and nothing is reported; a [str] that is
    not a literal gives [Unknown] and nothing is reported; every other type
    gives [Unknown] and one error that names the type. *)
Theorem index_that_is_no_literal
    (utils : TypeUtils) (evaluator : TypeEvaluator) (node : IndexNode.t)
    (item : Argument.t) (baseType : ClassType) (usage : EvaluatorUsage.t)
    (store : Store) :
  singleItem node item →
  emptyWithoutMessages (isEmpty utils) →
  let indexType :=
    TypeResult.type (getTypeOfExpression evaluator (Argument.valueExpression item)) in
  (∀ subtypes, indexType ≠ Union subtypes) →
  stringLiteralKey store indexType = None →
  let result := getTypeOfIndexedTypedDict utils evaluator node baseType usage store in
  let isStr :=
    match indexType with
    | Class subclass => isClassInstance indexType && isBuiltIn store subclass "str"
    | _ => false
    end in
  option_map TypeResult.type (fst result)
  = Some (if isAnyOrUnknown indexType then indexType else Unknown) ∧
  reported (snd result)
  = reported store ++
    if isAnyOrUnknown indexType || isStr then []
    else [subscriptReport reportGeneralTypeIssues
            (match EvaluatorUsage.method usage with
             | set => typedDictSet
             | del => typedDictDelete
             | get => typedDictAccess
             end)
            (shownAddendum utils usage
               (addendumOf [typeNotStringLiteral (printType evaluator indexType)]))
            node].
Proof.
  intros Hsingle Hempty indexType Hunion Hkey result isStr.
  destruct (getTypeOfIndexedTypedDict_single utils evaluator node item baseType usage store
              Hsingle) as (Htype & _ & Hrep).
  cbv zeta in Htype, Hrep. fold indexType result in Htype, Hrep.
  rewrite Htype, Hrep. clear Htype Hrep.
  set (allowNarrowed := match EvaluatorUsage.method usage with get => true | _ => false end).
  destruct (getTypedDictMembersForClass_frame utils evaluator baseType allowNarrowed store)
    as (_ & Hsame & _).
  pose proof (λ type className,
    isBuiltIn_sameDeclarations _ _ type className Hsame) as Hb. clear Hsame.
  destruct (getTypedDictMembersForClass utils evaluator baseType allowNarrowed store)
    as [entries store1]. simpl in Hb.
  subst isStr. unfold stringLiteralKey in Hkey.
  destruct indexType as [| | | | | |subclass| | | |] eqn:Eidx;
    try (by destruct (Hunion _ eq_refl)).
  all: unfold mapSubtypes, indexSubtype; simpl;
    rewrite ?(isEmpty_addMessage _ _ _ Hempty), ?(isEmpty_new _ Hempty); try done.
  rewrite Hb.
  unfold isLiteralType in Hkey. simpl in Hkey.
  destruct (Instance (ClassType.flags subclass)) eqn:Hi; simpl in *;
    rewrite ?(isEmpty_addMessage _ _ _ Hempty), ?(isEmpty_new _ Hempty); [|done].
  destruct (isBuiltIn store subclass "str") eqn:Hs; simpl in *;
    rewrite ?(isEmpty_addMessage _ _ _ Hempty), ?(isEmpty_new _ Hempty); [|done].
  destruct (ClassType.literalValue subclass); [done|].
  simpl. by rewrite (isEmpty_new _ Hempty).
Qed.

(** X13.  Whatever the subscript and the index are, a check keeps the
    diagnostics reported before it in place and adds at most one. *)
Theorem subscript_reports_at_most_once
    (utils : TypeUtils) (evaluator : TypeEvaluator) (node : IndexNode.t)
    (baseType : ClassType) (usage : EvaluatorUsage.t) (store : Store) :
  ∃ added,
    reported (snd (getTypeOfIndexedTypedDict utils evaluator node baseType usage store))
    = reported store ++ added ∧
    length added ≤ 1.
Proof.
  unfold getTypeOfIndexedTypedDict.
  destruct (IndexNode.items node) as [|item [|]]; simpl;
    [eexists [_]; split; [reflexivity|simpl; lia]|
     |eexists [_]; split; [reflexivity|simpl; lia]].
  destruct (_ || _); [exists []; simpl; rewrite app_nil_r; split; [done|lia]|].
  set (allowNarrowed := match EvaluatorUsage.method usage with get => true | _ => false end).
  destruct (getTypedDictMembersForClass_frame utils evaluator baseType allowNarrowed store)
    as (Hreported & _).
  destruct (getTypedDictMembersForClass utils evaluator baseType allowNarrowed store)
    as [entries store1]. simpl in Hreported.
  destruct (mapSubtypes utils _ _ _) as [resultingType state]. simpl.
  destruct (negb (isEmpty utils _)); simpl; rewrite Hreported;
    [eexists [_]; split; [reflexivity|simpl; lia]
    |exists []; rewrite app_nil_r; split; [done|simpl; lia]].
Qed.

(** X14.  Narrowing composes with the subscript check.  Once
    [narrowForKeyAssignment] has narrowed a class for a key that is not
    required, reading that key of the narrowed class reports nothing. *)
Theorem read_after_narrowing_is_quiet
    (utils : TypeUtils) (evaluator : TypeEvaluator) (node : IndexNode.t)
    (item : Argument.t) (classType : ClassType) (usage : EvaluatorUsage.t)
    (store : Store) (key : string) (table : JsMap.t EntryRef) (ref : EntryRef) :
  cacheOk store →
  isTypedDictClass store classType = true →
  cachedTable store (ClassType.details classType) = Some table →
  JsMap.get key table = Some ref →
  TypedDictEntry.isRequired (entryHeap store ref) = false →
  (∀ narrowed, ClassType.typedDictNarrowedEntries classType = Some narrowed →
     NoDup (JsMap.keys narrowed)) →
  singleItem node item →
  isEmpty utils Addendum.new = true →
  EvaluatorUsage.method usage = get →
  stringLiteralKey store
    (TypeResult.type (getTypeOfExpression evaluator (Argument.valueExpression item)))
    = Some key →
  let narrowedType := narrowForKeyAssignment store classType key in
  let result := getTypeOfIndexedTypedDict utils evaluator node narrowedType usage store in
  (∃ entry,
     JsMap.get key (subscriptEntries utils evaluator narrowedType usage store)
       = Some entry ∧
     option_map TypeResult.type (fst result) = Some (TypedDictEntry.valueType entry)) ∧
  reported (snd result) = reported store.
Proof.
  intros Hok Htd Htable Hget Hreq Hmap Hsingle Hempty Hmethod Hkey narrowedType result.
  destruct (narrowForKeyAssignment_lookup utils evaluator classType store key table ref
              Hok Htd Htable Hget Hreq Hmap) as (entry & Hentry & Hprovided).
  fold narrowedType in Hentry.
  literal_subscript
    (subscript_literal utils evaluator node item narrowedType usage store key
       Hsingle Hkey).
  subst result. unfold subscriptEntries. rewrite Hmethod in *.
  unfold memberEntries in Hentry |- *. rewrite Hentry in *.
  rewrite Htype, Hreported, Hprovided, orb_true_r. simpl.
  rewrite Hempty. split; [by exists entry|by rewrite app_nil_r].
Qed.

Section Union.
Context (utils : TypeUtils) (evaluator : TypeEvaluator).
Context (store1 : Store) (node : IndexNode.t) (baseType : ClassType).
Context (usage : EvaluatorUsage.t) (entries : JsMap.t EntryRef).
Hypothesis Hmethod : EvaluatorUsage.method usage = get.

Local Abbreviation callback :=
  (indexSubtype utils evaluator store1 node baseType usage entries).
Local Abbreviation check :=
  (callback {| IndexState.diag := Addendum.new;
               IndexState.allDiagsInvolveNotRequiredKeys := true |}).
Local Abbreviation appendTexts texts diag :=
  {| messages := messages diag ++ texts; range := range diag;
     childAddenda := childAddenda diag |}.

(** A read writes nothing but messages, and what it writes does not depend
    on what was written before. *)
Lemma indexSubtype_get state subtype :
  callback state subtype
  = (fst (check subtype),
     {| IndexState.diag :=
          appendTexts (messages (IndexState.diag (snd (check subtype))))
            (IndexState.diag state);
        IndexState.allDiagsInvolveNotRequiredKeys :=
          IndexState.allDiagsInvolveNotRequiredKeys state
          && IndexState.allDiagsInvolveNotRequiredKeys (snd (check subtype)) |}).
Proof.
  destruct state as [[texts r children] soft].
  unfold indexSubtype. rewrite Hmethod. simpl.
  repeat match goal with
         | |- context [match ?x with _ => _ end] =>
             lazymatch x with
             | context [match _ with _ => _ end] => fail
             | _ => destruct x eqn:?
             end; simpl
         end;
    rewrite ?app_nil_r, ?andb_true_r, ?andb_false_r; done.
Qed.

Lemma mapSubtypes_union subtypes : ∀ results state,
  fold_left (fun (acc : list Type_ * IndexState.t) (subtype : Type_) =>
      let '(results, state) := acc in
      let '(result, state) := callback state subtype in
      (results ++ [result], state))
    subtypes (results, state)
  = (results ++ map (λ subtype, fst (check subtype)) subtypes,
     {| IndexState.diag :=
          appendTexts
            (concat (map (λ subtype, messages (IndexState.diag (snd (check subtype))))
                       subtypes))
            (IndexState.diag state);
        IndexState.allDiagsInvolveNotRequiredKeys :=
          IndexState.allDiagsInvolveNotRequiredKeys state
          && forallb (λ subtype,
                        IndexState.allDiagsInvolveNotRequiredKeys (snd (check subtype)))
               subtypes |}).
Proof.
  induction subtypes as [|subtype subtypes IH]; intros results state; simpl.
  - destruct state as [[texts r children] soft]. simpl.
    by rewrite !app_nil_r, andb_true_r.
  - rewrite indexSubtype_get. rewrite IH. simpl.
    by rewrite <- !app_assoc, andb_assoc.
Qed.

End Union.

(** X27.  The check of a read whose index is a union is the checks of the
    members put together: the result is the combination of the members'
    results, one diagnostic carries the messages of all members in order,
    and it comes under the rule for not-required keys only if every
    member's does. *)
Theorem union_index_adds_up_the_member_checks
    (utils : TypeUtils) (evaluator : TypeEvaluator) (node : IndexNode.t)
    (item : Argument.t) (baseType : ClassType) (usage : EvaluatorUsage.t)
    (store : Store) (subtypes : list Type_) :
  singleItem node item →
  emptyWithoutMessages (isEmpty utils) →
  EvaluatorUsage.method usage = get →
  TypeResult.type (getTypeOfExpression evaluator (Argument.valueExpression item))
    = Union subtypes →
  let members := getTypedDictMembersForClass utils evaluator baseType true store in
  let check :=
    indexSubtype utils evaluator (snd members) node baseType usage (fst members)
      {| IndexState.diag := Addendum.new;
         IndexState.allDiagsInvolveNotRequiredKeys := true |} in
  let texts :=
    concat (map (λ subtype, messages (IndexState.diag (snd (check subtype)))) subtypes) in
  let result := getTypeOfIndexedTypedDict utils evaluator node baseType usage store in
  option_map TypeResult.type (fst result)
  = Some (combineTypes utils (map (λ subtype, fst (check subtype)) subtypes)) ∧
  reported (snd result)
  = reported store ++
    match texts with
    | [] => []
    | _ =>
        [subscriptReport
           (if forallb (λ subtype,
                          IndexState.allDiagsInvolveNotRequiredKeys (snd (check subtype)))
                 subtypes
            then reportTypedDictNotRequiredAccess else reportGeneralTypeIssues)
           typedDictAccess (shownAddendum utils usage (addendumOf texts)) node]
    end.
Proof.
  intros Hsingle Hempty Hmethod Hunion members check texts result.
  destruct (getTypeOfIndexedTypedDict_single utils evaluator node item baseType usage store
              Hsingle) as (Htype & _ & Hrep).
  cbv zeta in Htype, Hrep. rewrite Hmethod, Hunion in Htype, Hrep.
  fold members result in Htype, Hrep.
  unfold mapSubtypes in Htype, Hrep.
  rewrite (mapSubtypes_union utils evaluator (snd members) node baseType usage (fst members)
             Hmethod subtypes [] _) in Htype, Hrep.
  simpl in Htype, Hrep. fold check texts in Htype, Hrep.
  split; [exact Htype|]. rewrite Hrep.
  change (isEmpty utils _) with (isEmpty utils (addendumOf texts)).
  rewrite (isEmpty_addendumOf _ _ Hempty). by destruct texts.
Qed.

End SubscriptProofs.
(** ** Synthesized methods: what is added and what is left alone *)
Module SynthesisEffects.
Import Types TypedDicts Invariants Views JsMapProofs TypedDictProofs SynthesisProofs
  ViewsProofs.

Section WithUtils.
Context (utils : TypeUtils) (evaluator : TypeEvaluator) (node : ParseNode).
Context (classType : ClassType).

Lemma synthesizeAccessors_other isClassFinal strClass entries notRequired readOnly
    symbolTable name :
  ¬ In name ["get"; "pop"; "setdefault"; "__delitem__"; "update"; "clear"; "popitem"] →
  JsMap.get name
    (synthesizeAccessors utils evaluator node classType isClassFinal strClass entries
       notRequired readOnly symbolTable)
  = JsMap.get name symbolTable.
Proof.
  intros Hname. unfold synthesizeAccessors.
  destruct (fold_left _ entries _) as [[getOverloads popOverloads] setDefaultOverloads].
  assert (∀ other, In other ["get"; "pop"; "setdefault"; "__delitem__"; "update";
                             "clear"; "popitem"] → other ≠ name) as Hne.
  { intros other Hin ->. by apply Hname. }
  destruct (isClassFinal && notRequired && negb readOnly),
           (negb readOnly), (0 <? length setDefaultOverloads),
           (0 <? length popOverloads);
    rewrite ?get_set_ne; try done; apply Hne; simpl; tauto.
Qed.

(** Entries that are all read-only give no [pop] and no [setdefault]
    overload. *)
Lemma entryOverloads_read_only strClass entries : ∀ acc,
  (∀ name entry, In (name, entry) entries → TypedDictEntry.isReadOnly entry = true) →
  let result := fold_left (entryOverloads utils evaluator node classType strClass) entries acc in
  snd (fst result) = snd (fst acc) ∧ snd result = snd acc.
Proof.
  induction entries as [|[name entry] entries IH]; intros acc Hall; [done|].
  simpl. destruct (IH (entryOverloads utils evaluator node classType strClass acc (name, entry)))
    as [Hpop Hset].
  { intros n e Hin. apply (Hall n e). by right. }
  simpl in Hpop, Hset. rewrite Hpop, Hset.
  destruct acc as [[getOverloads popOverloads] setDefaultOverloads]. simpl.
  rewrite (Hall name entry) by by left. by rewrite andb_false_r.
Qed.

Lemma allEntriesAreReadOnly_true entries :
  (∀ name entry, In (name, entry) entries → TypedDictEntry.isReadOnly entry = true) →
  allEntriesAreReadOnly entries = true.
Proof.
  intros Hall. rewrite allEntriesAreReadOnly_forallb.
  apply forallb_forall. intros [name entry] Hin. by apply (Hall name entry).
Qed.

(** The parameters that the loop over the entries appends to the two
    [__init__] overloads. *)
Lemma init_parameters entries : ∀ initOverride1 initOverride2,
  let result :=
    fold_left (fun (acc : FunctionType * FunctionType) (kv : string * TypedDictEntry) =>
        let '(initOverride1, initOverride2) := acc in
        let '(name, entry) := kv in
        (addParameter
           (simpleParameter name (TypedDictEntry.valueType entry) true None)
           initOverride1,
         addParameter
           (simpleParameter name (TypedDictEntry.valueType entry)
              (negb (TypedDictEntry.isRequired entry)) None)
           initOverride2))
      entries (initOverride1, initOverride2) in
  FunctionType.parameters (fst result)
  = FunctionType.parameters initOverride1 ++
    map (λ kv, simpleParameter (fst kv) (TypedDictEntry.valueType (snd kv)) true None)
      entries ∧
  FunctionType.parameters (snd result)
  = FunctionType.parameters initOverride2 ++
    map (λ kv, simpleParameter (fst kv) (TypedDictEntry.valueType (snd kv))
                 (negb (TypedDictEntry.isRequired (snd kv))) None)
      entries ∧
  FunctionType.name (fst result) = FunctionType.name initOverride1 ∧
  FunctionType.name (snd result) = FunctionType.name initOverride2 ∧
  FunctionType.declaredReturnType (fst result)
  = FunctionType.declaredReturnType initOverride1 ∧
  FunctionType.declaredReturnType (snd result)
  = FunctionType.declaredReturnType initOverride2.
Proof.
  induction entries as [|[name entry] entries IH]; intros initOverride1 initOverride2.
  - simpl. by rewrite !app_nil_r.
  - simpl. destruct (IH
      (addParameter (simpleParameter name (TypedDictEntry.valueType entry) true None)
         initOverride1)
      (addParameter (simpleParameter name (TypedDictEntry.valueType entry)
                       (negb (TypedDictEntry.isRequired entry)) None)
         initOverride2)) as (H1 & H2 & H3 & H4 & H5 & H6).
    simpl in *. rewrite H1, H2, H3, H4, H5, H6. by rewrite <- !app_assoc.
Qed.

(** The symbol table after the synthesis, in terms of the entries of the
    class and the symbol table before. *)
Lemma synthesizeTypedDictClassMethods_fields isClassFinal store :
  let entries := memberEntries utils evaluator classType false store in
  let before := ClassDetails.fields (detailsOf store classType) in
  ClassDetails.fields
    (detailsOf
       (synthesizeTypedDictClassMethods utils evaluator node classType isClassFinal store)
       classType)
  = let symbolTable := synthesizeConstructors evaluator classType entries before in
    let strClass := getBuiltInType evaluator node "str" in
    match strClass with
    | Class strClassType =>
        if isInstantiableClass strClass then
          synthesizeAccessors utils evaluator node classType isClassFinal strClassType
            entries (allEntriesAreNotRequired entries) (allEntriesAreReadOnly entries)
            symbolTable
        else symbolTable
    | _ => symbolTable
    end.
Proof.
  intros entries before. subst entries before.
  unfold synthesizeTypedDictClassMethods, memberEntries.
  destruct (getTypedDictMembersForClass_frame utils evaluator classType false store)
    as (_ & _ & Hfields).
  destruct (getTypedDictMembersForClass utils evaluator classType false store)
    as [entryRefs store1]. cbv beta iota. simpl in Hfields.
  rewrite detailsOf_updateDetails. simpl. unfold detailsOf. by rewrite Hfields.
Qed.

End WithUtils.

(** X15.  A class whose entries are all read-only gets no method that
    changes a key: the synthesis leaves whatever the class had under [pop],
    [setdefault], [__delitem__], [clear] and [popitem], and the mapping that
    [update] accepts is [Never]. *)
Theorem read_only_class_gets_no_mutators
    (utils : TypeUtils) (evaluator : TypeEvaluator) (node : ParseNode)
    (classType : ClassType) (isClassFinal : bool) (store : Store) :
  (∀ name entry,
     In (name, entry) (memberEntries utils evaluator classType false store) →
     TypedDictEntry.isReadOnly entry = true) →
  let before := ClassDetails.fields (detailsOf store classType) in
  let after :=
    ClassDetails.fields
      (detailsOf
         (synthesizeTypedDictClassMethods utils evaluator node classType isClassFinal store)
         classType) in
  (∀ name, In name ["pop"; "setdefault"; "__delitem__"; "clear"; "popitem"] →
     JsMap.get name after = JsMap.get name before) ∧
  (∀ strClass,
     getBuiltInType evaluator node "str" = Class strClass →
     Instantiable (ClassType.flags strClass) = true →
     ∃ update1 update2 update3,
       JsMap.get "update" after
       = Some (Symbol.createWithType classMember
                 (OverloadedFunction [update2; update1; update3])) ∧
       FunctionType.parameters update1
       = [selfParam classType; simpleParameter "__m" Never false None;
          separator Simple] ∧
       FunctionType.parameters update3 = [selfParam classType; separator ArgsList]).
Proof.
  intros Hall before after. subst before after.
  rewrite synthesizeTypedDictClassMethods_fields. cbv zeta.
  set (entries := memberEntries utils evaluator classType false store) in *.
  set (before := ClassDetails.fields (detailsOf store classType)).
  rewrite (allEntriesAreReadOnly_true entries Hall).
  split.
  - intros name Hname.
    assert (Hc : JsMap.get name (synthesizeConstructors evaluator classType entries before)
                 = JsMap.get name before).
    { apply synthesizeConstructors_other; intros ->; simpl in Hname;
        repeat (destruct Hname as [Hname|Hname]; [done|]); done. }
    destruct (getBuiltInType evaluator node "str") as [| | | | | |strClass| | | |];
      try done.
    simpl. destruct (Instantiable (ClassType.flags strClass)); [|done].
    rewrite <- Hc. unfold synthesizeAccessors.
    destruct (entryOverloads_read_only utils evaluator node classType strClass entries
                ([], [], []) Hall) as [Hpop Hset].
    destruct (fold_left _ entries _) as [[getOverloads popOverloads] setDefaultOverloads].
    simpl in Hpop, Hset. subst popOverloads setDefaultOverloads.
    rewrite andb_false_r. simpl.
    simpl in Hname.
    repeat (destruct Hname as [<-|Hname]; [by rewrite !get_set_ne|]); done.
  - intros strClass Hstr Hinst. rewrite Hstr. simpl. rewrite Hinst.
    unfold synthesizeAccessors.
    destruct (entryOverloads_read_only utils evaluator node classType strClass entries
                ([], [], []) Hall) as [Hpop Hset].
    destruct (fold_left _ entries _) as [[getOverloads popOverloads] setDefaultOverloads].
    simpl in Hpop, Hset. subst popOverloads setDefaultOverloads.
    rewrite andb_false_r. simpl. rewrite get_set_eq.
    unfold createUpdateMethod.
    assert (Hfold : ∀ acc : list Type_ * FunctionType,
      fold_left (fun (acc : list Type_ * FunctionType) (kv : string * TypedDictEntry) =>
        let '(tuplesToCombine, updateMethod3) := acc in
        let '(name, entry) := kv in
        if negb (TypedDictEntry.isReadOnly entry) then
          let tuplesToCombine :=
            match getBuiltInType evaluator node "tuple" with
            | Class tupleClassType =>
                if isInstantiableClass (getBuiltInType evaluator node "tuple")
                   && isInstantiableClass (Class strClass) then
                  tuplesToCombine ++
                  [Class (specializeTupleClass utils (cloneAsInstance tupleClassType)
                     [(Class (cloneWithLiteral (cloneAsInstance strClass)
                                (LiteralString name)), false);
                      (TypedDictEntry.valueType entry, false)] true)]
                else tuplesToCombine
            | _ => tuplesToCombine
            end in
          (tuplesToCombine,
           addParameter
             (simpleParameter name (TypedDictEntry.valueType entry) true
                (Some (Any true)))
             updateMethod3)
        else acc) entries acc = acc).
    { clear -Hall. induction entries as [|[name entry] entries IH]; intros acc; [done|].
      simpl. destruct acc as [tuples method].
      rewrite (Hall name entry) by by left. simpl. apply IH.
      intros n e Hin. apply (Hall n e). by right. }
    rewrite Hfold. by eexists _, _, _.
Qed.

(** X16.  The synthesis writes the symbol table of its class and nothing
    else.  Diagnostics, the symbol tables of other classes and the fields of
    the class under other names than the nine synthesized ones stay as they
    were, and a cache that is in order stays in order with every cached
    table unchanged. *)
Theorem synthesis_changes_only_the_method_names
    (utils : TypeUtils) (evaluator : TypeEvaluator) (node : ParseNode)
    (classType : ClassType) (isClassFinal : bool) (store : Store) :
  let store' :=
    synthesizeTypedDictClassMethods utils evaluator node classType isClassFinal store in
  reported store' = reported store ∧
  (∀ c, c ≠ ClassType.details classType →
     ClassDetails.fields (classDetails store' c)
     = ClassDetails.fields (classDetails store c)) ∧
  (∀ name, ¬ In name synthesizedNames →
     JsMap.get name (ClassDetails.fields (detailsOf store' classType))
     = JsMap.get name (ClassDetails.fields (detailsOf store classType))) ∧
  (cacheOk store → cacheOk store' ∧ cacheUnchanged store store').
Proof.
  intros store'. split; [|split; [|split]].
  - subst store'. unfold synthesizeTypedDictClassMethods.
    destruct (getTypedDictMembersForClass_frame utils evaluator classType false store)
      as (Hreported & _).
    by destruct (getTypedDictMembersForClass utils evaluator classType false store).
  - intros c Hc. subst store'. unfold synthesizeTypedDictClassMethods.
    destruct (getTypedDictMembersForClass_frame utils evaluator classType false store)
      as (_ & _ & Hfields).
    destruct (getTypedDictMembersForClass utils evaluator classType false store)
      as [entryRefs store1]. simpl in *.
    destruct (Nat.eqb_spec c (ClassType.details classType)); [done|apply Hfields].
  - intros name Hname. subst store'.
    rewrite synthesizeTypedDictClassMethods_fields. cbv zeta.
    assert (Hc : ∀ entries symbolTable,
      JsMap.get name (synthesizeConstructors evaluator classType entries symbolTable)
      = JsMap.get name symbolTable).
    { intros. apply synthesizeConstructors_other; intros ->; apply Hname;
        unfold synthesizedNames; simpl; tauto. }
    destruct (getBuiltInType evaluator node "str") as [| | | | | |strClass| | | |];
      try apply Hc.
    simpl. destruct (Instantiable (ClassType.flags strClass)); [|apply Hc].
    rewrite synthesizeAccessors_other; [apply Hc|].
    intros Hin. apply Hname. unfold synthesizedNames. simpl in *. tauto.
  - intros Hok. subst store'. unfold synthesizeTypedDictClassMethods.
    destruct (StoreEffects.getTypedDictMembersForClass_store utils evaluator classType
                false store Hok) as (Hok' & Hp & _).
    destruct (getTypedDictMembersForClass utils evaluator classType false store)
      as [entryRefs store1]. simpl in *.
    assert (Hcached : ∀ f c,
      (∀ d, ClassDetails.typedDictEntries (f d) = ClassDetails.typedDictEntries d) →
      cachedTable (updateDetails (ClassType.details classType) f store1) c
      = cachedTable store1 c).
    { intros f c Hf. unfold cachedTable, updateDetails. simpl.
      destruct (Nat.eqb_spec c (ClassType.details classType)) as [->|]; [apply Hf|done]. }
    split.
    + intros c table name ref. rewrite Hcached by done. apply Hok'.
    + intros c table Htable.
      destruct (StoreEffects.cacheUnchanged_of_preserved store store1 Hok Hp c table Htable)
        as [Ht He].
      by rewrite Hcached.
Qed.

(** X17.  The keyword parameters of the synthesized [__init__].  The class
    gets two overloads; after [self], a positional-only [__map] and the
    separators, each lists one named parameter per entry of the class, in the
    order of the entries and typed by the entry.  In the overload that takes
    a mapping every one of them has a default; in the other one exactly the
    entries that are not required have one. *)
Theorem init_takes_one_parameter_per_entry
    (utils : TypeUtils) (evaluator : TypeEvaluator) (node : ParseNode)
    (classType : ClassType) (isClassFinal : bool) (store : Store) :
  let entries := memberEntries utils evaluator classType false store in
  let after :=
    ClassDetails.fields
      (detailsOf
         (synthesizeTypedDictClassMethods utils evaluator node classType isClassFinal store)
         classType) in
  let self := simpleParameter "self" (Class (cloneAsInstance classType)) false None in
  let map_ := simpleParameter "__map" (Class (cloneAsInstance classType)) false None in
  ∃ initOverride1 initOverride2,
    JsMap.get "__init__" after
    = Some (Symbol.createWithType classMember
              (OverloadedFunction [initOverride1; initOverride2])) ∧
    FunctionType.parameters initOverride1
    = [self; map_; separator Simple; separator ArgsList] ++
      map (λ kv, simpleParameter (fst kv) (TypedDictEntry.valueType (snd kv)) true None)
        entries ∧
    FunctionType.parameters initOverride2
    = [self; separator ArgsList] ++
      map (λ kv, simpleParameter (fst kv) (TypedDictEntry.valueType (snd kv))
                   (negb (TypedDictEntry.isRequired (snd kv))) None)
        entries ∧
    FunctionType.declaredReturnType initOverride1 = Some (getNoneType evaluator) ∧
    FunctionType.declaredReturnType initOverride2 = Some (getNoneType evaluator).
Proof.
  intros entries after self map_. subst after.
  rewrite synthesizeTypedDictClassMethods_fields. cbv zeta. fold entries.
  set (before := ClassDetails.fields (detailsOf store classType)).
  assert (Hinit : ∃ initOverride1 initOverride2,
    JsMap.get "__init__" (synthesizeConstructors evaluator classType entries before)
    = Some (Symbol.createWithType classMember
              (OverloadedFunction [initOverride1; initOverride2])) ∧
    FunctionType.parameters initOverride1
    = [self; map_; separator Simple; separator ArgsList] ++
      map (λ kv, simpleParameter (fst kv) (TypedDictEntry.valueType (snd kv)) true None)
        entries ∧
    FunctionType.parameters initOverride2
    = [self; separator ArgsList] ++
      map (λ kv, simpleParameter (fst kv) (TypedDictEntry.valueType (snd kv))
                   (negb (TypedDictEntry.isRequired (snd kv))) None)
        entries ∧
    FunctionType.declaredReturnType initOverride1 = Some (getNoneType evaluator) ∧
    FunctionType.declaredReturnType initOverride2 = Some (getNoneType evaluator)).
  { unfold synthesizeConstructors.
    match goal with |- context [fold_left _ entries (?a, ?b)] =>
      destruct (init_parameters entries a b) as (H1 & H2 & _ & _ & H5 & H6)
    end.
    destruct (fold_left _ entries _) as [initOverride1 initOverride2].
    exists initOverride1, initOverride2.
    rewrite get_set_ne by done. rewrite get_set_eq. simpl in *.
    by rewrite H1, H2, H5, H6. }
  destruct Hinit as (initOverride1 & initOverride2 & Hget & Hrest).
  exists initOverride1, initOverride2. split; [|exact Hrest].
  destruct (getBuiltInType evaluator node "str") as [| | | | | |strClass| | | |];
    try exact Hget.
  simpl. destruct (Instantiable (ClassType.flags strClass)); [|exact Hget].
  rewrite synthesizeAccessors_other; [exact Hget|].
  simpl. intros Hin. repeat (destruct Hin as [Hin|Hin]; [done|]). done.
Qed.

(** The [pop] and [setdefault] overloads that the loop over the entries
    collects. *)
Lemma entryOverloads_collected utils evaluator node classType strClass entries : ∀ acc,
  let literal name :=
    Class (cloneAsInstance (cloneWithLiteral strClass (LiteralString name))) in
  let result := fold_left (entryOverloads utils evaluator node classType strClass) entries acc in
  snd (fst result)
  = snd (fst acc) ++
    flat_map (λ kv : string * TypedDictEntry,
      if negb (TypedDictEntry.isRequired (snd kv))
         && negb (TypedDictEntry.isReadOnly (snd kv))
      then createPopMethods utils node classType (literal (fst kv))
             (TypedDictEntry.valueType (snd kv)) false
      else []) entries ∧
  snd result
  = snd acc ++
    flat_map (λ kv : string * TypedDictEntry,
      if negb (TypedDictEntry.isReadOnly (snd kv))
      then [createSetDefaultMethod classType (literal (fst kv))
              (TypedDictEntry.valueType (snd kv))]
      else []) entries.
Proof.
  induction entries as [|[name entry] entries IH]; intros acc literal; simpl.
  - by rewrite !app_nil_r.
  - destruct (IH (entryOverloads utils evaluator node classType strClass acc (name, entry)))
      as [Hpop Hset].
    rewrite Hpop, Hset. destruct acc as [[getOverloads popOverloads] setDefaultOverloads].
    simpl. destruct (TypedDictEntry.isRequired entry), (TypedDictEntry.isReadOnly entry);
      simpl; by rewrite <- ?app_assoc.
Qed.

(** X26.  [pop] and [setdefault] are offered for the keys that may change.
    With the [str] class at hand, the synthesized [pop] has its two
    overloads for each entry that is neither required nor read-only, in the
    order of the entries, and [setdefault] has one overload for each entry
    that is not read-only; a required key cannot be popped and a read-only
    key can be neither popped nor set.  When no entry qualifies, the method
    is not synthesized and the class keeps what it had under the name. *)
Theorem pop_and_setdefault_follow_the_entries
    (utils : TypeUtils) (evaluator : TypeEvaluator) (node : ParseNode)
    (classType strClass : ClassType) (isClassFinal : bool) (store : Store) :
  getBuiltInType evaluator node "str" = Class strClass →
  Instantiable (ClassType.flags strClass) = true →
  let entries := memberEntries utils evaluator classType false store in
  let before := ClassDetails.fields (detailsOf store classType) in
  let after :=
    ClassDetails.fields
      (detailsOf
         (synthesizeTypedDictClassMethods utils evaluator node classType isClassFinal store)
         classType) in
  let literal name :=
    Class (cloneAsInstance (cloneWithLiteral strClass (LiteralString name))) in
  let popOverloads :=
    flat_map (λ kv : string * TypedDictEntry,
      if negb (TypedDictEntry.isRequired (snd kv))
         && negb (TypedDictEntry.isReadOnly (snd kv))
      then createPopMethods utils node classType (literal (fst kv))
             (TypedDictEntry.valueType (snd kv)) false
      else []) entries in
  let setDefaultOverloads :=
    flat_map (λ kv : string * TypedDictEntry,
      if negb (TypedDictEntry.isReadOnly (snd kv))
      then [createSetDefaultMethod classType (literal (fst kv))
              (TypedDictEntry.valueType (snd kv))]
      else []) entries in
  JsMap.get "pop" after
  = match popOverloads with
    | [] => JsMap.get "pop" before
    | _ => Some (Symbol.createWithType classMember (OverloadedFunction popOverloads))
    end ∧
  JsMap.get "setdefault" after
  = match setDefaultOverloads with
    | [] => JsMap.get "setdefault" before
    | _ =>
        Some (Symbol.createWithType classMember (OverloadedFunction setDefaultOverloads))
    end.
Proof.
  intros Hstr Hinst entries before after literal popOverloads setDefaultOverloads.
  destruct (entryOverloads_collected utils evaluator node classType strClass entries
              ([], [], [])) as [Hpop Hset].
  simpl in Hpop, Hset.
  change (flat_map _ entries) with popOverloads in Hpop.
  change (flat_map _ entries) with setDefaultOverloads in Hset.
  clearbody popOverloads setDefaultOverloads.
  subst after. rewrite synthesizeTypedDictClassMethods_fields. cbv zeta.
  fold entries before. rewrite Hstr. simpl. rewrite Hinst.
  unfold synthesizeAccessors.
  destruct (fold_left _ entries _) as [[getOverloads pops] setDefaults].
  simpl in Hpop, Hset. subst pops setDefaults.
  assert (Hfinal : ∀ name symbolTable, name = "pop" ∨ name = "setdefault" →
    JsMap.get name
      (if isClassFinal && allEntriesAreNotRequired entries
          && negb (allEntriesAreReadOnly entries)
       then
         JsMap.set "popitem"
           (Symbol.createWithType classMember
              (Function
                 (setDeclaredReturnType
                    match getTupleClassType evaluator with
                    | Some (Class tupleClass) =>
                        if isInstantiableClass (Class tupleClass) then
                          Class (specializeTupleClass utils (cloneAsInstance tupleClass)
                                   [(Class (cloneAsInstance strClass), false);
                                    (Unknown, false)] true)
                        else Unknown
                    | _ => Unknown
                    end
                    (addParameter (selfParam classType)
                       (createSynthesizedInstance "popitem" NoFunctionFlags)))))
           (JsMap.set "clear"
              (Symbol.createWithType classMember
                 (Function
                    (setDeclaredReturnType (getNoneType evaluator)
                       (addParameter (selfParam classType)
                          (createSynthesizedInstance "clear" NoFunctionFlags)))))
              symbolTable)
       else symbolTable)
    = JsMap.get name symbolTable).
  { intros name symbolTable Hname. destruct (_ && _ && _); [|done].
    destruct Hname as [-> | ->]; by rewrite !get_set_ne. }
  split.
  - rewrite Hfinal by by left. rewrite get_set_ne by done.
    destruct (negb (allEntriesAreReadOnly entries)); rewrite ?get_set_ne by done;
      (destruct setDefaultOverloads as [|g gs]; simpl; rewrite ?get_set_ne by done);
      (destruct popOverloads as [|f fs]; simpl;
       [rewrite get_set_ne by done; by apply synthesizeConstructors_other
       |by rewrite get_set_eq]).
  - rewrite Hfinal by by right. rewrite get_set_ne by done.
    destruct (negb (allEntriesAreReadOnly entries)); rewrite ?get_set_ne by done;
      (destruct setDefaultOverloads as [|g gs]; simpl; [|by rewrite get_set_eq]);
      (destruct popOverloads as [|f fs]; simpl; rewrite ?get_set_ne by done;
       by apply synthesizeConstructors_other).
Qed.

End SynthesisEffects.
(** ** Entry resolution: the fields of the class itself *)
Module OwnEntries.
Import Types TypedDicts Invariants Views JsMapProofs ResolutionProofs ViewsProofs.

Section WithUtils.
Context (utils : TypeUtils) (evaluator : TypeEvaluator).

(** An entry depends on the store through the flags of the class only. *)
Lemma entryForField_ext store store' classType typeVarContext symbol :
  classDetails store' = classDetails store →
  entryForField utils evaluator store' classType typeVarContext symbol
  = entryForField utils evaluator store classType typeVarContext symbol.
Proof.
  intros Hd. unfold entryForField, isCanOmitDictValues, detailsOf. by rewrite Hd.
Qed.

Section Fields.
Context (classType : ClassType) (typeVarContext : TypeVarContext.t).

Local Abbreviation step :=
  (fun (acc : JsMap.t EntryRef * Store) (field : string * Symbol.t) =>
     let '(keyMap, store) := acc in
     let '(name, symbol) := field in
     if isEntryField utils symbol then
       let '(ref, store) :=
         allocEntry (entryForField utils evaluator store classType typeVarContext symbol)
           store in
       (JsMap.set name ref keyMap, store)
     else (keyMap, store)).

(** Fields under other names leave the entry of a name alone. *)
Lemma fields_frame name fields : ∀ keyMap store ref,
  ¬ In name (JsMap.keys fields) →
  JsMap.get name keyMap = Some ref →
  ref < nextEntry store →
  let result := fold_left step fields (keyMap, store) in
  JsMap.get name (fst result) = Some ref ∧
  entryHeap (snd result) ref = entryHeap store ref ∧
  classDetails (snd result) = classDetails store.
Proof.
  induction fields as [|[other symbol] fields IH]; intros keyMap store ref Hname Hget Hlt;
    [done|].
  simpl in Hname. simpl.
  assert (Hne : other ≠ name) by (intros ->; apply Hname; by left).
  assert (Hrest : ¬ In name (JsMap.keys fields)) by (intros Hin; apply Hname; by right).
  destruct (isEntryField utils symbol); [|by apply IH].
  destruct (IH (JsMap.set other (nextEntry store) keyMap)
              (snd (allocEntry
                      (entryForField utils evaluator store classType typeVarContext symbol)
                      store)) ref Hrest) as (Hg & Hh & Hd).
  { by rewrite get_set_ne. }
  { simpl. lia. }
  split; [exact Hg|]. split; [|exact Hd].
  etransitivity; [exact Hh|]. simpl.
  destruct (Nat.eqb_spec ref (nextEntry store)); [lia|done].
Qed.

Lemma fields_details fields : ∀ keyMap store,
  classDetails (snd (fold_left step fields (keyMap, store))) = classDetails store.
Proof.
  induction fields as [|[other symbol] fields IH]; intros keyMap store; [done|].
  simpl. destruct (isEntryField utils symbol); by rewrite IH.
Qed.

(** The field of a name decides the entry of the name. *)
Lemma fields_own name symbol fields : ∀ keyMap store,
  NoDup (JsMap.keys fields) →
  In (name, symbol) fields →
  isEntryField utils symbol = true →
  let result := fold_left step fields (keyMap, store) in
  ∃ ref,
    JsMap.get name (fst result) = Some ref ∧
    entryHeap (snd result) ref
    = entryForField utils evaluator store classType typeVarContext symbol.
Proof.
  induction fields as [|[other symbol'] fields IH]; intros keyMap store Hnodup Hin Hfield;
    [done|].
  simpl in Hnodup. apply NoDup_cons in Hnodup as [Hfresh Hnodup].
  destruct Hin as [[= -> ->]|Hin].
  - simpl. rewrite Hfield.
    destruct (fields_frame name fields (JsMap.set name (nextEntry store) keyMap)
                (snd (allocEntry
                        (entryForField utils evaluator store classType typeVarContext symbol)
                        store)) (nextEntry store)) as (Hg & Hh & _).
    { by intros Hin%list_elem_of_In. }
    { apply get_set_eq. }
    { simpl. lia. }
    exists (nextEntry store). split; [exact Hg|].
    etransitivity; [exact Hh|]. simpl. by rewrite Nat.eqb_refl.
  - simpl. destruct (isEntryField utils symbol').
    + destruct (IH (JsMap.set other (nextEntry store) keyMap)
                  (snd (allocEntry
                          (entryForField utils evaluator store classType typeVarContext
                             symbol') store)) Hnodup Hin Hfield) as (ref & Hg & Hh).
      exists ref. split; [exact Hg|]. etransitivity; [exact Hh|].
      by apply entryForField_ext.
    + by apply IH.
Qed.

End Fields.

Lemma addOwnEntries_own classType keyMap store name symbol :
  NoDup (JsMap.keys (ClassDetails.fields (detailsOf store classType))) →
  In (name, symbol) (ClassDetails.fields (detailsOf store classType)) →
  isEntryField utils symbol = true →
  let result := addOwnEntries utils evaluator classType keyMap store in
  ∃ ref,
    JsMap.get name (fst result) = Some ref ∧
    entryHeap (snd result) ref
    = entryForField utils evaluator store classType
        (buildTypeVarContextFromSpecializedClass utils (detailsOf store classType)
           classType) symbol.
Proof. intros Hnodup Hin Hfield. by apply fields_own. Qed.

(** The same for the whole resolution of a class, when the recursion limit
    does not stop it at the class itself. *)
Lemma getTypedDictMembersForClassRecursive_own levels classType recursionCount store
    name symbol :
  recursionCount ≤ maxTypeRecursionCount utils →
  NoDup (JsMap.keys (ClassDetails.fields (detailsOf store classType))) →
  In (name, symbol) (ClassDetails.fields (detailsOf store classType)) →
  isEntryField utils symbol = true →
  let result :=
    getTypedDictMembersForClassRecursive utils (S levels) evaluator classType
      JsMap.empty recursionCount store in
  ∃ ref,
    JsMap.get name (fst result) = Some ref ∧
    entryHeap (snd result) ref
    = entryForField utils evaluator store classType
        (buildTypeVarContextFromSpecializedClass utils (detailsOf store classType)
           classType) symbol.
Proof.
  intros Hcount Hnodup Hin Hfield. simpl.
  assert (Hlt : (maxTypeRecursionCount utils <? recursionCount) = false)
    by (apply Nat.ltb_ge; lia).
  rewrite Hlt.
  set (step := λ (acc : JsMap.t EntryRef * Store) (baseClassType : Type_), _).
  set (bases := ClassDetails.baseClasses (detailsOf store classType)).
  assert (Hbases : allocated store (snd (fold_left step bases (JsMap.empty, store))) ∧
                   tableInv (λ _ _, True) (fst (fold_left step bases (JsMap.empty, store)))
                     (snd (fold_left step bases (JsMap.empty, store)))).
  { apply (fold_left_inv step
             (λ acc, allocated store (snd acc) ∧ tableInv (λ _ _, True) (fst acc) (snd acc))).
    - split; [apply allocated_refl|done].
    - intros [km st] base _ [Ha Hi]. subst step. simpl in *.
      destruct base; try by split.
      destruct (_ && _); [|by split].
      destruct (partiallySpecializeType utils _ classType); try by split.
      destruct (getTypedDictMembersForClassRecursive_inv utils evaluator store
                  (λ _ _, True) levels (λ _ _ _ _ _ _ _ _, I) c0 km (S recursionCount) st)
        as [Ha' Hi']; [|done|].
      { by destruct Ha as (-> & _). }
      split; [by eapply allocated_trans|done]. }
  destruct (fold_left step bases (JsMap.empty, store)) as [km st]. simpl in Hbases.
  destruct Hbases as [(Hd & _) _].
  assert (Hdetails : detailsOf st classType = detailsOf store classType).
  { unfold detailsOf. by rewrite Hd. }
  destruct (addOwnEntries_own classType km st name symbol) as (ref & Hget & Hentry);
    rewrite ?Hdetails; try done.
  exists ref. split; [exact Hget|]. rewrite Hentry, Hdetails.
  by apply entryForField_ext.
Qed.

(** One level of the recursion. *)
Lemma getTypedDictMembersForClassRecursive_step levels classType keyMap recursionCount
    store :
  recursionCount ≤ maxTypeRecursionCount utils →
  getTypedDictMembersForClassRecursive utils (S levels) evaluator classType keyMap
    recursionCount store
  = let '(keyMap, store) :=
      fold_left (fun (acc : JsMap.t EntryRef * Store) (baseClassType : Type_) =>
          let '(keyMap, store) := acc in
          match baseClassType with
          | Class baseClass =>
              if isInstantiableClass baseClassType
                 && isTypedDictClass store baseClass then
                match partiallySpecializeType utils baseClassType classType with
                | Class specializedBaseClassType =>
                    getTypedDictMembersForClassRecursive utils levels evaluator
                      specializedBaseClassType keyMap (S recursionCount) store
                | _ => (keyMap, store)
                end
              else (keyMap, store)
          | _ => (keyMap, store)
          end)
        (ClassDetails.baseClasses (detailsOf store classType)) (keyMap, store) in
    addOwnEntries utils evaluator classType keyMap store.
Proof.
  intros Hcount. simpl.
  assert (Hlt : (maxTypeRecursionCount utils <? recursionCount) = false)
    by (apply Nat.ltb_ge; lia).
  by rewrite Hlt.
Qed.

(** Resolution never drops a key and never touches a class. *)
Lemma addOwnEntries_keeps classType keyMap store name :
  classDetails (snd (addOwnEntries utils evaluator classType keyMap store))
  = classDetails store ∧
  (is_Some (JsMap.get name keyMap) →
   is_Some (JsMap.get name (fst (addOwnEntries utils evaluator classType keyMap store)))).
Proof.
  unfold addOwnEntries.
  apply (fold_left_inv _
           (λ acc, classDetails (snd acc) = classDetails store ∧
                   (is_Some (JsMap.get name keyMap) → is_Some (JsMap.get name (fst acc)))));
    [done|].
  intros [km st] [other symbol] _ [Hd Hkey]. simpl in *.
  destruct (isEntryField utils symbol); [|done]. simpl. split; [done|].
  intros Hsome. destruct (String.eqb_spec other name) as [->|Hne].
  - rewrite get_set_eq. by eexists.
  - rewrite get_set_ne by done. by apply Hkey.
Qed.

Lemma getTypedDictMembersForClassRecursive_keeps name levels :
  ∀ classType keyMap recursionCount store,
  let result :=
    getTypedDictMembersForClassRecursive utils levels evaluator classType keyMap
      recursionCount store in
  classDetails (snd result) = classDetails store ∧
  (is_Some (JsMap.get name keyMap) → is_Some (JsMap.get name (fst result))).
Proof.
  induction levels as [|levels IH]; intros classType keyMap count store; simpl.
  - by destruct (_ <? _).
  - destruct (_ <? _); [done|].
    set (bases := ClassDetails.baseClasses (detailsOf store classType)).
    set (step := λ (acc : JsMap.t EntryRef * Store) (baseClassType : Type_), _).
    assert (Hfold :
      classDetails (snd (fold_left step bases (keyMap, store))) = classDetails store ∧
      (is_Some (JsMap.get name keyMap) →
       is_Some (JsMap.get name (fst (fold_left step bases (keyMap, store)))))).
    { apply (fold_left_inv step
               (λ acc, classDetails (snd acc) = classDetails store ∧
                       (is_Some (JsMap.get name keyMap) →
                        is_Some (JsMap.get name (fst acc))))); [done|].
      intros [km st] base _ [Hd Hkey]. subst step. simpl in *.
      destruct base; try done. destruct (_ && _); [|done].
      destruct (partiallySpecializeType utils _ classType); try done.
      destruct (IH c0 km (S count) st) as [Hd' Hkey'].
      split; [congruence|]. intros Hsome. by apply Hkey', Hkey. }
    destruct (fold_left step bases (keyMap, store)) as [km st]. simpl in Hfold.
    destruct Hfold as [Hd Hkey].
    destruct (addOwnEntries_keeps classType km st name) as [Hd' Hkey'].
    split; [congruence|]. intros Hsome. by apply Hkey', Hkey.
Qed.

(** A class that the recursion limit does not stop gets a key for each of
    its fields. *)
Lemma getTypedDictMembersForClassRecursive_field levels classType keyMap recursionCount
    store name symbol :
  recursionCount ≤ maxTypeRecursionCount utils →
  NoDup (JsMap.keys (ClassDetails.fields (detailsOf store classType))) →
  In (name, symbol) (ClassDetails.fields (detailsOf store classType)) →
  isEntryField utils symbol = true →
  is_Some
    (JsMap.get name
       (fst (getTypedDictMembersForClassRecursive utils (S levels) evaluator classType
               keyMap recursionCount store))).
Proof.
  intros Hcount Hnodup Hin Hfield. simpl.
  assert (Hlt : (maxTypeRecursionCount utils <? recursionCount) = false)
    by (apply Nat.ltb_ge; lia).
  rewrite Hlt.
  set (bases := ClassDetails.baseClasses (detailsOf store classType)).
  set (step := λ (acc : JsMap.t EntryRef * Store) (baseClassType : Type_), _).
  assert (Hfold :
    classDetails (snd (fold_left step bases (keyMap, store))) = classDetails store).
  { apply (fold_left_inv step (λ acc, classDetails (snd acc) = classDetails store));
      [done|].
    intros [km st] base _ Hd. subst step. simpl in *.
    destruct base; try done. destruct (_ && _); [|done].
    destruct (partiallySpecializeType utils _ classType); try done.
    destruct (getTypedDictMembersForClassRecursive_keeps name levels c0 km
                (S recursionCount) st) as [Hd' _].
    congruence. }
  destruct (fold_left step bases (keyMap, store)) as [km st]. simpl in Hfold.
  assert (Hdetails : detailsOf st classType = detailsOf store classType).
  { unfold detailsOf. by rewrite Hfold. }
  destruct (addOwnEntries_own classType km st name symbol) as (ref & Hget & _);
    rewrite ?Hdetails; done.
Qed.

End WithUtils.

(** X18.  A field of the class itself decides the entry of its name, whatever
    the base classes declare under that name.  When the cache of a class is
    filled, the entry cached for a name that the class declares as a
    variable is the one built from that declaration: its value type with
    the type variables of the class applied, its own annotations, and the
    totality of the class itself. *)
Theorem own_field_decides_the_entry
    (utils : TypeUtils) (evaluator : TypeEvaluator) (classType : ClassType)
    (store : Store) (name : string) (symbol : Symbol.t) :
  cachedTable store (ClassType.details classType) = None →
  NoDup (JsMap.keys (ClassDetails.fields (detailsOf store classType))) →
  In (name, symbol) (ClassDetails.fields (detailsOf store classType)) →
  isEntryField utils symbol = true →
  JsMap.get name (cachedEntries utils evaluator classType store)
  = Some (entryForField utils evaluator store classType
            (buildTypeVarContextFromSpecializedClass utils (detailsOf store classType)
               classType) symbol).
Proof.
  intros Hcache Hnodup Hin Hfield.
  destruct (getTypedDictMembersForClassRecursive_own utils evaluator
              (maxTypeRecursionCount utils) classType 0 store name symbol)
    as (ref & Hget & Hentry); [lia|done|done|done|].
  unfold cachedEntries, ensureTypedDictEntries.
  unfold cachedTable in Hcache. fold (detailsOf store classType) in Hcache.
  rewrite Hcache.
  destruct (getTypedDictMembersForClassRecursive utils _ evaluator classType JsMap.empty 0
              store) as [entries store1].
  simpl in Hget, Hentry.
  unfold setTypedDictEntries. rewrite SynthesisProofs.detailsOf_updateDetails. simpl.
  unfold entriesOf. rewrite get_map, Hget. simpl. by rewrite Hentry.
Qed.

(** X28.  The fields of a direct base are inherited.  When the cache of a
    class is filled, every variable that a TypedDict base of the class
    declares has an entry in the table of the class, provided the recursion
    limit leaves room for one level of bases. *)
Theorem fields_of_a_base_are_inherited
    (utils : TypeUtils) (evaluator : TypeEvaluator) (classType baseClass specialized : ClassType)
    (store : Store) (name : string) (symbol : Symbol.t) :
  cachedTable store (ClassType.details classType) = None →
  1 ≤ maxTypeRecursionCount utils →
  In (Class baseClass) (ClassDetails.baseClasses (detailsOf store classType)) →
  isInstantiableClass (Class baseClass) && isTypedDictClass store baseClass = true →
  partiallySpecializeType utils (Class baseClass) classType = Class specialized →
  NoDup (JsMap.keys (ClassDetails.fields (detailsOf store specialized))) →
  In (name, symbol) (ClassDetails.fields (detailsOf store specialized)) →
  isEntryField utils symbol = true →
  is_Some (JsMap.get name (cachedEntries utils evaluator classType store)).
Proof.
  intros Hcache Hmax Hbase Hdict Hspecialized Hnodup Hin Hfield.
  unfold cachedEntries, ensureTypedDictEntries.
  unfold cachedTable in Hcache. fold (detailsOf store classType) in Hcache.
  rewrite Hcache.
  assert (Hkey : is_Some (JsMap.get name
    (fst (getTypedDictMembersForClassRecursive utils (S (maxTypeRecursionCount utils))
            evaluator classType JsMap.empty 0 store)))).
  { rewrite getTypedDictMembersForClassRecursive_step by lia.
    apply in_split in Hbase as (before & after & Hsplit). rewrite Hsplit.
    rewrite fold_left_app.
    set (step := λ (acc : JsMap.t EntryRef * Store) (baseClassType : Type_), _).
    assert (Hbefore :
      classDetails (snd (fold_left step before (JsMap.empty, store))) = classDetails store).
    { apply (ResolutionProofs.fold_left_inv step
               (λ acc, classDetails (snd acc) = classDetails store)); [done|].
      intros [km st] base _ Hd. subst step. simpl in *.
      destruct base as [| | | | | |c| | | |]; try done.
      destruct (isInstantiableClass (Class c) && isTypedDictClass st c); [|done].
      destruct (partiallySpecializeType utils (Class c) classType)
        as [| | | | | |c0| | | |]; try done.
      destruct (getTypedDictMembersForClassRecursive_keeps utils evaluator name
                  (maxTypeRecursionCount utils) c0 km 1 st) as [Hd' _].
      congruence. }
    destruct (fold_left step before (JsMap.empty, store)) as [km0 st0].
    simpl in Hbefore.
    assert (Hdetails : ∀ c, detailsOf st0 c = detailsOf store c).
    { intros c. unfold detailsOf. by rewrite Hbefore. }
    assert (Hafter : ∀ acc, is_Some (JsMap.get name (fst acc)) →
      is_Some (JsMap.get name (fst (fold_left step after acc)))).
    { intros acc Hacc.
      apply (ResolutionProofs.fold_left_inv step
               (λ acc, is_Some (JsMap.get name (fst acc)))); [done|].
      intros [km st] base _ Hsome. subst step. simpl in *.
      destruct base as [| | | | | |c| | | |]; try done.
      destruct (isInstantiableClass (Class c) && isTypedDictClass st c); [|done].
      destruct (partiallySpecializeType utils (Class c) classType)
        as [| | | | | |c0| | | |]; try done.
      destruct (getTypedDictMembersForClassRecursive_keeps utils evaluator name
                  (maxTypeRecursionCount utils) c0 km 1 st) as [_ Hkeep].
      by apply Hkeep. }
    assert (Hstep : is_Some (JsMap.get name (fst (step (km0, st0) (Class baseClass))))).
    { subst step. cbv beta iota.
      replace (isTypedDictClass st0 baseClass) with (isTypedDictClass store baseClass)
        by (unfold isTypedDictClass; by rewrite Hdetails).
      rewrite Hdict, Hspecialized.
      pose proof (getTypedDictMembersForClassRecursive_field utils evaluator
                    (pred (maxTypeRecursionCount utils)) specialized km0 1 st0 name symbol)
        as Hrec.
      replace (S (pred (maxTypeRecursionCount utils))) with (maxTypeRecursionCount utils)
        in Hrec by lia.
      rewrite Hdetails in Hrec. by apply Hrec. }
    change (fold_left step (Class baseClass :: after) (km0, st0))
      with (fold_left step after (step (km0, st0) (Class baseClass))).
    specialize (Hafter _ Hstep).
    destruct (fold_left step after _) as [km st].
    by apply addOwnEntries_keeps. }
  destruct (getTypedDictMembersForClassRecursive utils _ evaluator classType JsMap.empty 0
              store) as [entries store1].
  simpl in Hkey. destruct Hkey as [ref Href].
  unfold setTypedDictEntries. rewrite SynthesisProofs.detailsOf_updateDetails. simpl.
  unfold entriesOf. rewrite get_map, Href. by eexists.
Qed.

End OwnEntries.
(** ** Construction: the keys that are missing *)
Module ConstructionMessages.
Import Types TypedDicts Invariants Views JsMapProofs ResolutionProofs CacheProofs.
Import ConstructionProofs.

Lemma namesKey_spec store name keyTypes :
  existsb (namesKey store name) keyTypes = true ↔
  ∃ j (key : TypeResultWithNode.t),
    keyTypes !! j = Some key ∧ stringLiteralKey store (TypeResult.type key) = Some name.
Proof.
  rewrite existsb_exists. split.
  - intros (key & Hin & Hname). apply list_elem_of_In, list_elem_of_lookup in Hin as [j Hj].
    exists j, key. split; [done|]. unfold namesKey in Hname.
    destruct (stringLiteralKey store (TypeResult.type key)); [|done].
    by apply String.eqb_eq in Hname as ->.
  - intros (j & key & Hj & Hname). exists key. split.
    + apply list_elem_of_In. by eapply list_elem_of_lookup_2.
    + unfold namesKey. rewrite Hname. apply String.eqb_refl.
Qed.

(** The messages that the check for missing keys appends. *)
Lemma checkRequired_messages evaluator classType store table : ∀ isMatch diag,
  let result :=
    fold_left (checkRequired evaluator classType store) table (isMatch, Some diag) in
  ∃ diag',
    snd result = Some diag' ∧
    messages diag'
    = messages diag ++
      map (λ kv, typedDictFieldRequired (fst kv) (printType evaluator (Class classType)))
        (List.filter
           (λ kv, TypedDictEntry.isRequired (entryHeap store (snd kv))
                  && negb (TypedDictEntry.isProvided (entryHeap store (snd kv))))
           table).
Proof.
  induction table as [|[name ref] table IH]; intros isMatch diag; simpl.
  - exists diag. by rewrite app_nil_r.
  - destruct (TypedDictEntry.isRequired (entryHeap store ref)
              && negb (TypedDictEntry.isProvided (entryHeap store ref))); simpl.
    + destruct (IH false
                  (Addendum.addMessage
                     (typedDictFieldRequired name (printType evaluator (Class classType)))
                     diag)) as (diag' & Hd & Hm).
      exists diag'. split; [exact Hd|]. rewrite Hm. simpl. by rewrite <- app_assoc.
    + apply IH.
Qed.

(** The entries that the check finds missing are the declared entries that
    no key names. *)
Lemma missing_entries {M : Type} (message : string → M) (store store1 : Store)
    (named : string → bool) (table : JsMap.t EntryRef) :
  (∀ name ref, In (name, ref) table →
     TypedDictEntry.isRequired (entryHeap store ref)
     && negb (TypedDictEntry.isProvided (entryHeap store ref))
     = TypedDictEntry.isRequired (entryHeap store1 ref) && negb (named name)) →
  map (λ kv, message (fst kv))
    (List.filter
       (λ kv, TypedDictEntry.isRequired (entryHeap store (snd kv))
              && negb (TypedDictEntry.isProvided (entryHeap store (snd kv))))
       table)
  = map message
      (map fst
         (List.filter
            (λ kv : string * TypedDictEntry,
               TypedDictEntry.isRequired (snd kv) && negb (named (fst kv)))
            (entriesOf store1 table))).
Proof.
  induction table as [|[name ref] table IH]; intros Hflags; [done|].
  simpl. rewrite (Hflags name ref) by by left.
  destruct (_ && _); simpl; rewrite IH; try done;
    intros n r Hin; apply Hflags; by right.
Qed.

(** X19.  When a construction is given an addendum, the messages it adds to
    it name the missing keys.  If every key is accepted, each required
    entry that no key names adds one "required" message, in the order of the
    entries; if some key is not accepted, the required entries are not
    looked at and no message is added. *)
Theorem missing_required_keys_are_listed
    (utils : TypeUtils) (evaluator : TypeEvaluator) (classType : ClassType)
    (keyTypes valueTypes : list TypeResultWithNode.t)
    (diag : DiagnosticAddendum) (store : Store) :
  cacheOk store →
  length keyTypes = length valueTypes →
  let declared := declaredEntries utils evaluator classType store in
  let initial := initialTypeVarContext store classType in
  let result :=
    assignToTypedDict utils evaluator classType keyTypes valueTypes (Some diag) store in
  let allAccepted :=
    ∀ index (key : TypeResultWithNode.t), keyTypes !! index = Some key →
      keyAccepted utils evaluator store declared keyTypes valueTypes initial index key in
  ∃ diag',
    snd (fst result) = Some diag' ∧
    (allAccepted →
     messages diag'
     = messages diag ++
       map (λ name, typedDictFieldRequired name (printType evaluator (Class classType)))
         (missingKeys store declared keyTypes)) ∧
    (¬ allAccepted → messages diag' = messages diag).
Proof.
  intros Hok Hlen declared initial result allAccepted.
  subst declared initial result allAccepted. unfold assignToTypedDict, declaredEntries.
  set (generic := genericClassTypeOf store classType).
  destruct (getTypedDictMembersForClass_spec utils evaluator generic false store Hok)
    as (lo & Hlo & Hlo' & (Hfresh & Hkeys & Hvalues) & Hcache & Hp & _ & Hnot).
  specialize (Hnot eq_refl).
  destruct (getTypedDictMembersForClass utils evaluator generic false store)
    as [symbolMap store1]. simpl in Hlo', Hfresh, Hkeys, Hvalues, Hcache, Hp, Hnot. simpl.
  set (initial := initialTypeVarContext store classType).
  set (declared := entriesOf store1 symbolMap).
  assert (Hsame : sameDeclarations store store1) by (by destruct Hp as (_&_&_&?)).
  pose proof (loopInv_final utils evaluator classType store store1 symbolMap keyTypes
                valueTypes initial (Some diag) Hlen Hkeys Hvalues Hnot Hsame) as Hinv.
  fold (initialState store1 initial (Some diag)).
  set (state := assignKeys _ _ _ _ _ _ _ _) in *.
  destruct Hinv as [Hd Hn Hr Hh Hs Hprov Hm Hc Hdiag]. fold declared in Hm.
  simpl in Hdiag.
  destruct (ConstructState.isMatch state) eqn:Ematch; simpl.
  2: { rewrite Hdiag. eexists. split; [done|]. split; [|done].
       intros Hall. apply Hm in Hall. done. }
  destruct (checkRequired_messages evaluator classType (ConstructState.store state)
              symbolMap true
              (appendChildren
                 (addedFrom utils evaluator classType store store1 symbolMap keyTypes
                    valueTypes initial 0 keyTypes) diag)) as (diag' & Hfinal & Hmessages).
  rewrite Hdiag. simpl in Hfinal.
  destruct (fold_left _ symbolMap _) as [isMatch final]. simpl in Hfinal. subst final.
  assert (Hlist : messages diag'
    = messages diag ++
      map (λ name, typedDictFieldRequired name (printType evaluator (Class classType)))
        (missingKeys store declared keyTypes)).
  { rewrite Hmessages. simpl. f_equal. unfold missingKeys, declared.
    apply (missing_entries
             (λ name, typedDictFieldRequired name (printType evaluator (Class classType)))
             (ConstructState.store state) store1
             (λ name, existsb (namesKey store name) keyTypes)).
    intros name ref Hin.
    destruct (Hs name ref Hin) as (_ & -> & _). f_equal. f_equal.
    apply eq_true_iff_eq. rewrite (Hprov name ref Hin). symmetry. apply namesKey_spec. }
  destruct isMatch; simpl; (exists diag'; split; [done|]; split; [done|]);
    intros Hnone; destruct Hnone; by apply Hm.
Qed.

End ConstructionMessages.

(** ** Construction: the narrowed entries of the result *)
Module ConstructionNarrowing.
Import Types TypedDicts Invariants Views JsMapProofs ResolutionProofs CacheProofs.
Import ConstructionProofs.

Section Loop.
Context (utils : TypeUtils) (evaluator : TypeEvaluator) (classType : ClassType).
Context (store0 store1 : Store) (symbolMap : JsMap.t EntryRef).
Context (keyTypes valueTypes : list TypeResultWithNode.t).
Context (initial : option TypeVarContext.t) (diag0 : option DiagnosticAddendum).
Hypothesis Hlen : length keyTypes = length valueTypes.
Hypothesis Hkeys : NoDup (JsMap.keys symbolMap).
Hypothesis Hvalues : NoDup (JsMap.values symbolMap).
Hypothesis Hnot : ∀ name ref, In (name, ref) symbolMap →
  TypedDictEntry.isProvided (entryHeap store1 ref) = false.
Hypothesis Hsame : sameDeclarations store0 store1.

Local Abbreviation declared := (entriesOf store1 symbolMap).
Local Abbreviation keyName key := (stringLiteralKey store0 (TypeResult.type key)).
Local Abbreviation loopInv :=
  (loopInv utils evaluator classType store0 store1 symbolMap keyTypes valueTypes initial
     diag0).
Local Abbreviation narrowInv done state :=
  (narrowedFrom store0 declared done valueTypes (ConstructState.narrowedEntries state)).

Lemma narrowInv_keep done (key : TypeResultWithNode.t)
    (narrowed : JsMap.t TypedDictEntry) :
  (∀ name declaredEntry, keyName key = Some name →
     JsMap.get name declared = Some declaredEntry →
     TypedDictEntry.isRequired declaredEntry = true) →
  narrowedFrom store0 declared done valueTypes narrowed →
  narrowedFrom store0 declared (done ++ [key]) valueTypes narrowed.
Proof.
  intros Hkey [Hsound Hcomplete]. split.
  - intros name entry Hget.
    destruct (Hsound name entry Hget) as (Hp & Hr & Hd & j & k & v & Hj & Hrest).
    split; [done|]. split; [done|]. split; [done|].
    exists j, k, v. split; [|done]. by apply lookup_app_l_Some.
  - intros j k name declaredEntry Hj Hname Hdecl Hreq.
    apply lookup_app_Some in Hj as [Hj|[_ Hj]].
    + by apply (Hcomplete j k name declaredEntry).
    + destruct (j - length done) as [|?]; [|done]. simpl in Hj. injection Hj as <-.
      specialize (Hkey name declaredEntry Hname Hdecl). congruence.
Qed.

Lemma narrowInv_step done (key : TypeResultWithNode.t) rest state :
  keyTypes = done ++ key :: rest →
  loopInv done state →
  narrowInv done state →
  narrowInv (done ++ [key])
    (assignKey utils evaluator classType valueTypes symbolMap state (length done) key).
Proof.
  intros Hsplit [Hd Hn Hr Hh Hs Hp Hm Hc Hdiag] Hnarrow.
  assert (∃ value, valueTypes !! length done = Some value) as [value Hvalue].
  { apply lookup_lt_is_Some. rewrite <-Hlen, Hsplit, length_app. simpl. lia. }
  assert (Hname : stringLiteralKey (ConstructState.store state) (TypeResult.type key)
                  = keyName key).
  { rewrite <-(stringLiteralKey_sameDeclarations store0 store1) by done.
    unfold stringLiteralKey, isBuiltIn, detailsOf. by rewrite Hd. }
  unfold assignKey. rewrite Hname.
  destruct (keyName key) as [name|] eqn:Ekey;
    [|simpl; apply narrowInv_keep; [intros ? ? ?; congruence|done]].
  destruct (JsMap.get name symbolMap) as [ref|] eqn:Eget.
  2: { simpl. apply narrowInv_keep; [|done].
       intros n e Hn'. assert (n = name) as -> by congruence.
       unfold entriesOf. by rewrite get_map, Eget. }
  rewrite Hvalue. simpl.
  assert (Hin : In (name, ref) symbolMap) by (by apply get_In).
  assert (Hdecl : JsMap.get name declared = Some (entryHeap store1 ref)).
  { unfold entriesOf. by rewrite get_map, Eget. }
  destruct (Hs name ref Hin) as (_ & -> & _).
  destruct (TypedDictEntry.isRequired (entryHeap store1 ref)) eqn:Ereq; simpl.
  { apply narrowInv_keep; [|done]. intros n e Hn'.
    assert (n = name) as -> by congruence. rewrite Hdecl. by intros [= <-]. }
  destruct Hnarrow as [Hsound Hcomplete]. split.
  - intros n entry Hget. destruct (String.eqb_spec name n) as [<-|Hne].
    + rewrite get_set_eq in Hget. injection Hget as <-. simpl.
      split; [done|]. split; [done|]. split; [by eexists|].
      exists (length done), key, value.
      split; [by rewrite list_lookup_middle|done].
    + rewrite get_set_ne in Hget by done.
      destruct (Hsound n entry Hget) as (Hp' & Hr' & Hd' & j & k & v & Hj & Hrest).
      split; [done|]. split; [done|]. split; [done|].
      exists j, k, v. split; [|done]. by apply lookup_app_l_Some.
  - intros j k n declaredEntry Hj Hn' Hdecl' Hreq'.
    destruct (String.eqb_spec name n) as [<-|Hne]; [rewrite get_set_eq; by eexists|].
    rewrite get_set_ne by done.
    apply lookup_app_Some in Hj as [Hj|[_ Hj]].
    + by apply (Hcomplete j k n declaredEntry).
    + destruct (j - length done) as [|?]; [|done]. simpl in Hj. injection Hj as <-.
      congruence.
Qed.

Lemma narrowInv_assignKeys rest : ∀ done state,
  keyTypes = done ++ rest →
  loopInv done state →
  narrowInv done state →
  narrowInv keyTypes
    (assignKeys utils evaluator classType valueTypes symbolMap rest (length done) state).
Proof.
  induction rest as [|key rest IH]; intros done state Hsplit Hinv Hnarrow; simpl.
  - rewrite app_nil_r in Hsplit. by subst done.
  - replace (S (length done)) with (length (done ++ [key]))
      by (rewrite length_app; simpl; lia).
    apply IH.
    + by rewrite <-app_assoc.
    + by eapply loopInv_step.
    + by eapply narrowInv_step.
Qed.

Lemma narrowInv_final :
  narrowInv keyTypes
    (assignKeys utils evaluator classType valueTypes symbolMap keyTypes 0
       (initialState store1 initial diag0)).
Proof.
  apply (narrowInv_assignKeys keyTypes [] (initialState store1 initial diag0)); [done| |].
  - by apply loopInv_initial.
  - split; [done|]. by intros [|?] ? ? ? ?.
Qed.

End Loop.

(** X20.  What a successful construction narrows.  When some key names a
    declared entry that is not required, the class that the construction
    returns carries narrowed entries, and these are the supplied keys that
    name such entries: each is marked provided and not required, and holds
    the type and the read-only flag of the value supplied for it, not those
    of the declared entry.  Keys that name required entries are not among
    them. *)
Theorem construction_narrows_the_supplied_optional_keys
    (utils : TypeUtils) (evaluator : TypeEvaluator) (classType constructed : ClassType)
    (keyTypes valueTypes : list TypeResultWithNode.t)
    (diagAddendum : option DiagnosticAddendum) (store : Store) :
  cacheOk store →
  length keyTypes = length valueTypes →
  let declared := declaredEntries utils evaluator classType store in
  let result :=
    assignToTypedDict utils evaluator classType keyTypes valueTypes diagAddendum store in
  fst (fst result) = Some constructed →
  (∃ index (key : TypeResultWithNode.t) name entry,
     keyTypes !! index = Some key ∧
     stringLiteralKey store (TypeResult.type key) = Some name ∧
     JsMap.get name declared = Some entry ∧
     TypedDictEntry.isRequired entry = false) →
  ∃ narrowed,
    ClassType.typedDictNarrowedEntries constructed = Some narrowed ∧
    narrowedFrom store declared keyTypes valueTypes narrowed.
Proof.
  intros Hok Hlen declared result. subst declared result.
  unfold assignToTypedDict, declaredEntries.
  set (generic := genericClassTypeOf store classType).
  destruct (getTypedDictMembersForClass_spec utils evaluator generic false store Hok)
    as (lo & Hlo & Hlo' & (Hfresh & Hkeys & Hvalues) & Hcache & Hp & _ & Hnot).
  specialize (Hnot eq_refl).
  destruct (getTypedDictMembersForClass utils evaluator generic false store)
    as [symbolMap store1]. simpl in Hlo', Hfresh, Hkeys, Hvalues, Hcache, Hp, Hnot. simpl.
  set (initial := initialTypeVarContext store classType).
  assert (Hsame : sameDeclarations store store1) by (by destruct Hp as (_&_&_&?)).
  pose proof (narrowInv_final utils evaluator classType store store1 symbolMap keyTypes
                valueTypes initial diagAddendum Hlen Hkeys Hvalues Hnot Hsame) as Hnarrow.
  fold (initialState store1 initial diagAddendum).
  set (state := assignKeys _ _ _ _ _ _ _ _) in *.
  destruct (ConstructState.isMatch state); simpl; [|done].
  destruct (fold_left _ symbolMap _) as [[] final]; simpl; [|done].
  intros [= <-] (index & key & name & entry & Hkey & Hname & Hdecl & Hreq).
  destruct (proj2 Hnarrow index key name entry Hkey Hname Hdecl Hreq) as [e He].
  destruct (ConstructState.narrowedEntries state) as [|kv narrowed] eqn:En; [done|].
  simpl. by eexists.
Qed.

End ConstructionNarrowing.

(** ** Assignability: the flags of a field declared on both sides *)
Module AssignabilityFlags.
Import Types TypedDicts Invariants Views JsMapProofs AssignabilityProofs.

(** X21.  A writable field of the destination must find its like in the
    source.  If the source is assignable, every field that the destination
    declares writable and the source declares too has the same requiredness
    on both sides and is writable in the source as well.  (A read-only
    field of the destination puts no such condition on the source.) *)
Theorem writable_field_needs_the_same_flags
    (utils : TypeUtils) (evaluator : TypeEvaluator) (destType srcType : ClassType)
    (diag : option DiagnosticAddendum) (typeVarContext : option TypeVarContext.t)
    (flags : Z) (recursionCount : nat) (store : Store)
    (name : string) (destEntry srcEntry : TypedDictEntry) :
  let dest := getTypedDictMembersForClass utils evaluator destType false store in
  let src := getTypedDictMembersForClass utils evaluator srcType true (snd dest) in
  let result :=
    assignTypedDictToTypedDict utils evaluator destType srcType diag typeVarContext
      flags recursionCount store in
  AssignState.typesAreConsistent (fst result) = true →
  In (name, destEntry) (entriesOf (snd result) (fst dest)) →
  JsMap.get name (entriesOf (snd result) (fst src)) = Some srcEntry →
  TypedDictEntry.isReadOnly destEntry = false →
  TypedDictEntry.isRequired destEntry = TypedDictEntry.isRequired srcEntry ∧
  TypedDictEntry.isReadOnly srcEntry = false.
Proof.
  intros dest src result. subst result.
  rewrite assignTypedDictToTypedDict_unfold. fold dest src. simpl.
  intros Hresult Hin Hsrc Hwritable.
  unfold entriesOf in Hin. apply in_map_iff in Hin as ([n destRef] & [= -> <-] & Hin).
  simpl in Hwritable.
  unfold entriesOf in Hsrc. rewrite get_map in Hsrc.
  destruct (JsMap.get name (fst src)) as [srcRef|] eqn:Eget; [|done].
  injection Hsrc as <-.
  apply in_split in Hin as (before & after & Hsplit). rewrite Hsplit in Hresult.
  rewrite fold_cut in Hresult. apply fold_consistent in Hresult.
  rewrite fold_snoc in Hresult.
  unfold assignEntry in Hresult. rewrite Eget in Hresult. simpl in Hresult.
  rewrite Hwritable in Hresult. simpl in Hresult.
  rewrite andb_true_r in Hresult.
  destruct (TypedDictEntry.isRequired (entryHeap (snd src) destRef)),
           (TypedDictEntry.isRequired (entryHeap (snd src) srcRef)),
           (TypedDictEntry.isReadOnly (entryHeap (snd src) srcRef)),
           (AssignTypeResult.isAssignable _); simpl in Hresult; done.
Qed.

End AssignabilityFlags.

(** ** The walk of a type of bounded depth *)
Module TypeWalkerReachProofs.
Import TypeWalker TypeWalkerInvariants TypeWalkerReach TypeWalkerProofs.

(** The walker is handed on as it is. *)
Local Ltac unchanged w :=
  exists w; repeat (split; [done|]); first [done|by intros ? ? []|idtac].

Lemma prefix_In (u : TypeId) (l l' : list TypeId) :
  l `prefix_of` l' → In u l → In u l'.
Proof. intros [k ->] Hin. apply in_or_app. by left. Qed.

Section Loops.
Context (graph : TypeGraph) (walk : Walker → TypeId → option Walker) (count : Z).

Lemma walkEach_walked types :
  (∀ t, In t types → ∀ w, undisturbed w → recursionCount w = count →
     ∃ w', walk w t = Some w' ∧ walked graph t w w') →
  ∀ w, undisturbed w → recursionCount w = count →
  ∃ w', walkEach walk types w = Some w' ∧
    undisturbed w' ∧ recursionCount w' = count ∧
    visited w `prefix_of` visited w' ∧
    ∀ t u, In t types → reachable graph t u → In u (visited w').
Proof.
  induction types as [|t types IH]; intros Hwalk w Hw Hcount; simpl.
  - unchanged w.
  - destruct (Hwalk t (or_introl eq_refl) w Hw Hcount)
      as (w1 & -> & Hw1 & Hc1 & Hp1 & Hr1). simpl.
    destruct Hw1 as [Hcancel Hlimit]. rewrite Hcancel.
    destruct (IH (λ t' Hin, Hwalk t' (or_intror Hin)) w1) as (w' & -> & Hw' & Hc' & Hp' & Hr');
      [done|congruence|].
    exists w'. split; [done|]. split; [done|]. split; [done|].
    split; [by etrans|].
    intros t' u [<-|Hin] Hreach.
    + eapply prefix_In; [exact Hp'|by apply Hr1].
    + by apply (Hr' t').
Qed.

Lemma walkParameters_walked parameters :
  (∀ t, In t (map effectiveParameterType (List.filter hasName parameters)) →
     ∀ w, undisturbed w → recursionCount w = count →
     ∃ w', walk w t = Some w' ∧ walked graph t w w') →
  ∀ w, undisturbed w → recursionCount w = count →
  ∃ w', walkParameters walk parameters w = Some w' ∧
    undisturbed w' ∧ recursionCount w' = count ∧
    visited w `prefix_of` visited w' ∧
    ∀ t u, In t (map effectiveParameterType (List.filter hasName parameters)) →
      reachable graph t u → In u (visited w').
Proof.
  induction parameters as [|p parameters IH]; intros Hwalk w Hw Hcount; simpl.
  - unchanged w.
  - simpl in Hwalk. destruct (hasName p); simpl in Hwalk |- *.
    + destruct (Hwalk (effectiveParameterType p) (or_introl eq_refl) w Hw Hcount)
        as (w1 & -> & Hw1 & Hc1 & Hp1 & Hr1). simpl.
      destruct Hw1 as [Hcancel Hlimit]. rewrite Hcancel.
      destruct (IH (λ t' Hin, Hwalk t' (or_intror Hin)) w1)
        as (w' & -> & Hw' & Hc' & Hp' & Hr'); [done|congruence|].
      exists w'. split; [done|]. split; [done|]. split; [done|].
      split; [by etrans|].
      intros t' u [<-|Hin] Hreach.
      * eapply prefix_In; [exact Hp'|by apply Hr1].
      * by apply (Hr' t').
    + by apply IH.
Qed.

End Loops.

Section Walk.
Context (maxTypeRecursionCount : Z) (graph : TypeGraph) (rank : TypeId → nat).
Hypothesis Hrank : ∀ t c, In c (components (graph t)) → rank c < rank t.

Local Abbreviation walk := (walk maxTypeRecursionCount graph (λ _, false)).

Lemma walk_walked fuel : ∀ w t,
  rank t < fuel →
  undisturbed w →
  (recursionCount w + Z.of_nat (rank t) ≤ maxTypeRecursionCount)%Z →
  ∃ w', walk fuel w t = Some w' ∧ walked graph t w w'.
Proof.
  induction fuel as [|fuel IH]; intros w t Hfuel [Hcancel Hlimit] Hdepth; [lia|].
  simpl. rewrite Hcancel.
  assert (Hle : (maxTypeRecursionCount <? recursionCount w)%Z = false)
    by (apply Z.ltb_ge; lia).
  rewrite Hle.
  set (w1 := enter t w).
  assert (Hchildren : ∀ c, In c (components (graph t)) →
    ∀ w2, undisturbed w2 → recursionCount w2 = (recursionCount w + 1)%Z →
    ∃ w', walk fuel w2 c = Some w' ∧ walked graph c w2 w').
  { intros c Hin w2 Hw2 Hc2. specialize (Hrank t c Hin). apply IH; [lia|done|lia]. }
  assert (Halias : ∃ w2,
    match typeAliasInfo (graph t) with
    | Some info => visitTypeAlias (walk fuel) info w1
    | None => Some w1
    end = Some w2 ∧
    undisturbed w2 ∧ recursionCount w2 = (recursionCount w + 1)%Z ∧
    visited w1 `prefix_of` visited w2 ∧
    ∀ c u,
      In c (match typeAliasInfo (graph t) with
            | Some info =>
                match aliasTypeArguments info with
                | Some typeArguments => typeArguments
                | None => []
                end
            | None => []
            end) →
      reachable graph c u → In u (visited w2)).
  { destruct (typeAliasInfo (graph t)) as [info|] eqn:Einfo;
      [|unchanged w1].
    unfold visitTypeAlias.
    destruct (aliasTypeArguments info) as [typeArguments|] eqn:Eargs;
      [|unchanged w1].
    apply (walkEach_walked graph (walk fuel) (recursionCount w + 1)); [|done|done].
    intros c Hin. apply Hchildren. unfold components. rewrite Einfo, Eargs.
    apply in_or_app. by left. }
  destruct Halias as (w2 & -> & Hw2 & Hc2 & Hp2 & Hr2). simpl.
  assert (Hvisit : ∃ w3,
    visit (λ _, false) (walk fuel) t (graph t) w2 = Some w3 ∧
    undisturbed w3 ∧ recursionCount w3 = (recursionCount w + 1)%Z ∧
    visited w2 `prefix_of` visited w3 ∧
    ∀ c u, In c (components {| typeAliasInfo := None; details := details (graph t) |}) →
      reachable graph c u → In u (visited w3)).
  { assert (Hdetails : ∀ c,
      In c (components {| typeAliasInfo := None; details := details (graph t) |}) →
      ∀ w2, undisturbed w2 → recursionCount w2 = (recursionCount w + 1)%Z →
      ∃ w', walk fuel w2 c = Some w' ∧ walked graph c w2 w').
    { intros c Hin. apply Hchildren. unfold components in *. apply in_or_app. by right. }
    unfold visit. unfold components in Hdetails |- *. simpl in Hdetails |- *.
    destruct (details (graph t))
      as [| | | | | |parameters isParamSpecValue declared inferred|overloads
          |isPseudoGeneric tupleArgs typeArgs|subtypes|subtypes];
      try (by unchanged w2);
      try (by apply (walkEach_walked graph (walk fuel) (recursionCount w + 1))).
    - unfold visitFunction.
      destruct (walkParameters_walked graph (walk fuel) (recursionCount w + 1) parameters)
        with (w := w2) as (w3 & -> & Hw3 & Hc3 & Hp3 & Hr3); [|done|done|].
      { intros c Hin. apply Hdetails. apply in_or_app. by left. }
      simpl. destruct Hw3 as [Hcancel3 Hlimit3]. rewrite Hcancel3. simpl.
      destruct isParamSpecValue; simpl.
      { exists w3. rewrite app_nil_r. by repeat (split; [done|]). }
      unfold returnTypes in *.
      destruct (match declared with Some r => Some r | None => inferred end)
        as [returnType|] eqn:Ereturn.
      + assert (Hreturn : returnTypes declared inferred = [returnType]).
        { unfold returnTypes. destruct declared; [by injection Ereturn as ->|].
          by rewrite Ereturn. }
        unfold returnTypes in Hreturn. rewrite Hreturn in Hdetails |- *.
        destruct (Hdetails returnType) with (w2 := w3)
          as (w4 & -> & Hw4 & Hc4 & Hp4 & Hr4); [|done|done|].
        { apply in_or_app. right. by left. }
        exists w4. split; [done|]. split; [done|]. split; [congruence|].
        split; [by etrans|].
        intros c u Hin Hreach. apply in_app_or in Hin as [Hin|[<-|[]]].
        * eapply prefix_In; [exact Hp4|by apply (Hr3 c)].
        * by apply Hr4.
      + assert (Hreturn : returnTypes declared inferred = []).
        { unfold returnTypes. destruct declared; [done|]. by rewrite Ereturn. }
        unfold returnTypes in Hreturn. rewrite Hreturn.
        exists w3. split; [done|]. split; [done|]. split; [done|]. split; [done|].
        intros c u Hin Hreach. rewrite app_nil_r in Hin. by apply (Hr3 c).
    - unfold visitClass. destruct isPseudoGeneric; simpl;
        [by unchanged w2|].
      destruct tupleArgs as [ts|]; [|destruct typeArgs as [ts|]];
        try (by apply (walkEach_walked graph (walk fuel) (recursionCount w + 1))).
      by unchanged w2. }
  destruct Hvisit as (w3 & -> & [Hcancel3 Hlimit3] & Hc3 & Hp3 & Hr3). simpl.
  exists (leave w3). split; [done|]. split; [done|]. split; [simpl; lia|].
  assert (Hp1 : visited w `prefix_of` visited w3).
  { etrans; [|exact Hp3]. etrans; [|exact Hp2]. by exists [t]. }
  split; [done|].
  intros u Hreach. simpl. destruct Hreach as [t|t c u Hin Hreach].
  - eapply prefix_In; [exact Hp3|]. eapply prefix_In; [exact Hp2|].
    simpl. apply in_or_app. right. by left.
  - unfold components in Hin. apply in_app_or in Hin as [Hin|Hin].
    + eapply prefix_In; [exact Hp3|]. by apply (Hr2 c).
    + apply (Hr3 c); [|done]. unfold components. simpl. exact Hin.
Qed.

End Walk.

(** X22.  A walk that starts undisturbed, is never canceled and has room for
    the depth of the type does not hit the recursion limit, and it enters
    every node that can be reached from the type.  The depth is measured by
    a rank that decreases from each node to its components; room means that
    the recursion count plus the rank of the type stays within
    [maxTypeRecursionCount]. *)
Theorem walk_within_the_limit_visits_everything
    (maxTypeRecursionCount : Z) (graph : TypeGraph) (rank : TypeId → nat)
    (this : Walker) (t : TypeId) :
  (∀ t c, In c (components (graph t)) → rank c < rank t) →
  undisturbed this →
  (recursionCount this + Z.of_nat (rank t) ≤ maxTypeRecursionCount)%Z →
  ∃ this',
    walk maxTypeRecursionCount graph (λ _, false)
      (walkFuel maxTypeRecursionCount this) this t = Some this' ∧
    undisturbed this' ∧
    ∀ u, reachable graph t u → In u (visited this').
Proof.
  intros Hrank Hthis Hdepth.
  destruct (walk_walked maxTypeRecursionCount graph rank Hrank (S (rank t)) this t)
    as (this' & Hwalk & Hw & _ & _ & Hreach); [lia|done|done|].
  exists this'. split; [|by split].
  eapply walk_mono; [|exact Hwalk]. unfold walkFuel. lia.
Qed.

End TypeWalkerReachProofs.

(** ** The fields of the functional syntax *)
Module FactoryProofs.
Import Types Factory JsMapProofs.

Lemma NoDup_snoc_fresh (name : string) (names : list string) :
  NoDup names → ¬ In name names → NoDup (names ++ [name]).
Proof.
  intros Hnodup Hfresh. apply NoDup_app. split; [done|].
  split; [|apply NoDup_singleton].
  intros n Hn%list_elem_of_In ->%list_elem_of_singleton. done.
Qed.

Section WithRange.
Context {Range : Type} (convertOffsetsToRange : nat → nat → Range).
Context (fileInfo : FileInfo) (isInline : bool).

Local Abbreviation step := (addDictEntry convertOffsetsToRange fileInfo isInline).
Local Abbreviation symbolOf :=
  (fieldSymbol convertOffsetsToRange fileInfo isInline).

Lemma has_In name entrySet : has name entrySet = true ↔ In name entrySet.
Proof.
  unfold has. rewrite existsb_exists. split.
  - intros (n & Hin & Heq). by apply String.eqb_eq in Heq as ->.
  - intros Hin. exists name. split; [done|apply String.eqb_refl].
Qed.

(** One entry either declares a new name or is reported. *)
Lemma addDictEntry_cases (state : FactoryState Range) entry :
  (∃ name keyExpression valueExpression,
     entry = DictionaryKeyEntry keyExpression valueExpression ∧
     declaredName entry = Some name ∧ ¬ In name (entrySet state) ∧
     step state entry
     = {| classFields :=
            JsMap.set name (symbolOf keyExpression valueExpression) (classFields state);
          entrySet := entrySet state ++ [name];
          reportedDiagnostics := reportedDiagnostics state;
          typeResults := typeResults state |}) ∨
  ((∀ name, declaredName entry = Some name → In name (entrySet state)) ∧
   ∃ diagnostic,
     step state entry
     = {| classFields := classFields state;
          entrySet := entrySet state;
          reportedDiagnostics := reportedDiagnostics state ++ [diagnostic];
          typeResults := typeResults state |}).
Proof.
  destruct entry as [[range strings|range] valueExpression|expression|range];
    try (right; split; [done|by eexists]).
  simpl. destruct (String.eqb (joinStrings strings) "") eqn:Eempty;
    [right; split; [done|by eexists]|].
  destruct (has (joinStrings strings) (entrySet state)) eqn:Ehas.
  - right. split; [|by eexists]. intros name [= <-]. by apply has_In.
  - left. exists (joinStrings strings), (StringList range strings), valueExpression.
    split; [done|]. split; [done|]. split; [|done].
    intros Hin%has_In. congruence.
Qed.

(** What holds of the state after any number of entries. *)
Lemma fold_entries entries : ∀ state : FactoryState Range,
  NoDup (entrySet state) →
  let final := fold_left step entries state in
  ∃ added names,
    reportedDiagnostics final = reportedDiagnostics state ++ added ∧
    entrySet final = entrySet state ++ names ∧
    List.length added + List.length names = List.length entries ∧
    NoDup (entrySet final) ∧
    typeResults final = typeResults state ∧
    (∀ name, In name names ↔
       ¬ In name (entrySet state) ∧
       ∃ entry, In entry entries ∧ declaredName entry = Some name) ∧
    (∀ name, In name (entrySet state) ∨ ¬ In name names →
       JsMap.get name (classFields final) = JsMap.get name (classFields state)).
Proof.
  induction entries as [|entry entries IH]; intros state Hnodup; simpl.
  - exists [], []. rewrite !app_nil_r. repeat split; try done.
    by intros [_ (? & [] & _)].
  - destruct (addDictEntry_cases state entry)
      as [(name & key & value & -> & Hname & Hfresh & Hstep)|(Hseen & diagnostic & Hstep)].
    + destruct (IH (step state (DictionaryKeyEntry key value)))
        as (added & names & Hr & He & Hl & Hn & Ht & Hnames & Hfields).
      { rewrite Hstep. simpl. by apply NoDup_snoc_fresh. }
      rewrite Hstep in Hr, He, Hn, Ht, Hnames, Hfields |- *.
      simpl in Hr, He, Ht, Hnames, Hfields.
      exists added, (name :: names).
      split; [done|]. split; [by rewrite He, <- app_assoc|].
      split; [simpl; lia|]. split; [done|]. split; [done|]. split.
      * intros n. simpl. rewrite Hnames. split.
        -- intros [<-|[Hnot (e & Hin & Hd)]].
           ++ split; [done|]. exists (DictionaryKeyEntry key value). by split; [left|].
           ++ split; [intros Hin'; apply Hnot, in_or_app; by left|].
              exists e. by split; [right|].
        -- intros [Hnot (e & [<-|Hin] & Hd)].
           ++ left. congruence.
           ++ destruct (String.eqb_spec name n) as [->|Hne]; [by left|]. right.
              split; [|by exists e].
              intros [Hin'|[->|[]]]%in_app_or; done.
      * intros n Hn'. rewrite Hfields.
        -- apply get_set_ne. intros ->. destruct Hn' as [Hin|Hnot]; [done|].
           apply Hnot. by left.
        -- destruct Hn' as [Hin|Hnot].
           ++ left. apply in_or_app. by left.
           ++ destruct (String.eqb_spec name n) as [->|Hne].
              ** destruct Hnot. by left.
              ** right. intros Hin. apply Hnot. by right.
    + destruct (IH (step state entry))
        as (added & names & Hr & He & Hl & Hn & Ht & Hnames & Hfields).
      { by rewrite Hstep. }
      rewrite Hstep in Hr, He, Hn, Ht, Hnames, Hfields |- *.
      simpl in Hr, He, Ht, Hnames, Hfields.
      exists (diagnostic :: added), names.
      split; [by rewrite Hr, <- app_assoc|]. split; [done|].
      split; [simpl; lia|]. split; [done|]. split; [done|]. split; [|done].
      intros n. rewrite Hnames. split.
      * intros [Hnot (e & Hin & Hd)]. split; [done|]. exists e. by split; [right|].
      * intros [Hnot (e & [<-|Hin] & Hd)]; [by specialize (Hseen n Hd)|].
        split; [done|by exists e].
Qed.

End WithRange.

(** X23.  Every entry of the dictionary either declares a field or is
    reported once.  The diagnostics reported before stay in place, and the
    number of diagnostics added plus the number of names declared is the
    number of entries; the names declared are those of the [key: value]
    entries whose key is a string that is not empty, each once; symbols
    under other names are left as they were, and the dictionary node gets
    the type [Unknown]. *)
Theorem every_entry_is_a_field_or_a_report
    {Range : Type} (convertOffsetsToRange : nat → nat → Range)
    (fileInfo : FileInfo) (entryDict : DictionaryNode) (isInline : bool)
    (classFields : JsMap.t (FieldSymbol Range))
    (reportedDiagnostics : list FactoryDiagnostic)
    (typeResults : list (DictionaryNode * Type_)) :
  let final :=
    getTypedDictFieldsFromDictSyntax convertOffsetsToRange fileInfo entryDict isInline
      classFields reportedDiagnostics typeResults in
  ∃ added,
    Factory.reportedDiagnostics final = reportedDiagnostics ++ added ∧
    List.length added + List.length (entrySet final) = List.length (entries entryDict) ∧
    NoDup (entrySet final) ∧
    (∀ name, In name (entrySet final) ↔
       ∃ entry, In entry (entries entryDict) ∧ declaredName entry = Some name) ∧
    (∀ name, ¬ In name (entrySet final) →
       JsMap.get name (Factory.classFields final) = JsMap.get name classFields) ∧
    Factory.typeResults final = typeResults ++ [(entryDict, Unknown)].
Proof.
  intros final. subst final. unfold getTypedDictFieldsFromDictSyntax. simpl.
  destruct (fold_entries convertOffsetsToRange fileInfo isInline (entries entryDict)
              {| Factory.classFields := classFields; entrySet := [];
                 Factory.reportedDiagnostics := reportedDiagnostics;
                 Factory.typeResults := typeResults |})
    as (added & names & Hr & He & Hl & Hn & Ht & Hnames & Hfields);
    [apply NoDup_nil_2|].
  simpl in *. exists added. rewrite He. rewrite He in Hn.
  split; [done|]. split; [done|]. split; [done|]. split.
  - intros name. rewrite Hnames. split; [by intros [_ ?]|]. intros ?. split; [tauto|done].
  - split; [|by rewrite Ht]. intros name Hnot. apply Hfields. by right.
Qed.

(** X24.  The first entry of a name decides its field.  For a [key: value]
    entry whose key is a string that is not empty and that no entry before
    it spells, the symbol table ends up with the symbol made from that
    entry under the name: one variable declaration whose annotation is the
    entry's value expression.  Later entries of the same name do not change
    it. *)
Theorem first_entry_of_a_name_decides_the_field
    {Range : Type} (convertOffsetsToRange : nat → nat → Range)
    (fileInfo : FileInfo) (entryDict : DictionaryNode) (isInline : bool)
    (classFields : JsMap.t (FieldSymbol Range))
    (reportedDiagnostics : list FactoryDiagnostic)
    (typeResults : list (DictionaryNode * Type_))
    (index : nat) (keyExpression valueExpression : ExpressionNode) (name : string) :
  entries entryDict !! index = Some (DictionaryKeyEntry keyExpression valueExpression) →
  declaredName (DictionaryKeyEntry keyExpression valueExpression) = Some name →
  (∀ earlier entry, earlier < index → entries entryDict !! earlier = Some entry →
     declaredName entry ≠ Some name) →
  JsMap.get name
    (Factory.classFields
       (getTypedDictFieldsFromDictSyntax convertOffsetsToRange fileInfo entryDict isInline
          classFields reportedDiagnostics typeResults))
  = Some (fieldSymbol convertOffsetsToRange fileInfo isInline keyExpression
            valueExpression).
Proof.
  intros Hentry Hname Hfirst. unfold getTypedDictFieldsFromDictSyntax. simpl.
  apply list_elem_of_split_length in Hentry as (before & after & Hsplit & Hindex).
  rewrite Hsplit, fold_left_app.
  match goal with |- context [fold_left ?f (?x :: ?l) ?a] =>
    change (fold_left f (x :: l) a) with (fold_left f l (f a x))
  end.
  set (initial := {| Factory.classFields := classFields; entrySet := [];
                     Factory.reportedDiagnostics := reportedDiagnostics;
                     Factory.typeResults := typeResults |}).
  destruct (fold_entries convertOffsetsToRange fileInfo isInline before initial)
    as (added & names & _ & He & _ & Hn & _ & Hnames & _); [apply NoDup_nil_2|].
  simpl in He.
  set (state := fold_left _ before initial) in *.
  assert (Hfresh : ¬ In name (entrySet state)).
  { rewrite He. intros Hin. apply Hnames in Hin as [_ (entry & Hin & Hd)].
    apply list_elem_of_In, list_elem_of_lookup in Hin as [earlier Hearlier].
    apply (Hfirst earlier entry); [|by rewrite Hsplit; apply lookup_app_l_Some|done].
    apply lookup_lt_Some in Hearlier. lia. }
  destruct (addDictEntry_cases convertOffsetsToRange fileInfo isInline state
              (DictionaryKeyEntry keyExpression valueExpression))
    as [(n & key & value & [= <- <-] & Hn' & _ & Hstep)|(Hseen & _)];
    [|by destruct (Hfresh (Hseen name Hname))].
  assert (n = name) as -> by congruence.
  rewrite Hstep.
  match goal with |- context [fold_left _ after ?s] =>
    destruct (fold_entries convertOffsetsToRange fileInfo isInline after s)
      as (added' & names' & _ & _ & _ & _ & _ & _ & Hfields)
  end.
  { simpl. by apply NoDup_snoc_fresh. }
  rewrite Hfields; simpl; [apply get_set_eq|].
  left. apply in_or_app. right. by left.
Qed.

End FactoryProofs.

(** ** The further properties on the example program *)
Module MoreScenarios.
Import Types TypedDicts Invariants Views Example MoreExamples Scenarios.

(** *** The sink *)

Section Sink.
Import DiagnosticSink DiagnosticSinkOps.

(** After one diagnostic the map holds it under its key. *)
Lemma map_entry_of_one_diagnostic :
  diagnosticKey hashString31 diagnosticA = diagnosticKey hashString31 diagnosticA ∧
  diagnosticA ∈ diagnosticList (calls hashString31 (new None) [AddDiagnostic diagnosticA]).
Proof.
  refine (DiagnosticSinkOpsProofs.map_entries_are_in_the_list hashString31 None
            [AddDiagnostic diagnosticA] (diagnosticKey hashString31 diagnosticA)
            diagnosticA _).
  vm_compute. reflexivity.
Defined.

(** Three calls of [addDiagnostic], the last with a diagnostic seen before. *)
Lemma keys_after_three_calls :
  let s :=
    calls hashString31 (new None)
      [AddDiagnostic diagnosticA; AddDiagnostic diagnosticB; AddDiagnostic diagnosticA] in
  NoDup (map (diagnosticKey hashString31) (diagnosticList s)) ∧
  ∀ k d, diagnosticMap s !! k = Some d ↔
         d ∈ diagnosticList s ∧ diagnosticKey hashString31 d = k.
Proof.
  refine (DiagnosticSinkOpsProofs.list_holds_each_key_once hashString31
            [AddDiagnostic diagnosticA; AddDiagnostic diagnosticB; AddDiagnostic diagnosticA]
            _).
  reflexivity.
Defined.

(** A diagnostic added in bulk is added again by [addDiagnostic]. *)
Lemma bulk_then_single :
  diagnosticList
    (snd (addDiagnostic hashString31
            (addDiagnostics (new None) [diagnosticA; diagnosticB]) diagnosticA))
  = [diagnosticA; diagnosticB; diagnosticA].
Proof.
  refine (proj2 (DiagnosticSinkOpsProofs.bulk_additions_bypass_the_map hashString31
                   (new None) [diagnosticB] diagnosticA _)).
  vm_compute. reflexivity.
Defined.

End Sink.

(** *** Entries *)

Lemma entries_of_point_twice :
  memberEntries utils evaluator point true
    (snd (getTypedDictMembersForClass utils evaluator point false store))
  = memberEntries utils evaluator point true store.
Proof.
  exact (MemberProofs.entries_are_the_same_on_every_call utils evaluator point false true
           store store_cacheOk).
Defined.

(** [y] is read-only in [Point]: in the partial view it has the type
    [Never]. *)
Lemma partial_view_of_y :
  TypedDictEntry.isRequired (entryOf Never false true false) = false ∧
  TypedDictEntry.isReadOnly (entryOf Never false true false) = true ∧
  ∃ cached, In ("y", cached) (cachedEntries utils evaluator partialPoint store) ∧
    (TypedDictEntry.isReadOnly cached = true →
     TypedDictEntry.valueType (entryOf Never false true false) = Never) ∧
    (TypedDictEntry.isReadOnly cached = false →
     TypedDictEntry.valueType (entryOf Never false true false)
     = applySolvedTypeVars utils (TypedDictEntry.valueType cached)
         (memberContext utils evaluator partialPoint store)).
Proof.
  refine (MemberProofs.partial_view_is_optional_and_read_only utils evaluator partialPoint
            store "y" (entryOf Never false true false) store_cacheOk eq_refl _).
  vm_compute. reflexivity.
Defined.

(** [label] is not required in [Point]: after an assignment to it, it reads
    as provided. *)
Lemma label_reads_as_provided :
  let narrowedType := narrowForKeyAssignment cachedStore point "label" in
  (∃ entry,
     JsMap.get "label" (memberEntries utils evaluator narrowedType true cachedStore)
       = Some entry ∧
     TypedDictEntry.isProvided entry = true) ∧
  (∃ entry,
     JsMap.get "label" (memberEntries utils evaluator narrowedType false cachedStore)
       = Some entry ∧
     TypedDictEntry.isProvided entry = false).
Proof.
  refine (MemberProofs.narrowed_key_reads_as_provided utils evaluator point cachedStore
            "label" pointTable 2 cachedStore_cacheOk _ _ _ _ _);
    try (vm_compute; reflexivity).
  intros narrowed Hnarrowed. discriminate Hnarrowed.
Defined.

(** *** Subscripts *)

Lemma one_item label : singleItem (indexOf [indexItem label]) (indexItem label).
Proof. by repeat split. Qed.

(** An addendum whose only content is a child without messages counts as
    empty. *)
Example child_without_message_is_empty :
  isEmpty utils (Addendum.addAddendum Addendum.new Addendum.new) = true ∧
  isEmpty utils
    (Addendum.addAddendum (Addendum.addMessage (otherAddendum "m") Addendum.new)
       Addendum.new) = false.
Proof. by split. Qed.

Lemma utils_isEmpty : emptyWithoutMessages (isEmpty utils).
Proof.
  split.
  - intros [[|text texts] r children] Htexts; [done|reflexivity].
  - intros [texts r children] Htexts Hchildren. simpl in *. by subst.
Qed.

(** Reading [d["label"]] of a [Point]: the key is not required, and the
    read is reported under the rule for such keys. *)
Lemma reading_label_of_point :
  option_map TypeResult.type
    (fst (getTypeOfIndexedTypedDict utils evaluator labelSubscript point read store))
  = Some (instanceOf strId) ∧
  reported (snd (getTypeOfIndexedTypedDict utils evaluator labelSubscript point read store))
  = [subscriptReport reportTypedDictNotRequiredAccess typedDictAccess
       (addendumOf [keyNotRequired "label" "Point"]) labelSubscript].
Proof.
  assert (H := SubscriptProofs.reading_a_key utils evaluator labelSubscript (indexItem 201)
                 point read store "label" (one_item 201) utils_isEmpty eq_refl
                 eq_refl).
  vm_compute in H. vm_compute. exact H.
Defined.

(** Deleting [d["x"]] of a [Point]: the key is required. *)
Lemma deleting_x_of_point :
  reported (snd (getTypeOfIndexedTypedDict utils evaluator oneItem point delete store))
  = [subscriptReport reportGeneralTypeIssues typedDictDelete
       (addendumOf [keyRequiredDeleted "x"]) oneItem].
Proof.
  assert (H := SubscriptProofs.deleting_a_key utils evaluator oneItem (indexItem 200)
                 point delete store "x" (one_item 200) utils_isEmpty eq_refl
                 eq_refl).
  vm_compute in H. vm_compute. exact (proj2 H).
Defined.

(** Assigning a [str] to [d["x"]] of a [Point], whose [x] is an [int]. *)
Lemma assigning_str_to_x_of_point :
  reported
    (snd (getTypeOfIndexedTypedDict utils evaluator oneItem point
            (assign (instanceOf strId)) store))
  = [subscriptReport reportGeneralTypeIssues typedDictSet
       (addendumOf [otherAddendum "type mismatch"]) oneItem].
Proof.
  assert (H := SubscriptProofs.assigning_a_key utils evaluator oneItem (indexItem 200)
                 point (assign (instanceOf strId)) store "x" (one_item 200)
                 utils_isEmpty eq_refl eq_refl).
  vm_compute in H. vm_compute. exact (proj2 H).
Defined.

(** [d[k]] for a [k] that is a plain [str]: unknown, and not reported. *)
Lemma plain_str_index :
  option_map TypeResult.type
    (fst (getTypeOfIndexedTypedDict utils evaluator plainSubscript point read store))
  = Some Unknown ∧
  reported (snd (getTypeOfIndexedTypedDict utils evaluator plainSubscript point read store))
  = [].
Proof.
  assert (H := SubscriptProofs.index_that_is_no_literal utils evaluator plainSubscript
                 (indexItem 203) point read store (one_item 203) utils_isEmpty
                 (λ subtypes Heq, eq_ind (instanceOf strId)
                    (λ t, match t with Union _ => False | _ => True end) I _ Heq)
                 eq_refl).
  vm_compute in H. vm_compute. exact H.
Defined.

(** Reading [d["label"]] after [d["label"] = ...] is not reported. *)
Lemma reading_label_after_assignment :
  reported
    (snd (getTypeOfIndexedTypedDict utils evaluator labelSubscript
            (narrowForKeyAssignment cachedStore point "label") read cachedStore))
  = reported cachedStore.
Proof.
  refine (proj2 (SubscriptProofs.read_after_narrowing_is_quiet utils evaluator
                   labelSubscript (indexItem 201) point read cachedStore "label"
                   pointTable 2 cachedStore_cacheOk _ _ _ _ _ (one_item 201)
                   eq_refl eq_refl _));
    try (vm_compute; reflexivity).
  intros narrowed Hnarrowed. discriminate Hnarrowed.
Defined.

(** Reading [d[k]] for a [k] that is one of ["x"], ["label"] and ["z"]:
    one diagnostic says that [label] is not required and [z] is undefined. *)
Lemma reading_with_a_union_of_keys :
  option_map TypeResult.type
    (fst (getTypeOfIndexedTypedDict utils unionEvaluator unionSubscript point read store))
  = Some (Union [instanceOf intId; instanceOf strId; Unknown]) ∧
  reported
    (snd (getTypeOfIndexedTypedDict utils unionEvaluator unionSubscript point read store))
  = [subscriptReport reportGeneralTypeIssues typedDictAccess
       (addendumOf [keyNotRequired "label" "Point"; keyUndefined "z" "Point"])
       unionSubscript].
Proof.
  assert (H := SubscriptProofs.union_index_adds_up_the_member_checks utils unionEvaluator
                 unionSubscript (indexItem 204) point read store
                 [strLiteral "x"; strLiteral "label"; strLiteral "z"] (one_item 204)
                 utils_isEmpty eq_refl eq_refl).
  vm_compute in H. vm_compute. exact H.
Defined.

(** *** Synthesized methods *)

(** [ReadOnlyView] has the one field [v: ReadOnly[int]]. *)
Lemma read_only_view_gets_no_mutators :
  JsMap.get "__delitem__"
    (ClassDetails.fields
       (detailsOf (synthesizeTypedDictClassMethods utils evaluator 0 readOnlyClass true
                     store) readOnlyClass))
  = JsMap.get "__delitem__" (ClassDetails.fields (detailsOf store readOnlyClass)).
Proof.
  refine (proj1 (SynthesisEffects.read_only_class_gets_no_mutators utils evaluator 0
                   readOnlyClass true store _) "__delitem__" _).
  - intros name entry Hin. vm_compute in Hin. by destruct Hin as [[= <- <-]|[]].
  - simpl. tauto.
Defined.

(** [Mixed] has the writable [a] and the read-only [b], neither required:
    [pop] is offered for [a] alone. *)
Lemma mixed_pops_a_only :
  JsMap.get "pop"
    (ClassDetails.fields
       (detailsOf (synthesizeTypedDictClassMethods utils evaluator 0 mixed true store)
          mixed))
  = Some (Symbol.createWithType classMember
            (OverloadedFunction
               (createPopMethods utils 0 mixed
                  (Class (cloneAsInstance
                            (cloneWithLiteral (classOf strId false) (LiteralString "a"))))
                  (instanceOf intId) false))).
Proof.
  refine (eq_trans
            (proj1 (SynthesisEffects.pop_and_setdefault_follow_the_entries utils evaluator
                      0 mixed (classOf strId false) true store eq_refl eq_refl)) _).
  vm_compute. reflexivity.
Defined.

(** *** Entry resolution *)

(** [Override] declares [x: NotRequired[str]] over the [x: int] of [Point]. *)
Lemma override_decides_x :
  JsMap.get "x" (cachedEntries utils evaluator override overridingStore)
  = Some (entryOf (instanceOf strId) false false false).
Proof.
  refine (eq_trans
            (OwnEntries.own_field_decides_the_entry utils evaluator override
               overridingStore "x" (snd (field "x" 102)) eq_refl _ _ eq_refl) _).
  - vm_compute. apply NoDup_singleton.
  - vm_compute. by left.
  - vm_compute. reflexivity.
Defined.

(** [NonTotal] has [Point] as its base, and [y] from it. *)
Lemma non_total_inherits_y :
  is_Some (JsMap.get "y" (cachedEntries utils evaluator nonTotal store)).
Proof.
  refine (OwnEntries.fields_of_a_base_are_inherited utils evaluator nonTotal
            (classOf pointId false) (classOf pointId false) store "y"
            (snd (field "y" 101)) eq_refl _ _ eq_refl eq_refl _ _ eq_refl).
  - vm_compute. lia.
  - vm_compute. by left.
  - vm_compute. compute_done.
  - vm_compute. right. by left.
Defined.

(** *** Construction *)

(** [{"label": "a"}] lacks the required [x] and [y] of a [Point]. *)
Lemma label_alone_misses_x_and_y :
  option_map messages
    (snd (fst (assignToTypedDict utils evaluator point labelKeys labelValues
                 (Some Addendum.new) store)))
  = Some [typedDictFieldRequired "x" "Point"; typedDictFieldRequired "y" "Point"].
Proof.
  destruct (ConstructionMessages.missing_required_keys_are_listed utils evaluator point
              labelKeys labelValues Addendum.new store store_cacheOk eq_refl)
    as (diag' & Hdiag & Hall & _).
  rewrite Hdiag. simpl. f_equal. rewrite Hall; [vm_compute; reflexivity|].
  intros [|index] key Hkey; [|done]. injection Hkey as <-.
  exists "label", (entryOf (instanceOf strId) false false false),
    (typed (instanceOf strId) 2).
  vm_compute. by repeat split.
Defined.

(** [{"x": 1, "y": 2, "label": "a"}] supplies the optional [label]. *)
Lemma full_display_narrows_label :
  ∃ narrowed,
    ClassType.typedDictNarrowedEntries
      (cloneForNarrowedTypedDictEntries point
         [("label", entryOf (instanceOf strId) false false true)])
    = Some narrowed ∧
    narrowedFrom store (declaredEntries utils evaluator point store) fullKeys fullValues
      narrowed.
Proof.
  refine (ConstructionNarrowing.construction_narrows_the_supplied_optional_keys utils
            evaluator point
            (cloneForNarrowedTypedDictEntries point
               [("label", entryOf (instanceOf strId) false false true)])
            fullKeys fullValues None store store_cacheOk eq_refl _ _).
  - vm_compute. reflexivity.
  - exists 2, (typed (strLiteral "label") 5), "label",
      (entryOf (instanceOf strId) false false false).
    vm_compute. by repeat split.
Defined.

(** *** Assignability *)

(** [Writable] is assignable to itself, and its [v] is required and
    writable on both sides. *)
Lemma writable_to_writable :
  TypedDictEntry.isRequired (entryOf (instanceOf intId) true false false)
  = TypedDictEntry.isRequired (entryOf (instanceOf intId) true false false) ∧
  TypedDictEntry.isReadOnly (entryOf (instanceOf intId) true false false) = false.
Proof.
  refine (AssignabilityFlags.writable_field_needs_the_same_flags utils evaluator writable
            writable None None 0 0 store "v"
            (entryOf (instanceOf intId) true false false)
            (entryOf (instanceOf intId) true false false) _ _ _ eq_refl).
  - vm_compute. reflexivity.
  - vm_compute. by left.
  - vm_compute. reflexivity.
Defined.

(** *** The walker *)

Section Walker.
Import TypeWalker TypeWalkerReach.

(** The chain [2 → 1 → 0] is walked to its end within a limit of two. *)
Lemma chain_is_walked :
  ∃ this',
    walk 2 chain (λ _, false) (walkFuel 2 new) new 2 = Some this' ∧
    undisturbed this' ∧
    ∀ u, reachable chain 2 u → In u (visited this').
Proof.
  refine (TypeWalkerReachProofs.walk_within_the_limit_visits_everything 2 chain (λ t, t)
            new 2 _ _ _).
  - intros [|[|[|t]]] c; simpl; intros Hin;
      repeat (destruct Hin as [<-|Hin]; [lia|]); done.
  - by split.
  - vm_compute. discriminate.
Defined.

End Walker.

(** *** The functional syntax *)

(** The first [x] of [{'x': int, 'x': str, **more}] decides the field. *)
Lemma first_x_decides :
  JsMap.get "x"
    (Factory.classFields
       (Factory.getTypedDictFieldsFromDictSyntax pair thisFile functionalDict false
          [] [] []))
  = Some (Factory.fieldSymbol pair thisFile false keyX annotationInt).
Proof.
  refine (FactoryProofs.first_entry_of_a_name_decides_the_field pair thisFile
            functionalDict false [] [] [] 0 keyX annotationInt "x" eq_refl eq_refl _).
  intros earlier entry Hlt. lia.
Defined.

Example functional_dict_reports :
  map Factory.message
    (Factory.reportedDiagnostics
       (Factory.getTypedDictFieldsFromDictSyntax pair thisFile functionalDict false
          [] [] []))
  = [Factory.typedDictEntryUnique; Factory.typedDictSecondArgDictEntry].
Proof. vm_compute. reflexivity. Qed.

End MoreScenarios.

